(** * uACPI AML interpreter: a shallow embedding of [source/interpreter.c]

    The development follows the C file: machine integers are [Z] with the
    wrap-around written out, AML byte streams and buffers are [list Z] of
    bytes, objects are a tagged variant, fallible routines return a
    [uacpi_status] next to their outputs, and a routine that can run into
    behaviour the C standard leaves undefined returns an [outcome].

    Handlers are modelled on the operands their first statements fetch from
    the item array of the current op-context; the comment of each handler
    names the item every argument comes from. *)

From Stdlib Require Import String.
From Stdlib Require Import ZArith List Lia Bool Btauto.
From coqutil Require Import Z.bitblast.
Import ListNotations.
Local Open Scope Z_scope.

(** ** Machine integers and bytes *)

Definition wrap8 (x : Z) : Z := x mod 2 ^ 8.
Definition wrap16 (x : Z) : Z := x mod 2 ^ 16.
Definition wrap32 (x : Z) : Z := x mod 2 ^ 32.
Definition wrap64 (x : Z) : Z := x mod 2 ^ 64.

Definition is_byte (b : Z) : Prop := 0 <= b < 256.
Definition bytes_ok (l : list Z) : Prop := Forall is_byte l.

Definition len {A : Type} (l : list A) : Z := Z.of_nat (length l).

(** [*(p + i)] on a byte array whose accesses the caller has bounded. *)
Definition byte_at (l : list Z) (i : Z) : Z := nth (Z.to_nat i) l 0.

(** The value a little-endian host reads back from a byte array. *)
Fixpoint le_combine (l : list Z) : Z :=
  match l with
  | [] => 0
  | b :: t => Z.lor b (Z.shiftl (le_combine t) 8)
  end.

(** The [n] bytes a little-endian host stores for the integer [v]. *)
Fixpoint le_split (n : nat) (v : Z) : list Z :=
  match n with
  | O => []
  | S n' => (v mod 256) :: le_split n' (Z.shiftr v 8)
  end.

(** [base[off .. off + n)] *)
Definition slice (l : list Z) (off n : Z) : list Z :=
  firstn (Z.to_nat n) (skipn (Z.to_nat off) l).

(** [base[off .. off + length new)] replaced by [new]. *)
Definition splice (l : list Z) (off : Z) (new : list Z) : list Z :=
  firstn (Z.to_nat off) l ++ new ++ skipn (Z.to_nat off + length new) l.

(** Bit [i] of a byte array, bit 0 being the least significant bit of the
    first byte. *)
Definition bit_at (l : list Z) (i : Z) : bool :=
  Z.testbit (byte_at l (i / 8)) (i mod 8).

(** ** Results of C routines *)

(** A C routine either returns or executes an operation whose behaviour
    the C standard leaves undefined (division by zero, an access outside
    an array). *)
Inductive outcome (A : Type) : Type :=
| Returns (a : A)
| UndefinedBehaviour.
Arguments Returns {A} a.
Arguments UndefinedBehaviour {A}.

Definition bind {A B : Type} (m : outcome A) (k : A -> outcome B) : outcome B :=
  match m with
  | Returns a => k a
  | UndefinedBehaviour => UndefinedBehaviour
  end.

Notation "x <- m ;; k" := (bind m (fun x => k))
  (at level 61, m at next level, right associativity).

Definition guard (b : bool) : outcome unit :=
  if b then Returns tt else UndefinedBehaviour.

(** [p[i]] with the bound checked. *)
Definition load (l : list Z) (i : Z) : outcome Z :=
  if (0 <=? i) && (i <? len l) then Returns (byte_at l i)
  else UndefinedBehaviour.

(** [p[i] = (uacpi_u8)v] with the bound checked. *)
Definition store (l : list Z) (i : Z) (v : Z) : outcome (list Z) :=
  if (0 <=? i) && (i <? len l) then Returns (splice l i [wrap8 v])
  else UndefinedBehaviour.

(** ** Status codes *)

Inductive uacpi_status : Type :=
| UACPI_STATUS_OK
| UACPI_STATUS_OUT_OF_MEMORY
| UACPI_STATUS_OUT_OF_BOUNDS
| UACPI_STATUS_BAD_BYTECODE
| UACPI_STATUS_NOT_FOUND
| UACPI_STATUS_ALREADY_EXISTS
| UACPI_STATUS_INVALID_ARGUMENT
| UACPI_STATUS_UNIMPLEMENTED.

Definition uacpi_unlikely_error (st : uacpi_status) : bool :=
  match st with UACPI_STATUS_OK => false | _ => true end.

(** ** Diagnostics *)

Inductive uacpi_log_level : Type :=
| UACPI_LOG_TRACE | UACPI_LOG_INFO | UACPI_LOG_WARN | UACPI_LOG_ERROR.

(** What [uacpi_kernel_log] has been handed, oldest first: the level and
    the format string without its trailing newline. *)
Definition kernel_log : Type := list (uacpi_log_level * string).

(** ** Objects *)

Inductive uacpi_object_type : Type :=
| UACPI_OBJECT_UNINITIALIZED
| UACPI_OBJECT_INTEGER
| UACPI_OBJECT_STRING
| UACPI_OBJECT_BUFFER
| UACPI_OBJECT_PACKAGE
| UACPI_OBJECT_REFERENCE
| UACPI_OBJECT_BUFFER_FIELD
| UACPI_OBJECT_BUFFER_INDEX
| UACPI_OBJECT_OPERATION_REGION
| UACPI_OBJECT_METHOD
| UACPI_OBJECT_MUTEX
| UACPI_OBJECT_PROCESSOR
| UACPI_OBJECT_POWER_RESOURCE
| UACPI_OBJECT_THERMAL_ZONE
| UACPI_OBJECT_DEVICE
| UACPI_OBJECT_DEBUG.

Definition object_type_eqb (a b : uacpi_object_type) : bool :=
  match a, b with
  | UACPI_OBJECT_UNINITIALIZED, UACPI_OBJECT_UNINITIALIZED
  | UACPI_OBJECT_INTEGER, UACPI_OBJECT_INTEGER
  | UACPI_OBJECT_STRING, UACPI_OBJECT_STRING
  | UACPI_OBJECT_BUFFER, UACPI_OBJECT_BUFFER
  | UACPI_OBJECT_PACKAGE, UACPI_OBJECT_PACKAGE
  | UACPI_OBJECT_REFERENCE, UACPI_OBJECT_REFERENCE
  | UACPI_OBJECT_BUFFER_FIELD, UACPI_OBJECT_BUFFER_FIELD
  | UACPI_OBJECT_BUFFER_INDEX, UACPI_OBJECT_BUFFER_INDEX
  | UACPI_OBJECT_OPERATION_REGION, UACPI_OBJECT_OPERATION_REGION
  | UACPI_OBJECT_METHOD, UACPI_OBJECT_METHOD
  | UACPI_OBJECT_MUTEX, UACPI_OBJECT_MUTEX
  | UACPI_OBJECT_PROCESSOR, UACPI_OBJECT_PROCESSOR
  | UACPI_OBJECT_POWER_RESOURCE, UACPI_OBJECT_POWER_RESOURCE
  | UACPI_OBJECT_THERMAL_ZONE, UACPI_OBJECT_THERMAL_ZONE
  | UACPI_OBJECT_DEVICE, UACPI_OBJECT_DEVICE
  | UACPI_OBJECT_DEBUG, UACPI_OBJECT_DEBUG => true
  | _, _ => false
  end.

Inductive uacpi_reference_kind : Type :=
| UACPI_REFERENCE_KIND_REFOF
| UACPI_REFERENCE_KIND_LOCAL
| UACPI_REFERENCE_KIND_ARG
| UACPI_REFERENCE_KIND_NAMED
| UACPI_REFERENCE_KIND_PKG_INDEX.

Record uacpi_buffer_field : Type := mk_field {
  backing : list Z;
  bit_index : Z;
  bit_length : Z;
  force_buffer : bool
}.

Record uacpi_buffer_index : Type := mk_buffer_index {
  idx : Z;
  buffer : list Z
}.

#[local] Set Warnings "-register-all".

(** The tagged variant of the object model. A pointer to an object is the
    object it points to: [Reference kind inner] carries its
    [inner_object], a buffer field its backing bytes. A routine that
    mutates an object through a pointer returns the object as it is
    afterwards. *)
Inductive uacpi_object : Type :=
| Uninitialized
| Integer (integer : Z)
| String (text : list Z)
| Buffer (data : list Z)
| Package (objects : list uacpi_object)
| Reference (flags : uacpi_reference_kind) (inner_object : uacpi_object)
| BufferField (buffer_field : uacpi_buffer_field)
| BufferIndex (buffer_index : uacpi_buffer_index)
| OperationRegion (space offset length : Z)
| Method (args : Z)
| Mutex (sync_level : Z)
| Processor (id block_address block_length : Z)
| PowerResource (system_level resource_order : Z)
| ThermalZone
| Device
| Debug.

Definition type_of (obj : uacpi_object) : uacpi_object_type :=
  match obj with
  | Uninitialized => UACPI_OBJECT_UNINITIALIZED
  | Integer _ => UACPI_OBJECT_INTEGER
  | String _ => UACPI_OBJECT_STRING
  | Buffer _ => UACPI_OBJECT_BUFFER
  | Package _ => UACPI_OBJECT_PACKAGE
  | Reference _ _ => UACPI_OBJECT_REFERENCE
  | BufferField _ => UACPI_OBJECT_BUFFER_FIELD
  | BufferIndex _ => UACPI_OBJECT_BUFFER_INDEX
  | OperationRegion _ _ _ => UACPI_OBJECT_OPERATION_REGION
  | Method _ => UACPI_OBJECT_METHOD
  | Mutex _ => UACPI_OBJECT_MUTEX
  | Processor _ _ _ => UACPI_OBJECT_PROCESSOR
  | PowerResource _ _ => UACPI_OBJECT_POWER_RESOURCE
  | ThermalZone => UACPI_OBJECT_THERMAL_ZONE
  | Device => UACPI_OBJECT_DEVICE
  | Debug => UACPI_OBJECT_DEBUG
  end.

Definition is_reference (obj : uacpi_object) : bool :=
  match obj with Reference _ _ => true | _ => false end.

(** ** What the interpreter takes from its surroundings *)

(** The run-time context and the services of files that are not part of
    [interpreter.c]: the revision flag, whether an allocation request is
    granted, the C library's string-to-integer conversion, and the bits an
    object shows through its [integer] member while another member of the
    union is the active one. For most types these bits are a pointer: they
    belong to the object itself and not to its value, so two objects of
    equal contents show different bits. [union_integer] therefore takes
    the address of the object, a number that tells it apart from every
    other object, next to the object's value. *)
Record uacpi_runtime : Type := mk_runtime {
  is_rev1 : bool;
  uacpi_kernel_alloc : Z -> bool;
  uacpi_create_object : uacpi_object_type -> bool;
  uacpi_strtoull : list Z -> Z;
  union_integer : Z -> uacpi_object -> Z
}.

(** [obj->integer], for the object of value [obj] that lies at
    [address]. Where a handler reads the object of one item of the op, the
    index of the item stands for the address. *)
Definition integer_of (rt : uacpi_runtime) (address : Z) (obj : uacpi_object)
  : Z :=
  match obj with
  | Integer v => v
  | _ => union_integer rt address obj
  end.

(** [uacpi_object *], for the handlers whose result depends on which
    objects their operands are: the address of the object and its
    value. *)
Record object_at : Type := at_address {
  address : Z;
  object_of :> uacpi_object
}.

(** Modelled from the spec: [uacpi_memcpy_zerout] of the support library,
    which is not part of [interpreter.c]. It copies
    [min(src_size, dst_size)] bytes of the source and zero-fills the rest
    of the [dst_size] destination bytes. [src] holds the bytes at the
    source pointer; the result holds the [dst_size] bytes written. *)
Definition uacpi_memcpy_zerout (src : list Z) (dst_size src_size : Z) : list Z :=
  let bytes_to_copy := Z.min src_size dst_size in
  firstn (Z.to_nat bytes_to_copy) src
    ++ repeat 0 (Z.to_nat (dst_size - bytes_to_copy)).

(** Modelled from the spec: [uacpi_unwrap_internal_reference] of the
    object library, which is not part of [interpreter.c]. It strips the
    references the interpreter wraps locals, arguments and named objects
    in and stops at the first object that is no reference or is a RefOf or
    package-index reference. *)
Fixpoint uacpi_unwrap_internal_reference (obj : uacpi_object) : uacpi_object :=
  match obj with
  | Reference UACPI_REFERENCE_KIND_LOCAL inner
  | Reference UACPI_REFERENCE_KIND_ARG inner
  | Reference UACPI_REFERENCE_KIND_NAMED inner =>
      uacpi_unwrap_internal_reference inner
  | _ => obj
  end.

Inductive uacpi_assign_behavior : Type :=
| UACPI_ASSIGN_BEHAVIOR_DEEP_COPY
| UACPI_ASSIGN_BEHAVIOR_SHALLOW_COPY.

(** Modelled from the spec: [uacpi_object_assign] of the object library,
    which is not part of [interpreter.c]. The destination becomes the
    source; a deep copy owns fresh storage and a shallow copy shares the
    source's, which objects carried by value do not tell apart. *)
Definition uacpi_object_assign (dst src : uacpi_object)
    (behavior : uacpi_assign_behavior) : uacpi_status * uacpi_object :=
  (UACPI_STATUS_OK, src).

(** ** Opcodes *)

Inductive uacpi_aml_op : Type :=
| UACPI_AML_OP_AddOp
| UACPI_AML_OP_SubtractOp
| UACPI_AML_OP_MultiplyOp
| UACPI_AML_OP_DivideOp
| UACPI_AML_OP_ShiftLeftOp
| UACPI_AML_OP_ShiftRightOp
| UACPI_AML_OP_AndOp
| UACPI_AML_OP_NandOp
| UACPI_AML_OP_OrOp
| UACPI_AML_OP_NorOp
| UACPI_AML_OP_XorOp
| UACPI_AML_OP_ModOp
| UACPI_AML_OP_LEqualOp
| UACPI_AML_OP_LLessOp
| UACPI_AML_OP_LGreaterOp
| UACPI_AML_OP_LandOp
| UACPI_AML_OP_LorOp
| UACPI_AML_OP_RefOfOp
| UACPI_AML_OP_CondRefOfOp
| UACPI_AML_OP_DerefOfOp
| UACPI_AML_OP_ToIntegerOp
| UACPI_AML_OP_ToBufferOp
| UACPI_AML_OP_ToHexStringOp
| UACPI_AML_OP_ToDecimalStringOp
| UACPI_AML_OP_StoreOp
| UACPI_AML_OP_CopyObjectOp
| UACPI_AML_OP_OtherOp (code : Z).

(** ** Namespace *)

(** A NameSeg: the four bytes of [uacpi_object_name]. *)
Definition uacpi_object_name : Type := list Z.

Definition name_eqb (a b : uacpi_object_name) : bool :=
  (length a =? length b)%nat && forallb (fun p => fst p =? snd p) (combine a b).

(** Modelled from the spec: the namespace of [namespace.c], which is not
    part of [interpreter.c]: a tree of nodes keyed by 4-character names,
    every node with a parent link. A node is the path of names that leads
    to it from the root, innermost name first; the root is the empty path
    and the parent of a node is the rest of its path. *)
Definition uacpi_namespace_node : Type := list uacpi_object_name.

Definition uacpi_namespace_root : uacpi_namespace_node := [].

Definition node_parent (node : uacpi_namespace_node) : uacpi_namespace_node :=
  tl node.

Fixpoint node_eqb (a b : uacpi_namespace_node) : bool :=
  match a, b with
  | [], [] => true
  | x :: a', y :: b' => name_eqb x y && node_eqb a' b'
  | _, _ => false
  end.

(** The installed nodes. *)
Definition uacpi_namespace : Type := list uacpi_namespace_node.

(** Modelled from the spec: [find(parent, 4-char-name) -> node?]. *)
Definition uacpi_namespace_node_find (ns : uacpi_namespace)
    (parent : uacpi_namespace_node) (name : uacpi_object_name)
  : option uacpi_namespace_node :=
  if existsb (node_eqb (name :: parent)) ns then Some (name :: parent)
  else None.

(** Modelled from the spec: [alloc(name) -> node], followed by the
    interpreter's [cur_node->parent = parent]. *)
Definition uacpi_namespace_node_alloc (name : uacpi_object_name)
    (parent : uacpi_namespace_node) : uacpi_namespace_node :=
  name :: parent.

(** ** Call frames *)

Record package_length : Type := mk_pkg { pkg_begin : Z; pkg_end : Z }.

(** [struct item]: what a parse op leaves in its op context. *)
Inductive item : Type :=
| ITEM_NONE
| ITEM_NAMESPACE_NODE (node : option uacpi_namespace_node)
| ITEM_NAMESPACE_NODE_METHOD_LOCAL (node : option uacpi_namespace_node)
| ITEM_OBJECT (obj : uacpi_object)
| ITEM_EMPTY_OBJECT (obj : option uacpi_object)
| ITEM_PACKAGE_LENGTH (pkg : package_length)
| ITEM_IMMEDIATE (immediate : Z).

(** [struct op_context]; [op] is the code of the op's spec. *)
Record op_context : Type := mk_op_context {
  pc : Z;
  preempted : bool;
  tracked_pkg_idx : Z;
  op : Z;
  items : list item
}.

Inductive code_block_type : Type :=
| CODE_BLOCK_IF
| CODE_BLOCK_ELSE
| CODE_BLOCK_WHILE
| CODE_BLOCK_SCOPE.

Definition code_block_type_eqb (a b : code_block_type) : bool :=
  match a, b with
  | CODE_BLOCK_IF, CODE_BLOCK_IF
  | CODE_BLOCK_ELSE, CODE_BLOCK_ELSE
  | CODE_BLOCK_WHILE, CODE_BLOCK_WHILE
  | CODE_BLOCK_SCOPE, CODE_BLOCK_SCOPE => true
  | _, _ => false
  end.

(** [struct code_block]; only a scope block has its [node] set. *)
Record code_block : Type := mk_block {
  block_type : code_block_type;
  block_begin : Z;
  block_end : Z;
  block_node : option uacpi_namespace_node
}.

(** [struct call_frame]. [code] is the code of the method being run (its
    [size] is the length of the list). The arrays of pending ops and of
    code blocks are kept innermost first, so that the last element of the
    C array is the head of the list. *)
Record call_frame : Type := mk_frame {
  code : list Z;
  code_offset : Z;
  cur_scope : uacpi_namespace_node;
  args : list uacpi_object;
  locals : list uacpi_object;
  pending_ops : list op_context;
  code_blocks : list code_block;
  temp_nodes : list uacpi_namespace_node;
  last_while : option code_block;
  named_objects_persist : bool
}.

Definition method_size (frame : call_frame) : Z := len (code frame).

Definition set_code_offset (frame : call_frame) (off : Z) : call_frame :=
  mk_frame (code frame) off (cur_scope frame) (args frame) (locals frame)
    (pending_ops frame) (code_blocks frame) (temp_nodes frame)
    (last_while frame) (named_objects_persist frame).

(** A frame that has just been set up on [code], at [off] in [scope]. *)
Definition frame_at (code : list Z) (off : Z) (scope : uacpi_namespace_node)
  : call_frame :=
  mk_frame code off scope [] [] [] [] [] None false.

Definition call_frame_code_bytes_left (frame : call_frame) : Z :=
  method_size frame - code_offset frame.

(** ** Name strings *)

Definition char_backslash : Z := 92.
Definition char_caret : Z := 94.
Definition UACPI_DUAL_NAME_PREFIX : Z := 46.
Definition UACPI_MULTI_NAME_PREFIX : Z := 47.
Definition UACPI_NULL_NAME : Z := 0.

Definition is_name_char (data : Z) : bool :=
  (data =? 95)
  || ((48 <=? data) && (data <=? 57))
  || ((65 <=? data) && (data <=? 90)).

(** [parse_nameseg]: the four bytes at the cursor, when each is a
    NameChar. *)
Definition parse_nameseg (code : list Z) (cursor : Z)
  : uacpi_status * uacpi_object_name :=
  if forallb (fun i => is_name_char (byte_at code (cursor + i))) [0; 1; 2; 3]
  then (UACPI_STATUS_OK, slice code cursor 4)
  else (UACPI_STATUS_BAD_BYTECODE, []).

Inductive resolve_behavior : Type :=
| RESOLVE_CREATE_LAST_NAMESEG_FAIL_IF_EXISTS
| RESOLVE_FAIL_IF_DOESNT_EXIST.

(** What the prefix loop of [resolve_name_string] leaves behind. *)
Record prefix_state : Type := mk_prefix {
  px_cursor : Z;
  px_bytes_left : Z;
  px_cur_node : uacpi_namespace_node;
  px_prev_char : Z;
  px_just_one_nameseg : bool
}.

(** The first [for (;;)] of [resolve_name_string]: one iteration per
    prefix byte. Every iteration but the last consumes a byte, so
    [bytes_left + 1] iterations are enough. *)
Fixpoint resolve_prefix (fuel : nat) (code : list Z) (st : prefix_state)
  : uacpi_status * prefix_state :=
  match fuel with
  | O => (UACPI_STATUS_BAD_BYTECODE, st)
  | S fuel' =>
      if px_bytes_left st =? 0 then (UACPI_STATUS_BAD_BYTECODE, st)
      else
        let c := byte_at code (px_cursor st) in
        if (c =? char_backslash) && (px_prev_char st =? char_caret)
        then (UACPI_STATUS_BAD_BYTECODE, st)
        else if (c =? char_caret)
                && node_eqb (px_cur_node st) uacpi_namespace_root
        then (UACPI_STATUS_BAD_BYTECODE, st)
        else
          let cur_node :=
            if c =? char_backslash then uacpi_namespace_root
            else if c =? char_caret then node_parent (px_cur_node st)
            else px_cur_node st in
          let prev_char := c in
          let is_prefix :=
            (prev_char =? char_caret) || (prev_char =? char_backslash) in
          let st' :=
            if is_prefix
            then mk_prefix (px_cursor st + 1) (px_bytes_left st - 1)
                   cur_node prev_char false
            else mk_prefix (px_cursor st) (px_bytes_left st)
                   cur_node prev_char (px_just_one_nameseg st) in
          if negb (prev_char =? char_caret) then (UACPI_STATUS_OK, st')
          else resolve_prefix fuel' code st'
  end.

(** The [while (!cur_node && parent != uacpi_namespace_root())] loop of
    the find-existing mode, entered with [cur_node == NULL]: the node the
    loop leaves in [cur_node]. *)
Fixpoint upward_search (ns : uacpi_namespace) (name : uacpi_object_name)
    (parent : uacpi_namespace_node) : option uacpi_namespace_node :=
  match parent with
  | [] => None
  | _ :: grandparent =>
      match uacpi_namespace_node_find ns grandparent name with
      | Some node => Some node
      | None => upward_search ns name grandparent
      end
  end.

(** How the segment loop of [resolve_name_string] is left: by a [return]
    inside the loop, or at the label [out] with the status, the cursor,
    the segments not consumed and [cur_node]. *)
Inductive segments_exit : Type :=
| ReturnedEarly (ret : uacpi_status)
| ReachedOut (ret : uacpi_status) (cursor : Z) (namesegs : nat)
    (cur_node : option uacpi_namespace_node).

(** The [for (; namesegs; cursor += 4, namesegs--)] loop, entered with a
    [cur_node] that is not null. *)
Fixpoint resolve_segments (ns : uacpi_namespace) (behavior : resolve_behavior)
    (just_one_nameseg : bool) (code : list Z) (namesegs : nat) (cursor : Z)
    (cur_node : uacpi_namespace_node) : segments_exit :=
  match namesegs with
  | O => ReachedOut UACPI_STATUS_OK cursor O (Some cur_node)
  | S rest =>
      match parse_nameseg code cursor with
      | (UACPI_STATUS_OK, name) =>
          let parent := cur_node in
          let found := uacpi_namespace_node_find ns parent name in
          match behavior with
          | RESOLVE_CREATE_LAST_NAMESEG_FAIL_IF_EXISTS =>
              match rest, found with
              | O, Some _ => ReturnedEarly UACPI_STATUS_ALREADY_EXISTS
              | O, None =>
                  resolve_segments ns behavior just_one_nameseg code rest
                    (cursor + 4) (uacpi_namespace_node_alloc name parent)
              | _, Some node =>
                  resolve_segments ns behavior just_one_nameseg code rest
                    (cursor + 4) node
              | _, None =>
                  ReachedOut UACPI_STATUS_NOT_FOUND cursor namesegs None
              end
          | RESOLVE_FAIL_IF_DOESNT_EXIST =>
              let found :=
                match found with
                | Some _ => found
                | None =>
                    if just_one_nameseg then upward_search ns name parent
                    else None
                end in
              match found with
              | Some node =>
                  resolve_segments ns behavior just_one_nameseg code rest
                    (cursor + 4) node
              | None => ReachedOut UACPI_STATUS_NOT_FOUND cursor namesegs None
              end
          end
      | (ret, _) => ReturnedEarly ret
      end
  end.

(** [resolve_name_string]. The result is the status, the frame and
    [*out_node]; the paths that return early leave both as they were. *)
Definition resolve_name_string (ns : uacpi_namespace) (frame : call_frame)
    (behavior : resolve_behavior) (out_node : option uacpi_namespace_node)
  : uacpi_status * call_frame * option uacpi_namespace_node :=
  let bytes_left := call_frame_code_bytes_left frame in
  let cursor := code_offset frame in
  match resolve_prefix (S (Z.to_nat bytes_left)) (code frame)
          (mk_prefix cursor bytes_left (cur_scope frame) 0 true) with
  | (UACPI_STATUS_OK, st) =>
      let cursor := px_cursor st in
      let bytes_left := px_bytes_left st in
      let cur_node := px_cur_node st in
      if bytes_left =? 0 then (UACPI_STATUS_BAD_BYTECODE, frame, out_node)
      else
        let lead := byte_at (code frame) cursor in
        let out (ret : uacpi_status) (cursor : Z) (namesegs : nat)
                (cur_node : option uacpi_namespace_node) :=
          (ret,
           set_code_offset frame (cursor + Z.of_nat namesegs * 4),
           cur_node) in
        let walk (namesegs : Z) (cursor bytes_left : Z)
                 (just_one_nameseg : bool) :=
          if bytes_left <? namesegs * 4
          then (UACPI_STATUS_BAD_BYTECODE, frame, out_node)
          else
            match resolve_segments ns behavior just_one_nameseg (code frame)
                    (Z.to_nat namesegs) cursor cur_node with
            | ReturnedEarly ret => (ret, frame, out_node)
            | ReachedOut ret cursor namesegs node =>
                out ret cursor namesegs node
            end in
        if lead =? UACPI_DUAL_NAME_PREFIX
        then walk 2 (cursor + 1) (bytes_left - 1) false
        else if lead =? UACPI_MULTI_NAME_PREFIX
        then
          if bytes_left - 1 =? 0
          then (UACPI_STATUS_BAD_BYTECODE, frame, out_node)
          else walk (byte_at (code frame) (cursor + 1)) (cursor + 2)
                 (bytes_left - 2) false
        else if lead =? UACPI_NULL_NAME
        then
          match behavior with
          | RESOLVE_CREATE_LAST_NAMESEG_FAIL_IF_EXISTS =>
              (UACPI_STATUS_BAD_BYTECODE, frame, out_node)
          | RESOLVE_FAIL_IF_DOESNT_EXIST =>
              if px_just_one_nameseg st
              then (UACPI_STATUS_BAD_BYTECODE, frame, out_node)
              else out UACPI_STATUS_OK (cursor + 1) O (Some cur_node)
          end
        else walk 1 cursor bytes_left (px_just_one_nameseg st)
  | (ret, _) => (ret, frame, out_node)
  end.

(** ** Buffer op *)

Definition log_buffer_too_large : uacpi_log_level * string :=
  (UACPI_LOG_WARN,
   "buffer is too large (%llu), assuming corrupted bytestream"%string).
Definition log_buffer_empty : uacpi_log_level * string :=
  (UACPI_LOG_WARN, "attempted to create an empty buffer"%string).
Definition log_buffer_too_many_initializers : uacpi_log_level * string :=
  (UACPI_LOG_WARN, "too many buffer initializers: %u (size is %u)"%string).

(** [handle_buffer]. [method_code] is [ctx->cur_frame->method->code],
    [pkg] the package length of item 0, [declared_size] the integer of
    the object of item 1, [aml_offset] the immediate of item 2 and [dst]
    the object of item 3, which the parse program allocated as a Buffer. *)
Definition handle_buffer (rt : uacpi_runtime) (method_code : list Z)
    (pkg : package_length) (declared_size : Z) (aml_offset : Z)
    (dst : uacpi_object) : uacpi_status * uacpi_object * kernel_log :=
  let aml_offset := wrap32 aml_offset in
  let init_size := wrap32 (pkg_end pkg - aml_offset) in
  if len method_code <? pkg_end pkg
  then (UACPI_STATUS_BAD_BYTECODE, dst, [])
  else if 3758096384 <? declared_size
  then (UACPI_STATUS_BAD_BYTECODE, dst, [log_buffer_too_large])
  else if declared_size =? 0
  then (UACPI_STATUS_BAD_BYTECODE, dst, [log_buffer_empty])
  else
    let buffer_size := wrap32 declared_size in
    if buffer_size <? init_size
    then (UACPI_STATUS_BAD_BYTECODE, dst, [log_buffer_too_many_initializers])
    else if negb (uacpi_kernel_alloc rt buffer_size)
    then (UACPI_STATUS_OUT_OF_MEMORY, dst, [])
    else
      (UACPI_STATUS_OK,
       Buffer (uacpi_memcpy_zerout (skipn (Z.to_nat aml_offset) method_code)
                 buffer_size init_size),
       []).

(** ** Object storage *)

(** Modelled from the spec: the macro [UACPI_ALIGN_UP(x, val, type)] of
    the support headers for the 32-bit type: [x] rounded up to a multiple
    of the power of two [val]. *)
Definition UACPI_ALIGN_UP (x val : Z) : Z :=
  wrap32 (Z.land (x + (val - 1)) (Z.lnot (val - 1))).

Definition buffer_field_byte_size (field : uacpi_buffer_field) : Z :=
  UACPI_ALIGN_UP (bit_length field) 8 / 8.

Definition sizeof_int (rt : uacpi_runtime) : Z :=
  if is_rev1 rt then 4 else 8.

(** [get_object_storage]: the status and the [len] bytes at [ptr]. *)
Definition get_object_storage (rt : uacpi_runtime) (obj : uacpi_object)
    (include_null : bool) : uacpi_status * list Z :=
  match obj with
  | Integer v =>
      (UACPI_STATUS_OK, le_split (Z.to_nat (sizeof_int rt)) v)
  | String text =>
      let l := len text in
      let l := if negb (l =? 0) && negb include_null then l - 1 else l in
      (UACPI_STATUS_OK, firstn (Z.to_nat l) text)
  | Buffer data => (UACPI_STATUS_OK, data)
  | Reference _ _ => (UACPI_STATUS_INVALID_ARGUMENT, [])
  | _ => (UACPI_STATUS_BAD_BYTECODE, [])
  end.

(** ** Bit-granular buffer field access *)

Record bit_span : Type := mk_span {
  span_data : list Z;
  span_index : Z;
  span_length : Z
}.

(** The part of one iteration of [do_rw_misaligned_buffer_field] that
    gathers up to eight source bits: [bits], [src_count] and [src_ptr]
    afterwards. *)
Definition gather_bits (src : list Z) (src_shift src_ptr src_count : Z)
  : outcome (Z * Z * Z) :=
  if src_count =? 0 then Returns (0, src_count, src_ptr)
  else
    b0 <- load src src_ptr ;;
    let bits := wrap8 (Z.shiftr b0 src_shift) in
    bits <- (if negb (src_shift =? 0) && (8 - src_shift <? src_count)
             then
               b1 <- load src (src_ptr + 1) ;;
               Returns (wrap8 (Z.lor bits (Z.shiftl b1 (8 - src_shift))))
             else Returns bits) ;;
    if src_count <? 8
    then Returns (Z.land bits (Z.shiftl 1 src_count - 1), 0, src_ptr)
    else Returns (bits, src_count - 8, src_ptr + 1).

(** The part of one iteration that merges [bits] into the destination. *)
Definition scatter_bits (dst : list Z) (dst_shift dst_ptr dst_count bits : Z)
  : outcome (list Z) :=
  let dst_mask :=
    wrap16 (Z.shiftl (if dst_count <? 8 then Z.shiftl 1 dst_count - 1
                      else 255) dst_shift) in
  d0 <- load dst dst_ptr ;;
  dst <- store dst dst_ptr
           (Z.lor (Z.land d0 (Z.lnot dst_mask))
                  (Z.land (Z.shiftl bits dst_shift) dst_mask)) ;;
  if negb (dst_shift =? 0) && (8 - dst_shift <? dst_count)
  then
    let dst_mask := Z.shiftr dst_mask 8 in
    d1 <- load dst (dst_ptr + 1) ;;
    dst <- store dst (dst_ptr + 1) (Z.land d1 (Z.lnot dst_mask)) ;;
    d1 <- load dst (dst_ptr + 1) ;;
    store dst (dst_ptr + 1)
      (Z.lor d1 (Z.land (Z.shiftr bits (8 - dst_shift)) dst_mask))
  else Returns dst.

(** The [while (dst_count)] loop. An iteration takes eight from
    [dst_count] or clears it, so [dst_count] iterations are enough. *)
Fixpoint rw_loop (fuel : nat) (src : list Z) (src_shift dst_shift : Z)
    (dst : list Z) (dst_ptr src_ptr dst_count src_count : Z)
  : outcome (list Z) :=
  match fuel with
  | O => Returns dst
  | S fuel' =>
      if dst_count =? 0 then Returns dst
      else
        g <- gather_bits src src_shift src_ptr src_count ;;
        let '(bits, src_count, src_ptr) := g in
        dst <- scatter_bits dst dst_shift dst_ptr dst_count bits ;;
        rw_loop fuel' src src_shift dst_shift dst (dst_ptr + 1) src_ptr
          (if 8 <? dst_count then dst_count - 8 else 0) src_count
  end.

(** [do_rw_misaligned_buffer_field]: the destination bytes afterwards. *)
Definition do_rw_misaligned_buffer_field (dst src : bit_span)
  : outcome (list Z) :=
  rw_loop (Z.to_nat (span_length dst)) (span_data src)
    (Z.land (span_index src) 7) (Z.land (span_index dst) 7)
    (span_data dst) (span_index dst / 8) (span_index src / 8)
    (span_length dst) (span_length src).

Definition do_write_misaligned_buffer_field (field : uacpi_buffer_field)
    (src_buf : list Z) : outcome (list Z) :=
  let src_span := mk_span src_buf 0 (len src_buf * 8) in
  let dst_span :=
    mk_span (backing field) (bit_index field) (bit_length field) in
  do_rw_misaligned_buffer_field dst_span src_span.

(** [uacpi_memcpy_zerout(dst + off, src, dst_size, src_size)] with the
    destination range checked. *)
Definition memcpy_zerout_at (dst : list Z) (off : Z) (src : list Z)
    (dst_size src_size : Z) : outcome (list Z) :=
  _ <- guard ((0 <=? off) && (0 <=? dst_size) && (off + dst_size <=? len dst)
              && (Z.min src_size dst_size <=? len src)) ;;
  Returns (splice dst off (uacpi_memcpy_zerout src dst_size src_size)).

(** [uacpi_memcpy(dst, src + off, n)] with both ranges checked. *)
Definition memcpy_from (dst : list Z) (src : list Z) (off n : Z)
  : outcome (list Z) :=
  _ <- guard ((0 <=? off) && (0 <=? n) && (off + n <=? len src)
              && (n <=? len dst)) ;;
  Returns (splice dst 0 (slice src off n)).

(** [write_buffer_field]: the backing bytes afterwards. [src_buf] holds
    the [len] bytes at [ptr] of the source storage. *)
Definition write_buffer_field (field : uacpi_buffer_field) (src_buf : list Z)
  : outcome (list Z) :=
  if Z.land (bit_index field) 7 =? 0
  then
    let dst := bit_index field / 8 in
    let count := buffer_field_byte_size field in
    last_byte <- load (backing field) (dst + (count - 1)) ;;
    let tail_shift := wrap8 (Z.land (bit_length field) 7) in
    data <- memcpy_zerout_at (backing field) dst src_buf count (len src_buf) ;;
    if negb (tail_shift =? 0)
    then
      d <- load data (dst + (count - 1)) ;;
      store data (dst + (count - 1))
        (Z.lor d (Z.shiftl (Z.shiftr last_byte tail_shift) tail_shift))
    else Returns data
  else do_write_misaligned_buffer_field field src_buf.

Definition set_backing (field : uacpi_buffer_field) (data : list Z)
  : uacpi_buffer_field :=
  mk_field data (bit_index field) (bit_length field) (force_buffer field).

(** [write_buffer_index]: the bytes of the indexed buffer afterwards. *)
Definition write_buffer_index (buf_idx : uacpi_buffer_index) (src_buf : list Z)
  : outcome (list Z) :=
  memcpy_zerout_at (buffer buf_idx) (idx buf_idx) src_buf 1 (len src_buf).

Definition do_misaligned_buffer_read (field : uacpi_buffer_field)
    (dst : list Z) : outcome (list Z) :=
  let src_span :=
    mk_span (backing field) (bit_index field) (bit_length field) in
  let dst_span := mk_span dst 0 (buffer_field_byte_size field * 8) in
  do_rw_misaligned_buffer_field dst_span src_span.

(** [do_read_buffer_field]: the bytes at [dst] afterwards. *)
Definition do_read_buffer_field (field : uacpi_buffer_field) (dst : list Z)
  : outcome (list Z) :=
  if Z.land (bit_index field) 7 =? 0
  then
    let count := buffer_field_byte_size field in
    dst <- memcpy_from dst (backing field) (bit_index field / 8) count ;;
    if negb (Z.land (bit_length field) 7 =? 0)
    then
      d <- load dst (count - 1) ;;
      store dst (count - 1)
        (Z.land d (Z.shiftl 1 (Z.land (bit_length field) 7) - 1))
    else Returns dst
  else do_misaligned_buffer_read field dst.

(** ** Store protocol *)

(** [buf->data] and [buf->size] of a String or Buffer object. *)
Definition buffer_of (obj : uacpi_object) : list Z :=
  match obj with
  | String text => text
  | Buffer data => data
  | _ => []
  end.

(** [dst->buffer->data = data; dst->buffer->size = len data] on an object
    the parse program allocated as a String or as a Buffer: the type of
    the object stays what it was. *)
Definition set_buffer (dst : uacpi_object) (data : list Z) : uacpi_object :=
  match dst with
  | String _ => String data
  | _ => Buffer data
  end.

(** [obj->inner_object] of a Reference. *)
Definition inner_of (obj : uacpi_object) : outcome uacpi_object :=
  match obj with
  | Reference _ inner => Returns inner
  | _ => UndefinedBehaviour
  end.

(** [object_assign_with_implicit_cast]: the status and [dst] afterwards. *)
Definition object_assign_with_implicit_cast (rt : uacpi_runtime)
    (dst src : uacpi_object) : outcome (uacpi_status * uacpi_object) :=
  match get_object_storage rt src false with
  | (UACPI_STATUS_OK, src_buf) =>
      match dst with
      | Integer v =>
          let n := sizeof_int rt in
          let written := uacpi_memcpy_zerout src_buf n (len src_buf) in
          Returns (UACPI_STATUS_OK,
                   Integer (le_combine
                              (written ++ skipn (Z.to_nat n) (le_split 8 v))))
      | String text =>
          match get_object_storage rt dst false with
          | (UACPI_STATUS_OK, dst_buf) =>
              let n := len dst_buf in
              Returns (UACPI_STATUS_OK,
                       String (uacpi_memcpy_zerout src_buf n (len src_buf)
                                 ++ skipn (Z.to_nat n) text))
          | (ret, _) => Returns (ret, dst)
          end
      | Buffer data =>
          Returns (UACPI_STATUS_OK,
                   Buffer (uacpi_memcpy_zerout src_buf (len data)
                             (len src_buf)))
      | BufferField field =>
          data <- write_buffer_field field src_buf ;;
          Returns (UACPI_STATUS_OK, BufferField (set_backing field data))
      | BufferIndex buf_idx =>
          data <- write_buffer_index buf_idx src_buf ;;
          Returns (UACPI_STATUS_OK,
                   BufferIndex (mk_buffer_index (idx buf_idx) data))
      | _ => Returns (UACPI_STATUS_BAD_BYTECODE, dst)
      end
  | (ret, _) => Returns (ret, dst)
  end.

(** [reference_unwind]: the last reference of the chain that starts at
    [obj] (the parent of the first object that is no reference), or [obj]
    itself when it is no reference. *)
Fixpoint reference_unwind (obj : uacpi_object) : uacpi_object :=
  match obj with
  | Reference _ inner =>
      if is_reference inner then reference_unwind inner else obj
  | _ => obj
  end.

(** [obj] with [f] applied to the object [reference_unwind obj] points
    to: how a write through the pointer [reference_unwind] returns shows
    in the chain that starts at [obj]. *)
Fixpoint update_unwound (f : uacpi_object -> uacpi_object)
    (obj : uacpi_object) : uacpi_object :=
  match obj with
  | Reference flags inner =>
      if is_reference inner then Reference flags (update_unwound f inner)
      else f obj
  | _ => f obj
  end.

(** Modelled from the spec: [uacpi_object_detach_child] followed by
    [uacpi_object_attach_child] of the object library, which is not part
    of [interpreter.c]: the reference [parent] gets the inner object
    [new_child]. *)
Definition object_replace_child (new_child : uacpi_object)
    (parent : uacpi_object) : uacpi_object :=
  match parent with
  | Reference flags _ => Reference flags new_child
  | _ => parent
  end.

(** Where [dst] points once the switch of [store_to_reference] is done:
    at the reference it was called with, or at [reference_unwind] of an
    object of its chain, which is the last reference of the chain. *)
Inductive store_site : Type := AtReference | AtUnwound.

Definition update_site (site : store_site)
    (f : uacpi_object -> uacpi_object) (dst : uacpi_object) : uacpi_object :=
  match site with
  | AtReference => f dst
  | AtUnwound => update_unwound f dst
  end.

(** The switch of [store_to_reference]: the status, where [dst] points
    afterwards, the object it points to, and [overwrite]. *)
Definition store_resolve (dst : uacpi_object)
  : uacpi_status * store_site * uacpi_object * bool :=
  match dst with
  | Reference UACPI_REFERENCE_KIND_LOCAL inner
  | Reference UACPI_REFERENCE_KIND_ARG inner
  | Reference UACPI_REFERENCE_KIND_PKG_INDEX inner =>
      let referenced_obj :=
        match dst with
        | Reference UACPI_REFERENCE_KIND_PKG_INDEX _ => inner
        | _ => uacpi_unwrap_internal_reference dst
        end in
      if is_reference referenced_obj
      then
        let overwrite :=
          match dst with
          | Reference UACPI_REFERENCE_KIND_ARG _ => true
          | _ => false
          end in
        (UACPI_STATUS_OK, AtUnwound, reference_unwind referenced_obj, overwrite)
      else (UACPI_STATUS_OK, AtReference, dst, true)
  | Reference UACPI_REFERENCE_KIND_NAMED _ =>
      (UACPI_STATUS_OK, AtUnwound, reference_unwind dst, false)
  | _ => (UACPI_STATUS_INVALID_ARGUMENT, AtReference, dst, false)
  end.

(** [store_to_reference] over the [uacpi_object_assign] of the object
    library, here [object_assign]: the status and the object [dst] points
    to as it is afterwards. *)
Definition store_to_reference_with
    (object_assign : uacpi_object -> uacpi_object -> uacpi_assign_behavior
                     -> uacpi_status * uacpi_object)
    (rt : uacpi_runtime) (dst src : uacpi_object)
  : outcome (uacpi_status * uacpi_object) :=
  match store_resolve dst with
  | (UACPI_STATUS_OK, site, target, overwrite) =>
      let src_obj := uacpi_unwrap_internal_reference src in
      target_inner <- inner_of target ;;
      let overwrite :=
        overwrite
        || object_type_eqb (type_of target_inner) UACPI_OBJECT_UNINITIALIZED in
      if overwrite
      then
        if negb (uacpi_create_object rt UACPI_OBJECT_UNINITIALIZED)
        then Returns (UACPI_STATUS_OUT_OF_MEMORY, dst)
        else
          let new_obj := Uninitialized in
          match object_assign new_obj src_obj
                  UACPI_ASSIGN_BEHAVIOR_DEEP_COPY with
          | (UACPI_STATUS_OK, new_obj) =>
              Returns (UACPI_STATUS_OK,
                       update_site site (object_replace_child new_obj) dst)
          | (ret, _) => Returns (ret, dst)
          end
      else
        r <- object_assign_with_implicit_cast rt target_inner src_obj ;;
        let '(ret, target_inner) := r in
        Returns (ret,
                 update_site site (object_replace_child target_inner) dst)
  | (ret, _, _, _) => Returns (ret, dst)
  end.

(** [store_to_reference] *)
Definition store_to_reference (rt : uacpi_runtime) (dst src : uacpi_object)
  : outcome (uacpi_status * uacpi_object) :=
  store_to_reference_with uacpi_object_assign rt dst src.

(** ** RefOf, CondRefOf and DerefOf *)

Definition log_invalid_deref_of : uacpi_log_level * string :=
  (UACPI_LOG_WARN,
   "Invalid DerefOf argument: %s, expected a reference"%string).

Definition buffer_index_cursor (buf_idx : uacpi_buffer_index) : list Z :=
  skipn (Z.to_nat (idx buf_idx)) (buffer buf_idx).

(** [handle_ref_or_deref_of]. [src] is the object of item 0 and [dst] the
    object of item 1 (of item 2 for CondRefOf). The flags of [dst] stay as
    they are when it becomes a reference; an object fresh from
    [uacpi_create_object] has the flags of a RefOf reference. *)
Definition handle_ref_or_deref_of (op : uacpi_aml_op) (src dst : uacpi_object)
  : outcome (uacpi_status * uacpi_object * kernel_log) :=
  match op with
  | UACPI_AML_OP_DerefOfOp =>
      let was_a_reference := is_reference src in
      src <- (if was_a_reference then inner_of (reference_unwind src)
              else Returns src) ;;
      match src with
      | BufferIndex buf_idx =>
          _ <- guard ((0 <=? idx buf_idx) && (idx buf_idx <? len (buffer buf_idx))) ;;
          Returns (UACPI_STATUS_OK,
                   Integer (le_combine
                              (uacpi_memcpy_zerout (buffer_index_cursor buf_idx)
                                 8 1)),
                   [])
      | _ =>
          if negb was_a_reference
          then Returns (UACPI_STATUS_BAD_BYTECODE, dst, [log_invalid_deref_of])
          else
            let '(ret, dst) :=
              uacpi_object_assign dst src UACPI_ASSIGN_BEHAVIOR_SHALLOW_COPY in
            Returns (ret, dst, [])
      end
  | _ =>
      let flags :=
        match dst with
        | Reference flags _ => flags
        | _ => UACPI_REFERENCE_KIND_REFOF
        end in
      Returns (UACPI_STATUS_OK, Reference flags src, [])
  end.

(** ** Binary math *)

Definition log_division_by_zero : uacpi_log_level * string :=
  (UACPI_LOG_WARN, "Attempted division by zero!"%string).

(** [lhs / rhs] and [lhs % rhs] on [uacpi_u64]: undefined for a zero
    divisor. *)
Definition u64_div (lhs rhs : Z) : outcome Z :=
  if rhs =? 0 then UndefinedBehaviour else Returns (lhs / rhs).
Definition u64_mod (lhs rhs : Z) : outcome Z :=
  if rhs =? 0 then UndefinedBehaviour else Returns (lhs mod rhs).

(** [do_binary_math]. [lhs] and [rhs] are the integers of [arg0] and
    [arg1]; [tgt0] and [tgt1] are the integers of the two target objects,
    [tgt1] being absent (a null pointer) for every op but Divide. The
    result is the two integers afterwards and what has been logged. An op
    that is none of the cases leaves [res] without a value. *)
Definition do_binary_math (rt : uacpi_runtime) (lhs rhs : Z)
    (tgt0 : Z) (tgt1 : option Z) (op : uacpi_aml_op)
  : outcome (Z * option Z * kernel_log) :=
  let finish (should_negate : bool) (res : Z) (tgt1 : option Z)
             (log : kernel_log) : outcome (Z * option Z * kernel_log) :=
    let res := if should_negate then wrap64 (Z.lnot res) else res in
    Returns (res, tgt1, log) in
  match op with
  | UACPI_AML_OP_AddOp => finish false (wrap64 (lhs + rhs)) tgt1 []
  | UACPI_AML_OP_SubtractOp => finish false (wrap64 (lhs - rhs)) tgt1 []
  | UACPI_AML_OP_MultiplyOp => finish false (wrap64 (lhs * rhs)) tgt1 []
  | UACPI_AML_OP_ShiftLeftOp =>
      finish false
        (if rhs <=? (if is_rev1 rt then 31 else 63)
         then wrap64 (Z.shiftl lhs rhs) else 0) tgt1 []
  | UACPI_AML_OP_ShiftRightOp =>
      finish false
        (if rhs <=? (if is_rev1 rt then 31 else 63)
         then Z.shiftr lhs rhs else 0) tgt1 []
  | UACPI_AML_OP_NandOp => finish true (Z.land rhs lhs) tgt1 []
  | UACPI_AML_OP_AndOp => finish false (Z.land rhs lhs) tgt1 []
  | UACPI_AML_OP_NorOp => finish true (Z.lor rhs lhs) tgt1 []
  | UACPI_AML_OP_OrOp => finish false (Z.lor rhs lhs) tgt1 []
  | UACPI_AML_OP_XorOp => finish false (Z.lxor rhs lhs) tgt1 []
  | UACPI_AML_OP_DivideOp =>
      _ <- guard (match tgt1 with Some _ => true | None => false end) ;;
      q <- (if 0 <? rhs then
              q <- u64_div lhs rhs ;; Returns (q, [])
            else Returns (0, [log_division_by_zero])) ;;
      let '(quotient, log) := q in
      res <- u64_mod lhs rhs ;;
      finish false res (Some quotient) log
  | UACPI_AML_OP_ModOp =>
      res <- u64_mod lhs rhs ;;
      finish false res tgt1 []
  | _ => UndefinedBehaviour
  end.

(** [handle_binary_math]. [arg0] and [arg1] are the objects of items 0
    and 1; for Divide [tgt0] and [tgt1] are the integers of the objects of
    items 4 and 5, for every other op [tgt0] is that of item 3 and [tgt1]
    is a null pointer. *)
Definition handle_binary_math (rt : uacpi_runtime) (op : uacpi_aml_op)
    (arg0 arg1 : uacpi_object) (tgt0 : Z) (tgt1 : option Z)
  : outcome (uacpi_status * Z * option Z * kernel_log) :=
  let tgt1 :=
    match op with
    | UACPI_AML_OP_DivideOp => tgt1
    | _ => None
    end in
  r <- do_binary_math rt (integer_of rt 0 arg0) (integer_of rt 1 arg1)
         tgt0 tgt1 op ;;
  let '(tgt0, tgt1, log) := r in
  Returns (UACPI_STATUS_OK, tgt0, tgt1, log).

(** ** Conversions *)

(** [object_to_integer] *)
Definition object_to_integer (rt : uacpi_runtime) (obj : uacpi_object)
    (max_buffer_bytes : Z) : Z :=
  match obj with
  | Integer v => v
  | Buffer data =>
      let bytes := Z.min max_buffer_bytes (len data) in
      le_combine (uacpi_memcpy_zerout data 8 bytes)
  | String text => uacpi_strtoull rt text
  | _ => 0
  end.

Definition hex_digit (d : Z) : Z := if d <? 10 then 48 + d else 55 + d.

(** The digits of [v] in [base], most significant first, at least one. *)
Fixpoint digits_of (fuel : nat) (base v : Z) (acc : list Z) : list Z :=
  match fuel with
  | O => acc
  | S fuel' =>
      let acc := hex_digit (v mod base) :: acc in
      if v / base =? 0 then acc else digits_of fuel' base (v / base) acc
  end.

(** Modelled from the spec: [uacpi_snprintf] of the support library, which
    is not part of [interpreter.c], at the formats the conversions use:
    [%llX] and [%llu] of a 64-bit integer, [0x%02X] and [%d] of a byte.
    The result is the characters written, without the terminator; a
    negative return is [None]. *)
Definition snprintf_u64 (is_hex : bool) (v : Z) : option (list Z) :=
  Some (digits_of 64 (if is_hex then 16 else 10) v []).

Definition snprintf_u8 (is_hex : bool) (v : Z) : option (list Z) :=
  Some (if is_hex
        then [48; 120; hex_digit (v / 16); hex_digit (v mod 16)]
        else digits_of 3 10 v []).

(** [integer_to_string]: the status and the bytes of [str]. *)
Definition integer_to_string (rt : uacpi_runtime) (integer : Z)
    (is_hex : bool) : uacpi_status * list Z :=
  match snprintf_u64 is_hex integer with
  | None => (UACPI_STATUS_INVALID_ARGUMENT, [])
  | Some repr =>
      let final_size := (if is_hex then 2 else 0) + len repr + 1 in
      if negb (uacpi_kernel_alloc rt final_size)
      then (UACPI_STATUS_OUT_OF_MEMORY, [])
      else
        (UACPI_STATUS_OK,
         (if is_hex then [48; 120] else []) ++ repr ++ [0])
  end.

(** The loop of [buffer_to_string] that prints the bytes: the characters
    written, or [None] when [uacpi_snprintf] fails. *)
Fixpoint print_bytes (is_hex : bool) (data : list Z) : option (list Z) :=
  match data with
  | [] => Some [0]
  | b :: rest =>
      match snprintf_u8 is_hex b, print_bytes is_hex rest with
      | Some repr, Some tail =>
          Some (repr ++ (match rest with [] => [] | _ => [44] end) ++ tail)
      | _, _ => None
      end
  end.

(** [buffer_to_string]: the status and the bytes of [str]. *)
Definition buffer_to_string (rt : uacpi_runtime) (buf : list Z)
    (is_hex : bool) : uacpi_status * list Z :=
  let final_size :=
    if is_hex then 4 * len buf
    else fold_left
           (fun acc value =>
              acc + (if value <? 10 then 1 else if value <? 100 then 2 else 3))
           buf 0 in
  let final_size := final_size + (len buf - 1) + 1 in
  if negb (uacpi_kernel_alloc rt final_size)
  then (UACPI_STATUS_OUT_OF_MEMORY, [])
  else
    match print_bytes is_hex buf with
    | Some text => (UACPI_STATUS_OK, text)
    | None => (UACPI_STATUS_INVALID_ARGUMENT, [])
    end.

(** [do_make_empty_object]: the status and the bytes [buf->size] counts. *)
Definition do_make_empty_object (rt : uacpi_runtime) (is_string : bool)
  : uacpi_status * list Z :=
  if negb (uacpi_kernel_alloc rt 1) then (UACPI_STATUS_OUT_OF_MEMORY, [])
  else (UACPI_STATUS_OK, if is_string then [0] else []).

Definition make_null_string (rt : uacpi_runtime) : uacpi_status * list Z :=
  do_make_empty_object rt true.

Definition make_null_buffer (rt : uacpi_runtime) : uacpi_status * list Z :=
  do_make_empty_object rt false.

(** [dst->integer = v] on the Integer object the parse program of
    ToInteger allocated. *)
Definition set_integer (dst : uacpi_object) (v : Z) : uacpi_object :=
  Integer v.

(** The ToBuffer case of [handle_to], which the string conversions fall
    through to. *)
Definition handle_to_buffer (rt : uacpi_runtime) (src dst : uacpi_object)
  : uacpi_status * uacpi_object :=
  match get_object_storage rt src true with
  | (UACPI_STATUS_OK, buf) =>
      if len buf =? 0
      then
        match make_null_buffer rt with
        | (UACPI_STATUS_OK, data) => (UACPI_STATUS_OK, set_buffer dst data)
        | (ret, _) => (ret, dst)
        end
      else if negb (uacpi_kernel_alloc rt (len buf))
      then (UACPI_STATUS_OUT_OF_MEMORY, dst)
      else (UACPI_STATUS_OK, set_buffer dst buf)
  | (ret, _) => (ret, dst)
  end.

(** [handle_to]. [src] is the object of item 0 and [dst] the object of
    item 2. *)
Definition handle_to (rt : uacpi_runtime) (op : uacpi_aml_op)
    (src dst : uacpi_object) : uacpi_status * uacpi_object :=
  let stored (r : uacpi_status * list Z) :=
    match r with
    | (UACPI_STATUS_OK, data) => (UACPI_STATUS_OK, set_buffer dst data)
    | (ret, _) => (ret, dst)
    end in
  let to_string (is_hex : bool) :=
    match src with
    | Integer v => stored (integer_to_string rt v is_hex)
    | Buffer data =>
        if len data =? 0 then stored (make_null_string rt)
        else stored (buffer_to_string rt data is_hex)
    | _ => handle_to_buffer rt src dst
    end in
  match op with
  | UACPI_AML_OP_ToIntegerOp =>
      (UACPI_STATUS_OK, set_integer dst (object_to_integer rt src 8))
  | UACPI_AML_OP_ToHexStringOp => to_string true
  | UACPI_AML_OP_ToDecimalStringOp => to_string false
  | UACPI_AML_OP_ToBufferOp => handle_to_buffer rt src dst
  | _ => (UACPI_STATUS_INVALID_ARGUMENT, dst)
  end.

(** ** Binary logic *)

Definition ones (rt : uacpi_runtime) : Z :=
  if is_rev1 rt then 4294967295 else 18446744073709551615.

(** Modelled from the spec: [uacpi_memcmp] of the support library, which
    is not part of [interpreter.c]: the sign of the first difference
    within the first [n] bytes. *)
Fixpoint uacpi_memcmp (a b : list Z) (n : nat) : Z :=
  match n with
  | O => 0
  | S n' =>
      let x := hd 0 a in
      let y := hd 0 b in
      if x <? y then -1
      else if y <? x then 1
      else uacpi_memcmp (tl a) (tl b) n'
  end.

Definition handle_logical_equality (rt : uacpi_runtime)
    (lhs rhs : object_at) : bool :=
  match object_of lhs with
  | String _ | Buffer _ =>
      let res := len (buffer_of lhs) =? len (buffer_of rhs) in
      if res && negb (len (buffer_of lhs) =? 0)
      then uacpi_memcmp (buffer_of lhs) (buffer_of rhs)
             (length (buffer_of lhs)) =? 0
      else res
  | Integer v => v =? integer_of rt (address rhs) rhs
  | _ => false
  end.

Definition handle_logical_less_or_greater (rt : uacpi_runtime)
    (op : uacpi_aml_op) (lhs rhs : object_at) : bool :=
  let is_less :=
    match op with UACPI_AML_OP_LLessOp => true | _ => false end in
  match object_of lhs with
  | String _ | Buffer _ =>
      let lhs_buf := buffer_of lhs in
      let rhs_buf := buffer_of rhs in
      let res :=
        uacpi_memcmp lhs_buf rhs_buf
          (Z.to_nat (Z.min (len lhs_buf) (len rhs_buf))) in
      let res :=
        if res =? 0
        then if len lhs_buf <? len rhs_buf then -1
             else if len rhs_buf <? len lhs_buf then 1
             else res
        else res in
      if is_less then res <? 0 else 0 <? res
  | _ =>
      let lhs_integer := integer_of rt (address lhs) lhs in
      let rhs_integer := integer_of rt (address rhs) rhs in
      if is_less then lhs_integer <? rhs_integer
      else rhs_integer <? lhs_integer
  end.

(** [handle_binary_logic]. [lhs] and [rhs] are the objects of items 0 and
    1, each with its address, [dst] the integer of the object of item 2;
    the result is the status and that integer afterwards. *)
Definition handle_binary_logic (rt : uacpi_runtime) (op : uacpi_aml_op)
    (lhs rhs : object_at) (dst : Z) : uacpi_status * Z :=
  let finish (res : bool) := (UACPI_STATUS_OK, if res then ones rt else 0) in
  match op with
  | UACPI_AML_OP_LEqualOp
  | UACPI_AML_OP_LLessOp
  | UACPI_AML_OP_LGreaterOp =>
      if negb (object_type_eqb (type_of lhs) (type_of rhs))
      then (UACPI_STATUS_BAD_BYTECODE, dst)
      else
        match op with
        | UACPI_AML_OP_LEqualOp => finish (handle_logical_equality rt lhs rhs)
        | _ => finish (handle_logical_less_or_greater rt op lhs rhs)
        end
  | _ =>
      let lhs_int := object_to_integer rt lhs 4 in
      let rhs_int := object_to_integer rt rhs 4 in
      match op with
      | UACPI_AML_OP_LandOp =>
          finish (negb (lhs_int =? 0) && negb (rhs_int =? 0))
      | _ => finish (negb (lhs_int =? 0) || negb (rhs_int =? 0))
      end
  end.

(** ** Package length decoding *)

Definition parse_package_length (frame : call_frame) (out_pkg : package_length)
  : uacpi_status * call_frame * package_length :=
  let out_pkg := mk_pkg (code_offset frame) (pkg_end out_pkg) in
  let left := wrap32 (call_frame_code_bytes_left frame) in
  if left <? 1 then (UACPI_STATUS_BAD_BYTECODE, frame, out_pkg)
  else
    let data := code_offset frame in
    let lead := byte_at (code frame) data in
    let marker_length := wrap8 (1 + Z.shiftr lead 6) in
    if left <? marker_length then (UACPI_STATUS_BAD_BYTECODE, frame, out_pkg)
    else
      let size :=
        if marker_length =? 1 then Z.land lead 63
        else
          let temp_byte :=
            le_combine (slice (code frame) (data + 1) (marker_length - 1)) in
          Z.lor (Z.land lead 15) (wrap32 (Z.shiftl temp_byte 4)) in
      (UACPI_STATUS_OK,
       set_code_offset frame (wrap32 (code_offset frame + marker_length)),
       mk_pkg (pkg_begin out_pkg) (wrap32 (pkg_begin out_pkg + size))).

(** The encoding as the specification words it: [count = L >> 6] extra
    bytes; six bits of [L] alone, or the low nibble of [L] below the extra
    bytes read little-endian. *)
Definition extra_bytes (l : Z) : Z := Z.shiftr l 6.

Definition total_size (l b1 b2 b3 : Z) : Z :=
  match extra_bytes l with
  | 0 => Z.land l 63
  | 1 => Z.lor (Z.land l 15) (Z.shiftl b1 4)
  | 2 => Z.lor (Z.land l 15) (Z.shiftl (b1 + 256 * b2) 4)
  | _ => Z.lor (Z.land l 15) (Z.shiftl (b1 + 256 * b2 + 65536 * b3) 4)
  end.

(** ** Method execution *)

(** [struct uacpi_control_method], the members the driver reads; the
    method's [size] is the length of its code. *)
Record uacpi_control_method : Type := mk_method {
  method_code : list Z;
  method_args : Z;
  method_named_objects_persist : bool
}.

(** [struct execution_context]. [cur_frame] is the innermost frame of the
    call stack, which is kept innermost first; [cur_block], [cur_op_ctx]
    and [prev_op_ctx] point into that frame and are read off it. The
    namespace is global state of [namespace.c]; the model carries it next
    to the context. *)
Record execution_context : Type := mk_ctx {
  ctx_ret : option uacpi_object;
  call_stack : list call_frame;
  cur_op : Z;
  skip_else : bool;
  namespace : uacpi_namespace
}.

Definition cur_frame (ctx : execution_context) : option call_frame :=
  hd_error (call_stack ctx).

Definition cur_block (ctx : execution_context) : option code_block :=
  match cur_frame ctx with
  | Some frame => hd_error (code_blocks frame)
  | None => None
  end.

Definition cur_op_ctx (ctx : execution_context) : option op_context :=
  match cur_frame ctx with
  | Some frame => hd_error (pending_ops frame)
  | None => None
  end.

(** Writes through [ctx->cur_frame]. *)
Definition set_cur_frame (ctx : execution_context) (frame : call_frame)
  : execution_context :=
  mk_ctx (ctx_ret ctx) (frame :: tl (call_stack ctx)) (cur_op ctx)
    (skip_else ctx) (namespace ctx).

Definition set_skip_else (ctx : execution_context) (b : bool)
  : execution_context :=
  mk_ctx (ctx_ret ctx) (call_stack ctx) (cur_op ctx) b (namespace ctx).

Definition set_cur_op (ctx : execution_context) (code : Z)
  : execution_context :=
  mk_ctx (ctx_ret ctx) (call_stack ctx) code (skip_else ctx) (namespace ctx).

Definition set_ctx_ret (ctx : execution_context) (obj : option uacpi_object)
  : execution_context :=
  mk_ctx obj (call_stack ctx) (cur_op ctx) (skip_else ctx) (namespace ctx).

Definition set_namespace (ctx : execution_context) (ns : uacpi_namespace)
  : execution_context :=
  mk_ctx (ctx_ret ctx) (call_stack ctx) (cur_op ctx) (skip_else ctx) ns.

Definition set_cur_scope (frame : call_frame) (scope : uacpi_namespace_node)
  : call_frame :=
  mk_frame (code frame) (code_offset frame) scope (args frame) (locals frame)
    (pending_ops frame) (code_blocks frame) (temp_nodes frame)
    (last_while frame) (named_objects_persist frame).

Definition set_pending_ops (frame : call_frame) (ops : list op_context)
  : call_frame :=
  mk_frame (code frame) (code_offset frame) (cur_scope frame) (args frame)
    (locals frame) ops (code_blocks frame) (temp_nodes frame)
    (last_while frame) (named_objects_persist frame).

Definition set_code_blocks (frame : call_frame) (blocks : list code_block)
  : call_frame :=
  mk_frame (code frame) (code_offset frame) (cur_scope frame) (args frame)
    (locals frame) (pending_ops frame) blocks (temp_nodes frame)
    (last_while frame) (named_objects_persist frame).

Definition set_temp_nodes (frame : call_frame)
    (nodes : list uacpi_namespace_node) : call_frame :=
  mk_frame (code frame) (code_offset frame) (cur_scope frame) (args frame)
    (locals frame) (pending_ops frame) (code_blocks frame) nodes
    (last_while frame) (named_objects_persist frame).

Definition set_last_while (frame : call_frame) (block : option code_block)
  : call_frame :=
  mk_frame (code frame) (code_offset frame) (cur_scope frame) (args frame)
    (locals frame) (pending_ops frame) (code_blocks frame) (temp_nodes frame)
    block (named_objects_persist frame).

(** [call_frame_has_code]: the unsigned difference [size - code_offset] is
    positive exactly when the two differ. *)
Definition call_frame_has_code (frame : call_frame) : bool :=
  negb (method_size frame =? code_offset frame).

Definition ctx_has_non_preempted_op (ctx : execution_context) : bool :=
  match cur_op_ctx ctx with
  | Some op_ctx => negb (preempted op_ctx)
  | None => false
  end.

(** [find_last_block] walks the array from its last element down. *)
Definition find_last_block (blocks : list code_block)
    (type : code_block_type) : option code_block :=
  find (fun block => code_block_type_eqb (block_type block) type) blocks.

Definition update_scope (frame : call_frame) : call_frame :=
  match find_last_block (code_blocks frame) CODE_BLOCK_SCOPE with
  | None => set_cur_scope frame uacpi_namespace_root
  | Some block =>
      match block_node block with
      | Some node => set_cur_scope frame node
      | None => frame
      end
  end.

Definition frame_reset_post_end_block (frame : call_frame)
    (type : code_block_type) : call_frame :=
  let frame := set_code_blocks frame (tl (code_blocks frame)) in
  match type with
  | CODE_BLOCK_WHILE =>
      set_last_while frame (find_last_block (code_blocks frame) type)
  | CODE_BLOCK_SCOPE => update_scope frame
  | _ => frame
  end.

(** [maybe_end_block]: the flag returned and the context after it. *)
Definition maybe_end_block (ctx : execution_context)
  : bool * execution_context :=
  match cur_frame ctx, cur_block ctx with
  | Some frame, Some block =>
      if negb (code_offset frame =? block_end block) then (false, ctx)
      else
        let ctx := set_skip_else ctx false in
        let '(frame, ctx) :=
          match block_type block with
          | CODE_BLOCK_WHILE =>
              (set_code_offset frame (block_begin block), ctx)
          | CODE_BLOCK_IF => (frame, set_skip_else ctx true)
          | _ => (frame, ctx)
          end in
        (true,
         set_cur_frame ctx (frame_reset_post_end_block frame (block_type block)))
  | _, _ => (false, ctx)
  end.

(** Modelled from the spec: [uninstall(node)] of the namespace. *)
Definition uacpi_node_uninstall (ns : uacpi_namespace)
    (node : uacpi_namespace_node) : uacpi_namespace :=
  filter (fun other => negb (node_eqb other node)) ns.

(** Modelled from the spec: [install(parent, node)] of the namespace; the
    node already carries its parent. *)
Definition uacpi_node_install (ns : uacpi_namespace)
    (node : uacpi_namespace_node) : uacpi_status * uacpi_namespace :=
  (UACPI_STATUS_OK, node :: ns).

(** [call_frame_clear]: what is left of the namespace once the frame's
    temporary nodes are uninstalled, last one first. *)
Definition call_frame_clear (frame : call_frame) (ns : uacpi_namespace)
  : uacpi_namespace :=
  fold_left uacpi_node_uninstall (temp_nodes frame) ns.

Definition ctx_reload_post_ret (ctx : execution_context)
  : execution_context :=
  match call_stack ctx with
  | frame :: rest =>
      mk_ctx (ctx_ret ctx) rest (cur_op ctx) (skip_else ctx)
        (call_frame_clear frame (namespace ctx))
  | [] => ctx
  end.

(** Modelled from the spec: the AML encoding of the opcodes the driver and
    the block handlers name; [opcodes.h] is not part of the sources. *)
Definition UACPI_EXT_PREFIX : Z := 91.
Definition AML_ZeroOp : Z := 0.
Definition AML_OneOp : Z := 1.
Definition AML_NameOp : Z := 8.
Definition AML_ScopeOp : Z := 16.
Definition AML_IfOp : Z := 160.
Definition AML_ElseOp : Z := 161.
Definition AML_WhileOp : Z := 162.
Definition AML_ReturnOp : Z := 164.
Definition AML_DeviceOp : Z := 23426.
Definition AML_ProcessorOp : Z := 23427.
Definition AML_PowerResOp : Z := 23428.
Definition AML_ThermalZoneOp : Z := 23429.

(** Where [method_get_ret_object] points [handle_return]: at [ctx->ret],
    at the last item of the op pending in the calling frame, or nowhere. *)
Inductive ret_target : Type :=
| RetOfContext
| RetOfCaller
| RetDiscarded.

(** [method_get_ret_target] and [method_get_ret_object]. *)
Definition method_get_ret_object (ctx : execution_context) : ret_target :=
  match call_stack ctx with
  | _ :: caller :: _ =>
      match pending_ops caller with
      | [] => RetDiscarded
      | _ :: _ => RetOfCaller
      end
  | _ => RetOfContext
  end.

(** The object [uacpi_unwrap_internal_reference] stops at, replaced by
    [new] inside [obj]. *)
Fixpoint assign_unwrapped (obj new : uacpi_object) : uacpi_object :=
  match obj with
  | Reference UACPI_REFERENCE_KIND_LOCAL inner =>
      Reference UACPI_REFERENCE_KIND_LOCAL (assign_unwrapped inner new)
  | Reference UACPI_REFERENCE_KIND_ARG inner =>
      Reference UACPI_REFERENCE_KIND_ARG (assign_unwrapped inner new)
  | Reference UACPI_REFERENCE_KIND_NAMED inner =>
      Reference UACPI_REFERENCE_KIND_NAMED (assign_unwrapped inner new)
  | _ => new
  end.

Definition set_last_item (op_ctx : op_context) (it : item) : op_context :=
  mk_op_context (pc op_ctx) (preempted op_ctx) (tracked_pkg_idx op_ctx)
    (op op_ctx) (removelast (items op_ctx) ++ [it]).

(** [handle_return]. It reads the returned object from item 0 of the
    current op. *)
Definition handle_return (ctx : execution_context)
  : outcome (uacpi_status * execution_context) :=
  match cur_frame ctx, cur_op_ctx ctx with
  | Some frame, Some op_ctx =>
      let ctx := set_cur_frame ctx (set_code_offset frame (method_size frame)) in
      match method_get_ret_object ctx with
      | RetDiscarded => Returns (UACPI_STATUS_OK, ctx)
      | RetOfContext =>
          match ctx_ret ctx with
          | None => Returns (UACPI_STATUS_OK, ctx)
          | Some dst =>
              match nth_error (items op_ctx) 0 with
              | Some (ITEM_OBJECT src) =>
                  let '(ret, dst) :=
                    uacpi_object_assign dst src
                      UACPI_ASSIGN_BEHAVIOR_DEEP_COPY in
                  Returns (ret, set_ctx_ret ctx (Some dst))
              | _ => UndefinedBehaviour
              end
          end
      | RetOfCaller =>
          match call_stack ctx with
          | callee :: caller :: rest =>
              match pending_ops caller with
              | caller_op :: ops =>
                  match last (items caller_op) ITEM_NONE,
                        nth_error (items op_ctx) 0 with
                  | ITEM_OBJECT target, Some (ITEM_OBJECT src) =>
                      let '(ret, dst) :=
                        uacpi_object_assign
                          (uacpi_unwrap_internal_reference target) src
                          UACPI_ASSIGN_BEHAVIOR_DEEP_COPY in
                      let caller_op :=
                        set_last_item caller_op
                          (ITEM_OBJECT (assign_unwrapped target dst)) in
                      Returns
                        (ret,
                         mk_ctx (ctx_ret ctx)
                           (callee
                              :: set_pending_ops caller (caller_op :: ops)
                              :: rest)
                           (cur_op ctx) (skip_else ctx) (namespace ctx))
                  | ITEM_EMPTY_OBJECT None, _ => Returns (UACPI_STATUS_OK, ctx)
                  | _, _ => UndefinedBehaviour
                  end
              | [] => UndefinedBehaviour
              end
          | _ => UndefinedBehaviour
          end
      end
  | _, _ => UndefinedBehaviour
  end.

(** [pop_op]: the items are released and the op context leaves the frame. *)
Definition pop_op (ctx : execution_context) : execution_context :=
  match cur_frame ctx with
  | Some frame =>
      set_cur_frame ctx (set_pending_ops frame (tl (pending_ops frame)))
  | None => ctx
  end.

Section Driver.

Variable rt : uacpi_runtime.

(** Whether a dynamic array that holds [size] elements can take one more;
    [dynamic_array.h] and the allocator behind it are not part of the
    sources. *)
Variable dynamic_array_alloc : Z -> bool.

(** [push_op]: a fresh op context for [ctx->cur_op] on the current frame. *)
Definition push_op (ctx : execution_context)
  : outcome (uacpi_status * execution_context) :=
  match cur_frame ctx with
  | Some frame =>
      if dynamic_array_alloc (len (pending_ops frame))
      then
        Returns
          (UACPI_STATUS_OK,
           set_cur_frame ctx
             (set_pending_ops frame
                (mk_op_context 0 false 0 (cur_op ctx) []
                   :: pending_ops frame)))
      else Returns (UACPI_STATUS_OUT_OF_MEMORY, ctx)
  | None => UndefinedBehaviour
  end.

(** [frame_setup_base_scope], on the frame the driver has just allocated
    and filled with the arguments. *)
Definition frame_setup_base_scope (frame : call_frame)
    (scope : uacpi_namespace_node) (method : uacpi_control_method)
  : uacpi_status * call_frame :=
  if dynamic_array_alloc (len (code_blocks frame))
  then
    (UACPI_STATUS_OK,
     mk_frame (method_code method) (code_offset frame) scope (args frame)
       (locals frame) (pending_ops frame)
       (mk_block CODE_BLOCK_SCOPE 0 (len (method_code method)) (Some scope)
          :: code_blocks frame)
       (temp_nodes frame) (last_while frame)
       (method_named_objects_persist method))
  else (UACPI_STATUS_OUT_OF_MEMORY, frame).

(** [begin_block_execution]; the package length is item 0 of the current
    op and a scope's node is item 1. *)
Definition begin_block_execution (ctx : execution_context)
  : outcome (uacpi_status * execution_context) :=
  match cur_frame ctx, cur_op_ctx ctx with
  | Some cur_frame, Some op_ctx =>
      if negb (dynamic_array_alloc (len (code_blocks cur_frame)))
      then Returns (UACPI_STATUS_OUT_OF_MEMORY, ctx)
      else
        let code := op op_ctx in
        let start (type : code_block_type)
                  (node : option uacpi_namespace_node) :=
          match nth_error (items op_ctx) 0 with
          | Some (ITEM_PACKAGE_LENGTH pkg) =>
              let block :=
                mk_block type (pkg_begin pkg - 1) (pkg_end pkg) node in
              let cur_frame :=
                set_code_blocks cur_frame (block :: code_blocks cur_frame) in
              let cur_frame :=
                set_last_while cur_frame
                  (find_last_block (code_blocks cur_frame) CODE_BLOCK_WHILE) in
              Returns
                (UACPI_STATUS_OK, set_cur_frame ctx (update_scope cur_frame))
          | _ => UndefinedBehaviour
          end in
        if code =? AML_IfOp then start CODE_BLOCK_IF None
        else if code =? AML_ElseOp then start CODE_BLOCK_ELSE None
        else if code =? AML_WhileOp then start CODE_BLOCK_WHILE None
        else if (code =? AML_ScopeOp) || (code =? AML_DeviceOp)
                || (code =? AML_ProcessorOp) || (code =? AML_PowerResOp)
                || (code =? AML_ThermalZoneOp)
        then
          match nth_error (items op_ctx) 1 with
          | Some (ITEM_NAMESPACE_NODE (Some node))
          | Some (ITEM_NAMESPACE_NODE_METHOD_LOCAL (Some node)) =>
              start CODE_BLOCK_SCOPE (Some node)
          | _ => UndefinedBehaviour
          end
        else Returns (UACPI_STATUS_INVALID_ARGUMENT, ctx)
  | _, _ => UndefinedBehaviour
  end.

(** [create_named_scope] and [handle_create_named] attach a Named
    reference to the new node. The namespace of the model does not hold
    the objects of its nodes, so what remains is whether the reference
    could be allocated. *)
Definition create_named_scope (op_ctx : op_context) : uacpi_status :=
  if uacpi_create_object rt UACPI_OBJECT_REFERENCE then UACPI_STATUS_OK
  else UACPI_STATUS_OUT_OF_MEMORY.

Definition handle_create_named (ctx : execution_context)
  : outcome (uacpi_status * execution_context) :=
  match cur_op_ctx ctx with
  | Some op_ctx =>
      if uacpi_create_object rt UACPI_OBJECT_REFERENCE
      then Returns (UACPI_STATUS_OK, ctx)
      else Returns (UACPI_STATUS_OUT_OF_MEMORY, ctx)
  | None => UndefinedBehaviour
  end.

(** [handle_code_block] *)
Definition handle_code_block (ctx : execution_context)
  : outcome (uacpi_status * execution_context) :=
  match cur_frame ctx, cur_op_ctx ctx with
  | Some frame, Some op_ctx =>
      let code := op op_ctx in
      let enter (skip_block : bool) :=
        if skip_block
        then
          match nth_error (items op_ctx) 0 with
          | Some (ITEM_PACKAGE_LENGTH pkg) =>
              Returns
                (UACPI_STATUS_OK,
                 set_cur_frame ctx (set_code_offset frame (pkg_end pkg)))
          | _ => UndefinedBehaviour
          end
        else begin_block_execution ctx in
      if code =? AML_ElseOp then enter (skip_else ctx)
      else if (code =? AML_ProcessorOp) || (code =? AML_PowerResOp)
              || (code =? AML_ThermalZoneOp) || (code =? AML_DeviceOp)
      then
        let ret := create_named_scope op_ctx in
        if uacpi_unlikely_error ret then Returns (ret, ctx) else enter false
      else if code =? AML_ScopeOp then enter false
      else if (code =? AML_IfOp) || (code =? AML_WhileOp)
      then
        match nth_error (items op_ctx) 1 with
        | Some (ITEM_OBJECT operand) => enter (integer_of rt 1 operand =? 0)
        | _ => UndefinedBehaviour
        end
      else Returns (UACPI_STATUS_INVALID_ARGUMENT, ctx)
  | _, _ => UndefinedBehaviour
  end.

(** Whether the spec of an opcode carries [UACPI_OP_PROPERTY_RESERVED];
    the opcode table is not part of the sources. *)
Variable op_is_reserved : Z -> bool.

(** [get_op] *)
Definition get_op (ctx : execution_context)
  : outcome (uacpi_status * execution_context) :=
  match cur_frame ctx with
  | None => UndefinedBehaviour
  | Some frame =>
      let size := method_size frame in
      if size <=? code_offset frame
      then Returns (UACPI_STATUS_OUT_OF_BOUNDS, ctx)
      else
        let op := byte_at (code frame) (code_offset frame) in
        let frame := set_code_offset frame (code_offset frame + 1) in
        let finish (op : Z) (frame : call_frame) :=
          let ctx := set_cur_op (set_cur_frame ctx frame) op in
          if op_is_reserved op then Returns (UACPI_STATUS_BAD_BYTECODE, ctx)
          else Returns (UACPI_STATUS_OK, ctx) in
        if op =? UACPI_EXT_PREFIX
        then
          if size <=? code_offset frame
          then Returns (UACPI_STATUS_OUT_OF_BOUNDS, set_cur_frame ctx frame)
          else
            finish
              (Z.lor (Z.shiftl op 8)
                 (byte_at (code frame) (code_offset frame)))
              (set_code_offset frame (code_offset frame + 1))
        else finish op frame
  end.

(** [exec_op] runs the parse program of the current op up to its end or
    up to the next dynamic argument. The programs are rows of the opcode
    table, which is not part of the sources, so the driver takes the
    function as it is given. *)
Variable exec_op :
  execution_context -> outcome (uacpi_status * execution_context).

(** The loop of [uacpi_execute_control_method]: [None] when [fuel] rounds
    did not reach its end, else the status at [out] and the context. *)
Fixpoint run_method (fuel : nat) (ctx : execution_context)
  : option (outcome (uacpi_status * execution_context)) :=
  match fuel with
  | O => None
  | S fuel =>
      let exec (ctx : execution_context) :=
        match exec_op ctx with
        | UndefinedBehaviour => Some UndefinedBehaviour
        | Returns (st, ctx) =>
            if uacpi_unlikely_error st then Some (Returns (st, ctx))
            else run_method fuel (set_skip_else ctx false)
        end in
      if negb (ctx_has_non_preempted_op ctx)
      then
        match cur_frame ctx with
        | None => Some (Returns (UACPI_STATUS_OK, ctx))
        | Some frame =>
            match maybe_end_block ctx with
            | (true, ctx) => run_method fuel ctx
            | (false, _) =>
                if negb (call_frame_has_code frame)
                then run_method fuel (ctx_reload_post_ret ctx)
                else
                  match get_op ctx with
                  | UndefinedBehaviour => Some UndefinedBehaviour
                  | Returns (st, ctx) =>
                      if uacpi_unlikely_error st
                      then Some (Returns (st, ctx))
                      else exec ctx
                  end
            end
        end
      else exec ctx
  end.

(** The [out:] label: what is stored through [ret], if anything. The
    status does not enter the test. *)
Definition method_out (ret : bool) (ctx : execution_context)
  : outcome (option uacpi_object) :=
  if ret
  then
    match ctx_ret ctx with
    | None => UndefinedBehaviour
    | Some obj =>
        if object_type_eqb (type_of obj) UACPI_OBJECT_UNINITIALIZED
        then Returns None
        else Returns (Some obj)
    end
  else Returns None.

(** The size of [struct execution_context], which the ABI fixes. *)
Variable sizeof_execution_context : Z.

(** [uacpi_execute_control_method]. [args] is [None] for a null pointer
    and [ret] tells whether the caller passes a slot for the result. The
    result is the status and what was stored in the slot ([None]: the slot
    is as the caller left it). The driver does not look at the status of
    [frame_setup_base_scope]; a frame without its method cannot be run. *)
Definition uacpi_execute_control_method (fuel : nat) (ns : uacpi_namespace)
    (scope : uacpi_namespace_node) (method : uacpi_control_method)
    (args : option (list uacpi_object)) (ret : bool)
  : option (outcome (uacpi_status * option uacpi_object)) :=
  if negb (uacpi_kernel_alloc rt sizeof_execution_context)
  then Some (Returns (UACPI_STATUS_OUT_OF_MEMORY, None))
  else
    let out (st : uacpi_status) (ctx : execution_context) :=
      slot <- method_out ret ctx ;; Returns (st, slot) in
    let ctx := mk_ctx None [] 0 false ns in
    if ret && negb (uacpi_create_object rt UACPI_OBJECT_UNINITIALIZED)
    then Some (out UACPI_STATUS_OUT_OF_MEMORY ctx)
    else
      let ctx := if ret then set_ctx_ret ctx (Some Uninitialized) else ctx in
      if negb (dynamic_array_alloc 0)
      then Some (out UACPI_STATUS_OUT_OF_MEMORY ctx)
      else
        let frame := frame_at [] 0 uacpi_namespace_root in
        let ctx :=
          mk_ctx (ctx_ret ctx) [frame] (cur_op ctx) (skip_else ctx)
            (namespace ctx) in
        let start (frame : call_frame) :=
          match frame_setup_base_scope frame scope method with
          | (UACPI_STATUS_OK, frame) =>
              match run_method fuel (set_cur_frame ctx frame) with
              | None => None
              | Some UndefinedBehaviour => Some UndefinedBehaviour
              | Some (Returns (st, ctx)) => Some (out st ctx)
              end
          | _ => Some UndefinedBehaviour
          end in
        match args with
        | Some objects =>
            if negb (len objects =? method_args method)
            then Some (out UACPI_STATUS_INVALID_ARGUMENT ctx)
            else
              start
                (mk_frame (code frame) (code_offset frame) (cur_scope frame)
                   objects (locals frame) (pending_ops frame)
                   (code_blocks frame) (temp_nodes frame) (last_while frame)
                   (named_objects_persist frame))
        | None =>
            if negb (method_args method =? 0)
            then Some (out UACPI_STATUS_INVALID_ARGUMENT ctx)
            else start frame
        end.

End Driver.

(** *** Statements with constant operands *)

(** Modelled from the spec: the parse programs of the opcode table for
    While ([PKGLEN], [OPERAND], handler), Name ([CREATE_NAMESTRING],
    [TERM_ARG], handler, [INSTALL_NAMESPACE_NODE]) and Return ([TERM_ARG],
    handler), with an operand that is the constant Zero or One. The items
    of the op are filled from the code in the order of the program, the
    handler of the op is invoked and the op is popped at its [END]; the
    rounds of the driver in which the constant is fetched and handed to
    the waiting op are folded into one. *)
Definition constant_operand (frame : call_frame)
  : option (uacpi_object * call_frame) :=
  if method_size frame <=? code_offset frame then None
  else
    let byte := byte_at (code frame) (code_offset frame) in
    let frame := set_code_offset frame (code_offset frame + 1) in
    if byte =? AML_ZeroOp then Some (Integer 0, frame)
    else if byte =? AML_OneOp then Some (Integer 1, frame)
    else None.

Definition set_items (ctx : execution_context) (its : list item)
  : execution_context :=
  match cur_frame ctx with
  | Some frame =>
      match pending_ops frame with
      | op_ctx :: ops =>
          set_cur_frame ctx
            (set_pending_ops frame
               (mk_op_context (pc op_ctx) (preempted op_ctx)
                  (tracked_pkg_idx op_ctx) (op op_ctx) its :: ops))
      | [] => ctx
      end
  | None => ctx
  end.

Definition exec_statement (rt : uacpi_runtime)
    (dynamic_array_alloc : Z -> bool) (ctx : execution_context)
  : outcome (uacpi_status * execution_context) :=
  pushed <- push_op dynamic_array_alloc ctx ;;
  let '(ret, ctx) := pushed in
  if uacpi_unlikely_error ret then Returns (ret, ctx)
  else
    let finish (handled : outcome (uacpi_status * execution_context)) :=
      done <- handled ;;
      let '(ret, ctx) := done in
      if uacpi_unlikely_error ret then Returns (ret, ctx)
      else Returns (UACPI_STATUS_OK, pop_op ctx) in
    match cur_frame ctx with
    | None => UndefinedBehaviour
    | Some frame =>
        let code := cur_op ctx in
        if code =? AML_WhileOp
        then
          match parse_package_length frame (mk_pkg 0 0) with
          | (UACPI_STATUS_OK, frame, pkg) =>
              match constant_operand frame with
              | Some (operand, frame) =>
                  let ctx :=
                    set_items (set_cur_frame ctx frame)
                      [ITEM_PACKAGE_LENGTH pkg; ITEM_OBJECT operand] in
                  finish (handle_code_block rt dynamic_array_alloc ctx)
              | None => Returns (UACPI_STATUS_UNIMPLEMENTED, ctx)
              end
          | (ret, _, _) => Returns (ret, ctx)
          end
        else if code =? AML_NameOp
        then
          match resolve_name_string (namespace ctx) frame
                  RESOLVE_CREATE_LAST_NAMESEG_FAIL_IF_EXISTS None with
          | (UACPI_STATUS_OK, frame, Some node) =>
              match constant_operand frame with
              | Some (operand, frame) =>
                  let ctx :=
                    set_items (set_cur_frame ctx frame)
                      [ITEM_NAMESPACE_NODE_METHOD_LOCAL (Some node);
                       ITEM_OBJECT operand] in
                  created <- handle_create_named rt ctx ;;
                  let '(ret, ctx) := created in
                  if uacpi_unlikely_error ret then Returns (ret, ctx)
                  else
                    let '(ret, ns) :=
                      uacpi_node_install (namespace ctx) node in
                    let ctx := set_namespace ctx ns in
                    match cur_frame ctx with
                    | Some frame =>
                        if named_objects_persist frame
                        then finish (Returns (ret, ctx))
                        else if dynamic_array_alloc (len (temp_nodes frame))
                        then
                          finish
                            (Returns
                               (ret,
                                set_cur_frame ctx
                                  (set_temp_nodes frame
                                     (node :: temp_nodes frame))))
                        else Returns (UACPI_STATUS_OUT_OF_MEMORY, ctx)
                    | None => UndefinedBehaviour
                    end
              | None => Returns (UACPI_STATUS_UNIMPLEMENTED, ctx)
              end
          | (UACPI_STATUS_OK, _, None) => UndefinedBehaviour
          | (ret, _, _) => Returns (ret, ctx)
          end
        else if code =? AML_ReturnOp
        then
          match constant_operand frame with
          | Some (operand, frame) =>
              let ctx :=
                set_items (set_cur_frame ctx frame) [ITEM_OBJECT operand] in
              finish (handle_return ctx)
          | None => Returns (UACPI_STATUS_UNIMPLEMENTED, ctx)
          end
        else Returns (UACPI_STATUS_UNIMPLEMENTED, ctx)
    end.

(** A method whose body is [While (One) { Name (AAAA, One) Return (One) }]:
    the While is the last statement of the method, so its block ends where
    the method ends. *)
Definition method_with_return_in_final_while : uacpi_control_method :=
  mk_method [162; 10; 1; 8; 65; 65; 65; 65; 1; 164; 1] 0 false.

(** Two runtimes whose allocator grants every request: one for tables of
    revision 2 and later, one for tables of revision 1. *)
Definition runtime_rev2 : uacpi_runtime :=
  mk_runtime false (fun _ => true) (fun _ => true) (fun _ => 0) (fun _ _ => 0).

Definition runtime_rev1 : uacpi_runtime :=
  mk_runtime true (fun _ => true) (fun _ => true) (fun _ => 0) (fun _ _ => 0).

(** A runtime for tables of revision 2 in which an object that is no
    Integer shows its own address through its [integer] member, whatever
    its contents. *)
Definition runtime_with_addresses : uacpi_runtime :=
  mk_runtime false (fun _ => true) (fun _ => true) (fun _ => 0)
    (fun address _ => address).

Definition run_statements (fuel : nat) (method : uacpi_control_method)
    (ret : bool) : option (outcome (uacpi_status * option uacpi_object)) :=
  uacpi_execute_control_method runtime_rev2 (fun _ => true) (fun _ => false)
    (exec_statement runtime_rev2 (fun _ => true)) 0 fuel []
    uacpi_namespace_root method None ret.

(** ** Name strings as the grammar has them *)

Inductive name_prefix : Type :=
| PrefixNone
| PrefixRoot
| PrefixParents (more : nat).

Inductive name_path : Type :=
| PathSeg (seg : uacpi_object_name)
| PathDual (seg1 seg2 : uacpi_object_name)
| PathMulti (segs : list uacpi_object_name)
| PathNull.

Definition nameseg_ok (seg : uacpi_object_name) : Prop :=
  length seg = 4%nat /\ Forall (fun c => is_name_char c = true) seg.

Definition path_segments (path : name_path) : list uacpi_object_name :=
  match path with
  | PathSeg seg => [seg]
  | PathDual seg1 seg2 => [seg1; seg2]
  | PathMulti segs => segs
  | PathNull => []
  end.

Definition name_string_ok (prefix : name_prefix) (path : name_path) : Prop :=
  Forall nameseg_ok (path_segments path)
  /\ match path with PathMulti segs => len segs <= 255 | _ => True end.

Definition encode_prefix (prefix : name_prefix) : list Z :=
  match prefix with
  | PrefixNone => []
  | PrefixRoot => [char_backslash]
  | PrefixParents more => repeat char_caret (S more)
  end.

Definition encode_path (path : name_path) : list Z :=
  match path with
  | PathSeg seg => seg
  | PathDual seg1 seg2 => UACPI_DUAL_NAME_PREFIX :: seg1 ++ seg2
  | PathMulti segs => UACPI_MULTI_NAME_PREFIX :: len segs :: concat segs
  | PathNull => [UACPI_NULL_NAME]
  end.

Definition encode_name_string (prefix : name_prefix) (path : name_path)
  : list Z :=
  encode_prefix prefix ++ encode_path path.

(** The code holds [bytes] at offset [off]. *)
Definition reads (code : list Z) (off : Z) (bytes : list Z) : Prop :=
  exists before after, code = before ++ bytes ++ after /\ len before = off.

(** The node a prefix leads to from [scope]; none when a [^] would go
    behind the root. *)
Definition prefix_start (scope : uacpi_namespace_node) (prefix : name_prefix)
  : option uacpi_namespace_node :=
  match prefix with
  | PrefixNone => Some scope
  | PrefixRoot => Some uacpi_namespace_root
  | PrefixParents more =>
      if (S more <=? length scope)%nat then Some (skipn (S more) scope)
      else None
  end.

(** The scope and its ancestors, innermost first, the root last. *)
Fixpoint scope_chain (scope : uacpi_namespace_node)
  : list uacpi_namespace_node :=
  scope :: match scope with
           | [] => []
           | _ :: parent => scope_chain parent
           end.

(** Upward search as the specification words it: the lookup is tried at
    the scope and then at each ancestor up to the root; the first hit
    wins. *)
Fixpoint lookup_in_scopes (ns : uacpi_namespace) (name : uacpi_object_name)
    (scopes : list uacpi_namespace_node) : option uacpi_namespace_node :=
  match scopes with
  | [] => None
  | scope :: rest =>
      match uacpi_namespace_node_find ns scope name with
      | Some node => Some node
      | None => lookup_in_scopes ns name rest
      end
  end.

(** The walk without upward search: every segment is looked up in the
    node the previous one led to, and a miss ends the walk. *)
Fixpoint lookup_path (ns : uacpi_namespace) (start : uacpi_namespace_node)
    (segs : list uacpi_object_name) : option uacpi_namespace_node :=
  match segs with
  | [] => Some start
  | seg :: rest =>
      match uacpi_namespace_node_find ns start seg with
      | Some node => lookup_path ns node rest
      | None => None
      end
  end.

Definition is_single_nameseg (prefix : name_prefix) (path : name_path) : bool :=
  match prefix, path with
  | PrefixNone, PathSeg _ => true
  | _, _ => false
  end.

(** ** Vocabulary of the properties *)

(** The characters [resolve_name_string] consumes as a prefix. *)
Definition is_prefix_char (c : Z) : bool :=
  (c =? char_caret) || (c =? char_backslash).

(** The three comparisons [handle_binary_logic] type-checks. *)
Definition is_comparison (op : uacpi_aml_op) : bool :=
  match op with
  | UACPI_AML_OP_LEqualOp | UACPI_AML_OP_LLessOp | UACPI_AML_OP_LGreaterOp => true
  | _ => false
  end.

(** The types [handle_logical_equality] compares. *)
Definition is_comparable (t : uacpi_object_type) : bool :=
  match t with
  | UACPI_OBJECT_INTEGER | UACPI_OBJECT_STRING | UACPI_OBJECT_BUFFER => true
  | _ => false
  end.

(** The mask [scatter_bits] builds for [dst_count] bits at [dst_shift]. *)
Definition dst_mask_of (dst_count dst_shift : Z) : Z :=
  wrap16 (Z.shiftl (if dst_count <? 8 then Z.shiftl 1 dst_count - 1 else 255)
            dst_shift).

(** A chain of references of the kinds [kinds], outermost first, around [x]. *)
Fixpoint reference_chain (kinds : list uacpi_reference_kind) (x : uacpi_object)
  : uacpi_object :=
  match kinds with
  | [] => x
  | k :: rest => Reference k (reference_chain rest x)
  end.

(** What DerefOf produces for the bottom-most object [x] of a chain. *)
Definition deref_of_result (x : uacpi_object) : uacpi_object :=
  match x with
  | BufferIndex buf_idx => Integer (byte_at (buffer buf_idx) (idx buf_idx))
  | _ => x
  end.

(** The index of a buffer index lies within its buffer of bytes. *)
Definition index_in_bounds (x : uacpi_object) : Prop :=
  match x with
  | BufferIndex buf_idx =>
      0 <= idx buf_idx < len (buffer buf_idx) /\ bytes_ok (buffer buf_idx)
  | _ => True
  end.

(** The buffer [data] as ToInteger sees it: its first eight bytes,
    zero-padded to eight. *)
Definition first_8_padded (data : list Z) : list Z :=
  firstn 8 (data ++ repeat 0 8).

(** The kinds of reference [store_to_reference] accepts as a destination. *)
Definition is_store_kind (k : uacpi_reference_kind) : bool :=
  match k with
  | UACPI_REFERENCE_KIND_REFOF => false
  | _ => true
  end.

(** The kinds of the references the interpreter wraps locals, arguments
    and named objects in. *)
Definition is_internal_kind (k : uacpi_reference_kind) : bool :=
  match k with
  | UACPI_REFERENCE_KIND_LOCAL
  | UACPI_REFERENCE_KIND_ARG
  | UACPI_REFERENCE_KIND_NAMED => true
  | _ => false
  end.

(** A Store to a Local or an Arg that holds no RefOf and no package-index
    reference writes at the reference it was given: the chain [kinds]
    below a reference of kind [k] has internal references only. *)
Definition stores_at_variable (k : uacpi_reference_kind)
    (kinds : list uacpi_reference_kind) : bool :=
  match k with
  | UACPI_REFERENCE_KIND_LOCAL
  | UACPI_REFERENCE_KIND_ARG => forallb is_internal_kind kinds
  | _ => false
  end.

(** ** Paths of name strings *)

(** [uacpi_memcpy(dst + dst_off, src + src_off, n)] with both ranges
    checked. *)
Definition memcpy_at (dst : list Z) (dst_off : Z) (src : list Z)
    (src_off n : Z) : outcome (list Z) :=
  _ <- guard ((0 <=? dst_off) && (0 <=? src_off) && (0 <=? n)
              && (dst_off + n <=? len dst) && (src_off + n <=? len src)) ;;
  Returns (splice dst dst_off (slice src src_off n)).

(** The first [for (;;)] of [name_string_to_path]: it steps over the
    prefix bytes and counts them. Every iteration but the last consumes a
    byte, so [bytes_left + 1] iterations are enough. *)
Fixpoint path_prefix (fuel : nat) (code : list Z)
    (cursor bytes_left prefix_bytes : Z) : uacpi_status * (Z * Z * Z) :=
  match fuel with
  | O => (UACPI_STATUS_BAD_BYTECODE, (cursor, bytes_left, prefix_bytes))
  | S fuel' =>
      if bytes_left =? 0
      then (UACPI_STATUS_BAD_BYTECODE, (cursor, bytes_left, prefix_bytes))
      else
        let prev_char := byte_at code cursor in
        let is_prefix :=
          (prev_char =? char_caret) || (prev_char =? char_backslash) in
        let cursor := if is_prefix then cursor + 1 else cursor in
        let bytes_left := if is_prefix then bytes_left - 1 else bytes_left in
        let prefix_bytes :=
          if is_prefix then prefix_bytes + 1 else prefix_bytes in
        if negb (prev_char =? char_caret)
        then (UACPI_STATUS_OK, (cursor, bytes_left, prefix_bytes))
        else path_prefix fuel' code cursor bytes_left prefix_bytes
  end.

Definition char_dot : Z := 46.

(** The [while (namesegs-- > 0)] loop of [name_string_to_path]: the
    output and [base_cursor], as an offset into it, afterwards. *)
Fixpoint copy_namesegs (namesegs : nat) (code : list Z) (cursor : Z)
    (out : list Z) (base_cursor : Z) : outcome (list Z * Z) :=
  match namesegs with
  | O => Returns (out, base_cursor)
  | S namesegs' =>
      out <- memcpy_at out base_cursor code cursor 4 ;;
      let cursor := cursor + 4 in
      let base_cursor := base_cursor + 4 in
      match namesegs' with
      | O => copy_namesegs namesegs' code cursor out base_cursor
      | S _ =>
          out <- store out base_cursor char_dot ;;
          copy_namesegs namesegs' code cursor out (base_cursor + 1)
      end
  end.

(** [name_string_to_path]: the status and the [*out_size] bytes of
    [*out_string], or [None] where the routine returns before it assigns
    them. The memory [uacpi_kernel_alloc] returns holds zeros here; the
    routine overwrites every byte it has asked for. The sizes are
    [uacpi_size] values of 64 bits. *)
Definition name_string_to_path (rt : uacpi_runtime) (frame : call_frame)
    (offset : Z) : outcome (uacpi_status * option (list Z)) :=
  let bytes_left := method_size frame - offset in
  match path_prefix (S (Z.to_nat bytes_left)) (code frame) offset bytes_left 0
  with
  | (UACPI_STATUS_OK, (cursor, bytes_left, prefix_bytes)) =>
      if bytes_left =? 0 then Returns (UACPI_STATUS_BAD_BYTECODE, None)
      else
        let lead := byte_at (code frame) cursor in
        let build (namesegs cursor bytes_left : Z) :=
          if bytes_left <? namesegs * 4
          then Returns (UACPI_STATUS_BAD_BYTECODE, None)
          else
            let nameseg_bytes := wrap64 (namesegs * 4 + (namesegs - 1)) in
            let out_size := wrap64 (nameseg_bytes + prefix_bytes + 1) in
            if negb (uacpi_kernel_alloc rt out_size)
            then Returns (UACPI_STATUS_OUT_OF_MEMORY, None)
            else
              let out := repeat 0 (Z.to_nat out_size) in
              out <- memcpy_at out 0 (code frame) offset prefix_bytes ;;
              copied <- copy_namesegs (Z.to_nat namesegs) (code frame) cursor
                          out prefix_bytes ;;
              let '(out, base_cursor) := copied in
              out <- store out base_cursor 0 ;;
              Returns (UACPI_STATUS_OK, Some out) in
        if lead =? UACPI_DUAL_NAME_PREFIX
        then build 2 (cursor + 1) (bytes_left - 1)
        else if lead =? UACPI_MULTI_NAME_PREFIX
        then
          if bytes_left - 1 =? 0
          then Returns (UACPI_STATUS_BAD_BYTECODE, None)
          else build (byte_at (code frame) (cursor + 1)) (cursor + 2)
                 (bytes_left - 2)
        else if lead =? UACPI_NULL_NAME
        then build 0 (cursor + 1) (bytes_left - 1)
        else build 1 cursor bytes_left
  | (ret, _) => Returns (ret, None)
  end.

(** The dotted path of a list of segments. *)
Fixpoint dotted (segs : list uacpi_object_name) : list Z :=
  match segs with
  | [] => []
  | [seg] => seg
  | seg :: rest => seg ++ char_dot :: dotted rest
  end.

(** ** String op *)

(** Modelled from the spec: [uacpi_strnlen] of the support library, which
    is not part of [interpreter.c]: the number of bytes before the first
    NUL among the first [maxlen]. *)
Fixpoint uacpi_strnlen (s : list Z) (maxlen : nat) : Z :=
  match maxlen, s with
  | S maxlen', c :: rest =>
      if c =? 0 then 0 else 1 + uacpi_strnlen rest maxlen'
  | _, _ => 0
  end.

(** [handle_string]: the status, the frame and the String object of the
    last item afterwards. *)
Definition handle_string (rt : uacpi_runtime) (frame : call_frame)
    (obj : uacpi_object)
  : outcome (uacpi_status * call_frame * uacpi_object) :=
  let string := code_offset frame in
  let length :=
    uacpi_strnlen (skipn (Z.to_nat string) (code frame))
      (Z.to_nat (call_frame_code_bytes_left frame)) in
  terminator <- load (code frame) (string + length) ;;
  let length := length + 1 in
  if negb (terminator =? 0)
  then Returns (UACPI_STATUS_BAD_BYTECODE, frame, obj)
  else if negb (uacpi_kernel_alloc rt length)
  then Returns (UACPI_STATUS_OUT_OF_MEMORY, frame, obj)
  else
    Returns
      (UACPI_STATUS_OK,
       set_code_offset frame (wrap32 (code_offset frame + length)),
       String (slice (code frame) string length)).

(** ** Store and CopyObject *)

(** [debug_store_no_recurse] prints one line that describes [src]; the
    model records the object the line is about. The line of a buffer index
    shows the byte at the index, which is read from the buffer. *)
Definition debug_store_no_recurse (src : uacpi_object)
  : outcome (list uacpi_object) :=
  match src with
  | BufferIndex buf_idx =>
      _ <- load (buffer buf_idx) (idx buf_idx) ;;
      Returns [src]
  | _ => Returns [src]
  end.

(** The loop of [debug_store] over the elements of a package. *)
Fixpoint debug_store_elements (objects : list uacpi_object)
  : outcome (list uacpi_object) :=
  match objects with
  | [] => Returns []
  | obj :: rest =>
      let obj :=
        match obj with
        | Reference UACPI_REFERENCE_KIND_PKG_INDEX inner => inner
        | _ => obj
        end in
      line <- debug_store_no_recurse obj ;;
      lines <- debug_store_elements rest ;;
      Returns (line ++ lines)
  end.

(** [debug_store]: the status and the objects of the lines printed. *)
Definition debug_store (src : uacpi_object)
  : outcome (uacpi_status * list uacpi_object) :=
  let src := uacpi_unwrap_internal_reference src in
  line <- debug_store_no_recurse src ;;
  lines <- match src with
           | Package objects => debug_store_elements objects
           | _ => Returns []
           end ;;
  Returns (UACPI_STATUS_OK, line ++ lines).

(** The switch of [copy_object_to_reference]: the status and where [dst]
    points afterwards. *)
Definition copy_resolve (dst : uacpi_object) : uacpi_status * store_site :=
  match dst with
  | Reference UACPI_REFERENCE_KIND_ARG _ =>
      if is_reference (uacpi_unwrap_internal_reference dst)
      then (UACPI_STATUS_OK, AtUnwound)
      else (UACPI_STATUS_OK, AtReference)
  | Reference UACPI_REFERENCE_KIND_LOCAL _
  | Reference UACPI_REFERENCE_KIND_PKG_INDEX _
  | Reference UACPI_REFERENCE_KIND_NAMED _ => (UACPI_STATUS_OK, AtReference)
  | _ => (UACPI_STATUS_INVALID_ARGUMENT, AtReference)
  end.

(** [copy_object_to_reference]: the status and the object [dst] points to
    as it is afterwards. *)
Definition copy_object_to_reference (rt : uacpi_runtime)
    (dst src : uacpi_object) : uacpi_status * uacpi_object :=
  match copy_resolve dst with
  | (UACPI_STATUS_OK, site) =>
      let src_obj := uacpi_unwrap_internal_reference src in
      if negb (uacpi_create_object rt UACPI_OBJECT_UNINITIALIZED)
      then (UACPI_STATUS_OUT_OF_MEMORY, dst)
      else
        match uacpi_object_assign Uninitialized src_obj
                UACPI_ASSIGN_BEHAVIOR_DEEP_COPY with
        | (UACPI_STATUS_OK, new_obj) =>
            (UACPI_STATUS_OK,
             update_site site (object_replace_child new_obj) dst)
        | (ret, _) => (ret, dst)
        end
  | (ret, _) => (ret, dst)
  end.

(** [store_to_target]: the status, [dst] as it is afterwards and the
    objects of the lines a store to the Debug object prints. *)
Definition store_to_target (rt : uacpi_runtime) (dst src : uacpi_object)
  : outcome (uacpi_status * uacpi_object * list uacpi_object) :=
  match dst with
  | Debug =>
      r <- debug_store src ;;
      let '(ret, lines) := r in
      Returns (ret, dst, lines)
  | Reference _ _ =>
      r <- store_to_reference rt dst src ;;
      let '(ret, dst) := r in
      Returns (ret, dst, [])
  | BufferIndex _ =>
      r <- object_assign_with_implicit_cast rt dst src ;;
      let '(ret, dst) := r in
      Returns (ret, dst, [])
  | Integer 0 => Returns (UACPI_STATUS_OK, dst, [])
  | _ => Returns (UACPI_STATUS_BAD_BYTECODE, dst, [])
  end.

(** [handle_copy_object_or_store]. [src] is the object of item 0 and
    [dst] the object of item 1. *)
Definition handle_copy_object_or_store (rt : uacpi_runtime)
    (op : uacpi_aml_op) (src dst : uacpi_object)
  : outcome (uacpi_status * uacpi_object * list uacpi_object) :=
  match op with
  | UACPI_AML_OP_StoreOp => store_to_target rt dst src
  | _ =>
      if negb (is_reference dst)
      then Returns (UACPI_STATUS_BAD_BYTECODE, dst, [])
      else
        let '(ret, dst) := copy_object_to_reference rt dst src in
        Returns (ret, dst, [])
  end.

(** ** Unary operations *)

Definition AML_CreateDWordFieldOp : Z := 138.
Definition AML_CreateWordFieldOp : Z := 139.
Definition AML_CreateByteFieldOp : Z := 140.
Definition AML_CreateBitFieldOp : Z := 141.
Definition AML_CreateQWordFieldOp : Z := 143.
Definition AML_BreakOp : Z := 165.
Definition AML_CreateFieldOp : Z := 23315.


Section UnaryMath.

(** [uacpi_bit_scan_forward] and [uacpi_bit_scan_backward] of the support
    library, which is not part of the sources. *)
Variables uacpi_bit_scan_forward uacpi_bit_scan_backward : Z -> Z.


End UnaryMath.

(** ** Index and Sizeof *)

Definition log_invalid_index : uacpi_log_level * string :=
  (UACPI_LOG_WARN, "Invalid index %zu, object has %zu elements"%string).

Definition ensure_valid_idx (idx src_size : Z) : uacpi_status * kernel_log :=
  if idx <? src_size then (UACPI_STATUS_OK, [])
  else (UACPI_STATUS_BAD_BYTECODE, [log_invalid_index]).

Definition log_invalid_index_argument : uacpi_log_level * string :=
  (UACPI_LOG_WARN,
   "Invalid argument for Index: %s, expected String/Buffer/Package"%string).

(** [handle_index]. [src] is the object of item 0 and [idx] the integer of
    the object of item 1. The result is the status, [src] as it is
    afterwards (the element of a package is wrapped in a package-index
    reference where it was not), the object of item 3 and the log. The
    buffer of a buffer index is the buffer of [src] itself, and the object
    for a package is the element itself; the model hands out their values. *)
Definition handle_index (rt : uacpi_runtime) (src : uacpi_object) (idx : Z)
  : uacpi_status * uacpi_object * option uacpi_object * kernel_log :=
  match src with
  | Buffer _ | String _ =>
      match get_object_storage rt src false with
      | (_, buf) =>
          match ensure_valid_idx idx (len buf) with
          | (UACPI_STATUS_OK, _) =>
              if negb (uacpi_create_object rt UACPI_OBJECT_BUFFER_INDEX)
              then (UACPI_STATUS_OUT_OF_MEMORY, src, None, [])
              else
                (UACPI_STATUS_OK, src,
                 Some (BufferIndex (mk_buffer_index idx (buffer_of src))), [])
          | (ret, log) => (ret, src, None, log)
          end
      end
  | Package objects =>
      match ensure_valid_idx idx (len objects) with
      | (UACPI_STATUS_OK, _) =>
          let obj := nth (Z.to_nat idx) objects Uninitialized in
          match obj with
          | Reference UACPI_REFERENCE_KIND_PKG_INDEX _ =>
              (UACPI_STATUS_OK, src, Some obj, [])
          | _ =>
              if negb (uacpi_create_object rt UACPI_OBJECT_REFERENCE)
              then (UACPI_STATUS_OUT_OF_MEMORY, src, None, [])
              else
                let obj := Reference UACPI_REFERENCE_KIND_PKG_INDEX obj in
                (UACPI_STATUS_OK,
                 Package (firstn (Z.to_nat idx) objects ++ obj
                            :: skipn (S (Z.to_nat idx)) objects),
                 Some obj, [])
          end
      | (ret, log) => (ret, src, None, log)
      end
  | _ => (UACPI_STATUS_BAD_BYTECODE, src, None, [log_invalid_index_argument])
  end.

Definition log_invalid_sizeof_argument : uacpi_log_level * string :=
  (UACPI_LOG_WARN,
   "Invalid argument for Sizeof: %s, expected String/Buffer/Package"%string).

(** [handle_sizeof]. [src] is the object of item 0 and [dst] the integer
    of the object of item 1. *)
Definition handle_sizeof (rt : uacpi_runtime) (src : uacpi_object) (dst : Z)
  : outcome (uacpi_status * Z * kernel_log) :=
  src <- (if is_reference src then inner_of (reference_unwind src)
          else Returns src) ;;
  match src with
  | String _ | Buffer _ =>
      Returns (UACPI_STATUS_OK, len (snd (get_object_storage rt src false)), [])
  | Package objects => Returns (UACPI_STATUS_OK, len objects, [])
  | _ =>
      Returns (UACPI_STATUS_BAD_BYTECODE, dst, [log_invalid_sizeof_argument])
  end.

(** ** ToString, Mid and Concatenate *)

(** [handle_to_string]. [src] is the object of item 0, [req_len] the
    integer of the object of item 1 and [dst] the object of item 3. *)
Definition handle_to_string (rt : uacpi_runtime) (src : uacpi_object)
    (req_len : Z) (dst : uacpi_object) : uacpi_status * uacpi_object :=
  let src_buf := buffer_of src in
  let n := Z.min req_len (len src_buf) in
  if n =? 0
  then
    match make_null_string rt with
    | (UACPI_STATUS_OK, data) => (UACPI_STATUS_OK, set_buffer dst data)
    | (ret, _) => (ret, dst)
    end
  else
    let n := uacpi_strnlen src_buf (Z.to_nat n) in
    if negb (uacpi_kernel_alloc rt (n + 1))
    then (UACPI_STATUS_OUT_OF_MEMORY, dst)
    else (UACPI_STATUS_OK, set_buffer dst (slice src_buf 0 n ++ [0])).

Definition log_invalid_mid_argument : uacpi_log_level * string :=
  (UACPI_LOG_WARN,
   "Invalid argument for Mid: %s, expected String/Buffer"%string).

(** [handle_mid]. [src] is the object of item 0, [idx] and [length] the
    integers of the objects of items 1 and 2 and [dst] the object of
    item 4. For a String source [dst] becomes a String before anything is
    allocated. *)
Definition handle_mid (rt : uacpi_runtime) (src : uacpi_object)
    (idx length : Z) (dst : uacpi_object)
  : uacpi_status * uacpi_object * kernel_log :=
  match src with
  | String _ | Buffer _ =>
      let is_string := match src with String _ => true | _ => false end in
      let src_buf := snd (get_object_storage rt src false) in
      if (len src_buf =? 0) || (len src_buf <=? idx)
      then
        if is_string
        then
          match make_null_string rt with
          | (UACPI_STATUS_OK, data) => (UACPI_STATUS_OK, String data, [])
          | (ret, _) => (ret, String (buffer_of dst), [])
          end
        else
          match make_null_buffer rt with
          | (UACPI_STATUS_OK, data) =>
              (UACPI_STATUS_OK, set_buffer dst data, [])
          | (ret, _) => (ret, dst, [])
          end
      else
        let length := Z.min length (len src_buf - idx) in
        if negb (uacpi_kernel_alloc rt (length + (if is_string then 1 else 0)))
        then (UACPI_STATUS_OUT_OF_MEMORY, dst, [])
        else
          let data := slice src_buf idx length in
          if is_string then (UACPI_STATUS_OK, String (data ++ [0]), [])
          else (UACPI_STATUS_OK, set_buffer dst data, [])
  | _ => (UACPI_STATUS_BAD_BYTECODE, dst, [log_invalid_mid_argument])
  end.

Definition hex_digit_lower (d : Z) : Z := if d <? 10 then 48 + d else 87 + d.

(** The digits of [v] in base 16, lower case, most significant first. *)
Fixpoint hex_digits_lower (fuel : nat) (v : Z) (acc : list Z) : list Z :=
  match fuel with
  | O => acc
  | S fuel' =>
      let acc := hex_digit_lower (v mod 16) :: acc in
      if v / 16 =? 0 then acc else hex_digits_lower fuel' (v / 16) acc
  end.

(** Modelled from the spec: [uacpi_snprintf] of the support library at the
    format [%llx] of a 64-bit integer: the characters written, without
    the terminator; a negative return is [None]. *)
Definition snprintf_x64 (v : Z) : option (list Z) :=
  Some (hex_digits_lower 64 v []).

(** [handle_concatenate]. [arg0] and [arg1] are the objects of items 0
    and 1 and [dst] the object of item 3. The Buffer case does not look
    at the status of [get_object_storage], and uses a length and a pointer
    that have no value when it fails. *)
Definition handle_concatenate (rt : uacpi_runtime)
    (arg0 arg1 dst : uacpi_object) : outcome (uacpi_status * uacpi_object) :=
  let finish (is_string : bool) (data : list Z) :=
    if negb (uacpi_kernel_alloc rt (len data))
    then Returns (UACPI_STATUS_OUT_OF_MEMORY, dst)
    else
      Returns (UACPI_STATUS_OK,
               if is_string then String data else set_buffer dst data) in
  match arg0 with
  | Integer v =>
      let int_size := Z.to_nat (sizeof_int rt) in
      let arg1_as_int := object_to_integer rt arg1 8 in
      finish false (le_split int_size v ++ le_split int_size arg1_as_int)
  | Buffer data =>
      match get_object_storage rt arg1 true with
      | (UACPI_STATUS_OK, arg1_buf) => finish false (data ++ arg1_buf)
      | _ => UndefinedBehaviour
      end
  | String text =>
      let arg0_size := if len text =? 0 then len text else len text - 1 in
      match arg1 with
      | Integer v =>
          match snprintf_x64 v with
          | Some repr =>
              finish true (firstn (Z.to_nat arg0_size) text ++ repr ++ [0])
          | None => Returns (UACPI_STATUS_INVALID_ARGUMENT, dst)
          end
      | String text1 =>
          finish true (firstn (Z.to_nat arg0_size) text ++ text1)
      | _ => Returns (UACPI_STATUS_INVALID_ARGUMENT, dst)
      end
  | _ => Returns (UACPI_STATUS_INVALID_ARGUMENT, dst)
  end.

(** ** Buffer fields of a buffer *)

(** [buffer_field_get_read_type] *)
Definition buffer_field_get_read_type (rt : uacpi_runtime)
    (field : uacpi_buffer_field) : uacpi_object_type :=
  if ((if is_rev1 rt then 32 else 64) <? bit_length field)
     || force_buffer field
  then UACPI_OBJECT_BUFFER
  else UACPI_OBJECT_INTEGER.

(** [handle_field_read]. [field] is the buffer field of the node of item 0
    and [dst_obj] the object of item 1. An Integer is read into the eight
    bytes of [dst_obj->integer], a Buffer into fresh zeroed memory. *)
Definition handle_field_read (rt : uacpi_runtime) (field : uacpi_buffer_field)
    (dst_obj : uacpi_object) : outcome (uacpi_status * uacpi_object) :=
  match buffer_field_get_read_type rt field with
  | UACPI_OBJECT_BUFFER =>
      let buf_size := buffer_field_byte_size field in
      if negb (uacpi_kernel_alloc rt buf_size)
      then Returns (UACPI_STATUS_OUT_OF_MEMORY, dst_obj)
      else
        out <- do_read_buffer_field field (repeat 0 (Z.to_nat buf_size)) ;;
        Returns (UACPI_STATUS_OK, set_buffer dst_obj out)
  | _ =>
      out <- do_read_buffer_field field (le_split 8 (integer_of rt 1 dst_obj)) ;;
      Returns (UACPI_STATUS_OK, Integer (le_combine out))
  end.

Definition log_invalid_bit_field_length : uacpi_log_level * string :=
  (UACPI_LOG_WARN, "invalid bit field length (%llu)"%string).

Definition log_invalid_buffer_field : uacpi_log_level * string :=
  (UACPI_LOG_WARN,
   "Invalid buffer field: bits [%zu..%zu], buffer size is %zu bytes"%string).

(** [handle_create_buffer_field]. [src_buf] holds the bytes of the buffer
    of item 0, [idx] and [length] are the integers of the index object and
    (for CreateField) of the length object, and [field] is the buffer
    field of the object being created. The result is the status, the
    field as it is afterwards and the log. Bit offsets are [uacpi_size]
    values of 64 bits. *)
Definition handle_create_buffer_field (rt : uacpi_runtime) (code : Z)
    (src_buf : list Z) (idx length : Z) (field : uacpi_buffer_field)
  : uacpi_status * uacpi_buffer_field * kernel_log :=
  let check (field : uacpi_buffer_field) :=
    if len src_buf * 8 <? wrap64 (bit_index field + bit_length field)
    then (UACPI_STATUS_BAD_BYTECODE, field, [log_invalid_buffer_field])
    else
      let field :=
        mk_field src_buf (bit_index field) (bit_length field)
          (force_buffer field) in
      if negb (uacpi_create_object rt UACPI_OBJECT_REFERENCE)
      then (UACPI_STATUS_OUT_OF_MEMORY, field, [])
      else (UACPI_STATUS_OK, field, []) in
  if code =? AML_CreateFieldOp
  then
    let field :=
      mk_field (backing field) idx (bit_length field) (force_buffer field) in
    if (length =? 0) || (4294967295 <? length)
    then (UACPI_STATUS_BAD_BYTECODE, field, [log_invalid_bit_field_length])
    else check (mk_field (backing field) (bit_index field) length true)
  else
    let field :=
      mk_field (backing field) (wrap64 (idx * 8)) (bit_length field)
        (force_buffer field) in
    let sized (bits : Z) :=
      check (mk_field (backing field) (bit_index field) bits
               (force_buffer field)) in
    if code =? AML_CreateBitFieldOp then sized 1
    else if code =? AML_CreateByteFieldOp then sized 8
    else if code =? AML_CreateWordFieldOp then sized 16
    else if code =? AML_CreateDWordFieldOp then sized 32
    else if code =? AML_CreateQWordFieldOp then sized 64
    else (UACPI_STATUS_INVALID_ARGUMENT, field, []).

(** ** Break and Continue *)

Definition option_node_eqb (a b : option uacpi_namespace_node) : bool :=
  match a, b with
  | Some x, Some y => node_eqb x y
  | None, None => true
  | _, _ => false
  end.

(** Whether [ctx->cur_block] and [frame->last_while] point at the same
    block. Two blocks that are open at once in a frame differ in their
    offsets or in their type, so the pointers are equal when the blocks
    are. *)
Definition same_block (a b : option code_block) : bool :=
  match a, b with
  | Some x, Some y =>
      code_block_type_eqb (block_type x) (block_type y)
      && (block_begin x =? block_begin y) && (block_end x =? block_end y)
      && option_node_eqb (block_node x) (block_node y)
  | None, None => true
  | _, _ => false
  end.

(** The loop of [handle_control_flow] on the current frame; every
    iteration pops a block, so one more than there are blocks is enough. *)
Fixpoint control_flow_loop (fuel : nat) (is_break : bool) (frame : call_frame)
  : outcome call_frame :=
  match fuel with
  | O => UndefinedBehaviour
  | S fuel' =>
      match hd_error (code_blocks frame) with
      | None => UndefinedBehaviour
      | Some block =>
          if negb (same_block (Some block) (last_while frame))
          then
            control_flow_loop fuel' is_break
              (frame_reset_post_end_block frame (block_type block))
          else
            let frame :=
              set_code_offset frame
                (if is_break then block_end block else block_begin block) in
            Returns (frame_reset_post_end_block frame (block_type block))
      end
  end.

(** [handle_control_flow] *)
Definition handle_control_flow (ctx : execution_context)
  : outcome (uacpi_status * execution_context) :=
  match cur_frame ctx, cur_op_ctx ctx with
  | Some frame, Some op_ctx =>
      frame <- control_flow_loop (S (length (code_blocks frame)))
                 (op op_ctx =? AML_BreakOp) frame ;;
      Returns (UACPI_STATUS_OK, set_cur_frame ctx frame)
  | _, _ => UndefinedBehaviour
  end.

(** ** Package op *)

Definition log_package_too_large : uacpi_log_level * string :=
  (UACPI_LOG_WARN,
   "package is too large (%llu), assuming corrupted bytestream"%string).

Definition log_too_many_package_initializers : uacpi_log_level * string :=
  (UACPI_LOG_WARN, "too many package initializers: %u, truncating to %u"%string).

(** Modelled from the spec: [uacpi_package_fill] of the object library,
    which is not part of [interpreter.c]: it creates every object of the
    package, each one Uninitialized, and fails when memory runs out. *)
Definition uacpi_package_fill (rt : uacpi_runtime) (num_elements : Z)
  : option (list uacpi_object) :=
  if uacpi_kernel_alloc rt num_elements
     && uacpi_create_object rt UACPI_OBJECT_UNINITIALIZED
  then Some (repeat Uninitialized (Z.to_nat num_elements))
  else None.

(** The third step of [handle_package]: the defined elements, each with
    the AML offset recorded before it, are copied into the package from
    its element [i] on. An element that is a Named reference or was left
    unresolved becomes a String that holds its path; the model of a String
    does not carry the flag that marks it as a path. *)
Fixpoint package_copy_elements (rt : uacpi_runtime) (frame : call_frame)
    (defined : list (Z * option uacpi_object)) (i : nat)
    (objects : list uacpi_object)
  : outcome (uacpi_status * list uacpi_object) :=
  match defined with
  | [] => Returns (UACPI_STATUS_OK, objects)
  | (aml_pc, obj) :: rest =>
      let obj :=
        match obj with
        | Some (Reference UACPI_REFERENCE_KIND_NAMED _) => None
        | Some (Reference _ _ as ref) =>
            Some (uacpi_unwrap_internal_reference ref)
        | _ => obj
        end in
      resolved <-
        match obj with
        | Some obj => Returns (UACPI_STATUS_OK, obj)
        | None =>
            if negb (uacpi_create_object rt UACPI_OBJECT_STRING)
            then Returns (UACPI_STATUS_OUT_OF_MEMORY, Uninitialized)
            else
              r <- name_string_to_path rt frame aml_pc ;;
              match r with
              | (UACPI_STATUS_OK, Some path) =>
                  Returns (UACPI_STATUS_OK, String path)
              | (ret, _) => Returns (ret, Uninitialized)
              end
        end ;;
      match resolved with
      | (UACPI_STATUS_OK, obj) =>
          _ <- guard (Nat.ltb i (length objects)) ;;
          match uacpi_object_assign (nth i objects Uninitialized) obj
                  UACPI_ASSIGN_BEHAVIOR_DEEP_COPY with
          | (UACPI_STATUS_OK, copy) =>
              package_copy_elements rt frame rest (S i)
                (firstn i objects ++ copy :: skipn (S i) objects)
          | (ret, _) => Returns (ret, objects)
          end
      | (ret, _) => Returns (ret, objects)
      end
  end.

(** [handle_package]. [is_var_package] tells VarPackage from Package,
    [num] is the integer of the object of item 1 (its immediate for
    Package), [defined] the pairs of items 2 to N-2 and [package] the
    objects of the package of the last item. *)
Definition handle_package (rt : uacpi_runtime) (frame : call_frame)
    (is_var_package : bool) (num : Z)
    (defined : list (Z * option uacpi_object)) (package : list uacpi_object)
  : outcome (uacpi_status * list uacpi_object * kernel_log) :=
  if is_var_package && (3758096384 <? num)
  then Returns (UACPI_STATUS_BAD_BYTECODE, package, [log_package_too_large])
  else
    let num_elements := wrap32 num in
    let num_defined_elements := wrap32 (len defined) in
    let truncated := num_elements <? num_defined_elements in
    let num_defined_elements :=
      if truncated then num_elements else num_defined_elements in
    let log := if truncated then [log_too_many_package_initializers] else [] in
    match uacpi_package_fill rt num_elements with
    | None => Returns (UACPI_STATUS_OUT_OF_MEMORY, package, log)
    | Some objects =>
        r <- package_copy_elements rt frame
               (firstn (Z.to_nat num_defined_elements) defined) 0 objects ;;
        let '(ret, objects) := r in
        Returns (ret, objects, log)
    end.

(** ** Vocabulary of the further properties *)

(** The number of bytes behind an object that has storage of its own or
    shares that of a buffer. *)
Definition storage_size (obj : uacpi_object) : Z :=
  match obj with
  | String data | Buffer data => len data
  | BufferField field => len (backing field)
  | BufferIndex buf_idx => len (buffer buf_idx)
  | _ => 0
  end.

(** Bit [j] of the value of a buffer field: bit [bit_index + j] of the
    backing buffer for the bits of the field, zero above it. *)
Definition field_bit (field : uacpi_buffer_field) (j : Z) : bool :=
  (j <? bit_length field) && bit_at (backing field) (bit_index field + j).

(** The value of a digit character [0-9A-Z]. *)
Definition digit_value (c : Z) : Z := if c <? 58 then c - 48 else c - 55.

(** The number a string of digits denotes in [base], after [acc]. *)
Fixpoint number_of (base : Z) (digits : list Z) (acc : Z) : Z :=
  match digits with
  | [] => acc
  | c :: rest => number_of base rest (acc * base + digit_value c)
  end.

(** A character that is a digit of [base], in upper case. *)
Definition is_digit_of (base : Z) (c : Z) : Prop :=
  0 <= digit_value c < base /\ hex_digit (digit_value c) = c.

(** The number of decimal digits of a byte. *)
Definition decimal_width (b : Z) : Z :=
  if b <? 10 then 1 else if b <? 100 then 2 else 3.

(** The number of characters the values of a buffer take in a string:
    four each in hexadecimal, their decimal digits otherwise. *)
Fixpoint text_width (is_hex : bool) (buf : list Z) : Z :=
  match buf with
  | [] => 0
  | b :: rest => (if is_hex then 4 else decimal_width b) + text_width is_hex rest
  end.

(** The blocks of If and Else. *)
Definition is_conditional_block (block : code_block) : bool :=
  match block_type block with
  | CODE_BLOCK_IF | CODE_BLOCK_ELSE => true
  | _ => false
  end.

Definition is_while_block (block : code_block) : bool :=
  code_block_type_eqb (block_type block) CODE_BLOCK_WHILE.

(** * Properties *)

(** ** Bytes and little-endian values *)

Lemma len_nonneg {A : Type} (l : list A) : 0 <= len l.
Proof. unfold len; lia. Qed.

Lemma byte_at_is_byte (l : list Z) (i : Z) :
  bytes_ok l -> is_byte (byte_at l i).
Proof.
  intros H. unfold byte_at.
  destruct (Nat.lt_ge_cases (Z.to_nat i) (length l)) as [Hlt | Hge].
  - unfold bytes_ok in H. rewrite Forall_forall in H. apply H. now apply nth_In.
  - rewrite nth_overflow by exact Hge. unfold is_byte; lia.
Qed.

Lemma slice_cons (l : list Z) (off n : Z) :
  0 <= off < len l -> 0 < n ->
  slice l off n = byte_at l off :: slice l (off + 1) (n - 1).
Proof.
  unfold slice, byte_at, len. intros Hoff Hn.
  replace (Z.to_nat n) with (S (Z.to_nat (n - 1))) by lia.
  replace (Z.to_nat (off + 1)) with (S (Z.to_nat off)) by lia.
  assert (Hlt : (Z.to_nat off < length l)%nat) by lia.
  clear Hoff Hn. generalize (Z.to_nat off) Hlt. clear.
  induction l as [| a l IH]; intros k Hk; simpl in *; [lia |].
  destruct k as [| k]; simpl.
  - now destruct l.
  - apply IH. lia.
Qed.

Lemma slice_zero (l : list Z) (off : Z) : slice l off 0 = [].
Proof. reflexivity. Qed.

Lemma land_byte_shiftl_8 (b r : Z) : is_byte b -> Z.land b (Z.shiftl r 8) = 0.
Proof.
  intros Hb. unfold is_byte in Hb.
  rewrite <- (Z.mod_small b (2 ^ 8)) by lia.
  Z.bitblast. subst l. rewrite (Z.testbit_neg_r r) by lia. apply andb_false_r.
Qed.

Lemma lor_shiftl_8_add (b r : Z) :
  is_byte b -> Z.lor b (Z.shiftl r 8) = b + 256 * r.
Proof.
  intros Hb. pose proof (land_byte_shiftl_8 b r Hb) as Hl.
  rewrite <- Z.lxor_lor by exact Hl.
  rewrite <- Z.add_nocarry_lxor by exact Hl.
  rewrite Z.shiftl_mul_pow2 by lia. lia.
Qed.

Lemma le_combine_1 (b1 : Z) : le_combine [b1] = b1.
Proof. simpl. now rewrite Z.lor_0_r. Qed.

Lemma le_combine_cons (b : Z) (t : list Z) :
  is_byte b -> le_combine (b :: t) = b + 256 * le_combine t.
Proof. intros Hb. simpl. now apply lor_shiftl_8_add. Qed.

(** ** Package length *)

Lemma extra_bytes_range (l : Z) : is_byte l -> 0 <= extra_bytes l <= 3.
Proof.
  unfold is_byte, extra_bytes. intros H.
  rewrite Z.shiftr_div_pow2 by lia. change (2 ^ 6) with 64.
  split; [apply Z.div_pos; lia | ].
  assert (l / 64 < 4) by (apply Z.div_lt_upper_bound; lia). lia.
Qed.

(** C6. The package length decoder is bit-exact: [begin] is the offset of
    the lead byte [L]; [L >> 6] extra bytes follow; the total is [L & 0x3F]
    without extra bytes and [(L & 0x0F) | (next_bytes << 4)] with the
    following one to three bytes read little-endian; [end] is [begin] plus
    that total in 32-bit arithmetic (exactly [begin + size] whenever that
    fits); the cursor moves past the length bytes; a stream with fewer bytes
    left than the encoding requires is bad bytecode and leaves the frame as
    it was. *)
Theorem parse_package_length_bit_exact
    (frame : call_frame) (out_pkg : package_length) :
  bytes_ok (code frame) ->
  0 <= code_offset frame <= len (code frame) ->
  len (code frame) < 2 ^ 32 ->
  let off := code_offset frame in
  let L := byte_at (code frame) off in
  let left := len (code frame) - off in
  let size := total_size L (byte_at (code frame) (off + 1))
                (byte_at (code frame) (off + 2))
                (byte_at (code frame) (off + 3)) in
  (left < 1 + extra_bytes L ->
   parse_package_length frame out_pkg =
     (UACPI_STATUS_BAD_BYTECODE, frame, mk_pkg off (pkg_end out_pkg)))
  /\
  (1 + extra_bytes L <= left ->
   parse_package_length frame out_pkg =
     (UACPI_STATUS_OK,
      set_code_offset frame (off + 1 + extra_bytes L),
      mk_pkg off (wrap32 (off + size)))
   /\ 0 <= extra_bytes L <= 3
   /\ (off + size < 2 ^ 32 -> wrap32 (off + size) = off + size)).
Proof.
  intros Hok Hoff Hsz off L left size.
  assert (HL : is_byte L) by (apply byte_at_is_byte; exact Hok).
  pose proof (extra_bytes_range L HL) as Hx.
  assert (Hleft : wrap32 (call_frame_code_bytes_left frame) = left).
  { unfold wrap32, call_frame_code_bytes_left, method_size. apply Z.mod_small.
    subst left off. lia. }
  assert (Hmk : wrap8 (1 + Z.shiftr L 6) = 1 + extra_bytes L).
  { unfold wrap8. apply Z.mod_small. unfold extra_bytes in *. lia. }
  unfold parse_package_length. fold off. fold L. cbv zeta.
  rewrite Hleft, Hmk. cbn [pkg_begin pkg_end].
  split.
  - intros Hlt.
    destruct (left <? 1) eqn:E1; [reflexivity |].
    destruct (left <? 1 + extra_bytes L) eqn:E2; [reflexivity |].
    apply Z.ltb_ge in E2. lia.
  - intros Hge.
    assert (E1 : (left <? 1) = false) by (apply Z.ltb_ge; lia).
    assert (E2 : (left <? 1 + extra_bytes L) = false) by (apply Z.ltb_ge; lia).
    rewrite E1, E2.
    assert (Hsize_eq :
      (if 1 + extra_bytes L =? 1 then Z.land L 63
       else Z.lor (Z.land L 15)
              (wrap32 (Z.shiftl
                 (le_combine (slice (code frame) (off + 1)
                                (1 + extra_bytes L - 1))) 4))) = size).
    { subst size. unfold total_size.
      pose proof (byte_at_is_byte (code frame) (off + 1) Hok) as H1.
      pose proof (byte_at_is_byte (code frame) (off + 2) Hok) as H2.
      pose proof (byte_at_is_byte (code frame) (off + 3) Hok) as H3.
      unfold is_byte in H1, H2, H3.
      assert (Hcase : extra_bytes L = 0 \/ extra_bytes L = 1 \/
                      extra_bytes L = 2 \/ extra_bytes L = 3) by lia.
      assert (Hw : forall v, 0 <= v < 2 ^ 24 ->
                   wrap32 (Z.shiftl v 4) = Z.shiftl v 4).
      { intros v Hv. unfold wrap32. apply Z.mod_small.
        rewrite Z.shiftl_mul_pow2 by lia. lia. }
      destruct Hcase as [E | [E | [E | E]]]; rewrite E; cbn [Z.add Z.eqb Pos.add Pos.eqb Pos.succ Z.sub Z.opp Z.pos_sub Z.succ_double Z.pred_double Z.double Pos.pred_double].
      + reflexivity.
      + rewrite slice_cons by (subst left off; unfold len in *; lia).
        rewrite slice_zero, le_combine_1, Hw by lia. reflexivity.
      + rewrite slice_cons by (subst left off; unfold len in *; lia).
        rewrite slice_cons by (subst left off; unfold len in *; lia).
        replace (off + 1 + 1) with (off + 2) by lia.
        rewrite slice_zero, le_combine_cons, le_combine_1 by exact H1.
        rewrite Hw by lia. reflexivity.
      + rewrite slice_cons by (subst left off; unfold len in *; lia).
        rewrite slice_cons by (subst left off; unfold len in *; lia).
        rewrite slice_cons by (subst left off; unfold len in *; lia).
        replace (off + 1 + 1) with (off + 2) by lia.
        replace (off + 2 + 1) with (off + 3) by lia.
        rewrite slice_zero, le_combine_cons, le_combine_cons, le_combine_1
          by assumption.
        rewrite Hw by lia.
        replace (byte_at (code frame) (off + 1) +
                 256 * (byte_at (code frame) (off + 2) +
                        256 * byte_at (code frame) (off + 3)))
          with (byte_at (code frame) (off + 1) +
                256 * byte_at (code frame) (off + 2) +
                65536 * byte_at (code frame) (off + 3)) by lia.
        reflexivity. }
    rewrite Hsize_eq.
    assert (Hoff' : wrap32 (off + (1 + extra_bytes L)) = off + 1 + extra_bytes L).
    { unfold wrap32. rewrite Z.mod_small by (subst left off; lia). lia. }
    rewrite Hoff'.
    repeat split; try lia.
    intros Hfit. unfold wrap32. apply Z.mod_small.
    split; [| exact Hfit].
    assert (0 <= size); [| subst off; lia].
    subst size. unfold total_size.
    pose proof (byte_at_is_byte (code frame) (off + 1) Hok) as H1.
    pose proof (byte_at_is_byte (code frame) (off + 2) Hok) as H2.
    pose proof (byte_at_is_byte (code frame) (off + 3) Hok) as H3.
    unfold is_byte in H1, H2, H3.
    assert (Hcase : extra_bytes L = 0 \/ extra_bytes L = 1 \/
                    extra_bytes L = 2 \/ extra_bytes L = 3) by lia.
    destruct Hcase as [E | [E | [E | E]]]; rewrite E.
    + apply Z.land_nonneg; right; lia.
    + apply Z.lor_nonneg; split;
        [apply Z.land_nonneg; right; lia | apply Z.shiftl_nonneg; lia].
    + apply Z.lor_nonneg; split;
        [apply Z.land_nonneg; right; lia | apply Z.shiftl_nonneg; lia].
    + apply Z.lor_nonneg; split;
        [apply Z.land_nonneg; right; lia | apply Z.shiftl_nonneg; lia].
Qed.

(** A two-byte encoding: lead byte [0x48] and one extra byte [0x01]
    encode the size [0x18]. *)
Lemma parse_package_length_bit_exact_witness :
  parse_package_length (frame_at [160; 72; 1; 0] 1 []) (mk_pkg 0 0)
  = (UACPI_STATUS_OK, frame_at [160; 72; 1; 0] 3 [], mk_pkg 1 25).
Proof.
  refine (proj1 (proj2 (parse_package_length_bit_exact
                          (frame_at [160; 72; 1; 0] 1 []) (mk_pkg 0 0)
                          _ _ _) _)).
  - unfold bytes_ok, is_byte. repeat constructor; lia.
  - vm_compute. split; discriminate.
  - vm_compute. reflexivity.
  - vm_compute. discriminate.
Defined.

(** ** Conversions *)

Lemma le_combine_nonneg (l : list Z) : bytes_ok l -> 0 <= le_combine l.
Proof.
  induction 1 as [| b t Hb _ IH]; cbn [le_combine]; [lia |].
  unfold is_byte in Hb. apply Z.lor_nonneg. split; [lia |].
  apply Z.shiftl_nonneg. exact IH.
Qed.

Lemma le_split_zero (n : nat) : le_split n 0 = repeat 0 n.
Proof.
  induction n as [| n IH]; cbn [le_split repeat]; [reflexivity |].
  rewrite Z.shiftr_0_l, IH. reflexivity.
Qed.

Lemma firstn_repeat_le (A : Type) (x : A) (m k : nat) :
  (m <= k)%nat -> firstn m (repeat x k) = repeat x m.
Proof.
  revert k. induction m as [| m IH]; intros k Hk; [reflexivity |].
  destruct k as [| k]; [lia |]. simpl. f_equal. apply IH. lia.
Qed.

Lemma firstn_app_repeat (n : nat) (t : list Z) (k : nat) :
  (n <= length t + k)%nat ->
  firstn n (t ++ repeat 0 k) = firstn n t ++ repeat 0 (n - length t).
Proof.
  intros H. rewrite firstn_app. f_equal. apply firstn_repeat_le. lia.
Qed.

Lemma le_split_le_combine (n : nat) (l : list Z) :
  bytes_ok l -> le_split n (le_combine l) = firstn n (l ++ repeat 0 n).
Proof.
  revert l. induction n as [| n IH]; intros l Hl; [reflexivity |].
  destruct Hl as [| b t Hb Ht].
  - cbn [le_combine app]. now rewrite le_split_zero, firstn_all2 by (rewrite repeat_length; lia).
  - cbn [app firstn le_split].
    rewrite le_combine_cons by exact Hb.
    unfold is_byte in Hb.
    replace (b + 256 * le_combine t) with (b + le_combine t * 256) by lia.
    rewrite Z.mod_add, Z.mod_small by lia.
    rewrite Z.shiftr_div_pow2 by lia. change (2 ^ 8) with 256.
    rewrite Z.div_add, Z.div_small by lia. cbn [Z.add].
    rewrite IH by exact Ht. f_equal.
    rewrite !firstn_app_repeat by lia. reflexivity.
Qed.

Lemma memcpy_zerout_pad (data : list Z) (n : Z) :
  len data <= n ->
  uacpi_memcpy_zerout data n (Z.min n (len data))
  = data ++ repeat 0 (Z.to_nat (n - len data)).
Proof.
  intros H. unfold uacpi_memcpy_zerout.
  rewrite (Z.min_r n (len data)) by lia.
  rewrite (Z.min_l (len data) n) by lia.
  unfold len. rewrite Nat2Z.id, firstn_all. reflexivity.
Qed.

Lemma bytes_ok_app (a b : list Z) : bytes_ok a -> bytes_ok b -> bytes_ok (a ++ b).
Proof. unfold bytes_ok. intros. apply Forall_app. now split. Qed.

Lemma bytes_ok_repeat_0 (n : nat) : bytes_ok (repeat 0 n).
Proof.
  unfold bytes_ok. apply Forall_forall. intros x Hx.
  apply repeat_spec in Hx. subst. unfold is_byte. lia.
Qed.

Lemma bytes_ok_firstn (n : nat) (l : list Z) : bytes_ok l -> bytes_ok (firstn n l).
Proof.
  unfold bytes_ok. intros H. rewrite <- (firstn_skipn n l) in H.
  apply Forall_app in H. tauto.
Qed.

Lemma bytes_ok_skipn (n : nat) (l : list Z) : bytes_ok l -> bytes_ok (skipn n l).
Proof.
  unfold bytes_ok. intros H. rewrite <- (firstn_skipn n l) in H.
  apply Forall_app in H. tauto.
Qed.

Lemma memcpy_zerout_first_8 (data : list Z) :
  uacpi_memcpy_zerout data 8 (Z.min 8 (len data)) = first_8_padded data.
Proof.
  unfold uacpi_memcpy_zerout, first_8_padded.
  pose proof (len_nonneg data) as Hl. unfold len in *.
  destruct (Z.le_gt_cases (Z.of_nat (length data)) 8) as [Hle | Hgt].
  - rewrite (Z.min_r 8) by lia. rewrite Z.min_l by lia.
    rewrite Nat2Z.id, firstn_all.
    rewrite firstn_app_repeat by lia.
    rewrite firstn_all2 by lia. f_equal. f_equal. lia.
  - rewrite (Z.min_l 8) by lia. rewrite Z.min_id.
    change (Z.to_nat (8 - 8)) with 0%nat. cbn [repeat]. rewrite app_nil_r.
    rewrite firstn_app. replace (8 - length data)%nat with 0%nat by lia.
    cbn [firstn]. rewrite app_nil_r. reflexivity.
Qed.

(** ToInteger of a buffer reads its first eight bytes, zero-padded, at
    every revision. *)
Lemma to_integer_reads_first_8_bytes (rt : uacpi_runtime) (data : list Z) (dst : uacpi_object) :
  handle_to rt UACPI_AML_OP_ToIntegerOp (Buffer data) dst
  = (UACPI_STATUS_OK, Integer (le_combine (first_8_padded data))).
Proof.
  unfold handle_to, set_integer, object_to_integer.
  now rewrite memcpy_zerout_first_8.
Qed.

(** ToBuffer of that integer holds the first [sizeof_int ()] of the eight
    bytes. *)
Lemma to_buffer_of_to_integer (rt : uacpi_runtime) (data : list Z) (d1 d2 : uacpi_object) :
  bytes_ok data ->
  uacpi_kernel_alloc rt (sizeof_int rt) = true ->
  handle_to rt UACPI_AML_OP_ToBufferOp
    (snd (handle_to rt UACPI_AML_OP_ToIntegerOp (Buffer data) d1)) d2
  = (UACPI_STATUS_OK,
     set_buffer d2 (firstn (Z.to_nat (sizeof_int rt)) (first_8_padded data))).
Proof.
  intros Hok Halloc.
  rewrite to_integer_reads_first_8_bytes. cbn [snd].
  unfold handle_to, handle_to_buffer, get_object_storage.
  assert (Hp : bytes_ok (first_8_padded data)).
  { apply bytes_ok_firstn, bytes_ok_app; [exact Hok | apply bytes_ok_repeat_0]. }
  assert (Hlen : length (first_8_padded data) = 8%nat).
  { unfold first_8_padded. rewrite length_firstn, length_app, repeat_length. lia. }
  rewrite le_split_le_combine by exact Hp.
  assert (Hs : firstn (Z.to_nat (sizeof_int rt))
                 (first_8_padded data ++ repeat 0 (Z.to_nat (sizeof_int rt)))
               = firstn (Z.to_nat (sizeof_int rt)) (first_8_padded data)).
  { rewrite firstn_app.
    replace (Z.to_nat (sizeof_int rt) - length (first_8_padded data))%nat with 0%nat
      by (rewrite Hlen; unfold sizeof_int; destruct (is_rev1 rt); lia).
    cbn [firstn]. now rewrite app_nil_r. }
  rewrite Hs.
  assert (Hl : len (firstn (Z.to_nat (sizeof_int rt)) (first_8_padded data))
               = sizeof_int rt).
  { unfold len. rewrite length_firstn, Hlen.
    unfold sizeof_int. destruct (is_rev1 rt); reflexivity. }
  rewrite Hl.
  replace (sizeof_int rt =? 0) with false
    by (unfold sizeof_int; destruct (is_rev1 rt); reflexivity).
  rewrite Halloc. reflexivity.
Qed.

Lemma first_8_padded_short (data : list Z) :
  len data <= 8 ->
  first_8_padded data = data ++ repeat 0 (Z.to_nat (8 - len data)).
Proof.
  intros H. unfold first_8_padded, len in *.
  rewrite firstn_app_repeat by lia. rewrite firstn_all2 by lia.
  f_equal. f_equal. lia.
Qed.

Lemma length_first_8_padded (data : list Z) :
  length (first_8_padded data) = 8%nat.
Proof.
  unfold first_8_padded. rewrite length_firstn, length_app, repeat_length. lia.
Qed.

(** C7. ToInteger of a buffer reads its first eight bytes, zero-extending a
    shorter buffer, at every revision. ToBuffer of the result holds the
    first [sizeof_int ()] of these eight bytes: all eight from revision 2
    on, which for a buffer of at most eight bytes is the buffer zero-padded
    to eight, and the first four at revision 1. *)
Theorem to_buffer_of_to_integer_of_buffer (rt : uacpi_runtime)
    (data : list Z) (d1 d2 : uacpi_object) :
  bytes_ok data ->
  uacpi_kernel_alloc rt (sizeof_int rt) = true ->
  handle_to rt UACPI_AML_OP_ToIntegerOp (Buffer data) d1
  = (UACPI_STATUS_OK, Integer (le_combine (first_8_padded data)))
  /\ handle_to rt UACPI_AML_OP_ToBufferOp
       (snd (handle_to rt UACPI_AML_OP_ToIntegerOp (Buffer data) d1)) d2
     = (UACPI_STATUS_OK,
        set_buffer d2
          (firstn (if is_rev1 rt then 4 else 8) (first_8_padded data)))
  /\ (is_rev1 rt = false ->
      firstn (if is_rev1 rt then 4 else 8) (first_8_padded data)
      = first_8_padded data)
  /\ (len data <= 8 ->
      first_8_padded data = data ++ repeat 0 (Z.to_nat (8 - len data))).
Proof.
  intros Hok Halloc. split; [apply to_integer_reads_first_8_bytes |].
  split; [| split].
  - rewrite (to_buffer_of_to_integer rt data d1 d2 Hok Halloc).
    unfold sizeof_int. now destruct (is_rev1 rt).
  - intros ->. apply firstn_all2. rewrite length_first_8_padded. lia.
  - apply first_8_padded_short.
Qed.

Lemma to_buffer_of_to_integer_of_buffer_witness :
  handle_to runtime_rev2 UACPI_AML_OP_ToBufferOp
    (snd (handle_to runtime_rev2 UACPI_AML_OP_ToIntegerOp (Buffer [1; 2; 3])
            (Integer 0)))
    (Buffer [])
  = (UACPI_STATUS_OK, Buffer [1; 2; 3; 0; 0; 0; 0; 0]).
Proof.
  refine (proj1 (proj2 (to_buffer_of_to_integer_of_buffer runtime_rev2
                          [1; 2; 3] (Integer 0) (Buffer []) _ _))).
  - unfold bytes_ok, is_byte. repeat constructor; lia.
  - reflexivity.
Defined.

(** At revision 1 the round trip of a one-byte buffer gives four bytes, not
    the buffer zero-padded to eight. *)
Lemma to_buffer_of_to_integer_at_revision_1 :
  handle_to runtime_rev1 UACPI_AML_OP_ToBufferOp
    (snd (handle_to runtime_rev1 UACPI_AML_OP_ToIntegerOp (Buffer [1])
            (Integer 0)))
    (Buffer [])
  = (UACPI_STATUS_OK, Buffer [1; 0; 0; 0])
  /\ Buffer [1; 0; 0; 0] <> Buffer ([1] ++ repeat 0 7).
Proof. split; [reflexivity | discriminate]. Qed.

(** ** Buffer op *)

Lemma wrap32_small (x : Z) : 0 <= x < 2 ^ 32 -> wrap32 x = x.
Proof. intros H. unfold wrap32. now apply Z.mod_small. Qed.

Lemma memcpy_zerout_le (src : list Z) (dst_size src_size : Z) :
  0 <= src_size <= dst_size -> src_size <= len src ->
  uacpi_memcpy_zerout src dst_size src_size
  = firstn (Z.to_nat src_size) src ++ repeat 0 (Z.to_nat (dst_size - src_size)).
Proof.
  intros H1 H2. unfold uacpi_memcpy_zerout. now rewrite Z.min_l by lia.
Qed.

Section HandleBuffer.

Variable rt : uacpi_runtime.
Variable method_code : list Z.
Variable pkg : package_length.
Variables declared_size aml_offset : Z.
Variable dst : uacpi_object.

Hypothesis offset_in_package : 0 <= aml_offset <= pkg_end pkg.
Hypothesis package_in_method : pkg_end pkg <= len method_code.
Hypothesis method_fits : len method_code < 2 ^ 32.
Hypothesis size_is_u64 : 0 <= declared_size < 2 ^ 64.

Let init_len := pkg_end pkg - aml_offset.

Lemma handle_buffer_checks :
  handle_buffer rt method_code pkg declared_size aml_offset dst
  = if 3758096384 <? declared_size
    then (UACPI_STATUS_BAD_BYTECODE, dst, [log_buffer_too_large])
    else if declared_size =? 0
    then (UACPI_STATUS_BAD_BYTECODE, dst, [log_buffer_empty])
    else if declared_size <? init_len
    then (UACPI_STATUS_BAD_BYTECODE, dst,
          [log_buffer_too_many_initializers])
    else if negb (uacpi_kernel_alloc rt declared_size)
    then (UACPI_STATUS_OUT_OF_MEMORY, dst, [])
    else (UACPI_STATUS_OK,
          Buffer (slice method_code aml_offset init_len
                    ++ repeat 0 (Z.to_nat (declared_size - init_len))),
          []).
Proof.
  assert (Ha : wrap32 aml_offset = aml_offset) by (apply wrap32_small; lia).
  assert (Hi : wrap32 (pkg_end pkg - aml_offset) = init_len)
    by (apply wrap32_small; subst init_len; lia).
  assert (Hle : (len method_code <? pkg_end pkg) = false)
    by (apply Z.ltb_ge; lia).
  unfold handle_buffer. rewrite Ha, Hi, Hle.
  destruct (3758096384 <? declared_size) eqn:E1; [reflexivity |].
  destruct (declared_size =? 0) eqn:E2; [reflexivity |].
  apply Z.ltb_ge in E1. apply Z.eqb_neq in E2.
  rewrite (wrap32_small declared_size) by lia.
  destruct (declared_size <? init_len) eqn:E3; [reflexivity |].
  apply Z.ltb_ge in E3.
  destruct (uacpi_kernel_alloc rt declared_size); [| reflexivity].
  cbn [negb].
  assert (Hskip : init_len <= len (skipn (Z.to_nat aml_offset) method_code)).
  { unfold len in *. rewrite length_skipn. subst init_len. lia. }
  rewrite memcpy_zerout_le by (subst init_len; lia).
  reflexivity.
Qed.

Lemma len_initialized_buffer :
  init_len <= declared_size ->
  len (slice method_code aml_offset init_len
         ++ repeat 0 (Z.to_nat (declared_size - init_len)))
  = declared_size.
Proof.
  intros H. unfold len in *. unfold slice.
  rewrite length_app, repeat_length, length_firstn, length_skipn.
  subst init_len. lia.
Qed.

End HandleBuffer.

Lemma wrap32_minus_wrap32 (a b : Z) : wrap32 (a - wrap32 b) = wrap32 (a - b).
Proof. unfold wrap32. apply Zminus_mod_idemp_r. Qed.

(** The checks of [handle_buffer] in the order of the code, with the
    number of initializer bytes as the code computes it: the difference of
    two unsigned 32-bit numbers. *)
Lemma handle_buffer_rejections (rt : uacpi_runtime) (method_code : list Z)
    (pkg : package_length) (declared_size aml_offset : Z) (dst : uacpi_object) :
  0 <= declared_size < 2 ^ 64 ->
  len method_code < pkg_end pkg \/ 3758096384 < declared_size
  \/ declared_size = 0 \/ declared_size < wrap32 (pkg_end pkg - aml_offset) ->
  let r := handle_buffer rt method_code pkg declared_size aml_offset dst in
  fst (fst r) = UACPI_STATUS_BAD_BYTECODE /\ snd (fst r) = dst.
Proof.
  intros Hdecl Hbad. cbv zeta. unfold handle_buffer.
  rewrite wrap32_minus_wrap32.
  destruct (len method_code <? pkg_end pkg) eqn:E0; [now split |].
  destruct (3758096384 <? declared_size) eqn:E1; [now split |].
  destruct (declared_size =? 0) eqn:E2; [now split |].
  apply Z.ltb_ge in E0, E1. apply Z.eqb_neq in E2.
  rewrite (wrap32_small declared_size) by lia.
  destruct (declared_size <? wrap32 (pkg_end pkg - aml_offset)) eqn:E3;
    [now split |].
  apply Z.ltb_ge in E3. lia.
Qed.

(** C2. A Buffer op is bad bytecode, and leaves the destination as it
    was, when its package reaches beyond the method, when the declared
    size exceeds 0xE000_0000, when it is 0, and when the package holds
    more initializer bytes than the declared size. The number of
    initializer bytes is the difference, in 32 bits, of the end of the
    package and the offset of the first initializer byte; a package that
    ends less than 2^29 bytes before that offset is therefore rejected as
    well. In every other case in which that offset does not lie behind
    the end of the package, once the allocation is granted, the buffer
    holds exactly [declared_size] bytes: the initializer bytes of the
    stream followed by zeros. *)
Theorem handle_buffer_spec (rt : uacpi_runtime) (method_code : list Z)
    (pkg : package_length) (declared_size aml_offset : Z) (dst : uacpi_object) :
  len method_code < 2 ^ 32 ->
  0 <= declared_size < 2 ^ 64 ->
  let init_len := wrap32 (pkg_end pkg - aml_offset) in
  let r := handle_buffer rt method_code pkg declared_size aml_offset dst in
  (len method_code < pkg_end pkg \/ 3758096384 < declared_size
   \/ declared_size = 0 \/ declared_size < init_len ->
   fst (fst r) = UACPI_STATUS_BAD_BYTECODE /\ snd (fst r) = dst)
  /\
  (pkg_end pkg < aml_offset -> aml_offset - pkg_end pkg < 2 ^ 29 ->
   fst (fst r) = UACPI_STATUS_BAD_BYTECODE /\ snd (fst r) = dst)
  /\
  (0 <= aml_offset <= pkg_end pkg -> pkg_end pkg <= len method_code ->
   0 < declared_size <= 3758096384 -> init_len <= declared_size ->
   uacpi_kernel_alloc rt declared_size = true ->
   init_len = pkg_end pkg - aml_offset
   /\ r = (UACPI_STATUS_OK,
           Buffer (slice method_code aml_offset init_len
                     ++ repeat 0 (Z.to_nat (declared_size - init_len))),
           [])
   /\ len (slice method_code aml_offset init_len
             ++ repeat 0 (Z.to_nat (declared_size - init_len)))
      = declared_size).
Proof.
  intros Hsz Hdecl init_len r. subst r. split; [| split].
  - intros Hbad. now apply handle_buffer_rejections.
  - intros Hgap Hnear. apply handle_buffer_rejections; [assumption |].
    assert (Hwrap : wrap32 (pkg_end pkg - aml_offset)
                    = pkg_end pkg - aml_offset + 2 ^ 32).
    { unfold wrap32. symmetry. apply (Z.mod_unique_pos _ _ (-1)); lia. }
    destruct (Z.lt_ge_cases 3758096384 declared_size); [tauto |].
    right. right. right. lia.
  - intros Hoff Hend Hrange Hinit Halloc.
    assert (Hlen : init_len = pkg_end pkg - aml_offset)
      by (apply wrap32_small; lia).
    rewrite Hlen in *.
    rewrite handle_buffer_checks by assumption.
    assert (E1 : (3758096384 <? declared_size) = false) by (apply Z.ltb_ge; lia).
    assert (E2 : (declared_size =? 0) = false) by (apply Z.eqb_neq; lia).
    assert (E3 : (declared_size <? pkg_end pkg - aml_offset) = false)
      by (apply Z.ltb_ge; lia).
    rewrite E1, E2, E3, Halloc. cbn [negb].
    split; [reflexivity |]. split; [reflexivity |].
    apply len_initialized_buffer; assumption.
Qed.

(** A buffer of four bytes with three initializer bytes; and the op
    [11 01 0A 04], whose package ends before its size operand does. *)
Lemma handle_buffer_spec_witness :
  handle_buffer runtime_rev2 [17; 6; 10; 4; 17; 34; 51] (mk_pkg 1 7) 4 4
    (Buffer [])
  = (UACPI_STATUS_OK, Buffer [17; 34; 51; 0], [])
  /\ fst (fst (handle_buffer runtime_rev2 [17; 1; 10; 4] (mk_pkg 1 2) 4 4
                 (Buffer [])))
     = UACPI_STATUS_BAD_BYTECODE.
Proof.
  split.
  - refine (proj1 (proj2 (proj2 (proj2 (handle_buffer_spec runtime_rev2
             [17; 6; 10; 4; 17; 34; 51] (mk_pkg 1 7) 4 4 (Buffer []) _ _))
             _ _ _ _ _))).
    + vm_compute. reflexivity.
    + lia.
    + cbn. lia.
    + vm_compute. discriminate.
    + lia.
    + vm_compute. discriminate.
    + reflexivity.
  - refine (proj1 (proj1 (proj2 (handle_buffer_spec runtime_rev2
             [17; 1; 10; 4] (mk_pkg 1 2) 4 4 (Buffer []) _ _)) _ _)).
    + vm_compute. reflexivity.
    + lia.
    + cbn. lia.
    + cbn. lia.
Defined.

(** A Buffer op with two initializer bytes and a declared size of one is
    rejected, not truncated; and a declared size of 0x6000_0001 is
    accepted. *)
Lemma handle_buffer_rejects_extra_initializers :
  handle_buffer runtime_rev2 [17; 5; 10; 1; 17; 34] (mk_pkg 1 6) 1 4 (Buffer [])
  = (UACPI_STATUS_BAD_BYTECODE, Buffer [], [log_buffer_too_many_initializers])
  /\ fst (fst (handle_buffer runtime_rev2 [17; 6; 12; 1; 0; 0; 96] (mk_pkg 1 7)
                 1610612737 7 (Buffer [])))
     = UACPI_STATUS_OK.
Proof.
  split; [reflexivity |].
  rewrite handle_buffer_checks; [reflexivity | cbn; lia | | | lia].
  - vm_compute. discriminate.
  - vm_compute. reflexivity.
Qed.

(** ** Divide and the comparisons *)

(** With a divisor that is not zero, Divide leaves the remainder in the
    first target and the quotient in the second. *)
Lemma do_binary_math_divide_nonzero (rt : uacpi_runtime) (lhs rhs tgt0 tgt1 : Z) :
  0 < rhs ->
  do_binary_math rt lhs rhs tgt0 (Some tgt1) UACPI_AML_OP_DivideOp
  = Returns (lhs mod rhs, Some (lhs / rhs), []).
Proof.
  intros H. unfold do_binary_math, u64_div, u64_mod. cbn [guard bind].
  assert (E : (0 <? rhs) = true) by (apply Z.ltb_lt; lia).
  assert (E' : (rhs =? 0) = false) by (apply Z.eqb_neq; lia).
  rewrite E, E'. reflexivity.
Qed.

(** C3. Divide by zero: the warning is logged and the quotient is set to
    0, and then [lhs % rhs] is evaluated with [rhs = 0], which the C
    language leaves undefined; no remainder is produced. *)
Theorem do_binary_math_divide_by_zero (rt : uacpi_runtime) (lhs tgt0 tgt1 : Z) :
  do_binary_math rt lhs 0 tgt0 (Some tgt1) UACPI_AML_OP_DivideOp
  = UndefinedBehaviour.
Proof. reflexivity. Qed.

Lemma handle_binary_math_divide_by_zero (rt : uacpi_runtime) (lhs tgt0 tgt1 : Z) :
  handle_binary_math rt UACPI_AML_OP_DivideOp (Integer lhs) (Integer 0) tgt0 (Some tgt1)
  = UndefinedBehaviour.
Proof. reflexivity. Qed.

Lemma object_type_eqb_eq (a b : uacpi_object_type) :
  object_type_eqb a b = true <-> a = b.
Proof. split; [destruct a, b; simpl; congruence | intros ->; now destruct b]. Qed.

(** C10. LEqual, LLess and LGreater fail with bad bytecode exactly when
    the types of the two operands differ, and then leave the destination
    as it was. With operands of one type the status is OK. On a type that
    is none of Integer, String and Buffer, LEqual gives 0, while LLess and
    LGreater compare the bits that the two objects show through their
    [integer] members and give all ones when the comparison holds: their
    result is not bound to be 0. *)
Theorem binary_logic_type_error (rt : uacpi_runtime) (op : uacpi_aml_op)
    (lhs rhs : object_at) (dst : Z) :
  is_comparison op = true ->
  (fst (handle_binary_logic rt op lhs rhs dst) = UACPI_STATUS_BAD_BYTECODE
   <-> type_of lhs <> type_of rhs)
  /\ (type_of lhs <> type_of rhs ->
      handle_binary_logic rt op lhs rhs dst = (UACPI_STATUS_BAD_BYTECODE, dst))
  /\ (type_of lhs = type_of rhs ->
      fst (handle_binary_logic rt op lhs rhs dst) = UACPI_STATUS_OK)
  /\ (type_of lhs = type_of rhs ->
      is_comparable (type_of lhs) = false ->
      let lhs_integer := union_integer rt (address lhs) lhs in
      let rhs_integer := union_integer rt (address rhs) rhs in
      handle_binary_logic rt op lhs rhs dst
      = (UACPI_STATUS_OK,
         match op with
         | UACPI_AML_OP_LEqualOp => 0
         | UACPI_AML_OP_LLessOp =>
             if lhs_integer <? rhs_integer then ones rt else 0
         | _ =>
             if rhs_integer <? lhs_integer then ones rt else 0
         end)).
Proof.
  intros Hop.
  assert (Hshape :
    handle_binary_logic rt op lhs rhs dst
    = if negb (object_type_eqb (type_of lhs) (type_of rhs))
      then (UACPI_STATUS_BAD_BYTECODE, dst)
      else (UACPI_STATUS_OK,
            if match op with
               | UACPI_AML_OP_LEqualOp => handle_logical_equality rt lhs rhs
               | _ => handle_logical_less_or_greater rt op lhs rhs
               end then ones rt else 0)).
  { destruct op; try discriminate Hop; unfold handle_binary_logic;
      destruct (negb (object_type_eqb (type_of lhs) (type_of rhs))); reflexivity. }
  rewrite Hshape.
  destruct (object_type_eqb (type_of lhs) (type_of rhs)) eqn:E; cbn [negb fst].
  - apply object_type_eqb_eq in E. repeat split; try congruence.
    intros _ Hc. cbv zeta.
    destruct lhs as [la lhs], rhs as [ra rhs]. cbn [object_of address] in *.
    destruct op; try discriminate Hop;
      destruct lhs; try discriminate Hc;
      destruct rhs; try discriminate E; reflexivity.
  - assert (Hne : type_of lhs <> type_of rhs).
    { intros Heq. apply object_type_eqb_eq in Heq. congruence. }
    repeat split; try congruence; try tauto.
Qed.

Lemma binary_logic_type_error_witness :
  handle_binary_logic runtime_rev2 UACPI_AML_OP_LEqualOp
    (at_address 4096 (Package [Integer 1]))
    (at_address 4160 (Package [Integer 1])) 7
  = (UACPI_STATUS_OK, 0)
  /\ handle_binary_logic runtime_with_addresses UACPI_AML_OP_LLessOp
       (at_address 4096 (Package [Integer 1]))
       (at_address 4160 (Package [Integer 1])) 7
     = (UACPI_STATUS_OK, 18446744073709551615)
  /\ handle_binary_logic runtime_with_addresses UACPI_AML_OP_LGreaterOp
       (at_address 4096 (Package [Integer 1]))
       (at_address 4160 (Package [Integer 1])) 7
     = (UACPI_STATUS_OK, 0)
  /\ handle_binary_logic runtime_with_addresses UACPI_AML_OP_LLessOp
       (at_address 4096 (Package [Integer 1]))
       (at_address 4160 (Integer 1)) 7
     = (UACPI_STATUS_BAD_BYTECODE, 7).
Proof.
  split; [| split; [| split]].
  - refine (proj2 (proj2 (proj2 (binary_logic_type_error runtime_rev2
              UACPI_AML_OP_LEqualOp
              (at_address 4096 (Package [Integer 1]))
              (at_address 4160 (Package [Integer 1])) 7 _))) _ _);
      reflexivity.
  - refine (proj2 (proj2 (proj2 (binary_logic_type_error
              runtime_with_addresses UACPI_AML_OP_LLessOp
              (at_address 4096 (Package [Integer 1]))
              (at_address 4160 (Package [Integer 1])) 7 _))) _ _);
      reflexivity.
  - refine (proj2 (proj2 (proj2 (binary_logic_type_error
              runtime_with_addresses UACPI_AML_OP_LGreaterOp
              (at_address 4096 (Package [Integer 1]))
              (at_address 4160 (Package [Integer 1])) 7 _))) _ _);
      reflexivity.
  - refine (proj1 (proj2 (binary_logic_type_error
              runtime_with_addresses UACPI_AML_OP_LLessOp
              (at_address 4096 (Package [Integer 1]))
              (at_address 4160 (Integer 1)) 7 _)) _);
      [reflexivity | discriminate].
Defined.

(** LLess on two Packages of equal contents, of which the first shows the
    smaller bits through its [integer] member, succeeds with all ones.
    The result of a comparison of two objects of one type that is none of
    Integer, String and Buffer is therefore not always 0. *)
Lemma less_on_packages_is_not_zero :
  let lhs := at_address 4096 (Package [Integer 1]) in
  let rhs := at_address 4160 (Package [Integer 1]) in
  type_of lhs = type_of rhs
  /\ is_comparable (type_of lhs) = false
  /\ handle_binary_logic runtime_with_addresses UACPI_AML_OP_LLessOp
       lhs rhs 0
     = (UACPI_STATUS_OK, 18446744073709551615)
  /\ snd (handle_binary_logic runtime_with_addresses UACPI_AML_OP_LLessOp
            lhs rhs 0) <> 0.
Proof.
  cbv zeta. split; [reflexivity |]. split; [reflexivity |].
  split; [reflexivity | discriminate].
Qed.

(** ** RefOf and DerefOf *)

Lemma reference_unwind_chain (k : uacpi_reference_kind)
    (kinds : list uacpi_reference_kind) (x : uacpi_object) :
  is_reference x = false ->
  exists k', reference_unwind (reference_chain (k :: kinds) x) = Reference k' x.
Proof.
  intros Hx. revert k. induction kinds as [| k2 rest IH]; intros k.
  - exists k. cbn. now rewrite Hx.
  - destruct (IH k2) as [k' Hk']. exists k'.
    cbn [reference_chain reference_unwind is_reference] in *. exact Hk'.
Qed.

Lemma le_combine_zero_pad (b : Z) (n : nat) :
  le_combine (b :: repeat 0 n) = b.
Proof.
  cbn [le_combine].
  assert (H : le_combine (repeat 0 n) = 0).
  { induction n as [| n IH]; cbn [repeat le_combine]; [reflexivity |].
    now rewrite IH. }
  rewrite H. now rewrite Z.shiftl_0_l, Z.lor_0_r.
Qed.

Lemma deref_of_buffer_index_byte (buf_idx : uacpi_buffer_index) :
  0 <= idx buf_idx < len (buffer buf_idx) ->
  le_combine (uacpi_memcpy_zerout (buffer_index_cursor buf_idx) 8 1)
  = byte_at (buffer buf_idx) (idx buf_idx).
Proof.
  intros H. unfold uacpi_memcpy_zerout, buffer_index_cursor, byte_at.
  change (Z.to_nat (Z.min 1 8)) with 1%nat.
  change (Z.to_nat (8 - Z.min 1 8)) with 7%nat.
  unfold len in H.
  assert (Hn : (Z.to_nat (idx buf_idx) < length (buffer buf_idx))%nat) by lia.
  revert Hn. generalize (Z.to_nat (idx buf_idx)) as n.
  generalize (buffer buf_idx) as l. clear.
  induction l as [| a l IH]; intros n Hn; [simpl in Hn; lia |].
  destruct n as [| n].
  - cbn [skipn firstn nth app]. apply le_combine_zero_pad.
  - cbn [skipn nth]. apply IH. simpl in Hn. lia.
Qed.

Lemma deref_of_chain (k : uacpi_reference_kind)
    (kinds : list uacpi_reference_kind) (x dst : uacpi_object) :
  is_reference x = false -> index_in_bounds x ->
  handle_ref_or_deref_of UACPI_AML_OP_DerefOfOp
    (reference_chain (k :: kinds) x) dst
  = Returns (UACPI_STATUS_OK, deref_of_result x, []).
Proof.
  intros Hx Hb.
  destruct (reference_unwind_chain k kinds x Hx) as [k' Hk'].
  unfold handle_ref_or_deref_of.
  cbn [reference_chain is_reference]. cbn [reference_chain] in Hk'.
  rewrite Hk'. cbn [inner_of bind].
  destruct x; try discriminate Hx; try reflexivity.
  cbn [index_in_bounds] in Hb. destruct Hb as [Hi _].
  assert (G : (0 <=? idx buffer_index) && (idx buffer_index <? len (buffer buffer_index)) = true).
  { apply andb_true_intro. split; [apply Z.leb_le | apply Z.ltb_lt]; lia. }
  rewrite G. cbn [guard bind deref_of_result].
  now rewrite deref_of_buffer_index_byte.
Qed.

(** C5. For an object [x] that is not a reference, RefOf wraps [x] in a
    reference, marked RefOf when the destination was not a reference
    before, and DerefOf of a chain of references around [x] unwinds to [x];
    it yields [x], or, when [x] is a buffer index, an Integer that holds
    the byte at that index. *)
Theorem deref_of_ref_of (x dst1 dst2 : uacpi_object)
    (kinds : list uacpi_reference_kind) (k : uacpi_reference_kind) :
  is_reference x = false -> index_in_bounds x ->
  (exists flags,
     handle_ref_or_deref_of UACPI_AML_OP_RefOfOp x dst1
     = Returns (UACPI_STATUS_OK, Reference flags x, [])
     /\ (is_reference dst1 = false -> flags = UACPI_REFERENCE_KIND_REFOF)
     /\ handle_ref_or_deref_of UACPI_AML_OP_DerefOfOp (Reference flags x) dst2
        = Returns (UACPI_STATUS_OK, deref_of_result x, []))
  /\ handle_ref_or_deref_of UACPI_AML_OP_DerefOfOp
       (reference_chain (k :: kinds) x) dst2
     = Returns (UACPI_STATUS_OK, deref_of_result x, []).
Proof.
  intros Hx Hb. split.
  - eexists. split; [reflexivity |]. split.
    + intros Hd. destruct dst1; try discriminate Hd; reflexivity.
    + exact (deref_of_chain _ [] x dst2 Hx Hb).
  - exact (deref_of_chain k kinds x dst2 Hx Hb).
Qed.

Lemma deref_of_ref_of_witness :
  handle_ref_or_deref_of UACPI_AML_OP_DerefOfOp
    (reference_chain
       [UACPI_REFERENCE_KIND_LOCAL; UACPI_REFERENCE_KIND_REFOF]
       (BufferIndex (mk_buffer_index 1 [10; 20; 30])))
    Uninitialized
  = Returns (UACPI_STATUS_OK, Integer 20, []).
Proof.
  refine (proj2 (deref_of_ref_of
                   (BufferIndex (mk_buffer_index 1 [10; 20; 30]))
                   Uninitialized Uninitialized
                   [UACPI_REFERENCE_KIND_REFOF] UACPI_REFERENCE_KIND_LOCAL
                   _ _)).
  - reflexivity.
  - split; [vm_compute; split; [discriminate | reflexivity] |].
    unfold bytes_ok, is_byte. repeat constructor; lia.
Defined.

Lemma reference_unwind_is_reference (obj : uacpi_object) :
  is_reference obj = true -> is_reference (reference_unwind obj) = true.
Proof.
  induction obj; try discriminate. intros _.
  cbn [reference_unwind]. destruct (is_reference obj) eqn:E.
  - now apply IHobj.
  - reflexivity.
Qed.

(** ** Store *)

Lemma unwrap_not_reference (obj : uacpi_object) :
  is_reference obj = false -> uacpi_unwrap_internal_reference obj = obj.
Proof. destruct obj; try discriminate; reflexivity. Qed.

Lemma reference_unwind_unwrap (obj : uacpi_object) :
  is_reference (uacpi_unwrap_internal_reference obj) = true ->
  reference_unwind (uacpi_unwrap_internal_reference obj) = reference_unwind obj.
Proof.
  induction obj; try discriminate.
  destruct flags; cbn [uacpi_unwrap_internal_reference]; try reflexivity.
  all: intros H; cbn [reference_unwind];
    destruct (is_reference obj) eqn:E;
    [ now apply IHobj
    | rewrite (unwrap_not_reference obj E) in H; congruence ].
Qed.

(** The pointer the switch of [store_to_reference] leaves in [dst] when
    it unwinds is the last reference of the chain [dst] starts, which
    [update_unwound] writes through. *)
Lemma store_resolve_unwound (dst target : uacpi_object) (overwrite : bool) :
  store_resolve dst = (UACPI_STATUS_OK, AtUnwound, target, overwrite) ->
  target = reference_unwind dst.
Proof.
  destruct dst; try discriminate.
  destruct flags; cbn [store_resolve]; try discriminate.
  - destruct (is_reference (uacpi_unwrap_internal_reference _)) eqn:E;
      [| discriminate].
    intros H. injection H as <- _.
    exact (reference_unwind_unwrap (Reference UACPI_REFERENCE_KIND_LOCAL dst) E).
  - destruct (is_reference (uacpi_unwrap_internal_reference _)) eqn:E;
      [| discriminate].
    intros H. injection H as <- _.
    exact (reference_unwind_unwrap (Reference UACPI_REFERENCE_KIND_ARG dst) E).
  - intros H. now injection H as <- _.
  - destruct (is_reference dst) eqn:E; [| discriminate].
    intros H. injection H as <- _. cbn [reference_unwind]. now rewrite E.
Qed.

Lemma store_resolve_kinds (dst : uacpi_object) :
  fst (fst (fst (store_resolve dst))) = UACPI_STATUS_OK
  <-> exists k inner, dst = Reference k inner /\ is_store_kind k = true.
Proof.
  split.
  - destruct dst; try discriminate. destruct flags; try discriminate;
      intros _; eexists _, _; split; reflexivity.
  - intros (k & inner & -> & Hk).
    destruct k; try discriminate Hk; cbn [store_resolve];
      try destruct (is_reference _); reflexivity.
Qed.

Lemma implicit_cast_to_uninitialized_fails (rt : uacpi_runtime)
    (src : uacpi_object) (r : uacpi_status * uacpi_object) :
  object_assign_with_implicit_cast rt Uninitialized src = Returns r ->
  fst r <> UACPI_STATUS_OK.
Proof.
  unfold object_assign_with_implicit_cast.
  destruct (get_object_storage rt src false) as [[] buf];
    intros H; injection H as <-; discriminate.
Qed.

Lemma store_resolve_at_reference (dst target : uacpi_object)
    (overwrite : bool) :
  store_resolve dst = (UACPI_STATUS_OK, AtReference, target, overwrite) ->
  target = dst.
Proof.
  destruct dst; try discriminate.
  destruct flags; cbn [store_resolve]; try discriminate;
    try destruct (is_reference _); try discriminate;
    intros H; now injection H as <- _.
Qed.

(** Every object is a chain of references around an object that is no
    reference. *)
Lemma reference_chain_of (obj : uacpi_object) :
  exists kinds x, obj = reference_chain kinds x /\ is_reference x = false.
Proof.
  induction obj;
    try (now (eexists [], _; split; [reflexivity | reflexivity])).
  destruct IHobj as (kinds & x & -> & Hx).
  exists (flags :: kinds), x. split; [reflexivity | exact Hx].
Qed.

(** A write through the last reference of a chain replaces the object at
    its bottom and leaves the references as they are. *)
Lemma update_unwound_chain (k : uacpi_reference_kind)
    (kinds : list uacpi_reference_kind) (x new : uacpi_object) :
  is_reference x = false ->
  update_unwound (object_replace_child new) (reference_chain (k :: kinds) x)
  = reference_chain (k :: kinds) new.
Proof.
  intros Hx. revert k. induction kinds as [| k2 rest IH]; intros k.
  - cbn. now rewrite Hx.
  - change (reference_chain (k :: k2 :: rest) x)
      with (Reference k (reference_chain (k2 :: rest) x)).
    change (reference_chain (k :: k2 :: rest) new)
      with (Reference k (reference_chain (k2 :: rest) new)).
    rewrite <- (IH k2). reflexivity.
Qed.

(** [uacpi_unwrap_internal_reference] on a chain: it strips the chain
    when all its references are internal ones, and stops at the first
    reference that is none otherwise. *)
Lemma unwrap_chain (kinds : list uacpi_reference_kind) (x : uacpi_object) :
  is_reference x = false ->
  (forallb is_internal_kind kinds = true
   /\ uacpi_unwrap_internal_reference (reference_chain kinds x) = x)
  \/ (forallb is_internal_kind kinds = false
      /\ exists k rest,
           uacpi_unwrap_internal_reference (reference_chain kinds x)
           = reference_chain (k :: rest) x).
Proof.
  intros Hx. induction kinds as [| k rest IH].
  - left. split; [reflexivity | now apply unwrap_not_reference].
  - destruct k; cbn [forallb is_internal_kind andb reference_chain
                     uacpi_unwrap_internal_reference];
      try exact IH;
      right; (split; [reflexivity |]); eexists _, _; reflexivity.
Qed.

Lemma inner_of_unwound_chain (k : uacpi_reference_kind)
    (kinds : list uacpi_reference_kind) (x : uacpi_object) :
  is_reference x = false ->
  inner_of (reference_unwind (reference_chain (k :: kinds) x)) = Returns x.
Proof.
  intros Hx. destruct (reference_unwind_chain k kinds x Hx) as [k' ->].
  reflexivity.
Qed.

(** What [store_to_reference] does once its switch is done, when it
    overwrites: it puts the copy [object_assign] makes in place of the
    object [dst] then points to, and leaves the destination alone when no
    copy is made. *)
Lemma store_overwrites
    (object_assign : uacpi_object -> uacpi_object -> uacpi_assign_behavior
                     -> uacpi_status * uacpi_object)
    (rt : uacpi_runtime) (dst src target target_inner : uacpi_object)
    (site : store_site) (overwrite : bool) :
  uacpi_create_object rt UACPI_OBJECT_UNINITIALIZED = true ->
  store_resolve dst = (UACPI_STATUS_OK, site, target, overwrite) ->
  inner_of target = Returns target_inner ->
  overwrite
  || object_type_eqb (type_of target_inner) UACPI_OBJECT_UNINITIALIZED = true ->
  let copy :=
    object_assign Uninitialized (uacpi_unwrap_internal_reference src)
      UACPI_ASSIGN_BEHAVIOR_DEEP_COPY in
  store_to_reference_with object_assign rt dst src
  = match fst copy with
    | UACPI_STATUS_OK =>
        Returns (UACPI_STATUS_OK,
                 update_site site (object_replace_child (snd copy)) dst)
    | ret => Returns (ret, dst)
    end.
Proof.
  intros Hcreate Hres Hinner Hover copy. subst copy.
  unfold store_to_reference_with. rewrite Hres, Hinner.
  cbn [bind]. rewrite Hover, Hcreate. cbn [negb].
  destruct (object_assign Uninitialized (uacpi_unwrap_internal_reference src)
              UACPI_ASSIGN_BEHAVIOR_DEEP_COPY) as [ret new_obj].
  destruct ret; reflexivity.
Qed.

(** A destination whose switch ends at an Uninitialized object is a
    chain of references around that object, and the write replaces the
    bottom of the chain. *)
Lemma resolved_uninitialized_chain (dst target : uacpi_object)
    (site : store_site) (overwrite : bool) :
  store_resolve dst = (UACPI_STATUS_OK, site, target, overwrite) ->
  inner_of target = Returns Uninitialized ->
  exists k kinds,
    dst = reference_chain (k :: kinds) Uninitialized
    /\ is_store_kind k = true
    /\ forall new,
         update_site site (object_replace_child new) dst
         = reference_chain (k :: kinds) new.
Proof.
  intros Hres Hinner.
  destruct (proj1 (store_resolve_kinds dst)) as (k & inner & Hdst & Hk);
    [now rewrite Hres |].
  destruct (reference_chain_of inner) as (kinds & x & Hchain & Hx).
  exists k, kinds. subst dst inner.
  change (Reference k (reference_chain kinds x))
    with (reference_chain (k :: kinds) x) in *.
  destruct site.
  - apply store_resolve_at_reference in Hres. subst target.
    cbn [reference_chain inner_of] in Hinner.
    destruct kinds; [| discriminate Hinner].
    cbn [reference_chain] in Hinner. injection Hinner as ->.
    split; [reflexivity |]. split; [exact Hk |]. reflexivity.
  - apply store_resolve_unwound in Hres. subst target.
    rewrite (inner_of_unwound_chain k kinds x Hx) in Hinner.
    injection Hinner as ->.
    split; [reflexivity |]. split; [exact Hk |].
    intros new. now apply update_unwound_chain.
Qed.

(** A Store to a chain of references around an Uninitialized object. *)
Lemma store_to_chain_of_uninitialized
    (object_assign : uacpi_object -> uacpi_object -> uacpi_assign_behavior
                     -> uacpi_status * uacpi_object)
    (rt : uacpi_runtime) (src : uacpi_object)
    (k : uacpi_reference_kind) (kinds : list uacpi_reference_kind) :
  uacpi_create_object rt UACPI_OBJECT_UNINITIALIZED = true ->
  is_store_kind k = true ->
  let dst := reference_chain (k :: kinds) Uninitialized in
  let copy :=
    object_assign Uninitialized (uacpi_unwrap_internal_reference src)
      UACPI_ASSIGN_BEHAVIOR_DEEP_COPY in
  store_to_reference_with object_assign rt dst src
  = match fst copy with
    | UACPI_STATUS_OK =>
        Returns (UACPI_STATUS_OK,
                 if stores_at_variable k kinds
                 then Reference k (snd copy)
                 else reference_chain (k :: kinds) (snd copy))
    | ret => Returns (ret, dst)
    end.
Proof.
  intros Hcreate Hk dst copy.
  assert (Hvar : forall overwrite,
    store_resolve dst = (UACPI_STATUS_OK, AtReference, dst, overwrite) ->
    overwrite
    || object_type_eqb (type_of (reference_chain kinds Uninitialized))
         UACPI_OBJECT_UNINITIALIZED = true ->
    store_to_reference_with object_assign rt dst src
    = match fst copy with
      | UACPI_STATUS_OK =>
          Returns (UACPI_STATUS_OK, Reference k (snd copy))
      | ret => Returns (ret, dst)
      end).
  { intros overwrite Hres Hover.
    exact (store_overwrites object_assign rt dst src dst _ AtReference
             overwrite Hcreate Hres eq_refl Hover). }
  assert (Hbottom : forall target overwrite,
    store_resolve dst = (UACPI_STATUS_OK, AtUnwound, target, overwrite) ->
    store_to_reference_with object_assign rt dst src
    = match fst copy with
      | UACPI_STATUS_OK =>
          Returns (UACPI_STATUS_OK, reference_chain (k :: kinds) (snd copy))
      | ret => Returns (ret, dst)
      end).
  { intros target overwrite Hres.
    pose proof (store_resolve_unwound _ _ _ Hres) as Htarget.
    rewrite (store_overwrites object_assign rt dst src target Uninitialized
               AtUnwound overwrite Hcreate Hres).
    - fold copy. cbn [update_site]. unfold dst.
      now rewrite update_unwound_chain.
    - rewrite Htarget. now apply inner_of_unwound_chain.
    - apply orb_true_r. }
  assert (Hlocal : forall overwrite,
    k = UACPI_REFERENCE_KIND_LOCAL \/ k = UACPI_REFERENCE_KIND_ARG ->
    store_resolve dst
    = (if is_reference (uacpi_unwrap_internal_reference dst)
       then (UACPI_STATUS_OK, AtUnwound,
             reference_unwind (uacpi_unwrap_internal_reference dst), overwrite)
       else (UACPI_STATUS_OK, AtReference, dst, true)) ->
    store_to_reference_with object_assign rt dst src
    = match fst copy with
      | UACPI_STATUS_OK =>
          Returns (UACPI_STATUS_OK,
                   if forallb is_internal_kind kinds
                   then Reference k (snd copy)
                   else reference_chain (k :: kinds) (snd copy))
      | ret => Returns (ret, dst)
      end).
  { intros overwrite Hkind Hres.
    assert (Hinternal : is_internal_kind k = true)
      by (destruct Hkind as [-> | ->]; reflexivity).
    destruct (unwrap_chain (k :: kinds) Uninitialized eq_refl)
      as [[Hall Hun] | [Hall (k2 & rest & Hun)]];
      fold dst in Hun; cbn [forallb] in Hall; rewrite Hinternal in Hall;
      cbn [andb] in Hall; rewrite Hall; rewrite Hun in Hres.
    - cbn [is_reference] in Hres. apply (Hvar true Hres). reflexivity.
    - cbn [reference_chain is_reference] in Hres.
      exact (Hbottom _ _ Hres). }
  destruct k; try discriminate Hk; cbn [stores_at_variable].
  - apply (Hlocal false); [now left | reflexivity].
  - apply (Hlocal true); [now right | reflexivity].
  - apply (Hbottom (reference_unwind dst) false). reflexivity.
  - destruct kinds as [| k2 rest].
    + rewrite (Hvar true); [reflexivity | reflexivity | reflexivity].
    + apply (Hbottom (reference_unwind (reference_chain (k2 :: rest)
                                           Uninitialized)) false).
      reflexivity.
Qed.

(** C9. A Store through a reference whose resolved destination holds an
    Uninitialized object is no implicit cast: it puts the deep copy of the
    source value, which the object library makes onto a fresh object, in
    place of the Uninitialized object at the bottom of the chain of
    references, and leaves the destination as it was when no copy can be
    made. This holds for every kind of reference that a Store accepts
    (Local, Arg, PkgIndex and Named) and for chains of every length; a
    Named reference is no exception, although for an initialized Named
    destination the store is an implicit cast. A Local or an Arg whose
    chain down to the Uninitialized object has internal references only
    gets the copy in place of that whole chain. An implicit cast onto an
    Uninitialized object would not have succeeded. *)
Theorem store_to_uninitialized_overwrites
    (object_assign : uacpi_object -> uacpi_object -> uacpi_assign_behavior
                     -> uacpi_status * uacpi_object)
    (rt : uacpi_runtime) (dst src : uacpi_object) :
  uacpi_create_object rt UACPI_OBJECT_UNINITIALIZED = true ->
  let src_obj := uacpi_unwrap_internal_reference src in
  let copy :=
    object_assign Uninitialized src_obj UACPI_ASSIGN_BEHAVIOR_DEEP_COPY in
  (forall site target overwrite,
     store_resolve dst = (UACPI_STATUS_OK, site, target, overwrite) ->
     inner_of target = Returns Uninitialized ->
     exists k kinds,
       dst = reference_chain (k :: kinds) Uninitialized
       /\ is_store_kind k = true
       /\ store_to_reference_with object_assign rt dst src
          = match fst copy with
            | UACPI_STATUS_OK =>
                Returns (UACPI_STATUS_OK,
                         reference_chain (k :: kinds) (snd copy))
            | ret => Returns (ret, dst)
            end)
  /\ (forall k kinds,
        is_store_kind k = true ->
        store_to_reference_with object_assign rt
          (reference_chain (k :: kinds) Uninitialized) src
        = match fst copy with
          | UACPI_STATUS_OK =>
              Returns (UACPI_STATUS_OK,
                       if stores_at_variable k kinds
                       then Reference k (snd copy)
                       else reference_chain (k :: kinds) (snd copy))
          | ret =>
              Returns (ret, reference_chain (k :: kinds) Uninitialized)
          end)
  /\ (forall k kinds,
        is_store_kind k = true ->
        store_to_reference rt (reference_chain (k :: kinds) Uninitialized) src
        = Returns (UACPI_STATUS_OK,
                   if stores_at_variable k kinds
                   then Reference k src_obj
                   else reference_chain (k :: kinds) src_obj))
  /\ (forall kinds,
        store_to_reference rt
          (reference_chain (UACPI_REFERENCE_KIND_NAMED :: kinds) Uninitialized)
          src
        = Returns (UACPI_STATUS_OK,
                   reference_chain (UACPI_REFERENCE_KIND_NAMED :: kinds)
                     src_obj))
  /\ (forall r,
        object_assign_with_implicit_cast rt Uninitialized src_obj = Returns r ->
        fst r <> UACPI_STATUS_OK).
Proof.
  intros Hcreate src_obj copy. split; [| split; [| split; [| split]]].
  - intros site target overwrite Hres Hinner.
    destruct (resolved_uninitialized_chain _ _ _ _ Hres Hinner)
      as (k & kinds & Hdst & Hk & Hwrite).
    exists k, kinds. split; [exact Hdst |]. split; [exact Hk |].
    rewrite (store_overwrites object_assign rt dst src target Uninitialized
               site overwrite Hcreate Hres Hinner (orb_true_r _)).
    fold src_obj. fold copy. now rewrite Hwrite.
  - intros k kinds Hk.
    exact (store_to_chain_of_uninitialized object_assign rt src k kinds
             Hcreate Hk).
  - intros k kinds Hk. unfold store_to_reference.
    exact (store_to_chain_of_uninitialized uacpi_object_assign rt src k kinds
             Hcreate Hk).
  - intros kinds. unfold store_to_reference.
    exact (store_to_chain_of_uninitialized uacpi_object_assign rt src
             UACPI_REFERENCE_KIND_NAMED kinds Hcreate eq_refl).
  - intros r. apply implicit_cast_to_uninitialized_fails.
Qed.

(** A named object that holds a RefOf reference to a named object that
    holds Uninitialized: the Buffer takes the place of the Uninitialized
    object. And a Local that holds a package-index reference to an
    Uninitialized element, with an object library that makes deep copies
    only: the element becomes the Buffer. *)
Lemma store_to_uninitialized_overwrites_witness :
  store_to_reference runtime_rev2
    (Reference UACPI_REFERENCE_KIND_NAMED
       (Reference UACPI_REFERENCE_KIND_REFOF
          (Reference UACPI_REFERENCE_KIND_NAMED Uninitialized)))
    (Buffer [1; 2])
  = Returns (UACPI_STATUS_OK,
             Reference UACPI_REFERENCE_KIND_NAMED
               (Reference UACPI_REFERENCE_KIND_REFOF
                  (Reference UACPI_REFERENCE_KIND_NAMED (Buffer [1; 2]))))
  /\ store_to_reference_with
       (fun dst src behavior =>
          match behavior with
          | UACPI_ASSIGN_BEHAVIOR_DEEP_COPY => (UACPI_STATUS_OK, src)
          | UACPI_ASSIGN_BEHAVIOR_SHALLOW_COPY =>
              (UACPI_STATUS_INVALID_ARGUMENT, dst)
          end)
       runtime_rev2
       (Reference UACPI_REFERENCE_KIND_LOCAL
          (Reference UACPI_REFERENCE_KIND_PKG_INDEX Uninitialized))
       (Reference UACPI_REFERENCE_KIND_LOCAL (Buffer [1; 2]))
     = Returns (UACPI_STATUS_OK,
                Reference UACPI_REFERENCE_KIND_LOCAL
                  (Reference UACPI_REFERENCE_KIND_PKG_INDEX (Buffer [1; 2]))).
Proof.
  split.
  - exact (proj1 (proj2 (proj2 (proj2 (store_to_uninitialized_overwrites
             uacpi_object_assign runtime_rev2 Uninitialized (Buffer [1; 2])
             eq_refl))))
             [UACPI_REFERENCE_KIND_REFOF; UACPI_REFERENCE_KIND_NAMED]).
  - exact (proj1 (proj2 (store_to_uninitialized_overwrites
             (fun dst src behavior =>
                match behavior with
                | UACPI_ASSIGN_BEHAVIOR_DEEP_COPY => (UACPI_STATUS_OK, src)
                | UACPI_ASSIGN_BEHAVIOR_SHALLOW_COPY =>
                    (UACPI_STATUS_INVALID_ARGUMENT, dst)
                end)
             runtime_rev2 Uninitialized
             (Reference UACPI_REFERENCE_KIND_LOCAL (Buffer [1; 2]))
             eq_refl))
             UACPI_REFERENCE_KIND_LOCAL [UACPI_REFERENCE_KIND_PKG_INDEX]
             eq_refl).
Defined.

(** ** Name resolution *)

Lemma reads_bound (code : list Z) (off : Z) (bytes : list Z) :
  reads code off bytes -> 0 <= off /\ off + len bytes <= len code.
Proof.
  intros (before & after & -> & <-). unfold len.
  rewrite !length_app. lia.
Qed.

Lemma reads_app (code : list Z) (off : Z) (a b : list Z) :
  reads code off (a ++ b) ->
  reads code off a /\ reads code (off + len a) b.
Proof.
  intros (before & after & -> & <-). split.
  - exists before, (b ++ after). now rewrite <- app_assoc.
  - exists (before ++ a), after. split.
    + now rewrite <- !app_assoc.
    + unfold len. rewrite length_app. lia.
Qed.

Lemma reads_cons (code : list Z) (off : Z) (b : Z) (t : list Z) :
  reads code off (b :: t) ->
  byte_at code off = b /\ reads code (off + 1) t.
Proof.
  intros H. split.
  - destruct H as (before & after & -> & <-). unfold byte_at, len.
    rewrite Nat2Z.id. cbn [app]. apply nth_middle.
  - change (b :: t) with ([b] ++ t) in H.
    apply reads_app in H. exact (proj2 H).
Qed.

Lemma reads_slice (code : list Z) (off : Z) (bytes : list Z) :
  reads code off bytes -> slice code off (len bytes) = bytes.
Proof.
  intros (before & after & -> & <-). unfold slice, len.
  rewrite !Nat2Z.id, skipn_app, Nat.sub_diag, skipn_all. cbn [skipn app].
  rewrite firstn_app, Nat.sub_diag, firstn_all. cbn [firstn].
  now rewrite app_nil_r.
Qed.

Lemma reads_byte_at (code : list Z) (off : Z) (bytes : list Z) (i : nat) :
  reads code off bytes -> (i < length bytes)%nat ->
  byte_at code (off + Z.of_nat i) = nth i bytes 0.
Proof.
  revert off bytes. induction i as [| i IH]; intros off bytes H Hi.
  - destruct bytes as [| b t]; [simpl in Hi; lia |].
    rewrite Z.add_0_r. now destruct (reads_cons _ _ _ _ H).
  - destruct bytes as [| b t]; [simpl in Hi; lia |].
    destruct (reads_cons _ _ _ _ H) as [_ Ht].
    replace (off + Z.of_nat (S i)) with (off + 1 + Z.of_nat i) by lia.
    cbn [nth]. apply IH; [exact Ht | simpl in Hi; lia].
Qed.

(** ** Upward search *)

Lemma lookup_in_scope_chain (ns : uacpi_namespace) (name : uacpi_object_name)
    (scope : uacpi_namespace_node) :
  lookup_in_scopes ns name (scope_chain scope)
  = match uacpi_namespace_node_find ns scope name with
    | Some node => Some node
    | None => upward_search ns name scope
    end.
Proof.
  induction scope as [| x parent IH].
  - cbn. now destruct (uacpi_namespace_node_find ns [] name).
  - cbn [scope_chain lookup_in_scopes upward_search].
    destruct (uacpi_namespace_node_find ns (x :: parent) name); [reflexivity |].
    exact IH.
Qed.

(** ** Segments *)

Lemma name_char_not_prefix (c : Z) :
  is_name_char c = true ->
  c <> char_backslash /\ c <> char_caret /\ c <> UACPI_DUAL_NAME_PREFIX
  /\ c <> UACPI_MULTI_NAME_PREFIX /\ c <> UACPI_NULL_NAME.
Proof.
  unfold is_name_char, char_backslash, char_caret, UACPI_DUAL_NAME_PREFIX,
    UACPI_MULTI_NAME_PREFIX, UACPI_NULL_NAME.
  intros H. repeat split; intros ->; discriminate H.
Qed.

Lemma parse_nameseg_ok (code : list Z) (cursor : Z) (seg : uacpi_object_name) :
  nameseg_ok seg -> reads code cursor seg ->
  parse_nameseg code cursor = (UACPI_STATUS_OK, seg).
Proof.
  intros [Hlen Hchars] Hr. unfold parse_nameseg.
  assert (Hs : slice code cursor 4 = seg).
  { rewrite <- (reads_slice _ _ _ Hr). unfold len. now rewrite Hlen. }
  rewrite Hs.
  assert (Hall : forallb (fun i => is_name_char (byte_at code (cursor + i)))
                   [0; 1; 2; 3] = true).
  { rewrite Forall_forall in Hchars.
    assert (Hc : forall i : nat, (i < 4)%nat ->
               is_name_char (byte_at code (cursor + Z.of_nat i)) = true).
    { intros i Hi. rewrite (reads_byte_at _ _ _ _ Hr) by lia.
      apply Hchars, nth_In. lia. }
    cbn [forallb].
    pose proof (Hc 0%nat) as H0. pose proof (Hc 1%nat) as H1.
    pose proof (Hc 2%nat) as H2. pose proof (Hc 3%nat) as H3.
    cbn [Z.of_nat Pos.of_succ_nat Pos.succ] in H0, H1, H2, H3.
    rewrite H0, H1, H2, H3 by lia. reflexivity. }
  now rewrite Hall.
Qed.

(** The segment loop without upward search follows [lookup_path] and
    leaves the cursor plus four bytes for every segment it has not
    consumed at the end of the segments. *)
Lemma resolve_segments_direct (ns : uacpi_namespace) (code : list Z)
    (segs : list uacpi_object_name) :
  Forall nameseg_ok segs ->
  forall (cursor : Z) (start : uacpi_namespace_node),
  reads code cursor (concat segs) ->
  exists ret c k node,
    resolve_segments ns RESOLVE_FAIL_IF_DOESNT_EXIST false code
      (length segs) cursor start = ReachedOut ret c k node
    /\ c + Z.of_nat k * 4 = cursor + len segs * 4
    /\ node = lookup_path ns start segs
    /\ ret = match node with
             | Some _ => UACPI_STATUS_OK
             | None => UACPI_STATUS_NOT_FOUND
             end.
Proof.
  induction 1 as [| seg rest Hseg Hrest IH]; intros cursor start Hr.
  - exists UACPI_STATUS_OK, cursor, 0%nat, (Some start).
    cbn. repeat split; try (unfold len; cbn; lia).
  - cbn [concat] in Hr. destruct (reads_app _ _ _ _ Hr) as [Hr1 Hr2].
    cbn [length resolve_segments lookup_path].
    rewrite (parse_nameseg_ok _ _ _ Hseg Hr1).
    destruct (uacpi_namespace_node_find ns start seg) as [node |] eqn:Ef.
    + destruct Hseg as [Hlen _].
      replace (cursor + len seg) with (cursor + 4) in Hr2
        by (unfold len; rewrite Hlen; reflexivity).
      destruct (IH (cursor + 4) node Hr2) as (ret & c & k & n & He & Hc & Hn & Hret).
      exists ret, c, k, n. repeat split; try assumption.
      rewrite Hc. unfold len. cbn [length]. lia.
    + exists UACPI_STATUS_NOT_FOUND, cursor, (S (length rest)), None.
      repeat split; try (unfold len; cbn [length]; lia).
Qed.

(** ** Prefixes *)

Lemma resolve_prefix_last (fuel : nat) (code : list Z) (st : prefix_state) :
  px_bytes_left st <> 0 ->
  is_prefix_char (byte_at code (px_cursor st)) = false ->
  resolve_prefix (S fuel) code st
  = (UACPI_STATUS_OK,
     mk_prefix (px_cursor st) (px_bytes_left st) (px_cur_node st)
       (byte_at code (px_cursor st)) (px_just_one_nameseg st)).
Proof.
  intros Hbl Hc. unfold is_prefix_char in Hc.
  apply orb_false_elim in Hc. destruct Hc as [Hc1 Hc2].
  cbn [resolve_prefix].
  apply Z.eqb_neq in Hbl. rewrite Hbl, Hc1, Hc2. cbn. reflexivity.
Qed.

Lemma resolve_prefix_parents (code : list Z) (c : Z) (more : nat) :
  is_prefix_char c = false ->
  forall (fuel : nat) (cursor bytes_left : Z) (cur_node : uacpi_namespace_node)
         (prev_char : Z) (just_one : bool),
  reads code cursor (repeat char_caret (S more) ++ [c]) ->
  (S more <= length cur_node)%nat ->
  (S (S more) <= fuel)%nat ->
  Z.of_nat (S (S more)) <= bytes_left ->
  resolve_prefix fuel code
    (mk_prefix cursor bytes_left cur_node prev_char just_one)
  = (UACPI_STATUS_OK,
     mk_prefix (cursor + Z.of_nat (S more)) (bytes_left - Z.of_nat (S more))
       (skipn (S more) cur_node) c false).
Proof.
  intros Hc. induction more as [| more IH];
    intros fuel cursor bytes_left cur_node prev_char just_one Hr Hdepth Hfuel Hbl.
  - destruct fuel as [| [| fuel]]; try lia.
    cbn [repeat app] in Hr.
    destruct (reads_cons _ _ _ _ Hr) as [Hb0 Hr1].
    destruct (reads_cons _ _ _ _ Hr1) as [Hb1 _].
    destruct cur_node as [| x parent]; [simpl in Hdepth; lia |].
    remember (S fuel) as f1. cbn [resolve_prefix px_bytes_left px_cursor px_prev_char px_cur_node px_just_one_nameseg].
    replace (bytes_left =? 0) with false by (symmetry; apply Z.eqb_neq; lia).
    rewrite Hb0. cbn [node_eqb uacpi_namespace_root andb].
    change (char_caret =? char_backslash) with false.
    change (char_caret =? char_caret) with true.
    cbn [andb orb negb node_parent tl].
    subst f1. rewrite resolve_prefix_last; cbn [px_bytes_left px_cursor px_prev_char px_cur_node px_just_one_nameseg].
    + rewrite Hb1. reflexivity.
    + lia.
    + now rewrite Hb1.
  - destruct fuel as [| fuel]; try lia.
    change (repeat char_caret (S (S more))) with (char_caret :: repeat char_caret (S more)) in Hr.
    cbn [app] in Hr.
    destruct (reads_cons _ _ _ _ Hr) as [Hb0 Hr1].
    destruct cur_node as [| x parent]; [simpl in Hdepth; lia |].
    cbn [resolve_prefix px_bytes_left px_cursor px_prev_char px_cur_node px_just_one_nameseg].
    replace (bytes_left =? 0) with false by (symmetry; apply Z.eqb_neq; lia).
    rewrite Hb0. cbn [node_eqb uacpi_namespace_root andb].
    change (char_caret =? char_backslash) with false.
    change (char_caret =? char_caret) with true.
    cbn [andb orb negb node_parent tl].
    rewrite (IH fuel (cursor + 1) (bytes_left - 1) parent char_caret false Hr1)
      by (simpl in Hdepth; lia).
    f_equal. f_equal; try lia. 
Qed.

Lemma resolve_prefix_encoded (code : list Z) (prefix : name_prefix) (c : Z)
    (cursor bytes_left : Z) (scope start : uacpi_namespace_node) :
  reads code cursor (encode_prefix prefix ++ [c]) ->
  is_prefix_char c = false ->
  prefix_start scope prefix = Some start ->
  len (encode_prefix prefix) + 1 <= bytes_left ->
  exists st,
    resolve_prefix (S (Z.to_nat bytes_left)) code
      (mk_prefix cursor bytes_left scope 0 true) = (UACPI_STATUS_OK, st)
    /\ px_cursor st = cursor + len (encode_prefix prefix)
    /\ px_bytes_left st = bytes_left - len (encode_prefix prefix)
    /\ px_cur_node st = start
    /\ px_just_one_nameseg st
       = match prefix with PrefixNone => true | _ => false end.
Proof.
  intros Hr Hc Hstart Hbl. destruct prefix as [| | more].
  - cbn [encode_prefix app] in *. unfold len in *. cbn [length] in *.
    destruct (reads_cons _ _ _ _ Hr) as [Hb _].
    injection Hstart as <-.
    eexists. split.
    + apply resolve_prefix_last; cbn [px_bytes_left px_cursor]; [lia |].
      now rewrite Hb.
    + cbn. repeat split; lia.
  - cbn [encode_prefix app] in *. unfold len in *. cbn [length] in *.
    destruct (reads_cons _ _ _ _ Hr) as [Hb _].
    injection Hstart as <-.
    eexists. split.
    + cbn [resolve_prefix px_bytes_left px_cursor px_prev_char px_cur_node
             px_just_one_nameseg].
      replace (bytes_left =? 0) with false by (symmetry; apply Z.eqb_neq; lia).
      rewrite Hb.
      change (char_backslash =? char_backslash) with true.
      change (0 =? char_caret) with false.
      change (char_backslash =? char_caret) with false.
      cbn [andb orb negb]. reflexivity.
    + cbn. repeat split; lia.
  - cbn [encode_prefix prefix_start] in *.
    destruct (S more <=? length scope)%nat eqn:Ed; [| discriminate].
    injection Hstart as <-. apply Nat.leb_le in Ed.
    assert (Hl : len (repeat char_caret (S more)) = Z.of_nat (S more))
      by (unfold len; now rewrite repeat_length).
    rewrite Hl in *.
    eexists. split.
    + apply (resolve_prefix_parents code c more Hc); [exact Hr | exact Ed | lia | lia].
    + cbn. repeat split; lia.
Qed.

Lemma resolve_segments_upward (ns : uacpi_namespace) (code : list Z)
    (seg : uacpi_object_name) (cursor : Z) (scope : uacpi_namespace_node) :
  nameseg_ok seg -> reads code cursor seg ->
  resolve_segments ns RESOLVE_FAIL_IF_DOESNT_EXIST true code 1 cursor scope
  = match lookup_in_scopes ns seg (scope_chain scope) with
    | Some node => ReachedOut UACPI_STATUS_OK (cursor + 4) 0 (Some node)
    | None => ReachedOut UACPI_STATUS_NOT_FOUND cursor 1 None
    end.
Proof.
  intros Hseg Hr. cbn [resolve_segments].
  rewrite (parse_nameseg_ok _ _ _ Hseg Hr), lookup_in_scope_chain.
  destruct (uacpi_namespace_node_find ns scope seg); [reflexivity |].
  destruct (upward_search ns seg scope); reflexivity.
Qed.

Lemma encode_path_lead (path : name_path) :
  Forall nameseg_ok (path_segments path) ->
  exists c rest, encode_path path = c :: rest /\ is_prefix_char c = false.
Proof.
  intros H. destruct path as [seg | | |]; try (eexists _, _; split; reflexivity).
  cbn [path_segments] in H. inversion H as [| ? ? [Hlen Hch] _]; subst.
  destruct seg as [| c rest]; [discriminate Hlen |].
  exists c, rest. split; [reflexivity |].
  inversion Hch as [| ? ? Hc _]; subst.
  destruct (name_char_not_prefix c Hc) as (H1 & H2 & _).
  unfold is_prefix_char. apply orb_false_intro; apply Z.eqb_neq; assumption.
Qed.

Lemma len_concat_segs (segs : list uacpi_object_name) :
  Forall nameseg_ok segs -> len (concat segs) = len segs * 4.
Proof.
  induction 1 as [| seg rest [Hlen _] _ IH]; [reflexivity |].
  unfold len in *. cbn [concat length]. rewrite length_app, Hlen. lia.
Qed.

Ltac same_offset :=
  lazymatch goal with
  | |- (_, set_code_offset ?f ?x, _) = (_, set_code_offset ?f ?y, _) =>
      replace x with y
        by (try (unfold len in *; cbn [length] in *; lia); lia);
      reflexivity
  end.

(** C1. Find-existing resolution of a well-formed name string read at the
    cursor of the frame. A single NameSeg, with no prefix character and no
    dual or multi marker, is looked up in the current scope and then in
    each ancestor up to the root. Every other name string is walked
    segment by segment from the node its prefix leads to, and a miss at
    any segment is NotFound without climbing. In both cases the cursor
    ends behind the name string. *)
Theorem resolve_name_string_upward_search_iff_single_nameseg
    (ns : uacpi_namespace) (frame : call_frame) (prefix : name_prefix)
    (path : name_path) (out_node : option uacpi_namespace_node)
    (start : uacpi_namespace_node) :
  name_string_ok prefix path ->
  reads (code frame) (code_offset frame) (encode_name_string prefix path) ->
  prefix_start (cur_scope frame) prefix = Some start ->
  (prefix = PrefixNone -> path <> PathNull) ->
  let node :=
    if is_single_nameseg prefix path
    then lookup_in_scopes ns (hd [] (path_segments path))
           (scope_chain (cur_scope frame))
    else lookup_path ns start (path_segments path) in
  resolve_name_string ns frame RESOLVE_FAIL_IF_DOESNT_EXIST out_node
  = (match node with
     | Some _ => UACPI_STATUS_OK
     | None => UACPI_STATUS_NOT_FOUND
     end,
     set_code_offset frame
       (code_offset frame + len (encode_name_string prefix path)),
     node).
Proof.
  intros [Hsegs Hmulti] Hr Hstart Hnull node.
  destruct (encode_path_lead path Hsegs) as (c & rest & Henc & Hc).
  pose proof (reads_bound _ _ _ Hr) as [Hoff Hlen].
  unfold encode_name_string in *.
  destruct (reads_app _ _ _ _ Hr) as [_ Hrpath].
  assert (Hrp : reads (code frame) (code_offset frame) (encode_prefix prefix ++ [c])).
  { rewrite Henc in Hr. change (c :: rest) with ([c] ++ rest) in Hr.
    rewrite app_assoc in Hr. exact (proj1 (reads_app _ _ _ _ Hr)). }
  assert (Hlenall : len (encode_prefix prefix ++ encode_path path)
                    = len (encode_prefix prefix) + len (encode_path path))
    by (unfold len; rewrite length_app; lia).
  rewrite Hlenall in *.
  assert (Hplen : 1 <= len (encode_path path))
    by (rewrite Henc; unfold len; cbn [length]; lia).
  set (bl := call_frame_code_bytes_left frame).
  assert (Hbl : bl = len (code frame) - code_offset frame) by reflexivity.
  destruct (resolve_prefix_encoded (code frame) prefix c (code_offset frame) bl
              (cur_scope frame) start Hrp Hc Hstart ltac:(lia))
    as (st & Hst & Hcur & Hleft & Hnode & Hone).
  unfold resolve_name_string. fold bl. rewrite Hst.
  destruct st as [cursor bytes_left cur_node prev_char just_one].
  cbn [px_cursor px_bytes_left px_cur_node px_just_one_nameseg] in *.
  subst cursor bytes_left cur_node just_one.
  replace (bl - len (encode_prefix prefix) =? 0) with false
    by (symmetry; apply Z.eqb_neq; lia).
  remember (code_offset frame + len (encode_prefix prefix)) as cur eqn:Hcurdef.
  destruct path as [seg | seg1 seg2 | segs |].
  - (* a single NameSeg *)
    cbn [path_segments encode_path hd] in *.
    subst seg. pose proof (Forall_inv Hsegs) as Hseg.
    pose proof Hseg as [Hl Hch].
    destruct (reads_cons _ _ _ _ Hrpath) as [Hlead _]. rewrite Hlead.
    pose proof (Forall_inv Hch) as Hcc. cbv beta in Hcc.
    destruct (name_char_not_prefix c Hcc) as (_ & _ & H1 & H2 & H3).
    apply Z.eqb_neq in H1, H2, H3. rewrite H1, H2, H3.
    assert (Hl4 : len (c :: rest) = 4) by (unfold len; rewrite Hl; reflexivity).
    rewrite Hl4 in *.
    replace (bl - len (encode_prefix prefix) <? 1 * 4) with false
      by (symmetry; apply Z.ltb_ge; lia).
    change (Z.to_nat 1) with 1%nat.
    destruct prefix as [| | more]; subst node;
      cbn [is_single_nameseg path_segments hd].
    + rewrite (resolve_segments_upward ns _ _ _ _ Hseg Hrpath).
      injection Hstart as <-.
      destruct (lookup_in_scopes ns (c :: rest) (scope_chain (cur_scope frame)));
        same_offset.
    + destruct (resolve_segments_direct ns (code frame) [c :: rest]
                  ltac:(constructor; [exact Hseg | constructor]) cur start
                  ltac:(cbn [concat]; rewrite app_nil_r; exact Hrpath))
        as (ret & cc & k & n & He & Hcc' & Hn & Hret).
      cbn [length] in He. rewrite He. subst n ret.
      unfold len in Hcc'. cbn [length] in Hcc'.
      unfold uacpi_object_name in *;
      destruct (lookup_path ns start [c :: rest]); same_offset.
    + destruct (resolve_segments_direct ns (code frame) [c :: rest]
                  ltac:(constructor; [exact Hseg | constructor]) cur start
                  ltac:(cbn [concat]; rewrite app_nil_r; exact Hrpath))
        as (ret & cc & k & n & He & Hcc' & Hn & Hret).
      cbn [length] in He. rewrite He. subst n ret.
      unfold len in Hcc'. cbn [length] in Hcc'.
      unfold uacpi_object_name in *;
      destruct (lookup_path ns start [c :: rest]); same_offset.
  - (* DualNamePath *)
    cbn [path_segments encode_path] in *.
    destruct (reads_cons _ _ _ _ Hrpath) as [Hlead Hrsegs]. rewrite Hlead.
    change (UACPI_DUAL_NAME_PREFIX =? UACPI_DUAL_NAME_PREFIX) with true. cbv iota.
    pose proof (len_concat_segs [seg1; seg2] Hsegs) as Hcl.
    cbn [concat] in Hcl. rewrite app_nil_r in Hcl.
    assert (Hl : len (UACPI_DUAL_NAME_PREFIX :: seg1 ++ seg2) = 9).
    { unfold len in *. cbn [length] in *. lia. }
    rewrite Hl in *.
    replace (bl - len (encode_prefix prefix) - 1 <? 2 * 4) with false
      by (symmetry; apply Z.ltb_ge; lia).
    change (Z.to_nat 2) with (length [seg1; seg2]).
    destruct (resolve_segments_direct ns (code frame) [seg1; seg2] Hsegs
                (cur + 1) start
                ltac:(cbn [concat]; rewrite app_nil_r; exact Hrsegs))
      as (ret & cc & k & n & He & Hcc' & Hn & Hret).
    rewrite He. subst n ret.
    unfold len in Hcc'. cbn [length] in Hcc'.
    assert (Hs : is_single_nameseg prefix (PathDual seg1 seg2) = false)
      by (destruct prefix; reflexivity).
    subst node. rewrite Hs. cbn [path_segments].
    unfold uacpi_object_name in *.
    destruct (lookup_path ns start [seg1; seg2]); same_offset.
  - (* MultiNamePath *)
    cbn [path_segments encode_path] in *.
    destruct (reads_cons _ _ _ _ Hrpath) as [Hlead Hr1]. rewrite Hlead.
    destruct (reads_cons _ _ _ _ Hr1) as [Hcount Hrsegs].
    change (UACPI_MULTI_NAME_PREFIX =? UACPI_DUAL_NAME_PREFIX) with false.
    change (UACPI_MULTI_NAME_PREFIX =? UACPI_MULTI_NAME_PREFIX) with true.
    cbv iota.
    pose proof (len_concat_segs segs Hsegs) as Hcl.
    assert (Hl : len (UACPI_MULTI_NAME_PREFIX :: len segs :: concat segs)
                 = 2 + len segs * 4).
    { unfold len in *. cbn [length] in *. lia. }
    rewrite Hl in *.
    assert (Hnn : 0 <= len segs) by (unfold len; lia).
    replace (bl - len (encode_prefix prefix) - 1 =? 0) with false
      by (symmetry; apply Z.eqb_neq; lia).
    replace (cur + 1 + 1) with (cur + 2) in Hrsegs by lia.
    rewrite Hcount.
    replace (bl - len (encode_prefix prefix) - 2 <? len segs * 4) with false
      by (symmetry; apply Z.ltb_ge; lia).
    replace (Z.to_nat (len segs)) with (length segs)
      by (unfold len; now rewrite Nat2Z.id).
    destruct (resolve_segments_direct ns (code frame) segs Hsegs
                (cur + 2) start Hrsegs)
      as (ret & cc & k & n & He & Hcc' & Hn & Hret).
    rewrite He. subst n ret.
    assert (Hs : is_single_nameseg prefix (PathMulti segs) = false)
      by (destruct prefix; reflexivity).
    subst node. rewrite Hs. cbn [path_segments].
    unfold uacpi_object_name in *.
    destruct (lookup_path ns start segs); same_offset.
  - (* NullName behind a prefix *)
    cbn [path_segments encode_path] in *.
    destruct (reads_cons _ _ _ _ Hrpath) as [Hlead _]. rewrite Hlead.
    change (UACPI_NULL_NAME =? UACPI_DUAL_NAME_PREFIX) with false.
    change (UACPI_NULL_NAME =? UACPI_MULTI_NAME_PREFIX) with false.
    change (UACPI_NULL_NAME =? UACPI_NULL_NAME) with true.
    cbv iota.
    destruct prefix as [| | more]; [now contradiction Hnull | |];
      subst node; cbn [is_single_nameseg lookup_path path_segments]; same_offset.
Qed.

(** [ABCD] sits under the root and is named from the scope [\XYZ_]: the
    single segment is found by climbing, the same segment behind a root
    prefix is found directly. *)
Lemma resolve_name_string_upward_search_iff_single_nameseg_witness :
  resolve_name_string [[[65; 66; 67; 68]]]
    (frame_at [65; 66; 67; 68] 0 [[88; 89; 90; 95]])
    RESOLVE_FAIL_IF_DOESNT_EXIST None
  = (UACPI_STATUS_OK,
     set_code_offset (frame_at [65; 66; 67; 68] 0 [[88; 89; 90; 95]]) 4,
     Some [[65; 66; 67; 68]]).
Proof.
  refine (resolve_name_string_upward_search_iff_single_nameseg
            [[[65; 66; 67; 68]]]
            (frame_at [65; 66; 67; 68] 0 [[88; 89; 90; 95]])
            PrefixNone (PathSeg [65; 66; 67; 68]) None [[88; 89; 90; 95]]
            _ _ _ _).
  - split; [| exact I].
    repeat constructor.
  - exists [], []. split; reflexivity.
  - reflexivity.
  - discriminate.
Defined.

(** ** Buffer fields *)

Ltac destruct_tests :=
  repeat match goal with
         | |- context [ ?a <? ?b ] => destruct (Z.ltb_spec a b)
         | |- context [ ?a <=? ?b ] => destruct (Z.leb_spec a b)
         | |- context [ ?a =? ?b ] => destruct (Z.eqb_spec a b)
         end.

Ltac bits :=
  Z.rewrite_bitwise;
  Z.discover_equal_testbit_indices;
  destruct_tests;
  cbn [andb orb negb];
  try (exfalso; lia);
  try reflexivity;
  try btauto.

Lemma byte_testbit_high (b m : Z) : is_byte b -> 8 <= m -> Z.testbit b m = false.
Proof.
  intros Hb Hm. unfold is_byte in Hb.
  rewrite <- (Z.mod_small b (2 ^ 8)) by lia.
  apply Z.mod_pow2_bits_high. lia.
Qed.

Lemma wrap8_is_byte (v : Z) : is_byte (wrap8 v).
Proof. unfold is_byte, wrap8. apply Z.mod_pos_bound. lia. Qed.

Lemma wrap8_testbit (v m : Z) :
  0 <= m < 8 -> Z.testbit (wrap8 v) m = Z.testbit v m.
Proof. intros H. unfold wrap8. apply Z.mod_pow2_bits_low. lia. Qed.

(** *** One byte of a list *)

Lemma len_splice1 (l : list Z) (i v : Z) :
  0 <= i < len l -> len (splice l i [v]) = len l.
Proof.
  intros H. unfold splice, len in *.
  rewrite !length_app, length_firstn, length_skipn. cbn [length]. lia.
Qed.

Lemma byte_at_splice1 (l : list Z) (i v k : Z) :
  0 <= i < len l -> 0 <= k ->
  byte_at (splice l i [v]) k = if k =? i then v else byte_at l k.
Proof.
  intros Hi Hk. unfold splice, byte_at, len in *. cbn [length app].
  assert (Hf : length (firstn (Z.to_nat i) l) = Z.to_nat i)
    by (rewrite length_firstn; lia).
  destruct (Z.eqb_spec k i) as [-> | Hne].
  - rewrite app_nth2 by lia. rewrite Hf, Nat.sub_diag. reflexivity.
  - destruct (Z.lt_ge_cases k i) as [Hlt | Hge].
    + rewrite app_nth1 by lia. rewrite nth_firstn.
      replace (Z.to_nat k <? Z.to_nat i)%nat with true
        by (symmetry; apply Nat.ltb_lt; lia).
      reflexivity.
    + rewrite app_nth2 by lia. rewrite Hf.
      replace (Z.to_nat k - Z.to_nat i)%nat with (S (Z.to_nat k - Z.to_nat i - 1)) by lia.
      cbn [nth]. rewrite nth_skipn. f_equal. lia.
Qed.

Lemma bytes_ok_splice1 (l : list Z) (i v : Z) :
  bytes_ok l -> is_byte v -> bytes_ok (splice l i [v]).
Proof.
  intros Hl Hv. unfold splice, bytes_ok in *.
  rewrite <- (firstn_skipn (Z.to_nat i) l) in Hl. apply Forall_app in Hl.
  apply Forall_app. split; [tauto |].
  apply Forall_app. split; [constructor; [exact Hv | constructor] |].
  destruct Hl as [_ Hl].
  rewrite <- (firstn_skipn 1 (skipn (Z.to_nat i) l)) in Hl.
  apply Forall_app in Hl. rewrite skipn_skipn in Hl.
  cbn [length]. replace (Z.to_nat i + 1)%nat with (1 + Z.to_nat i)%nat by lia.
  tauto.
Qed.

Lemma load_in_range (l : list Z) (i : Z) :
  0 <= i < len l -> load l i = Returns (byte_at l i).
Proof.
  intros H. unfold load.
  replace (0 <=? i) with true by (symmetry; apply Z.leb_le; lia).
  replace (i <? len l) with true by (symmetry; apply Z.ltb_lt; lia).
  reflexivity.
Qed.

Lemma store_in_range (l : list Z) (i v : Z) :
  0 <= i < len l -> store l i v = Returns (splice l i [wrap8 v]).
Proof.
  intros H. unfold store.
  replace (0 <=? i) with true by (symmetry; apply Z.leb_le; lia).
  replace (i <? len l) with true by (symmetry; apply Z.ltb_lt; lia).
  reflexivity.
Qed.

(** *** The bits one iteration moves *)

Lemma low_ones (c : Z) :
  0 <= c -> (if c <? 8 then Z.shiftl 1 c - 1 else 255) = Z.ones (Z.min c 8).
Proof.
  intros Hc. destruct (c <? 8) eqn:E.
  - apply Z.ltb_lt in E. rewrite Z.min_l by lia.
    rewrite Z.ones_equiv, Z.shiftl_1_l. lia.
  - apply Z.ltb_ge in E. rewrite Z.min_r by lia. reflexivity.
Qed.

Lemma dst_mask_bits (dc ds m : Z) :
  0 < dc -> 0 <= ds < 8 -> 0 <= m ->
  Z.testbit (dst_mask_of dc ds) m
  = (ds <=? m) && (m <? ds + Z.min dc 8).
Proof.
  intros Hdc Hds Hm. unfold dst_mask_of, wrap16.
  rewrite low_ones by lia. bits.
Qed.

Lemma scatter_first_byte (d0 bits dc ds m : Z) :
  0 < dc -> 0 <= ds < 8 -> 0 <= m < 8 ->
  Z.testbit
    (wrap8 (Z.lor (Z.land d0 (Z.lnot (dst_mask_of dc ds)))
                  (Z.land (Z.shiftl bits ds) (dst_mask_of dc ds)))) m
  = if (ds <=? m) && (m <? ds + Z.min dc 8)
    then Z.testbit bits (m - ds) else Z.testbit d0 m.
Proof.
  intros Hdc Hds Hm. rewrite wrap8_testbit by lia.
  rewrite Z.lor_spec, !Z.land_spec, Z.lnot_spec, Z.shiftl_spec by lia.
  rewrite dst_mask_bits by lia.
  destruct ((ds <=? m) && (m <? ds + Z.min dc 8)); cbn [negb andb orb];
    rewrite ?andb_true_r, ?andb_false_r, ?orb_false_r; reflexivity.
Qed.

Lemma scatter_second_byte (d1 bits dc ds m : Z) :
  0 < dc -> 0 < ds < 8 -> 0 <= m < 8 ->
  Z.testbit
    (wrap8 (Z.lor (wrap8 (Z.land d1 (Z.lnot (Z.shiftr (dst_mask_of dc ds) 8))))
                  (Z.land (Z.shiftr bits (8 - ds))
                          (Z.shiftr (dst_mask_of dc ds) 8)))) m
  = if m + 8 <? ds + Z.min dc 8
    then Z.testbit bits (m + 8 - ds) else Z.testbit d1 m.
Proof.
  intros Hdc Hds Hm. rewrite wrap8_testbit by lia.
  rewrite Z.lor_spec, wrap8_testbit by lia.
  rewrite !Z.land_spec, Z.lnot_spec, !Z.shiftr_spec by lia.
  rewrite dst_mask_bits by lia.
  replace (m + (8 - ds)) with (m + 8 - ds) by lia.
  replace (ds <=? m + 8) with true by (symmetry; apply Z.leb_le; lia).
  cbn [andb].
  destruct (m + 8 <? ds + Z.min dc 8); cbn [negb andb orb];
    rewrite ?andb_true_r, ?andb_false_r, ?orb_false_r; reflexivity.
Qed.

Lemma gather_one_byte (b0 ss sc m : Z) :
  is_byte b0 -> 0 <= ss < 8 -> 0 <= m < 8 ->
  Z.testbit (wrap8 (Z.shiftr b0 ss)) m = Z.testbit b0 (m + ss).
Proof.
  intros Hb Hss Hm. rewrite wrap8_testbit by lia.
  now rewrite Z.shiftr_spec by lia.
Qed.

Lemma gather_two_bytes (b0 b1 ss m : Z) :
  is_byte b0 -> is_byte b1 -> 0 < ss < 8 -> 0 <= m < 8 ->
  Z.testbit
    (wrap8 (Z.lor (wrap8 (Z.shiftr b0 ss)) (Z.shiftl b1 (8 - ss)))) m
  = if m + ss <? 8 then Z.testbit b0 (m + ss) else Z.testbit b1 (m + ss - 8).
Proof.
  intros Hb0 Hb1 Hss Hm. rewrite wrap8_testbit by lia.
  rewrite Z.lor_spec, gather_one_byte by (assumption || lia).
  rewrite Z.shiftl_spec by lia.
  replace (m - (8 - ss)) with (m + ss - 8) by lia.
  destruct (Z.ltb_spec (m + ss) 8).
  - rewrite (Z.testbit_neg_r b1) by lia. apply orb_false_r.
  - rewrite (byte_testbit_high b0) by (assumption || lia). reflexivity.
Qed.

Lemma mask_low_bits (bits sc m : Z) :
  0 <= sc -> 0 <= m ->
  Z.testbit (Z.land bits (Z.shiftl 1 sc - 1)) m = Z.testbit bits m && (m <? sc).
Proof.
  intros Hsc Hm.
  replace (Z.shiftl 1 sc - 1) with (Z.ones sc)
    by (rewrite Z.ones_equiv, Z.shiftl_1_l; lia).
  rewrite Z.land_spec. f_equal.
  destruct (Z.ltb_spec m sc).
  - apply Z.ones_spec_low; lia.
  - apply Z.ones_spec_high; lia.
Qed.

Lemma div_mod_8 (i : Z) : i = 8 * (i / 8) + i mod 8 /\ 0 <= i mod 8 < 8.
Proof.
  split; [apply Z.div_mod; lia | apply Z.mod_pos_bound; lia].
Qed.

Lemma scatter_bits_spec (dst : list Z) (ds dp dc bits : Z) :
  0 <= ds < 8 -> 0 <= dp -> 0 < dc ->
  8 * dp + ds + Z.min dc 8 <= 8 * len dst ->
  exists dst',
    scatter_bits dst ds dp dc bits = Returns dst'
    /\ len dst' = len dst
    /\ (bytes_ok dst -> bytes_ok dst')
    /\ forall i, 0 <= i ->
         bit_at dst' i
         = if (8 * dp + ds <=? i) && (i <? 8 * dp + ds + Z.min dc 8)
           then Z.testbit bits (i - (8 * dp + ds))
           else bit_at dst i.
Proof.
  intros Hds Hdp Hdc Hin.
  assert (Hdp1 : 0 <= dp < len dst) by lia.
  unfold scatter_bits.
  change (wrap16 (Z.shiftl (if dc <? 8 then Z.shiftl 1 dc - 1 else 255) ds))
    with (dst_mask_of dc ds).
  rewrite load_in_range by exact Hdp1. cbn [bind].
  rewrite store_in_range by exact Hdp1. cbn [bind].
  set (new0 := wrap8 (Z.lor (Z.land (byte_at dst dp) (Z.lnot (dst_mask_of dc ds)))
                 (Z.land (Z.shiftl bits ds) (dst_mask_of dc ds)))).
  set (dst1 := splice dst dp [new0]).
  assert (Hlen1 : len dst1 = len dst) by (apply len_splice1; exact Hdp1).
  destruct (negb (ds =? 0) && (8 - ds <? dc)) eqn:Esecond.
  - apply andb_prop in Esecond. destruct Esecond as [E1 E2].
    apply negb_true_iff, Z.eqb_neq in E1. apply Z.ltb_lt in E2.
    assert (Hdp2 : 0 <= dp + 1 < len dst1) by lia.
    rewrite load_in_range by exact Hdp2. cbn [bind].
    rewrite store_in_range by exact Hdp2. cbn [bind].
    set (dst2 := splice dst1 (dp + 1) _).
    assert (Hlen2 : len dst2 = len dst1) by (apply len_splice1; exact Hdp2).
    assert (Hdp3 : 0 <= dp + 1 < len dst2) by lia.
    rewrite load_in_range by exact Hdp3. cbn [bind].
    rewrite store_in_range by exact Hdp3.
    eexists. split; [reflexivity |].
    split; [rewrite len_splice1 by exact Hdp3; lia |].
    split.
    + intros Hok. repeat apply bytes_ok_splice1; try apply wrap8_is_byte. exact Hok.
    + intros i Hi. unfold bit_at.
      destruct (div_mod_8 i) as [Hdm Hm].
      set (q := i / 8) in *. set (m := i mod 8) in *.
      assert (Hq : 0 <= q) by lia.
      rewrite byte_at_splice1 by (exact Hdp3 || exact Hq).
      destruct (Z.eqb_spec q (dp + 1)) as [Eq1 | Eq1].
      * subst dst2. rewrite byte_at_splice1 by (exact Hdp2 || lia).
        rewrite Z.eqb_refl.
        rewrite scatter_second_byte by lia.
        subst dst1. rewrite byte_at_splice1 by (exact Hdp1 || lia).
        replace (dp + 1 =? dp) with false by (symmetry; apply Z.eqb_neq; lia).
        replace (8 * dp + ds <=? i) with true by (symmetry; apply Z.leb_le; lia).
        cbn [andb].
        replace (i <? 8 * dp + ds + Z.min dc 8) with (m + 8 <? ds + Z.min dc 8)
          by (destruct (Z.ltb_spec (m + 8) (ds + Z.min dc 8));
              symmetry; [apply Z.ltb_lt | apply Z.ltb_ge]; lia).
        replace (i - (8 * dp + ds)) with (m + 8 - ds) by lia.
        rewrite Eq1. reflexivity.
      * subst dst2. rewrite byte_at_splice1 by (exact Hdp2 || lia).
        replace (q =? dp + 1) with false by (symmetry; apply Z.eqb_neq; lia).
        subst dst1. rewrite byte_at_splice1 by (exact Hdp1 || lia).
        destruct (Z.eqb_spec q dp) as [Eq0 | Eq0].
        -- subst new0. rewrite scatter_first_byte by lia.
           replace (8 * dp + ds <=? i) with (ds <=? m)
             by (destruct (Z.leb_spec ds m);
                 symmetry; [apply Z.leb_le | apply Z.leb_gt]; lia).
           replace (i <? 8 * dp + ds + Z.min dc 8) with (m <? ds + Z.min dc 8)
             by (destruct (Z.ltb_spec m (ds + Z.min dc 8));
                 symmetry; [apply Z.ltb_lt | apply Z.ltb_ge]; lia).
           replace (i - (8 * dp + ds)) with (m - ds) by lia.
           rewrite Eq0. reflexivity.
        -- replace ((8 * dp + ds <=? i) && (i <? 8 * dp + ds + Z.min dc 8))
             with false; [reflexivity |].
           symmetry. apply andb_false_iff.
           destruct (Z.lt_ge_cases q dp);
             [left; apply Z.leb_gt | right; apply Z.ltb_ge]; lia.
  - eexists. split; [reflexivity |].
    split; [exact Hlen1 |].
    split.
    + intros Hok. apply bytes_ok_splice1; [exact Hok | apply wrap8_is_byte].
    + assert (Hfit : ds + Z.min dc 8 <= 8).
      { apply andb_false_iff in Esecond. destruct Esecond as [E | E].
        - apply negb_false_iff, Z.eqb_eq in E. lia.
        - apply Z.ltb_ge in E. lia. }
      intros i Hi. unfold bit_at.
      destruct (div_mod_8 i) as [Hdm Hm].
      set (q := i / 8) in *. set (m := i mod 8) in *.
      assert (Hq : 0 <= q) by lia.
      subst dst1. rewrite byte_at_splice1 by (exact Hdp1 || lia).
      destruct (Z.eqb_spec q dp) as [Eq0 | Eq0].
      * subst new0. rewrite scatter_first_byte by lia.
        replace (8 * dp + ds <=? i) with (ds <=? m)
          by (destruct (Z.leb_spec ds m);
              symmetry; [apply Z.leb_le | apply Z.leb_gt]; lia).
        replace (i <? 8 * dp + ds + Z.min dc 8) with (m <? ds + Z.min dc 8)
          by (destruct (Z.ltb_spec m (ds + Z.min dc 8));
              symmetry; [apply Z.ltb_lt | apply Z.ltb_ge]; lia).
        replace (i - (8 * dp + ds)) with (m - ds) by lia.
        rewrite Eq0. reflexivity.
      * replace ((8 * dp + ds <=? i) && (i <? 8 * dp + ds + Z.min dc 8))
          with false; [reflexivity |].
        symmetry. apply andb_false_iff.
        destruct (Z.lt_ge_cases q dp);
          [left; apply Z.leb_gt | right; apply Z.ltb_ge]; lia.
Qed.

Lemma bit_at_split (l : list Z) (p k : Z) :
  0 <= k < 16 ->
  bit_at l (8 * p + k)
  = if k <? 8 then Z.testbit (byte_at l p) k
    else Z.testbit (byte_at l (p + 1)) (k - 8).
Proof.
  intros Hk. unfold bit_at.
  destruct (Z.ltb_spec k 8).
  - replace ((8 * p + k) / 8) with p
      by (apply (Z.div_unique _ 8 p k); lia).
    replace ((8 * p + k) mod 8) with k
      by (apply (Z.mod_unique _ 8 p k); lia).
    reflexivity.
  - replace ((8 * p + k) / 8) with (p + 1)
      by (apply (Z.div_unique _ 8 (p + 1) (k - 8)); lia).
    replace ((8 * p + k) mod 8) with (k - 8)
      by (apply (Z.mod_unique _ 8 (p + 1) (k - 8)); lia).
    reflexivity.
Qed.

Lemma gather_bits_spec (src : list Z) (ss sp sc : Z) :
  bytes_ok src -> 0 <= ss < 8 -> 0 <= sp -> 0 <= sc ->
  (sc = 0 \/ 8 * sp + ss + sc <= 8 * len src) ->
  exists bits sc' sp',
    gather_bits src ss sp sc = Returns (bits, sc', sp')
    /\ (forall m, 0 <= m < 8 ->
          Z.testbit bits m = (m <? sc) && bit_at src (8 * sp + ss + m))
    /\ (sc < 8 -> sc' = 0 /\ sp' = sp)
    /\ (8 <= sc -> sc' = sc - 8 /\ sp' = sp + 1).
Proof.
  intros Hok Hss Hsp Hsc Hin. unfold gather_bits.
  destruct (Z.eqb_spec sc 0) as [-> | Hne].
  - exists 0, 0, sp. split; [reflexivity |]. split; [| split; intros; lia].
    intros m Hm. rewrite Z.testbit_0_l.
    replace (m <? 0) with false by (symmetry; apply Z.ltb_ge; lia). reflexivity.
  - destruct Hin as [Hin | Hin]; [lia |].
    assert (Hsp1 : 0 <= sp < len src) by lia.
    rewrite load_in_range by exact Hsp1. cbn [bind].
    set (b0 := byte_at src sp).
    assert (Hb0 : is_byte b0) by (apply byte_at_is_byte; exact Hok).
    destruct (negb (ss =? 0) && (8 - ss <? sc)) eqn:Esecond.
    + apply andb_prop in Esecond. destruct Esecond as [E1 E2].
      apply negb_true_iff, Z.eqb_neq in E1. apply Z.ltb_lt in E2.
      assert (Hsp2 : 0 <= sp + 1 < len src) by lia.
      rewrite load_in_range by exact Hsp2. cbn [bind].
      set (b1 := byte_at src (sp + 1)).
      assert (Hb1 : is_byte b1) by (apply byte_at_is_byte; exact Hok).
      assert (Hbits : forall m, 0 <= m < 8 ->
                Z.testbit (wrap8 (Z.lor (wrap8 (Z.shiftr b0 ss))
                                        (Z.shiftl b1 (8 - ss)))) m
                = bit_at src (8 * sp + ss + m)).
      { intros m Hm. rewrite gather_two_bytes by (assumption || lia).
        replace (8 * sp + ss + m) with (8 * sp + (m + ss)) by lia.
        rewrite bit_at_split by lia. reflexivity. }
      destruct (Z.ltb_spec sc 8).
      * eexists _, _, _. split; [reflexivity |].
        split; [| split; intros; lia].
        intros m Hm. rewrite mask_low_bits by lia.
        rewrite Hbits by lia. apply andb_comm.
      * eexists _, _, _. split; [reflexivity |].
        split; [| split; intros; lia].
        intros m Hm. rewrite Hbits by lia.
        replace (m <? sc) with true by (symmetry; apply Z.ltb_lt; lia).
        reflexivity.
    + assert (Hfit : ss = 0 \/ sc <= 8 - ss).
      { apply andb_false_iff in Esecond. destruct Esecond as [E | E].
        - apply negb_false_iff, Z.eqb_eq in E. now left.
        - apply Z.ltb_ge in E. now right. }
      cbn [bind].
      assert (Hbits : forall m, 0 <= m < 8 -> m < sc ->
                Z.testbit (wrap8 (Z.shiftr b0 ss)) m
                = bit_at src (8 * sp + ss + m)).
      { intros m Hm Hlt. rewrite gather_one_byte by (assumption || lia).
        replace (8 * sp + ss + m) with (8 * sp + (m + ss)) by lia.
        rewrite bit_at_split by lia.
        replace (m + ss <? 8) with true by (symmetry; apply Z.ltb_lt; lia).
        reflexivity. }
      destruct (Z.ltb_spec sc 8).
      * eexists _, _, _. split; [reflexivity |].
        split; [| split; intros; lia].
        intros m Hm. rewrite mask_low_bits by lia.
        destruct (Z.ltb_spec m sc).
        -- rewrite Hbits by lia. apply andb_true_r.
        -- apply andb_false_r.
      * eexists _, _, _. split; [reflexivity |].
        split; [| split; intros; lia].
        intros m Hm. rewrite Hbits by lia.
        replace (m <? sc) with true by (symmetry; apply Z.ltb_lt; lia).
        reflexivity.
Qed.

Lemma rw_loop_spec (src : list Z) (ss ds : Z) :
  bytes_ok src -> 0 <= ss < 8 -> 0 <= ds < 8 ->
  forall (fuel : nat) (dst : list Z) (dp sp dc sc : Z),
  0 <= dp -> 0 <= sp -> 0 <= dc -> 0 <= sc ->
  dc <= 8 * Z.of_nat fuel ->
  (dc = 0 \/ 8 * dp + ds + dc <= 8 * len dst) ->
  (sc = 0 \/ 8 * sp + ss + sc <= 8 * len src) ->
  exists dst',
    rw_loop fuel src ss ds dst dp sp dc sc = Returns dst'
    /\ len dst' = len dst
    /\ (bytes_ok dst -> bytes_ok dst')
    /\ forall i, 0 <= i ->
         bit_at dst' i
         = if (8 * dp + ds <=? i) && (i <? 8 * dp + ds + dc)
           then (i - (8 * dp + ds) <? sc)
                && bit_at src (8 * sp + ss + (i - (8 * dp + ds)))
           else bit_at dst i.
Proof.
  intros Hok Hss Hds. induction fuel as [| fuel IH];
    intros dst dp sp dc sc Hdp Hsp Hdc Hsc Hfuel Hdin Hsin.
  - assert (dc = 0) by lia. subst dc.
    exists dst. split; [reflexivity |]. split; [reflexivity |].
    split; [tauto |]. intros i Hi.
    replace ((8 * dp + ds <=? i) && (i <? 8 * dp + ds + 0)) with false;
      [reflexivity |].
    symmetry. apply andb_false_iff.
    destruct (Z.lt_ge_cases i (8 * dp + ds));
      [left; apply Z.leb_gt | right; apply Z.ltb_ge]; lia.
  - cbn [rw_loop]. destruct (Z.eqb_spec dc 0) as [-> | Hne].
    + exists dst. split; [reflexivity |]. split; [reflexivity |].
      split; [tauto |]. intros i Hi.
      replace ((8 * dp + ds <=? i) && (i <? 8 * dp + ds + 0)) with false;
        [reflexivity |].
      symmetry. apply andb_false_iff.
      destruct (Z.lt_ge_cases i (8 * dp + ds));
        [left; apply Z.leb_gt | right; apply Z.ltb_ge]; lia.
    + destruct Hdin as [Hdin | Hdin]; [lia |].
      destruct (gather_bits_spec src ss sp sc Hok Hss Hsp Hsc Hsin)
        as (bits & sc' & sp' & Hg & Hbits & Hlt8 & Hge8).
      rewrite Hg. cbn [bind].
      destruct (scatter_bits_spec dst ds dp dc bits Hds Hdp ltac:(lia) ltac:(lia))
        as (dst1 & Hs & Hlen1 & Hok1 & Hbit1).
      rewrite Hs. cbn [bind].
      set (dc' := if 8 <? dc then dc - 8 else 0).
      assert (Hdc' : 0 <= dc' /\ dc' <= 8 * Z.of_nat fuel
                     /\ (dc' = 0 \/ 8 * (dp + 1) + ds + dc' <= 8 * len dst1)
                     /\ (8 < dc -> dc' = dc - 8) /\ (dc <= 8 -> dc' = 0)).
      { subst dc'. destruct (Z.ltb_spec 8 dc); repeat split; lia. }
      destruct Hdc' as (Hdc0 & Hdcf & Hdcin & Hdcgt & Hdcle).
      assert (Hsc' : 0 <= sc' /\ 0 <= sp'
                     /\ (sc' = 0 \/ 8 * sp' + ss + sc' <= 8 * len src)).
      { destruct (Z.lt_ge_cases sc 8) as [Hc | Hc].
        - destruct (Hlt8 Hc) as [-> ->]. repeat split; lia.
        - destruct (Hge8 Hc) as [-> ->]. repeat split; lia. }
      destruct Hsc' as (Hsc0 & Hsp0 & Hscin).
      destruct (IH dst1 (dp + 1) sp' dc' sc' ltac:(lia) Hsp0 Hdc0 Hsc0 Hdcf
                  Hdcin Hscin) as (dst' & Hr & Hlen' & Hok' & Hbit').
      exists dst'. split; [exact Hr |]. split; [lia |].
      split; [tauto |].
      intros i Hi. rewrite Hbit' by exact Hi. rewrite Hbit1 by exact Hi.
      remember (i - (8 * dp + ds)) as j eqn:Hj.
      assert (Hlater : (8 * (dp + 1) + ds <=? i)
                       && (i <? 8 * (dp + 1) + ds + dc')
                       = (8 <=? j) && (j <? dc)).
      { destruct (Z.leb_spec (8 * (dp + 1) + ds) i);
          destruct (Z.ltb_spec i (8 * (dp + 1) + ds + dc'));
          destruct (Z.leb_spec 8 j); destruct (Z.ltb_spec j dc);
          try reflexivity; exfalso;
          destruct (Z.lt_ge_cases 8 dc) as [Hc | Hc];
          try (specialize (Hdcgt Hc)); try (specialize (Hdcle Hc)); lia. }
      assert (Hnow : (8 * dp + ds <=? i) && (i <? 8 * dp + ds + Z.min dc 8)
                     = (0 <=? j) && (j <? Z.min dc 8)).
      { destruct (Z.leb_spec (8 * dp + ds) i);
          destruct (Z.ltb_spec i (8 * dp + ds + Z.min dc 8));
          destruct (Z.leb_spec 0 j); destruct (Z.ltb_spec j (Z.min dc 8));
          try reflexivity; exfalso; lia. }
      assert (Hall : (8 * dp + ds <=? i) && (i <? 8 * dp + ds + dc)
                     = (0 <=? j) && (j <? dc)).
      { destruct (Z.leb_spec (8 * dp + ds) i);
          destruct (Z.ltb_spec i (8 * dp + ds + dc));
          destruct (Z.leb_spec 0 j); destruct (Z.ltb_spec j dc);
          try reflexivity; exfalso; lia. }
      rewrite Hlater, Hnow, Hall.
      replace (i - (8 * (dp + 1) + ds)) with (j - 8) by lia.
      destruct (Z.leb_spec 8 j) as [Hj8 | Hj8]; cbn [andb].
      * (* the bits the later iterations move *)
        replace (0 <=? j) with true by (symmetry; apply Z.leb_le; lia).
        cbn [andb].
        destruct (Z.ltb_spec j dc) as [Hjdc | Hjdc].
        -- destruct (Z.lt_ge_cases sc 8) as [Hc | Hc].
           ++ destruct (Hlt8 Hc) as [-> ->].
              replace (j - 8 <? 0) with false by (symmetry; apply Z.ltb_ge; lia).
              replace (j <? sc) with false by (symmetry; apply Z.ltb_ge; lia).
              reflexivity.
           ++ destruct (Hge8 Hc) as [-> ->].
              replace (8 * (sp + 1) + ss + (j - 8)) with (8 * sp + ss + j) by lia.
              f_equal.
              destruct (Z.ltb_spec j sc);
                [apply Z.ltb_lt | apply Z.ltb_ge]; lia.
        -- replace (j <? Z.min dc 8) with false
             by (symmetry; apply Z.ltb_ge; lia).
           reflexivity.
      * destruct (Z.leb_spec 0 j) as [Hj0 | Hj0]; cbn [andb]; [| reflexivity].
        destruct (Z.ltb_spec j dc) as [Hjdc | Hjdc].
        -- (* the bits this iteration moves *)
           replace (j <? Z.min dc 8) with true
             by (symmetry; apply Z.ltb_lt; lia).
           apply Hbits. lia.
        -- replace (j <? Z.min dc 8) with false
             by (symmetry; apply Z.ltb_ge; lia).
           reflexivity.
Qed.

(** *** Ranges of a list *)

Lemma len_splice (l : list Z) (off : Z) (new : list Z) :
  0 <= off -> off + len new <= len l -> len (splice l off new) = len l.
Proof.
  intros H0 H. unfold splice, len in *.
  rewrite !length_app, length_firstn, length_skipn. lia.
Qed.

Lemma byte_at_splice (l : list Z) (off : Z) (new : list Z) (k : Z) :
  0 <= off -> off + len new <= len l -> 0 <= k ->
  byte_at (splice l off new) k
  = if (off <=? k) && (k <? off + len new) then byte_at new (k - off)
    else byte_at l k.
Proof.
  intros H0 H Hk. unfold splice, byte_at, len in *.
  assert (Hf : length (firstn (Z.to_nat off) l) = Z.to_nat off)
    by (rewrite length_firstn; lia).
  destruct (Z.leb_spec off k) as [Hle | Hgt]; cbn [andb].
  - rewrite app_nth2 by lia. rewrite Hf.
    destruct (Z.ltb_spec k (off + Z.of_nat (length new))) as [Hlt | Hge].
    + rewrite app_nth1 by lia. f_equal. lia.
    + rewrite app_nth2 by lia. rewrite nth_skipn. f_equal. lia.
  - rewrite app_nth1 by lia. rewrite nth_firstn.
    replace (Z.to_nat k <? Z.to_nat off)%nat with true
      by (symmetry; apply Nat.ltb_lt; lia).
    reflexivity.
Qed.

Lemma bytes_ok_splice (l : list Z) (off : Z) (new : list Z) :
  bytes_ok l -> bytes_ok new -> bytes_ok (splice l off new).
Proof.
  intros Hl Hn. unfold splice.
  apply bytes_ok_app; [now apply bytes_ok_firstn |].
  apply bytes_ok_app; [exact Hn | now apply bytes_ok_skipn].
Qed.

Lemma len_memcpy_zerout (src : list Z) (n : Z) :
  0 <= n -> len (uacpi_memcpy_zerout src n (len src)) = n.
Proof.
  intros Hn. unfold uacpi_memcpy_zerout, len.
  rewrite length_app, length_firstn, repeat_length. lia.
Qed.

Lemma byte_at_memcpy_zerout (src : list Z) (n k : Z) :
  0 <= k < n -> byte_at (uacpi_memcpy_zerout src n (len src)) k = byte_at src k.
Proof.
  intros Hk. unfold uacpi_memcpy_zerout, byte_at, len.
  destruct (Z.lt_ge_cases k (Z.min (Z.of_nat (length src)) n)) as [Hlt | Hge].
  - rewrite app_nth1 by (rewrite length_firstn; lia).
    rewrite nth_firstn.
    replace (Z.to_nat k <? Z.to_nat (Z.min (Z.of_nat (length src)) n))%nat
      with true by (symmetry; apply Nat.ltb_lt; lia).
    reflexivity.
  - rewrite app_nth2 by (rewrite length_firstn; lia).
    rewrite nth_repeat.
    rewrite nth_overflow by lia. reflexivity.
Qed.

Lemma bytes_ok_memcpy_zerout (src : list Z) (n m : Z) :
  bytes_ok src -> bytes_ok (uacpi_memcpy_zerout src n m).
Proof.
  intros H. unfold uacpi_memcpy_zerout.
  apply bytes_ok_app; [now apply bytes_ok_firstn | apply bytes_ok_repeat_0].
Qed.

Lemma len_slice (l : list Z) (off n : Z) :
  0 <= off -> 0 <= n -> off + n <= len l -> len (slice l off n) = n.
Proof.
  intros H0 Hn H. unfold slice, len in *.
  rewrite length_firstn, length_skipn. lia.
Qed.

Lemma byte_at_slice (l : list Z) (off n k : Z) :
  0 <= off -> 0 <= k < n -> byte_at (slice l off n) k = byte_at l (off + k).
Proof.
  intros H0 Hk. unfold slice, byte_at.
  rewrite nth_firstn.
  replace (Z.to_nat k <? Z.to_nat n)%nat with true
    by (symmetry; apply Nat.ltb_lt; lia).
  rewrite nth_skipn. f_equal. lia.
Qed.

Lemma bit_at_beyond (l : list Z) (j : Z) :
  8 * len l <= j -> bit_at l j = false.
Proof.
  intros H. unfold bit_at, byte_at, len in *.
  destruct (div_mod_8 j) as [Hdm Hm].
  rewrite nth_overflow by lia. apply Z.testbit_0_l.
Qed.

Lemma bit_at_byte (l : list Z) (j : Z) :
  bit_at l j = Z.testbit (byte_at l (j / 8)) (j mod 8).
Proof. reflexivity. Qed.

(** *** Alignment *)

Lemma land_7 (x : Z) : Z.land x 7 = x mod 8.
Proof. change 7 with (Z.ones 3). rewrite Z.land_ones by lia. reflexivity. Qed.

Lemma align_up_8 (x : Z) :
  0 <= x -> x + 7 < 2 ^ 32 -> UACPI_ALIGN_UP x 8 / 8 = (x + 7) / 8.
Proof.
  intros H0 H. unfold UACPI_ALIGN_UP.
  change (Z.lnot (8 - 1)) with (Z.lnot (Z.ones 3)). change (8 - 1) with 7.
  rewrite <- Z.ldiff_land, Z.ldiff_ones_r by lia.
  rewrite Z.shiftl_mul_pow2, Z.shiftr_div_pow2 by lia.
  change (2 ^ 3) with 8.
  assert (Hq : 0 <= (x + 7) / 8 * 8 <= x + 7).
  { pose proof (Z.mul_div_le (x + 7) 8 ltac:(lia)).
    pose proof (Z.div_pos (x + 7) 8 ltac:(lia) ltac:(lia)). lia. }
  unfold wrap32. rewrite Z.mod_small by lia.
  apply Z.div_mul. lia.
Qed.

Lemma byte_size_bounds (bl : Z) :
  0 < bl ->
  let count := (bl + 7) / 8 in
  8 * (count - 1) < bl <= 8 * count
  /\ (bl mod 8 = 0 -> bl = 8 * count)
  /\ (bl mod 8 <> 0 -> bl = 8 * (count - 1) + bl mod 8).
Proof.
  intros H count. subst count.
  pose proof (Z.div_mod (bl + 7) 8 ltac:(lia)).
  pose proof (Z.mod_pos_bound (bl + 7) 8 ltac:(lia)).
  pose proof (Z.div_mod bl 8 ltac:(lia)).
  pose proof (Z.mod_pos_bound bl 8 ltac:(lia)).
  assert (Hq : (bl + 7) / 8 = bl / 8 + (if bl mod 8 =? 0 then 0 else 1)).
  { destruct (Z.eqb_spec (bl mod 8) 0).
    - symmetry. apply (Z.div_unique _ 8 _ 7); lia.
    - symmetry. apply (Z.div_unique _ 8 _ (bl mod 8 - 1)); lia. }
  rewrite Hq. destruct (Z.eqb_spec (bl mod 8) 0); repeat split; lia.
Qed.

Lemma do_rw_misaligned_buffer_field_spec (dst src : bit_span) :
  bytes_ok (span_data src) ->
  0 <= span_index dst -> 0 <= span_index src ->
  0 <= span_length dst -> 0 <= span_length src ->
  (span_length dst = 0
   \/ span_index dst + span_length dst <= 8 * len (span_data dst)) ->
  (span_length src = 0
   \/ span_index src + span_length src <= 8 * len (span_data src)) ->
  exists data,
    do_rw_misaligned_buffer_field dst src = Returns data
    /\ len data = len (span_data dst)
    /\ (bytes_ok (span_data dst) -> bytes_ok data)
    /\ forall i, 0 <= i ->
         bit_at data i
         = if (span_index dst <=? i) && (i <? span_index dst + span_length dst)
           then (i - span_index dst <? span_length src)
                && bit_at (span_data src)
                     (span_index src + (i - span_index dst))
           else bit_at (span_data dst) i.
Proof.
  intros Hok Hdi Hsi Hdl Hsl Hdin Hsin.
  unfold do_rw_misaligned_buffer_field. rewrite !land_7.
  destruct (div_mod_8 (span_index dst)) as [Hd Hdm].
  destruct (div_mod_8 (span_index src)) as [Hs Hsm].
  destruct (rw_loop_spec (span_data src) (span_index src mod 8)
              (span_index dst mod 8) Hok Hsm Hdm
              (Z.to_nat (span_length dst)) (span_data dst)
              (span_index dst / 8) (span_index src / 8)
              (span_length dst) (span_length src))
    as (data & Hr & Hlen & Hbytes & Hbit); try lia.
  exists data. split; [exact Hr |]. split; [exact Hlen |].
  split; [exact Hbytes |].
  intros i Hi. rewrite Hbit by exact Hi.
  rewrite <- Hd, <- Hs. reflexivity.
Qed.

Section Field.

Variable field : uacpi_buffer_field.
Hypothesis backing_ok : bytes_ok (backing field).
Hypothesis index_nonneg : 0 <= bit_index field.
Hypothesis length_pos : 0 < bit_length field.
Hypothesis length_fits : bit_length field + 7 < 2 ^ 32.
Hypothesis in_backing :
  bit_index field + bit_length field <= 8 * len (backing field).

Let count := buffer_field_byte_size field.

Lemma count_eq : count = (bit_length field + 7) / 8.
Proof. unfold count, buffer_field_byte_size. apply align_up_8; lia. Qed.

Lemma write_buffer_field_spec (src : list Z) :
  bytes_ok src ->
  exists data,
    write_buffer_field field src = Returns data
    /\ len data = len (backing field)
    /\ bytes_ok data
    /\ forall j, 0 <= j < bit_length field ->
         bit_at data (bit_index field + j) = bit_at src j.
Proof.
  intros Hsrc. unfold write_buffer_field. fold count.
  pose proof count_eq as Hcount.
  destruct (byte_size_bounds (bit_length field) length_pos) as (Hb & Hz & Hnz).
  cbv zeta in Hb, Hz, Hnz. rewrite <- Hcount in Hb, Hz, Hnz.
  rewrite !land_7.
  destruct (div_mod_8 (bit_index field)) as [Hidx Him].
  destruct (Z.eqb_spec (bit_index field mod 8) 0) as [Eal | Eal].
  - (* the aligned path *)
    set (off := bit_index field / 8) in *.
    assert (Hoff : bit_index field = 8 * off) by lia.
    assert (Hlast : 0 <= off + (count - 1) < len (backing field)) by lia.
    rewrite load_in_range by exact Hlast. cbn [bind].
    unfold memcpy_zerout_at.
    assert (G : (0 <=? off) && (0 <=? count)
                && (off + count <=? len (backing field))
                && (Z.min (len src) count <=? len src) = true).
    { repeat (apply andb_true_intro; split); apply Z.leb_le; lia. }
    rewrite G. cbn [guard bind].
    set (written := uacpi_memcpy_zerout src count (len src)).
    assert (Hwl : len written = count) by (apply len_memcpy_zerout; lia).
    set (data := splice (backing field) off written).
    assert (Hdl : len data = len (backing field))
      by (apply len_splice; lia).
    assert (Hdok : bytes_ok data)
      by (apply bytes_ok_splice;
          [exact backing_ok | apply bytes_ok_memcpy_zerout; exact Hsrc]).
    assert (Hdbyte : forall k, 0 <= k < count ->
              byte_at data (off + k) = byte_at src k).
    { intros k Hk. unfold data. rewrite byte_at_splice by lia.
      replace ((off <=? off + k) && (off + k <? off + len written)) with true
        by (symmetry; apply andb_true_intro; split;
            [apply Z.leb_le | apply Z.ltb_lt]; lia).
      replace (off + k - off) with k by lia.
      apply byte_at_memcpy_zerout. lia. }
    assert (Hts : wrap8 (bit_length field mod 8) = bit_length field mod 8).
    { unfold wrap8. apply Z.mod_small.
      pose proof (Z.mod_pos_bound (bit_length field) 8 ltac:(lia)). lia. }
    rewrite Hts.
    pose proof (Z.mod_pos_bound (bit_length field) 8 ltac:(lia)) as Htsb.
    destruct (Z.eqb_spec (bit_length field mod 8) 0) as [Ets | Ets]; cbn [negb].
    + exists data. split; [reflexivity |]. split; [exact Hdl |].
      split; [exact Hdok |].
      intros j Hj. destruct (div_mod_8 j) as [Hjd Hjm].
      rewrite !bit_at_byte.
      replace ((bit_index field + j) / 8) with (off + j / 8)
        by (apply (Z.div_unique _ 8 _ (j mod 8)); lia).
      replace ((bit_index field + j) mod 8) with (j mod 8)
        by (apply (Z.mod_unique _ 8 (off + j / 8)); lia).
      rewrite Hdbyte by lia. reflexivity.
    + assert (Hlast' : 0 <= off + (count - 1) < len data) by lia.
      rewrite load_in_range by exact Hlast'. cbn [bind].
      rewrite store_in_range by exact Hlast'.
      eexists. split; [reflexivity |].
      split; [rewrite len_splice1 by exact Hlast'; exact Hdl |].
      split; [apply bytes_ok_splice1; [exact Hdok | apply wrap8_is_byte] |].
      intros j Hj. destruct (div_mod_8 j) as [Hjd Hjm].
      rewrite !bit_at_byte.
      replace ((bit_index field + j) / 8) with (off + j / 8)
        by (apply (Z.div_unique _ 8 _ (j mod 8)); lia).
      replace ((bit_index field + j) mod 8) with (j mod 8)
        by (apply (Z.mod_unique _ 8 (off + j / 8)); lia).
      rewrite byte_at_splice1 by lia.
      destruct (Z.eqb_spec (off + j / 8) (off + (count - 1))) as [Eq | Eq].
      * rewrite wrap8_testbit by lia.
        rewrite Z.lor_spec, Z.shiftl_spec by lia.
        rewrite (Z.testbit_neg_r _ (j mod 8 - bit_length field mod 8)) by lia.
        rewrite orb_false_r.
        replace (off + (count - 1)) with (off + j / 8) by lia.
        rewrite Hdbyte by lia. reflexivity.
      * rewrite Hdbyte by lia. reflexivity.
  - (* the misaligned path *)
    unfold do_write_misaligned_buffer_field.
    destruct (do_rw_misaligned_buffer_field_spec
                (mk_span (backing field) (bit_index field) (bit_length field))
                (mk_span src 0 (len src * 8)))
      as (data & Hr & Hlen & Hbytes & Hbit);
      cbn [span_data span_index span_length]; try lia;
      try (unfold len; lia); try assumption.
    exists data. cbn [span_data span_index span_length] in *.
    split; [exact Hr |]. split; [exact Hlen |]. split; [tauto |].
    intros j Hj. rewrite Hbit by lia.
    replace ((bit_index field <=? bit_index field + j)
             && (bit_index field + j <? bit_index field + bit_length field))
      with true
      by (symmetry; apply andb_true_intro; split;
          [apply Z.leb_le | apply Z.ltb_lt]; lia).
    replace (bit_index field + j - bit_index field) with j by lia.
    cbn [Z.add].
    destruct (Z.ltb_spec j (len src * 8)); cbn [andb]; [reflexivity |].
    symmetry. apply bit_at_beyond. lia.
Qed.

Lemma do_read_buffer_field_spec (dst : list Z) :
  count <= len dst ->
  exists out,
    do_read_buffer_field field dst = Returns out
    /\ len out = len dst
    /\ (bytes_ok dst -> bytes_ok out)
    /\ forall j, 0 <= j < 8 * count ->
         bit_at out j
         = (j <? bit_length field) && bit_at (backing field) (bit_index field + j).
Proof.
  intros Hdst. unfold do_read_buffer_field. fold count.
  pose proof count_eq as Hcount.
  destruct (byte_size_bounds (bit_length field) length_pos) as (Hb & Hz & Hnz).
  cbv zeta in Hb, Hz, Hnz. rewrite <- Hcount in Hb, Hz, Hnz.
  rewrite !land_7.
  destruct (div_mod_8 (bit_index field)) as [Hidx Him].
  destruct (Z.eqb_spec (bit_index field mod 8) 0) as [Eal | Eal].
  - (* the aligned path *)
    set (off := bit_index field / 8) in *.
    assert (Hoff : bit_index field = 8 * off) by lia.
    unfold memcpy_from.
    assert (G : (0 <=? off) && (0 <=? count)
                && (off + count <=? len (backing field))
                && (count <=? len dst) = true).
    { repeat (apply andb_true_intro; split); apply Z.leb_le; lia. }
    rewrite G. cbn [guard bind].
    set (copied := slice (backing field) off count).
    assert (Hcl : len copied = count) by (apply len_slice; lia).
    set (out := splice dst 0 copied).
    assert (Hol : len out = len dst) by (apply len_splice; lia).
    assert (Hobyte : forall k, 0 <= k < count ->
              byte_at out k = byte_at (backing field) (off + k)).
    { intros k Hk. unfold out. rewrite byte_at_splice by lia.
      replace ((0 <=? k) && (k <? 0 + len copied)) with true
        by (symmetry; apply andb_true_intro; split;
            [apply Z.leb_le | apply Z.ltb_lt]; lia).
      replace (k - 0) with k by lia.
      apply byte_at_slice; lia. }
    pose proof (Z.mod_pos_bound (bit_length field) 8 ltac:(lia)) as Htsb.
    assert (Hsplit : forall j, 0 <= j < 8 * count ->
              (bit_index field + j) / 8 = off + j / 8
              /\ (bit_index field + j) mod 8 = j mod 8
              /\ 0 <= j / 8 < count /\ 0 <= j mod 8 < 8
              /\ j = 8 * (j / 8) + j mod 8).
    { intros j Hj. destruct (div_mod_8 j) as [Hjd Hjm].
      repeat split; try lia.
      - symmetry. apply (Z.div_unique _ 8 _ (j mod 8)); lia.
      - symmetry. apply (Z.mod_unique _ 8 (off + j / 8)); lia. }
    destruct (Z.eqb_spec (bit_length field mod 8) 0) as [Ets | Ets]; cbn [negb].
    + exists out. split; [reflexivity |]. split; [exact Hol |].
      split; [intros Hd; apply bytes_ok_splice;
              [exact Hd | apply bytes_ok_firstn, bytes_ok_skipn, backing_ok] |].
      intros j Hj. destruct (Hsplit j Hj) as (Hq & Hm & Hqb & Hmb & Hjd).
      rewrite !bit_at_byte, Hq, Hm, Hobyte by lia.
      replace (j <? bit_length field) with true
        by (symmetry; apply Z.ltb_lt; lia).
      reflexivity.
    + assert (Hlast : 0 <= count - 1 < len out) by lia.
      rewrite load_in_range by exact Hlast. cbn [bind].
      rewrite store_in_range by exact Hlast.
      eexists. split; [reflexivity |].
      split; [rewrite len_splice1 by exact Hlast; exact Hol |].
      split; [intros Hd; apply bytes_ok_splice1;
              [apply bytes_ok_splice;
               [exact Hd | apply bytes_ok_firstn, bytes_ok_skipn, backing_ok]
              | apply wrap8_is_byte] |].
      intros j Hj. destruct (Hsplit j Hj) as (Hq & Hm & Hqb & Hmb & Hjd).
      rewrite !bit_at_byte, Hq, Hm.
      rewrite byte_at_splice1 by lia.
      destruct (Z.eqb_spec (j / 8) (count - 1)) as [Eq | Eq].
      * rewrite wrap8_testbit by lia.
        rewrite mask_low_bits by lia.
        rewrite <- Eq, Hobyte by lia.
        rewrite andb_comm. f_equal.
        destruct (Z.ltb_spec (j mod 8) (bit_length field mod 8));
          symmetry; [apply Z.ltb_lt | apply Z.ltb_ge]; lia.
      * rewrite Hobyte by lia.
        replace (j <? bit_length field) with true
          by (symmetry; apply Z.ltb_lt; lia).
        reflexivity.
  - (* the misaligned path *)
    unfold do_misaligned_buffer_read. fold count.
    destruct (do_rw_misaligned_buffer_field_spec
                (mk_span dst 0 (count * 8))
                (mk_span (backing field) (bit_index field) (bit_length field)))
      as (out & Hr & Hlen & Hbytes & Hbit);
      cbn [span_data span_index span_length]; try lia; try assumption.
    exists out. cbn [span_data span_index span_length] in *.
    split; [exact Hr |]. split; [exact Hlen |]. split; [exact Hbytes |].
    intros j Hj. rewrite Hbit by lia.
    replace ((0 <=? j) && (j <? 0 + count * 8)) with true
      by (symmetry; apply andb_true_intro; split;
          [apply Z.leb_le | apply Z.ltb_lt]; lia).
    replace (j - 0) with j by lia. reflexivity.
Qed.

End Field.

Lemma bit_at_cons (b : Z) (t : list Z) (j : Z) :
  0 <= j ->
  bit_at (b :: t) j = if j <? 8 then Z.testbit b j else bit_at t (j - 8).
Proof.
  intros Hj. unfold bit_at, byte_at.
  destruct (div_mod_8 j) as [Hd Hm].
  destruct (Z.ltb_spec j 8).
  - replace (j / 8) with 0 by lia. replace (j mod 8) with j by lia. reflexivity.
  - replace ((j - 8) / 8) with (j / 8 - 1)
      by (apply (Z.div_unique _ 8 _ (j mod 8)); lia).
    replace ((j - 8) mod 8) with (j mod 8)
      by (apply (Z.mod_unique _ 8 (j / 8 - 1)); lia).
    replace (Z.to_nat (j / 8)) with (S (Z.to_nat (j / 8 - 1))) by lia.
    reflexivity.
Qed.

Lemma testbit_le_combine (l : list Z) :
  bytes_ok l -> forall j, 0 <= j -> Z.testbit (le_combine l) j = bit_at l j.
Proof.
  induction 1 as [| b t Hb Ht IH]; intros j Hj.
  - cbn [le_combine]. rewrite Z.testbit_0_l. symmetry.
    apply bit_at_beyond. unfold len. cbn. lia.
  - cbn [le_combine]. rewrite bit_at_cons by exact Hj.
    rewrite Z.lor_spec. destruct (Z.ltb_spec j 8).
    + rewrite Z.shiftl_spec_low by lia. apply orb_false_r.
    + rewrite (byte_testbit_high b) by (assumption || lia).
      rewrite Z.shiftl_spec by lia. cbn [orb]. apply IH. lia.
Qed.

Lemma bit_at_firstn (l : list Z) (n j : Z) :
  0 <= n -> 0 <= j ->
  bit_at (firstn (Z.to_nat n) l) j = (j <? 8 * n) && bit_at l j.
Proof.
  intros Hn Hj. unfold bit_at, byte_at.
  destruct (div_mod_8 j) as [Hd Hm].
  rewrite nth_firstn.
  destruct (Z.ltb_spec j (8 * n)).
  - replace (Z.to_nat (j / 8) <? Z.to_nat n)%nat with true
      by (symmetry; apply Nat.ltb_lt; lia).
    reflexivity.
  - replace (Z.to_nat (j / 8) <? Z.to_nat n)%nat with false
      by (symmetry; apply Nat.ltb_ge; lia).
    apply Z.testbit_0_l.
Qed.

(** Writing a field and reading it back, for every field that lies within
    its backing buffer. *)
Lemma write_then_read (field : uacpi_buffer_field) (src dst : list Z) :
  bytes_ok (backing field) -> bytes_ok src -> bytes_ok dst ->
  0 <= bit_index field -> 0 < bit_length field ->
  bit_length field + 7 < 2 ^ 32 ->
  bit_index field + bit_length field <= 8 * len (backing field) ->
  buffer_field_byte_size field <= len dst ->
  exists data out,
    write_buffer_field field src = Returns data
    /\ do_read_buffer_field (set_backing field data) dst = Returns out
    /\ len data = len (backing field)
    /\ len out = len dst
    /\ (forall j, 0 <= j < 8 * buffer_field_byte_size field ->
          bit_at out j = (j <? bit_length field) && bit_at src j)
    /\ le_combine (firstn (Z.to_nat (buffer_field_byte_size field)) out)
       = le_combine src mod 2 ^ bit_length field.
Proof.
  intros Hback Hsrc Hdst Hidx Hlen Hfit Hin Hcount.
  destruct (write_buffer_field_spec field Hback Hidx Hlen Hfit Hin src Hsrc)
    as (data & Hw & Hdl & Hdok & Hdbit).
  assert (Hin' : bit_index (set_backing field data)
                 + bit_length (set_backing field data)
                 <= 8 * len (backing (set_backing field data)))
    by (cbn [set_backing bit_index bit_length backing]; lia).
  destruct (do_read_buffer_field_spec (set_backing field data) Hdok Hidx Hlen
              Hfit Hin' dst Hcount)
    as (out & Hr & Hol & Hook & Hobit).
  change (buffer_field_byte_size (set_backing field data))
    with (buffer_field_byte_size field) in Hobit.
  cbn [set_backing bit_index bit_length backing] in Hobit.
  assert (Hbits : forall j, 0 <= j < 8 * buffer_field_byte_size field ->
            bit_at out j = (j <? bit_length field) && bit_at src j).
  { intros j Hj. rewrite Hobit by exact Hj.
    destruct (Z.ltb_spec j (bit_length field)); cbn [andb]; [| reflexivity].
    apply Hdbit. lia. }
  exists data, out. repeat split; try assumption.
  assert (Hc : buffer_field_byte_size field = (bit_length field + 7) / 8)
    by (apply (count_eq field); assumption).
  destruct (byte_size_bounds (bit_length field) Hlen) as (Hb & _ & _).
  cbv zeta in Hb. rewrite <- Hc in Hb.
  apply Z.bits_inj'. intros j Hj.
  rewrite testbit_le_combine
    by (first [lia | apply bytes_ok_firstn, Hook, Hdst]).
  rewrite bit_at_firstn by lia.
  rewrite Z.testbit_mod_pow2 by lia.
  rewrite testbit_le_combine by (first [lia | exact Hsrc]).
  destruct (Z.ltb_spec j (8 * buffer_field_byte_size field)); cbn [andb].
  - apply Hbits. lia.
  - replace (j <? bit_length field) with false
      by (symmetry; apply Z.ltb_ge; lia).
    reflexivity.
Qed.

(** C4. A buffer field over a 32-byte backing buffer, with a bit index
    from 0 to 16 and a bit length from 1 to 72: writing [src] to the field
    and reading the field back gives the bits of [src] below the bit
    length and zeros above them, whether the field is byte-aligned (the
    [memcpy] path) or not (the bit-span path). As a number, what is read
    is the written value modulo [2 ^ bit_length]. *)
Theorem buffer_field_write_then_read
    (backing_bytes src dst : list Z) (index length : Z) (force : bool) :
  bytes_ok backing_bytes -> len backing_bytes = 32 ->
  bytes_ok src -> bytes_ok dst ->
  0 <= index <= 16 -> 1 <= length <= 72 ->
  let field := mk_field backing_bytes index length force in
  buffer_field_byte_size field <= len dst ->
  exists data out,
    write_buffer_field field src = Returns data
    /\ do_read_buffer_field (set_backing field data) dst = Returns out
    /\ (forall j, 0 <= j < 8 * buffer_field_byte_size field ->
          bit_at out j = (j <? length) && bit_at src j)
    /\ le_combine (firstn (Z.to_nat (buffer_field_byte_size field)) out)
       = le_combine src mod 2 ^ length.
Proof.
  intros Hback Hl Hsrc Hdst Hidx Hlen field Hcount.
  destruct (write_then_read field src dst) as (data & out & H);
    cbn [field backing bit_index bit_length]; try assumption; try lia.
  exists data, out. tauto.
Qed.

(** A misaligned field and a byte-aligned one. *)
Lemma buffer_field_write_then_read_witness :
  (exists data out,
     write_buffer_field (mk_field (repeat 255 32) 4 12 true) [188; 250]
     = Returns data
     /\ do_read_buffer_field (mk_field data 4 12 true) [0; 0] = Returns out
     /\ le_combine (firstn 2 out) = 2748)
  /\ (exists data out,
        write_buffer_field (mk_field (repeat 255 32) 16 16 true) [52; 18; 255]
        = Returns data
        /\ do_read_buffer_field (mk_field data 16 16 true) [0; 0]
           = Returns out
        /\ le_combine (firstn 2 out) = 4660).
Proof.
  split.
  - destruct (buffer_field_write_then_read (repeat 255 32) [188; 250] [0; 0]
                4 12 true) as (data & out & Hw & Hr & _ & Hv).
    + unfold bytes_ok, is_byte. repeat constructor; lia.
    + reflexivity.
    + unfold bytes_ok, is_byte. repeat constructor; lia.
    + unfold bytes_ok, is_byte. repeat constructor; lia.
    + lia.
    + lia.
    + vm_compute. discriminate.
    + exists data, out. repeat split; [exact Hw | exact Hr | exact Hv].
  - destruct (buffer_field_write_then_read (repeat 255 32) [52; 18; 255]
                [0; 0] 16 16 true) as (data & out & Hw & Hr & _ & Hv).
    + unfold bytes_ok, is_byte. repeat constructor; lia.
    + reflexivity.
    + unfold bytes_ok, is_byte. repeat constructor; lia.
    + unfold bytes_ok, is_byte. repeat constructor; lia.
    + lia.
    + lia.
    + vm_compute. discriminate.
    + exists data, out. repeat split; [exact Hw | exact Hr | exact Hv].
Defined.

(** ** Method execution *)

Section DriverFacts.

Variable rt : uacpi_runtime.
Variable dynamic_array_alloc : Z -> bool.
Variable op_is_reserved : Z -> bool.
Variable exec_op :
  execution_context -> outcome (uacpi_status * execution_context).
Variable sizeof_execution_context : Z.

(** What [out:] stores is the return object of the context, and only a
    defined one; the status is not part of the test. *)
Lemma method_out_writes_defined_object (ret : bool) (ctx : execution_context)
    (obj : uacpi_object) :
  method_out ret ctx = Returns (Some obj) <->
  ret = true /\ ctx_ret ctx = Some obj
  /\ type_of obj <> UACPI_OBJECT_UNINITIALIZED.
Proof.
  unfold method_out. destruct ret.
  - destruct (ctx_ret ctx) as [o |].
    + destruct (object_type_eqb (type_of o) UACPI_OBJECT_UNINITIALIZED) eqn:E.
      * split; [discriminate |]. intros (_ & Ho & Hne). inversion Ho; subst o.
        destruct (type_of obj); discriminate E || (exfalso; now apply Hne).
      * split.
        -- intros H. inversion H; subst o. repeat split.
           intros Heq. rewrite Heq in E. discriminate E.
        -- intros (_ & Ho & _). now inversion Ho.
    + split; [discriminate | intros (_ & Ho & _); discriminate Ho].
  - split; [discriminate | intros (Hr & _); discriminate Hr].
Qed.

(** Whatever the status with which the driver returns, a slot that has
    been written holds a defined object and the caller asked for it. *)
Lemma return_slot_holds_defined_object (fuel : nat) (ns : uacpi_namespace)
    (scope : uacpi_namespace_node) (method : uacpi_control_method)
    (args : option (list uacpi_object)) (ret : bool) (st : uacpi_status)
    (obj : uacpi_object) :
  uacpi_execute_control_method rt dynamic_array_alloc op_is_reserved exec_op
    sizeof_execution_context fuel ns scope method args ret
  = Some (Returns (st, Some obj)) ->
  ret = true /\ type_of obj <> UACPI_OBJECT_UNINITIALIZED.
Proof.
  assert (Hout : forall st' ctx,
            (slot <- method_out ret ctx ;; Returns (st', slot))
            = Returns (st, Some obj) ->
            ret = true /\ type_of obj <> UACPI_OBJECT_UNINITIALIZED).
  { intros st' ctx H. destruct (method_out ret ctx) as [slot |] eqn:E;
      [| discriminate H].
    cbn [bind] in H. inversion H; subst.
    apply method_out_writes_defined_object in E. tauto. }
  unfold uacpi_execute_control_method.
  repeat match goal with
         | |- context [if ?b then _ else _] => destruct b
         | |- context [match ?x with _ => _ end] => destruct x
         end;
    try discriminate; intros H; inversion H as [H'];
    try (eapply Hout; rewrite H'; reflexivity);
    try (eapply Hout; exact H').
Qed.

(** Fuel only bounds the rounds of the loop: a run that ends within
    [fuel] rounds ends the same way with more. *)
Lemma run_method_more_fuel (fuel : nat) :
  forall (ctx : execution_context)
         (r : outcome (uacpi_status * execution_context)),
    run_method op_is_reserved exec_op fuel ctx = Some r ->
    run_method op_is_reserved exec_op (S fuel) ctx = Some r.
Proof.
  induction fuel as [| fuel IH]; intros ctx r H; [discriminate H |].
  cbn [run_method] in H. set (n := S fuel). cbn [run_method].
  destruct (negb (ctx_has_non_preempted_op ctx)).
  - destruct (cur_frame ctx) as [frame |]; [| exact H].
    destruct (maybe_end_block ctx) as [[|] ctx1].
    + apply IH. exact H.
    + destruct (negb (call_frame_has_code frame)); [apply IH; exact H |].
      destruct (get_op op_is_reserved ctx) as [[st ctx2] |]; [| exact H].
      destruct (uacpi_unlikely_error st); [exact H |].
      destruct (exec_op ctx2) as [[st' ctx3] |]; [| exact H].
      destruct (uacpi_unlikely_error st'); [exact H | apply IH; exact H].
  - destruct (exec_op ctx) as [[st' ctx3] |]; [| exact H].
    destruct (uacpi_unlikely_error st'); [exact H | apply IH; exact H].
Qed.

End DriverFacts.

(** The end of a While block sends the cursor back to the While op, also
    when the cursor got there through a Return. *)
Lemma maybe_end_block_rewinds_while (ctx : execution_context)
    (frame : call_frame) (rest : list call_frame) (block : code_block)
    (blocks : list code_block) :
  call_stack ctx = frame :: rest ->
  code_blocks frame = block :: blocks ->
  block_type block = CODE_BLOCK_WHILE ->
  code_offset frame = block_end block ->
  exists ctx',
    maybe_end_block ctx = (true, ctx')
    /\ ctx_ret ctx' = ctx_ret ctx
    /\ option_map code_offset (cur_frame ctx') = Some (block_begin block).
Proof.
  intros Hs Hb Ht Ho. unfold maybe_end_block, cur_block, cur_frame.
  rewrite Hs. cbn [hd_error]. rewrite Hb. cbn [hd_error].
  rewrite Ho, Z.eqb_refl, Ht. cbn [negb].
  eexists. split; [reflexivity |]. split; reflexivity.
Qed.

(** C8. A method whose last statement is a While that holds a Return: the
    Return stores the object for the caller and moves the cursor to the end
    of the method, which is the end of the While block, so the loop is
    entered again; the second pass fails at the Name that the first pass
    has installed. The driver returns that status and the caller's slot
    has been written. *)
Theorem return_slot_written_by_failed_method :
  exists fuel,
    run_statements fuel method_with_return_in_final_while true
    = Some (Returns (UACPI_STATUS_ALREADY_EXISTS, Some (Integer 1))).
Proof. exists 30%nat. vm_compute. reflexivity. Qed.

(** * Further properties *)

(** ** Outcomes of name resolution *)

Lemma parse_nameseg_status (code : list Z) (cursor : Z) :
  fst (parse_nameseg code cursor) = UACPI_STATUS_OK
  \/ parse_nameseg code cursor = (UACPI_STATUS_BAD_BYTECODE, []).
Proof.
  unfold parse_nameseg.
  destruct (forallb _ _); [left | right]; reflexivity.
Qed.

Lemma resolve_prefix_status (fuel : nat) (code : list Z) :
  forall st : prefix_state,
    fst (resolve_prefix fuel code st) = UACPI_STATUS_OK
    \/ fst (resolve_prefix fuel code st) = UACPI_STATUS_BAD_BYTECODE.
Proof.
  induction fuel as [| fuel IH]; intros st; cbn [resolve_prefix].
  - right. reflexivity.
  - destruct (px_bytes_left st =? 0); [right; reflexivity |].
    destruct (_ && _); [right; reflexivity |].
    destruct (_ && _); [right; reflexivity |].
    destruct (negb _); [left; reflexivity | apply IH].
Qed.

(** The ways the segment loop ends: a [return] inside the loop is bad
    bytecode or, in create mode, a last segment that exists; the label
    [out] is reached with OK and a node or with NotFound and none. *)
Lemma resolve_segments_exits (ns : uacpi_namespace) (behavior : resolve_behavior)
    (just_one_nameseg : bool) (code : list Z) (namesegs : nat) :
  forall (cursor : Z) (cur_node : uacpi_namespace_node),
    match resolve_segments ns behavior just_one_nameseg code namesegs cursor
            cur_node with
    | ReturnedEarly ret =>
        ret = UACPI_STATUS_BAD_BYTECODE
        \/ (ret = UACPI_STATUS_ALREADY_EXISTS
            /\ behavior = RESOLVE_CREATE_LAST_NAMESEG_FAIL_IF_EXISTS)
    | ReachedOut ret _ _ node =>
        (ret = UACPI_STATUS_OK /\ exists n, node = Some n)
        \/ (ret = UACPI_STATUS_NOT_FOUND /\ node = None)
    end.
Proof.
  induction namesegs as [| rest IH]; intros cursor cur_node;
    cbn [resolve_segments].
  - left. split; [reflexivity | now exists cur_node].
  - destruct (parse_nameseg_status code cursor) as [Hok | Hbad].
    + destruct (parse_nameseg code cursor) as [ret name]. cbn [fst] in Hok.
      subst ret.
      destruct behavior.
      * destruct rest as [| rest'];
          destruct (uacpi_namespace_node_find ns cur_node name) as [node |].
        -- right. split; reflexivity.
        -- apply IH.
        -- apply IH.
        -- right. split; reflexivity.
      * destruct (uacpi_namespace_node_find ns cur_node name) as [node |].
        -- apply IH.
        -- destruct just_one_nameseg.
           ++ destruct (upward_search ns name cur_node) as [node |];
                [apply IH | right; split; reflexivity].
           ++ right. split; reflexivity.
    + rewrite Hbad. left. reflexivity.
Qed.

(** X1. Name resolution either succeeds with a node, or misses, or fails
    and then changes nothing: with OK the node is there, with NotFound it
    is not, and in both cases only the cursor of the frame has moved; with
    bad bytecode, and with AlreadyExists, which only the create mode
    gives, the frame and the caller's node are as they were. No other
    status is returned. *)
Theorem resolve_name_string_outcomes (ns : uacpi_namespace)
    (frame : call_frame) (behavior : resolve_behavior)
    (out_node : option uacpi_namespace_node) :
  let r := resolve_name_string ns frame behavior out_node in
  match fst (fst r) with
  | UACPI_STATUS_OK =>
      (exists off, snd (fst r) = set_code_offset frame off)
      /\ exists node, snd r = Some node
  | UACPI_STATUS_NOT_FOUND =>
      (exists off, snd (fst r) = set_code_offset frame off) /\ snd r = None
  | UACPI_STATUS_BAD_BYTECODE => snd (fst r) = frame /\ snd r = out_node
  | UACPI_STATUS_ALREADY_EXISTS =>
      behavior = RESOLVE_CREATE_LAST_NAMESEG_FAIL_IF_EXISTS
      /\ snd (fst r) = frame /\ snd r = out_node
  | _ => False
  end.
Proof.
  cbv zeta. unfold resolve_name_string.
  set (fuel := S (Z.to_nat (call_frame_code_bytes_left frame))).
  set (st0 := mk_prefix _ _ _ _ _).
  destruct (resolve_prefix_status fuel (code frame) st0) as [H | H];
    destruct (resolve_prefix fuel (code frame) st0) as [ret st];
    cbn [fst] in H; subst ret; [| now split].
  destruct (px_bytes_left st =? 0); [now split |].
  assert (Hwalk : forall namesegs cursor bytes_left one,
    let r :=
      if bytes_left <? namesegs * 4
      then (UACPI_STATUS_BAD_BYTECODE, frame, out_node)
      else
        match resolve_segments ns behavior one (code frame)
                (Z.to_nat namesegs) cursor (px_cur_node st) with
        | ReturnedEarly ret => (ret, frame, out_node)
        | ReachedOut ret cursor namesegs node =>
            (ret, set_code_offset frame (cursor + Z.of_nat namesegs * 4), node)
        end in
    match fst (fst r) with
    | UACPI_STATUS_OK =>
        (exists off, snd (fst r) = set_code_offset frame off)
        /\ exists node, snd r = Some node
    | UACPI_STATUS_NOT_FOUND =>
        (exists off, snd (fst r) = set_code_offset frame off) /\ snd r = None
    | UACPI_STATUS_BAD_BYTECODE => snd (fst r) = frame /\ snd r = out_node
    | UACPI_STATUS_ALREADY_EXISTS =>
        behavior = RESOLVE_CREATE_LAST_NAMESEG_FAIL_IF_EXISTS
        /\ snd (fst r) = frame /\ snd r = out_node
    | _ => False
    end).
  { intros namesegs cursor bytes_left one. cbv zeta.
    destruct (bytes_left <? namesegs * 4); [now split |].
    pose proof (resolve_segments_exits ns behavior one (code frame)
                  (Z.to_nat namesegs) cursor (px_cur_node st)) as Hx.
    destruct (resolve_segments _ _ _ _ _ _ _) as [ret | ret c n node].
    - destruct Hx as [-> | [-> Hb]]; cbn; auto.
    - destruct Hx as [[-> [m ->]] | [-> ->]]; cbn; eauto. }
  destruct (_ =? UACPI_DUAL_NAME_PREFIX); [apply Hwalk |].
  destruct (_ =? UACPI_MULTI_NAME_PREFIX).
  { destruct (_ =? 0); [now split | apply Hwalk]. }
  destruct (_ =? UACPI_NULL_NAME); [| apply Hwalk].
  destruct behavior; [now split |].
  destruct (px_just_one_nameseg st); [now split |].
  cbn. eauto.
Qed.

(** ** Name resolution in create mode *)

(** Behind its prefix and its marker, a well-formed name string is the
    segment loop run on its segments from the node the prefix leads to. *)
Lemma resolve_name_string_segments (ns : uacpi_namespace) (frame : call_frame)
    (behavior : resolve_behavior) (prefix : name_prefix) (path : name_path)
    (out_node : option uacpi_namespace_node) (start : uacpi_namespace_node) :
  name_string_ok prefix path ->
  reads (code frame) (code_offset frame) (encode_name_string prefix path) ->
  prefix_start (cur_scope frame) prefix = Some start ->
  path <> PathNull ->
  resolve_name_string ns frame behavior out_node
  = match resolve_segments ns behavior (is_single_nameseg prefix path)
            (code frame) (length (path_segments path))
            (code_offset frame + len (encode_name_string prefix path)
             - len (path_segments path) * 4)
            start with
    | ReturnedEarly ret => (ret, frame, out_node)
    | ReachedOut ret cursor namesegs node =>
        (ret, set_code_offset frame (cursor + Z.of_nat namesegs * 4), node)
    end.
Proof.
  intros [Hsegs Hmulti] Hr Hstart Hnull.
  destruct (encode_path_lead path Hsegs) as (c & rest & Henc & Hc).
  pose proof (reads_bound _ _ _ Hr) as [Hoff Hlen].
  unfold encode_name_string in *.
  destruct (reads_app _ _ _ _ Hr) as [_ Hrpath].
  assert (Hrp : reads (code frame) (code_offset frame)
                  (encode_prefix prefix ++ [c])).
  { rewrite Henc in Hr. change (c :: rest) with ([c] ++ rest) in Hr.
    rewrite app_assoc in Hr. exact (proj1 (reads_app _ _ _ _ Hr)). }
  assert (Hlenall : len (encode_prefix prefix ++ encode_path path)
                    = len (encode_prefix prefix) + len (encode_path path))
    by (unfold len; rewrite length_app; lia).
  rewrite Hlenall in *.
  assert (Hplen : 1 <= len (encode_path path))
    by (rewrite Henc; unfold len; cbn [length]; lia).
  set (bl := call_frame_code_bytes_left frame).
  assert (Hbl : bl = len (code frame) - code_offset frame) by reflexivity.
  destruct (resolve_prefix_encoded (code frame) prefix c (code_offset frame) bl
              (cur_scope frame) start Hrp Hc Hstart ltac:(lia))
    as (st & Hst & Hcur & Hleft & Hnode & Hone).
  unfold resolve_name_string. fold bl. rewrite Hst.
  destruct st as [cursor bytes_left cur_node prev_char just_one].
  cbn [px_cursor px_bytes_left px_cur_node px_just_one_nameseg] in *.
  subst cursor bytes_left cur_node just_one.
  replace (bl - len (encode_prefix prefix) =? 0) with false
    by (symmetry; apply Z.eqb_neq; lia).
  remember (code_offset frame + len (encode_prefix prefix)) as cur eqn:Hcurdef.
  destruct path as [seg | seg1 seg2 | segs |]; [| | | contradiction].
  - cbn [path_segments encode_path length] in *.
    subst seg. pose proof (Forall_inv Hsegs) as Hseg.
    pose proof Hseg as [Hl Hch].
    destruct (reads_cons _ _ _ _ Hrpath) as [Hlead _]. rewrite Hlead.
    pose proof (Forall_inv Hch) as Hcc. cbv beta in Hcc.
    destruct (name_char_not_prefix c Hcc) as (_ & _ & H1 & H2 & H3).
    apply Z.eqb_neq in H1, H2, H3. rewrite H1, H2, H3.
    assert (Hl4 : len (c :: rest) = 4) by (unfold len; rewrite Hl; reflexivity).
    rewrite Hl4 in *.
    replace (bl - len (encode_prefix prefix) <? 1 * 4) with false
      by (symmetry; apply Z.ltb_ge; lia).
    change (Z.to_nat 1) with 1%nat.
    unfold uacpi_object_name in *.
    replace (code_offset frame + (len (encode_prefix prefix) + 4)
             - len [c :: rest] * 4) with cur
      by (unfold len in *; cbn [length] in *; lia).
    assert (Hs : (match prefix with PrefixNone => true | _ => false end)
                 = is_single_nameseg prefix (PathSeg (c :: rest)))
      by (destruct prefix; reflexivity).
    rewrite <- Hs. reflexivity.
  - cbn [path_segments encode_path length] in *.
    destruct (reads_cons _ _ _ _ Hrpath) as [Hlead Hrsegs]. rewrite Hlead.
    change (UACPI_DUAL_NAME_PREFIX =? UACPI_DUAL_NAME_PREFIX) with true.
    cbv iota.
    pose proof (len_concat_segs [seg1; seg2] Hsegs) as Hcl.
    cbn [concat] in Hcl. rewrite app_nil_r in Hcl.
    assert (Hl : len (UACPI_DUAL_NAME_PREFIX :: seg1 ++ seg2) = 9).
    { unfold len in *. cbn [length] in *. lia. }
    rewrite Hl in *.
    replace (bl - len (encode_prefix prefix) - 1 <? 2 * 4) with false
      by (symmetry; apply Z.ltb_ge; lia).
    change (Z.to_nat 2) with 2%nat.
    unfold uacpi_object_name in *.
    replace (code_offset frame + (len (encode_prefix prefix) + 9)
             - len [seg1; seg2] * 4) with (cur + 1)
      by (unfold len in *; cbn [length] in *; lia).
    assert (Hs : is_single_nameseg prefix (PathDual seg1 seg2) = false)
      by (destruct prefix; reflexivity).
    rewrite Hs. reflexivity.
  - cbn [path_segments encode_path] in *.
    destruct (reads_cons _ _ _ _ Hrpath) as [Hlead Hr1]. rewrite Hlead.
    destruct (reads_cons _ _ _ _ Hr1) as [Hcount Hrsegs].
    change (UACPI_MULTI_NAME_PREFIX =? UACPI_DUAL_NAME_PREFIX) with false.
    change (UACPI_MULTI_NAME_PREFIX =? UACPI_MULTI_NAME_PREFIX) with true.
    cbv iota.
    pose proof (len_concat_segs segs Hsegs) as Hcl.
    assert (Hl : len (UACPI_MULTI_NAME_PREFIX :: len segs :: concat segs)
                 = 2 + len segs * 4).
    { unfold len in *. cbn [length] in *. lia. }
    rewrite Hl in *.
    assert (Hnn : 0 <= len segs) by (unfold len; lia).
    replace (bl - len (encode_prefix prefix) - 1 =? 0) with false
      by (symmetry; apply Z.eqb_neq; lia).
    rewrite Hcount.
    replace (bl - len (encode_prefix prefix) - 2 <? len segs * 4) with false
      by (symmetry; apply Z.ltb_ge; lia).
    replace (Z.to_nat (len segs)) with (length segs)
      by (unfold len; now rewrite Nat2Z.id).
    unfold uacpi_object_name in *.
    replace (code_offset frame
             + (len (encode_prefix prefix) + (2 + len segs * 4))
             - len segs * 4) with (cur + 2) by lia.
    assert (Hs : is_single_nameseg prefix (PathMulti segs) = false)
      by (destruct prefix; reflexivity).
    rewrite Hs. reflexivity.
Qed.

(** The segment loop in create mode: every segment but the last is looked
    up in the node the one before it led to; the last one must be new. *)
Lemma resolve_segments_create (ns : uacpi_namespace) (code : list Z)
    (one : bool) (last : uacpi_object_name)
    (parents : list uacpi_object_name) :
  Forall nameseg_ok (parents ++ [last]) ->
  forall (cursor : Z) (start : uacpi_namespace_node),
  reads code cursor (concat (parents ++ [last])) ->
  match lookup_path ns start parents with
  | None =>
      exists c k,
        resolve_segments ns RESOLVE_CREATE_LAST_NAMESEG_FAIL_IF_EXISTS one code
          (length (parents ++ [last])) cursor start
        = ReachedOut UACPI_STATUS_NOT_FOUND c k None
        /\ c + Z.of_nat k * 4 = cursor + len (parents ++ [last]) * 4
  | Some parent =>
      resolve_segments ns RESOLVE_CREATE_LAST_NAMESEG_FAIL_IF_EXISTS one code
        (length (parents ++ [last])) cursor start
      = match uacpi_namespace_node_find ns parent last with
        | Some _ => ReturnedEarly UACPI_STATUS_ALREADY_EXISTS
        | None =>
            ReachedOut UACPI_STATUS_OK
              (cursor + len (parents ++ [last]) * 4) 0
              (Some (uacpi_namespace_node_alloc last parent))
        end
  end.
Proof.
  induction parents as [| seg rest IH]; intros Hok cursor start Hr.
  - cbn [app concat] in *. rewrite app_nil_r in Hr.
    pose proof (Forall_inv Hok) as Hlast.
    cbn [lookup_path length resolve_segments].
    rewrite (parse_nameseg_ok _ _ _ Hlast Hr).
    destruct (uacpi_namespace_node_find ns start last); [reflexivity |].
    first [reflexivity | f_equal; unfold len; cbn [length]; lia].
  - cbn [app concat] in Hr. destruct (reads_app _ _ _ _ Hr) as [Hr1 Hr2].
    pose proof (Forall_inv Hok) as Hseg.
    pose proof (Forall_inv_tail Hok) as Hrest.
    cbn [app length lookup_path resolve_segments].
    rewrite (parse_nameseg_ok _ _ _ Hseg Hr1).
    destruct Hseg as [Hlen _].
    replace (cursor + len seg) with (cursor + 4) in Hr2
      by (unfold len; rewrite Hlen; reflexivity).
    assert (Hn : length (rest ++ [last]) = S (length rest))
      by (rewrite length_app; cbn [length]; lia).
    rewrite Hn.
    destruct (uacpi_namespace_node_find ns start seg) as [node |] eqn:Ef.
    + specialize (IH Hrest (cursor + 4) node Hr2). rewrite Hn in IH.
      destruct (lookup_path ns node rest) as [parent |].
      * rewrite IH.
        destruct (uacpi_namespace_node_find ns parent last); [reflexivity |].
        f_equal. unfold len in *. cbn [length]. rewrite !Hn. lia.
      * destruct IH as (c & k & He & Hc). exists c, k. split; [exact He |].
        rewrite Hc. unfold len. cbn [length]. rewrite !Hn. lia.
    + exists cursor, (S (S (length rest))). split; [reflexivity |].
      unfold len. cbn [length]. rewrite Hn. lia.
Qed.

(** X2. Create-mode resolution of a well-formed name string: every segment
    but the last is looked up, without climbing, from the node the prefix
    leads to, and a miss there is NotFound; a last segment that exists
    under the resolved parent is AlreadyExists and leaves the frame as it
    was; otherwise the result is a fresh node of that name under that
    parent, and the cursor ends behind the name string. *)
Theorem resolve_name_string_create (ns : uacpi_namespace) (frame : call_frame)
    (prefix : name_prefix) (path : name_path)
    (out_node : option uacpi_namespace_node) (start : uacpi_namespace_node)
    (parents : list uacpi_object_name) (last : uacpi_object_name) :
  name_string_ok prefix path ->
  reads (code frame) (code_offset frame) (encode_name_string prefix path) ->
  prefix_start (cur_scope frame) prefix = Some start ->
  path_segments path = parents ++ [last] ->
  let behind :=
    set_code_offset frame
      (code_offset frame + len (encode_name_string prefix path)) in
  resolve_name_string ns frame RESOLVE_CREATE_LAST_NAMESEG_FAIL_IF_EXISTS
    out_node
  = match lookup_path ns start parents with
    | None => (UACPI_STATUS_NOT_FOUND, behind, None)
    | Some parent =>
        match uacpi_namespace_node_find ns parent last with
        | Some _ => (UACPI_STATUS_ALREADY_EXISTS, frame, out_node)
        | None =>
            (UACPI_STATUS_OK, behind,
             Some (uacpi_namespace_node_alloc last parent))
        end
    end.
Proof.
  intros Hok Hr Hstart Hsegs behind.
  assert (Hnull : path <> PathNull).
  { intros ->. cbn in Hsegs. now destruct parents. }
  rewrite (resolve_name_string_segments ns frame _ prefix path out_node start
             Hok Hr Hstart Hnull).
  destruct Hok as [Hall _].
  assert (Hrs : reads (code frame)
                  (code_offset frame + len (encode_name_string prefix path)
                   - len (path_segments path) * 4)
                  (concat (path_segments path))).
  { unfold encode_name_string in *.
    pose proof (len_concat_segs _ Hall) as Hcl.
    assert (Hsplit : exists lead,
              encode_prefix prefix ++ encode_path path
              = lead ++ concat (path_segments path)).
    { destruct path as [seg | seg1 seg2 | segs |]; cbn [encode_path path_segments concat].
      - exists (encode_prefix prefix). now rewrite app_nil_r.
      - exists (encode_prefix prefix ++ [UACPI_DUAL_NAME_PREFIX]).
        rewrite app_nil_r, <- app_assoc. reflexivity.
      - exists (encode_prefix prefix ++ [UACPI_MULTI_NAME_PREFIX; len segs]).
        rewrite <- app_assoc. reflexivity.
      - contradiction. }
    destruct Hsplit as [lead Hlead]. rewrite Hlead in *.
    destruct (reads_app _ _ _ _ Hr) as [_ Hr2].
    replace (code_offset frame + len (lead ++ concat (path_segments path))
             - len (path_segments path) * 4)
      with (code_offset frame + len lead); [exact Hr2 |].
    unfold len in *. rewrite length_app. lia. }
  rewrite Hsegs in *.
  pose proof (resolve_segments_create ns (code frame)
                (is_single_nameseg prefix path) last parents Hall _ start Hrs)
    as Hcreate.
  destruct (lookup_path ns start parents) as [parent |].
  - rewrite Hcreate.
    destruct (uacpi_namespace_node_find ns parent last); [reflexivity |].
    subst behind. f_equal. f_equal. f_equal. lia.
  - destruct Hcreate as (c & k & He & Hc). rewrite He.
    subst behind. f_equal. f_equal. f_equal. lia.
Qed.

Lemma resolve_name_string_create_witness :
  resolve_name_string [[[65; 66; 67; 68]]]
    (frame_at [46; 65; 66; 67; 68; 88; 89; 90; 95] 0 [])
    RESOLVE_CREATE_LAST_NAMESEG_FAIL_IF_EXISTS None
  = (UACPI_STATUS_OK,
     set_code_offset (frame_at [46; 65; 66; 67; 68; 88; 89; 90; 95] 0 []) 9,
     Some [[88; 89; 90; 95]; [65; 66; 67; 68]]).
Proof.
  refine (resolve_name_string_create [[[65; 66; 67; 68]]]
            (frame_at [46; 65; 66; 67; 68; 88; 89; 90; 95] 0 [])
            PrefixNone (PathDual [65; 66; 67; 68] [88; 89; 90; 95]) None []
            [[65; 66; 67; 68]] [88; 89; 90; 95] _ _ _ _).
  - split; [| exact I]. repeat constructor.
  - exists [], []. split; reflexivity.
  - reflexivity.
  - reflexivity.
Defined.

(** ** Stores keep the shape of their destination *)

Lemma store_len (l : list Z) (i v : Z) (l' : list Z) :
  store l i v = Returns l' -> len l' = len l.
Proof.
  unfold store. destruct ((0 <=? i) && (i <? len l)) eqn:E; [| discriminate].
  intros H. injection H as <-. apply len_splice1. lia.
Qed.

Lemma scatter_bits_len (dst : list Z) (ds dp dc bits : Z) (dst' : list Z) :
  scatter_bits dst ds dp dc bits = Returns dst' -> len dst' = len dst.
Proof.
  unfold scatter_bits.
  destruct (load dst dp) as [d0 |]; [| discriminate]. cbn [bind].
  destruct (store dst dp _) as [l1 |] eqn:E1; [| discriminate]. cbn [bind].
  apply store_len in E1.
  destruct (negb (ds =? 0) && (8 - ds <? dc)).
  - destruct (load l1 (dp + 1)) as [d1 |]; [| discriminate]. cbn [bind].
    destruct (store l1 (dp + 1) _) as [l2 |] eqn:E2; [| discriminate].
    cbn [bind]. apply store_len in E2.
    destruct (load l2 (dp + 1)) as [d2 |]; [| discriminate]. cbn [bind].
    intros E3. apply store_len in E3. lia.
  - intros H. injection H as <-. exact E1.
Qed.

Lemma rw_loop_len (src : list Z) (ss ds : Z) (fuel : nat) :
  forall (dst : list Z) (dp sp dc sc : Z) (dst' : list Z),
    rw_loop fuel src ss ds dst dp sp dc sc = Returns dst' ->
    len dst' = len dst.
Proof.
  induction fuel as [| fuel IH]; intros dst dp sp dc sc dst';
    cbn [rw_loop].
  - intros H. now injection H as <-.
  - destruct (dc =? 0); [intros H; now injection H as <- |].
    destruct (gather_bits src ss sp sc) as [[[bits sc'] sp'] |];
      [| discriminate]. cbn [bind].
    destruct (scatter_bits dst ds dp dc bits) as [l1 |] eqn:E1;
      [| discriminate]. cbn [bind].
    apply scatter_bits_len in E1. intros H. apply IH in H. lia.
Qed.

Lemma memcpy_zerout_at_len (dst : list Z) (off : Z) (src : list Z)
    (dst_size src_size : Z) (dst' : list Z) :
  0 <= src_size ->
  memcpy_zerout_at dst off src dst_size src_size = Returns dst' ->
  len dst' = len dst.
Proof.
  intros Hs. unfold memcpy_zerout_at.
  destruct (_ && _) eqn:E; [| discriminate]. cbn [guard bind].
  intros H. injection H as <-.
  apply andb_true_iff in E as [E E4]. apply andb_true_iff in E as [E E3].
  apply andb_true_iff in E as [E1 E2].
  apply Z.leb_le in E1, E2, E3, E4.
  assert (Hl : len (uacpi_memcpy_zerout src dst_size src_size) = dst_size).
  { unfold uacpi_memcpy_zerout, len in *.
    rewrite length_app, length_firstn, repeat_length. lia. }
  apply len_splice; lia.
Qed.

(** A write to a buffer field leaves the backing buffer as long as it
    was. *)
Lemma write_buffer_field_len (field : uacpi_buffer_field) (src data : list Z) :
  write_buffer_field field src = Returns data ->
  len data = len (backing field).
Proof.
  unfold write_buffer_field.
  destruct (Z.land (bit_index field) 7 =? 0).
  - destruct (load _ _) as [last_byte |]; [| discriminate]. cbn [bind].
    destruct (memcpy_zerout_at _ _ _ _ _) as [l1 |] eqn:E1; [| discriminate].
    cbn [bind]. apply memcpy_zerout_at_len in E1; [| apply len_nonneg].
    destruct (negb _).
    + destruct (load l1 _) as [d |]; [| discriminate]. cbn [bind].
      intros H. apply store_len in H. lia.
    + intros H. injection H as <-. exact E1.
  - unfold do_write_misaligned_buffer_field, do_rw_misaligned_buffer_field.
    cbn [span_data span_index span_length]. apply rw_loop_len.
Qed.

(** X3. A store with implicit cast never changes the type of its
    destination nor the number of bytes behind it: an Integer stays an
    Integer, a String or Buffer keeps its size, a buffer field and a
    buffer index leave their buffer as long as it was; and when the store
    fails the destination is as it was. *)
Theorem implicit_cast_keeps_type_and_size (rt : uacpi_runtime)
    (dst src : uacpi_object) (st : uacpi_status) (dst' : uacpi_object) :
  object_assign_with_implicit_cast rt dst src = Returns (st, dst') ->
  type_of dst' = type_of dst
  /\ storage_size dst' = storage_size dst
  /\ (st <> UACPI_STATUS_OK -> dst' = dst).
Proof.
  unfold object_assign_with_implicit_cast.
  destruct (get_object_storage rt src false) as [ret src_buf].
  destruct ret; try (intros H; injection H as <- <-; repeat split; congruence).
  destruct dst as [| v | text | data | | | field | buf_idx | | | | | | | |];
    try (intros H; injection H as <- <-; repeat split; congruence).
  - (* String *)
    destruct (get_object_storage rt (String text) false) as [ret dst_buf] eqn:E.
    cbn [get_object_storage] in E. injection E as <- <-.
    intros H. injection H as <- <-. repeat split; try congruence.
    cbn [storage_size].
    cbn [negb].
    generalize (if negb (len text =? 0) && true
                then len text - 1 else len text).
    intros l. pose proof (len_nonneg text).
    unfold uacpi_memcpy_zerout, len in *.
    rewrite !length_app, !length_firstn, repeat_length, length_skipn.
    lia.
  - (* Buffer *)
    intros H. injection H as <- <-. repeat split; try congruence.
    cbn [storage_size]. pose proof (len_nonneg data).
    unfold uacpi_memcpy_zerout, len in *.
    rewrite !length_app, !length_firstn, repeat_length. lia.
  - (* BufferField *)
    destruct (write_buffer_field field src_buf) as [data |] eqn:E;
      [| discriminate]. cbn [bind].
    intros H. injection H as <- <-. repeat split; try congruence.
    cbn [storage_size set_backing backing].
    exact (write_buffer_field_len _ _ _ E).
  - (* BufferIndex *)
    destruct (write_buffer_index buf_idx src_buf) as [data |] eqn:E;
      [| discriminate]. cbn [bind].
    intros H. injection H as <- <-. repeat split; try congruence.
    cbn [storage_size buffer].
    exact (memcpy_zerout_at_len _ _ _ _ _ _ (len_nonneg _) E).
Qed.

Lemma implicit_cast_keeps_type_and_size_witness :
  type_of (Buffer [1; 2; 0]) = type_of (Buffer [7; 7; 7])
  /\ storage_size (Buffer [1; 2; 0]) = storage_size (Buffer [7; 7; 7])
  /\ (UACPI_STATUS_OK <> UACPI_STATUS_OK -> Buffer [1; 2; 0] = Buffer [7; 7; 7]).
Proof.
  apply (implicit_cast_keeps_type_and_size runtime_rev2 (Buffer [7; 7; 7])
           (Buffer [1; 2]) UACPI_STATUS_OK (Buffer [1; 2; 0])).
  reflexivity.
Defined.

(** ** Paths of name strings *)

Ltac triple :=
  apply (f_equal (pair _)); apply f_equal2; [apply f_equal2 |]; lia.

Lemma path_prefix_carets (code : list Z) (c : Z) (n : nat) :
  is_prefix_char c = false ->
  forall (fuel : nat) (cursor bytes_left prefix_bytes : Z),
    reads code cursor (repeat char_caret n ++ [c]) ->
    Z.of_nat n + 1 <= bytes_left -> (n < fuel)%nat ->
    path_prefix fuel code cursor bytes_left prefix_bytes
    = (UACPI_STATUS_OK,
       (cursor + Z.of_nat n, bytes_left - Z.of_nat n,
        prefix_bytes + Z.of_nat n)).
Proof.
  intros Hc. apply orb_false_elim in Hc as [Hc1 Hc2].
  induction n as [| n IH]; intros fuel cursor bytes_left prefix_bytes Hr Hb Hf.
  - destruct fuel as [| fuel]; [lia |]. cbn [path_prefix].
    replace (bytes_left =? 0) with false by (symmetry; apply Z.eqb_neq; lia).
    cbn [repeat app] in Hr. destruct (reads_cons _ _ _ _ Hr) as [-> _].
    rewrite Hc1, Hc2. cbn [orb negb]. triple.
  - destruct fuel as [| fuel]; [lia |]. cbn [path_prefix].
    replace (bytes_left =? 0) with false by (symmetry; apply Z.eqb_neq; lia).
    cbn [repeat app] in Hr. destruct (reads_cons _ _ _ _ Hr) as [-> Hr'].
    rewrite Z.eqb_refl. cbn [orb negb].
    rewrite (IH fuel (cursor + 1) (bytes_left - 1) (prefix_bytes + 1) Hr') by lia.
    triple.
Qed.

Lemma path_prefix_encoded (code : list Z) (prefix : name_prefix) (c : Z)
    (fuel : nat) (cursor bytes_left : Z) :
  reads code cursor (encode_prefix prefix ++ [c]) ->
  is_prefix_char c = false ->
  len (encode_prefix prefix) + 1 <= bytes_left ->
  (Z.to_nat bytes_left < fuel)%nat ->
  path_prefix fuel code cursor bytes_left 0
  = (UACPI_STATUS_OK,
     (cursor + len (encode_prefix prefix),
      bytes_left - len (encode_prefix prefix),
      len (encode_prefix prefix))).
Proof.
  intros Hr Hc Hb Hf. destruct prefix as [| | more]; cbn [encode_prefix] in *.
  - unfold len in *; cbn [length app] in *.
    rewrite (path_prefix_carets code c 0 Hc fuel cursor bytes_left 0 Hr)
      by lia.
    triple.
  - destruct fuel as [| fuel]; [lia |]. cbn [path_prefix].
    unfold len in *; cbn [length] in *.
    replace (bytes_left =? 0) with false by (symmetry; apply Z.eqb_neq; lia).
    cbn [app] in Hr. destruct (reads_cons _ _ _ _ Hr) as [-> _].
    reflexivity.
  - unfold len in *. rewrite repeat_length in *.
    rewrite (path_prefix_carets code c (S more) Hc fuel cursor bytes_left 0 Hr)
      by lia.
    triple.
Qed.

Lemma skipn_repeat_0 (n k : nat) :
  (n <= k)%nat -> skipn n (repeat 0 k) = repeat 0 (k - n).
Proof.
  intros H. replace k with (n + (k - n))%nat at 1 by lia.
  rewrite repeat_app, skipn_app, repeat_length, Nat.sub_diag.
  rewrite skipn_all2 by (rewrite repeat_length; lia). reflexivity.
Qed.

Lemma splice_at_end (done rest new : list Z) :
  splice (done ++ rest) (len done) new
  = done ++ new ++ skipn (length new) rest.
Proof.
  unfold splice, len. rewrite Nat2Z.id.
  rewrite firstn_app, Nat.sub_diag, firstn_all. cbn [firstn].
  rewrite app_nil_r. f_equal. f_equal.
  rewrite skipn_app.
  rewrite skipn_all2 by lia.
  replace (length done + length new - length done)%nat with (length new)
    by lia.
  reflexivity.
Qed.

Lemma splice_at_0 (rest new : list Z) :
  splice rest 0 new = new ++ skipn (length new) rest.
Proof. exact (splice_at_end [] rest new). Qed.

Lemma len_dotted (segs : list uacpi_object_name) :
  Forall nameseg_ok segs -> segs <> [] ->
  len (dotted segs) = 5 * len segs - 1.
Proof.
  induction 1 as [| seg rest [Hlen _] Hrest IH]; intros Hne;
    [congruence |].
  destruct rest as [| r rest'].
  - unfold len. cbn [dotted length]. rewrite Hlen. lia.
  - change (dotted (seg :: r :: rest'))
      with (seg ++ char_dot :: dotted (r :: rest')).
    unfold len in *. rewrite length_app. cbn [length] in *.
    specialize (IH ltac:(discriminate)). lia.
Qed.

Lemma copy_namesegs_spec (code : list Z) (segs : list uacpi_object_name) :
  Forall nameseg_ok segs ->
  forall (cursor : Z) (done : list Z) (k : nat),
    reads code cursor (concat segs) ->
    (length (dotted segs) <= k)%nat ->
    copy_namesegs (length segs) code cursor (done ++ repeat 0 k) (len done)
    = Returns (done ++ dotted segs ++ repeat 0 (k - length (dotted segs)),
               len done + len (dotted segs)).
Proof.
  induction 1 as [| seg rest Hseg Hrest IH]; intros cursor done k Hr Hk.
  - cbn [length copy_namesegs dotted app]. rewrite Nat.sub_0_r.
    unfold len at 2. cbn [length]. rewrite Z.add_0_r. reflexivity.
  - pose proof Hseg as [Hlen _].
    cbn [concat] in Hr. apply reads_app in Hr as [Hr1 Hr2].
    pose proof (reads_bound _ _ _ Hr1) as Hb.
    pose proof (reads_slice _ _ _ Hr1) as Hs.
    assert (Hl4 : len seg = 4) by (unfold len; rewrite Hlen; reflexivity).
    rewrite Hl4 in *.
    assert (Hk4 : (4 <= k)%nat).
    { destruct rest; cbn [dotted] in Hk; [lia |].
      rewrite length_app in Hk. lia. }
    cbn [length copy_namesegs]. unfold memcpy_at.
    assert (G : (0 <=? len done) && (0 <=? cursor) && (0 <=? 4)
                && (len done + 4 <=? len (done ++ repeat 0 k))
                && (cursor + 4 <=? len code) = true).
    { pose proof (len_nonneg done).
      repeat (apply andb_true_intro; split); apply Z.leb_le; try lia.
      unfold len. rewrite length_app, repeat_length. lia. }
    rewrite G. cbn [guard bind]. rewrite Hs, splice_at_end, Hlen.
    rewrite skipn_repeat_0 by exact Hk4.
    destruct rest as [| r rest'].
    + cbn [length copy_namesegs dotted]. rewrite Hl4, Hlen. reflexivity.
    + cbn [length].
      change (dotted (seg :: r :: rest'))
        with (seg ++ char_dot :: dotted (r :: rest')) in *.
      rewrite length_app in Hk. cbn [length] in Hk.
      rewrite (app_assoc done seg).
      assert (Hds : len (done ++ seg) = len done + 4)
        by (unfold len; rewrite length_app, Hlen; lia).
      rewrite <- Hds.
      rewrite store_in_range
        by (pose proof (len_nonneg (done ++ seg)); unfold len in *;
            rewrite !length_app, repeat_length in *; lia).
      cbn [bind]. rewrite splice_at_end. cbn [length].
      rewrite skipn_repeat_0 by lia.
      rewrite (app_assoc (done ++ seg) [wrap8 char_dot]).
      assert (Hdd : len ((done ++ seg) ++ [wrap8 char_dot])
                    = len (done ++ seg) + 1)
        by (unfold len; rewrite (length_app (done ++ seg)); cbn [length]; lia).
      rewrite <- Hdd.
      change (length (r :: rest')) with (S (length rest')) in IH.
      rewrite (IH (cursor + 4)) by (try exact Hr2; lia).
      f_equal. f_equal.
      * rewrite <- !app_assoc. cbn [app]. f_equal. f_equal.
        change (wrap8 char_dot) with char_dot. f_equal. f_equal. f_equal.
        rewrite length_app. cbn [length]. lia.
      * unfold len. rewrite !length_app. cbn [length]. lia.
Qed.

Lemma reads_prefix (code : list Z) (off : Z) (a b : list Z) :
  reads code off (a ++ b) -> reads code off a.
Proof. intros H. exact (proj1 (reads_app _ _ _ _ H)). Qed.

(** The part of [name_string_to_path] behind the switch, on [segs]
    segments found at [cursor]. *)
Lemma name_string_to_path_build (rt : uacpi_runtime) (code pre : list Z)
    (segs : list uacpi_object_name) (offset cursor bytes_left : Z) :
  Forall nameseg_ok segs -> segs <> [] ->
  reads code offset pre -> reads code cursor (concat segs) ->
  len segs * 4 <= bytes_left ->
  len code < 2 ^ 32 -> len segs <= 255 ->
  uacpi_kernel_alloc rt (len (pre ++ dotted segs ++ [0])) = true ->
  (if bytes_left <? len segs * 4
   then Returns (UACPI_STATUS_BAD_BYTECODE, None)
   else
     if negb
          (uacpi_kernel_alloc rt
             (wrap64 (wrap64 (len segs * 4 + (len segs - 1)) + len pre + 1)))
     then Returns (UACPI_STATUS_OUT_OF_MEMORY, None)
     else
       out <- memcpy_at
                (repeat 0
                   (Z.to_nat
                      (wrap64
                         (wrap64 (len segs * 4 + (len segs - 1)) + len pre
                          + 1))))
                0 code offset (len pre) ;;
       copied <- copy_namesegs (Z.to_nat (len segs)) code cursor out
                   (len pre) ;;
       (let '(out0, base_cursor) := copied in
        out1 <- store out0 base_cursor 0 ;;
        Returns (UACPI_STATUS_OK, Some out1)))
  = Returns (UACPI_STATUS_OK, Some (pre ++ dotted segs ++ [0])).
Proof.
  intros Hsegs Hne Hpre Hcat Hbl Hcode H255 Halloc.
  pose proof (len_dotted segs Hsegs Hne) as Hd.
  pose proof (reads_bound _ _ _ Hpre) as Hpb.
  pose proof (reads_bound _ _ _ Hcat) as Hcb.
  pose proof (len_nonneg pre) as Hp0.
  assert (Hn1 : 1 <= len segs)
    by (destruct segs; [congruence | unfold len; cbn [length]; lia]).
  assert (Hsize : wrap64 (wrap64 (len segs * 4 + (len segs - 1)) + len pre + 1)
                  = len (pre ++ dotted segs ++ [0])).
  { unfold wrap64. rewrite (Z.mod_small (len segs * 4 + _)) by lia.
    rewrite Z.mod_small by lia.
    unfold len in *. rewrite !length_app. cbn [length]. lia. }
  rewrite Hsize, Halloc. cbn [negb].
  replace (bytes_left <? len segs * 4) with false
    by (symmetry; apply Z.ltb_ge; lia).
  unfold memcpy_at.
  assert (G : (0 <=? 0) && (0 <=? offset) && (0 <=? len pre)
              && (0 + len pre
                  <=? len (repeat 0 (Z.to_nat (len (pre ++ dotted segs ++ [0])))))
              && (offset + len pre <=? len code) = true).
  { repeat (apply andb_true_intro; split); apply Z.leb_le; try lia.
    unfold len. rewrite repeat_length, Nat2Z.id, length_app. lia. }
  rewrite G. cbn [guard bind].
  rewrite (reads_slice _ _ _ Hpre).
  rewrite splice_at_0.
  rewrite skipn_repeat_0
    by (unfold len; rewrite Nat2Z.id, length_app; lia).
  unfold len at 1. rewrite Nat2Z.id.
  rewrite copy_namesegs_spec;
    [| exact Hsegs | exact Hcat
     | unfold len; rewrite Nat2Z.id, !length_app; cbn [length]; lia].
  cbn [bind].
  replace (Z.to_nat (len (pre ++ dotted segs ++ [0%Z])) - length pre
           - length (dotted segs))%nat with 1%nat
    by (unfold len; rewrite Nat2Z.id, !length_app; cbn [length]; lia).
  rewrite (app_assoc pre (dotted segs)).
  replace (len pre + len (dotted segs)) with (len (pre ++ dotted segs))
    by (unfold len; rewrite length_app; lia).
  rewrite store_in_range
    by (pose proof (len_nonneg (pre ++ dotted segs)); unfold len in *;
        rewrite (length_app (pre ++ dotted segs)); cbn [repeat length]; lia).
  cbn [bind]. rewrite splice_at_end, <- app_assoc. reflexivity.
Qed.

Lemma name_string_to_path_prefix (frame : call_frame) (offset : Z)
    (prefix : name_prefix) (path : name_path) :
  Forall nameseg_ok (path_segments path) ->
  reads (code frame) offset (encode_name_string prefix path) ->
  exists c rest,
    encode_path path = c :: rest
    /\ path_prefix (S (Z.to_nat (method_size frame - offset))) (code frame)
         offset (method_size frame - offset) 0
       = (UACPI_STATUS_OK,
          (offset + len (encode_prefix prefix),
           method_size frame - offset - len (encode_prefix prefix),
           len (encode_prefix prefix)))
    /\ byte_at (code frame) (offset + len (encode_prefix prefix)) = c
    /\ reads (code frame) (offset + len (encode_prefix prefix)) (c :: rest)
    /\ reads (code frame) (offset + len (encode_prefix prefix) + 1) rest
    /\ len (encode_prefix prefix) + 1 + len rest <= method_size frame - offset.
Proof.
  intros Hsegs Hr. unfold encode_name_string in Hr.
  destruct (encode_path_lead path Hsegs) as (c & rest & Hp & Hc).
  exists c, rest. rewrite Hp in Hr.
  pose proof (reads_bound _ _ _ Hr) as Hb.
  unfold len in Hb. rewrite length_app in Hb. cbn [length] in Hb.
  destruct (reads_app _ _ _ _ Hr) as [_ Hr2].
  destruct (reads_cons _ _ _ _ Hr2) as [Hlead Hrest].
  split; [exact Hp |]. split.
  - apply (path_prefix_encoded _ prefix c).
    + change (c :: rest) with ([c] ++ rest) in Hr.
      rewrite app_assoc in Hr. exact (reads_prefix _ _ _ _ Hr).
    + exact Hc.
    + unfold method_size, len. lia.
    + lia.
  - split; [exact Hlead |]. split; [exact Hr2 |]. split; [exact Hrest |].
    unfold method_size, len. lia.
Qed.

(** X4. For a well-formed name string with at least one segment,
    [name_string_to_path] returns the prefix characters as they are in the
    code, the segments joined by dots and a terminating NUL, in a buffer
    of exactly that size. *)
Theorem name_string_to_path_dotted (rt : uacpi_runtime) (frame : call_frame)
    (offset : Z) (prefix : name_prefix) (path : name_path) :
  name_string_ok prefix path ->
  path_segments path <> [] ->
  reads (code frame) offset (encode_name_string prefix path) ->
  method_size frame < 2 ^ 32 ->
  uacpi_kernel_alloc rt
    (len (encode_prefix prefix ++ dotted (path_segments path) ++ [0])) = true ->
  name_string_to_path rt frame offset
  = Returns (UACPI_STATUS_OK,
             Some (encode_prefix prefix ++ dotted (path_segments path) ++ [0])).
Proof.
  intros [Hsegs Hmulti] Hne Hr Hsize Halloc.
  destruct (name_string_to_path_prefix frame offset prefix path Hsegs Hr)
    as (c & rest & Hp & Hpre & Hlead & Hpath & Hrest & Hleft).
  pose proof (reads_prefix _ _ _ _ Hr) as Hrp.
  pose proof (len_nonneg rest) as Hr0.
  unfold name_string_to_path. rewrite Hpre, Hlead.
  replace (method_size frame - offset - len (encode_prefix prefix) =? 0)
    with false by (symmetry; apply Z.eqb_neq; lia).
  cbv zeta.
  destruct path as [seg | seg1 seg2 | segs |]; cbn [path_segments] in *;
    cbn [encode_path] in Hp; [| | | congruence].
  - (* one segment *)
    subst seg.
    assert (Hseg : nameseg_ok (c :: rest)) by (inversion Hsegs; assumption).
    destruct Hseg as [Hlen Hch].
    assert (Hc : is_name_char c = true) by (inversion Hch; assumption).
    destruct (name_char_not_prefix c Hc) as (_ & _ & H1 & H2 & H3).
    apply Z.eqb_neq in H1, H2, H3. rewrite H1, H2, H3.
    change 1 with (len [c :: rest]).
    apply name_string_to_path_build; try assumption.
    + cbn [concat]. rewrite app_nil_r. exact Hpath.
    + unfold len in *. cbn [length] in *. lia.
    + unfold len. cbn [length]. lia.
  - (* two segments *)
    injection Hp as <- <-.
    change (UACPI_DUAL_NAME_PREFIX =? UACPI_DUAL_NAME_PREFIX) with true.
    cbv iota.
    change 2 with (len [seg1; seg2]).
    apply name_string_to_path_build; try assumption.
    + cbn [concat]. rewrite app_nil_r. exact Hrest.
    + inversion Hsegs as [| ? ? [H1 _] Hs2]; subst.
      inversion Hs2 as [| ? ? [H2 _] _]; subst.
      unfold len in *. rewrite length_app in Hleft. cbn [length]. lia.
    + unfold len. cbn [length]. lia.
  - (* a count and its segments *)
    injection Hp as <- <-.
    change (UACPI_MULTI_NAME_PREFIX =? UACPI_DUAL_NAME_PREFIX) with false.
    change (UACPI_MULTI_NAME_PREFIX =? UACPI_MULTI_NAME_PREFIX) with true.
    cbv iota.
    destruct (reads_cons _ _ _ _ Hrest) as [Hcount Hcat].
    pose proof (len_concat_segs segs Hsegs) as Hcl.
    assert (Hleft' : len (encode_prefix prefix) + 2 + len segs * 4
                     <= method_size frame - offset).
    { rewrite <- Hcl. unfold len in *. cbn [length] in Hleft. lia. }
    pose proof (len_nonneg segs) as Hs0.
    replace (method_size frame - offset - len (encode_prefix prefix) - 1 =? 0)
      with false by (symmetry; apply Z.eqb_neq; lia).
    rewrite Hcount.
    apply name_string_to_path_build; try assumption; try lia.
    replace (offset + len (encode_prefix prefix) + 2)
      with (offset + len (encode_prefix prefix) + 1 + 1) by lia.
    exact Hcat.
Qed.

Lemma name_string_to_path_dotted_witness :
  name_string_to_path runtime_rev2
    (frame_at [92; 46; 65; 66; 67; 68; 88; 89; 90; 95] 0 uacpi_namespace_root)
    0
  = Returns (UACPI_STATUS_OK,
             Some [92; 65; 66; 67; 68; 46; 88; 89; 90; 95; 0]).
Proof.
  apply (name_string_to_path_dotted runtime_rev2
           (frame_at [92; 46; 65; 66; 67; 68; 88; 89; 90; 95] 0
              uacpi_namespace_root)
           0 PrefixRoot (PathDual [65; 66; 67; 68] [88; 89; 90; 95])).
  - split; [| exact I].
    repeat constructor.
  - discriminate.
  - exists [], []. split; reflexivity.
  - reflexivity.
  - reflexivity.
Defined.

(** X5. For a name string whose path is the NullName, or a MultiNamePath
    of no segments, [name_string_to_path] asks for as many bytes as the
    prefix has, since [namesegs - 1] wraps around, and then writes the
    terminating NUL one byte behind them: an access outside the
    allocation. *)
Theorem name_string_to_path_null_name (rt : uacpi_runtime)
    (frame : call_frame) (offset : Z) (prefix : name_prefix)
    (path : name_path) :
  path_segments path = [] ->
  reads (code frame) offset (encode_name_string prefix path) ->
  method_size frame < 2 ^ 32 ->
  uacpi_kernel_alloc rt (len (encode_prefix prefix)) = true ->
  name_string_to_path rt frame offset = UndefinedBehaviour.
Proof.
  intros Hnil Hr Hsize Halloc.
  assert (Hsegs : Forall nameseg_ok (path_segments path))
    by (rewrite Hnil; constructor).
  destruct (name_string_to_path_prefix frame offset prefix path Hsegs Hr)
    as (c & rest & Hp & Hpre & Hlead & Hpath & Hrest & Hleft).
  pose proof (reads_prefix _ _ _ _ Hr) as Hrp.
  pose proof (reads_bound _ _ _ Hrp) as Hb.
  pose proof (len_nonneg rest) as Hr0.
  pose proof (len_nonneg (encode_prefix prefix)) as Hp0.
  unfold name_string_to_path. rewrite Hpre, Hlead.
  replace (method_size frame - offset - len (encode_prefix prefix) =? 0)
    with false by (symmetry; apply Z.eqb_neq; lia).
  cbv zeta.
  assert (Hout : wrap64 (wrap64 (0 * 4 + (0 - 1)) + len (encode_prefix prefix)
                         + 1)
                 = len (encode_prefix prefix)).
  { change (wrap64 (0 * 4 + (0 - 1))) with (2 ^ 64 - 1). unfold wrap64.
    replace (2 ^ 64 - 1 + len (encode_prefix prefix) + 1)
      with (len (encode_prefix prefix) + 1 * 2 ^ 64) by lia.
    rewrite Z.mod_add by lia. apply Z.mod_small.
    unfold method_size in Hsize. lia. }
  assert (Hfin : forall cursor : Z,
    (if negb (uacpi_kernel_alloc rt
                (wrap64 (wrap64 (0 * 4 + (0 - 1)) + len (encode_prefix prefix)
                         + 1)))
     then Returns (UACPI_STATUS_OUT_OF_MEMORY, @None (list Z))
     else
       out <- memcpy_at
                (repeat 0
                   (Z.to_nat
                      (wrap64
                         (wrap64 (0 * 4 + (0 - 1))
                          + len (encode_prefix prefix) + 1))))
                0 (code frame) offset (len (encode_prefix prefix)) ;;
       copied <- copy_namesegs (Z.to_nat 0) (code frame) cursor out
                   (len (encode_prefix prefix)) ;;
       (let '(out0, base_cursor) := copied in
        out1 <- store out0 base_cursor 0 ;;
        Returns (UACPI_STATUS_OK, Some out1)))
    = UndefinedBehaviour).
  { intros cursor. rewrite Hout, Halloc. cbn [negb]. unfold memcpy_at.
    assert (G : (0 <=? 0) && (0 <=? offset)
                && (0 <=? len (encode_prefix prefix))
                && (0 + len (encode_prefix prefix)
                    <=? len (repeat 0 (Z.to_nat (len (encode_prefix prefix)))))
                && (offset + len (encode_prefix prefix) <=? len (code frame))
                = true).
    { repeat (apply andb_true_intro; split); apply Z.leb_le; try lia.
      unfold len. rewrite repeat_length, Nat2Z.id. lia. }
    rewrite G. cbn [guard bind]. rewrite (reads_slice _ _ _ Hrp).
    rewrite splice_at_0.
    rewrite skipn_all2 by (unfold len; rewrite repeat_length; lia).
    rewrite app_nil_r. cbn [Z.to_nat copy_namesegs bind]. unfold store.
    replace (len (encode_prefix prefix) <? len (encode_prefix prefix))
      with false by (symmetry; apply Z.ltb_ge; lia).
    rewrite andb_false_r. reflexivity. }
  destruct path as [seg | seg1 seg2 | segs |]; cbn [path_segments] in Hnil;
    try discriminate; cbn [encode_path] in Hp.
  - subst segs. injection Hp as <- <-.
    change (UACPI_MULTI_NAME_PREFIX =? UACPI_DUAL_NAME_PREFIX) with false.
    change (UACPI_MULTI_NAME_PREFIX =? UACPI_MULTI_NAME_PREFIX) with true.
    cbv iota.
    destruct (reads_cons _ _ _ _ Hrest) as [Hcount _]. rewrite Hcount.
    unfold len in Hleft. cbn [length concat] in Hleft.
    replace (method_size frame - offset - len (encode_prefix prefix) - 1 =? 0)
      with false by (symmetry; apply Z.eqb_neq; unfold len; lia).
    change (len (@nil uacpi_object_name)) with 0.
    replace (method_size frame - offset - len (encode_prefix prefix) - 2
             <? 0 * 4)
      with false by (symmetry; apply Z.ltb_ge; unfold len; lia).
    apply Hfin.
  - injection Hp as <- <-.
    change (UACPI_NULL_NAME =? UACPI_DUAL_NAME_PREFIX) with false.
    change (UACPI_NULL_NAME =? UACPI_MULTI_NAME_PREFIX) with false.
    change (UACPI_NULL_NAME =? UACPI_NULL_NAME) with true.
    cbv iota.
    replace (method_size frame - offset - len (encode_prefix prefix) - 1
             <? 0 * 4)
      with false by (symmetry; apply Z.ltb_ge; lia).
    apply Hfin.
Qed.

Lemma name_string_to_path_null_name_witness :
  name_string_to_path runtime_rev2 (frame_at [92; 0] 0 uacpi_namespace_root) 0
  = UndefinedBehaviour.
Proof.
  apply (name_string_to_path_null_name runtime_rev2
           (frame_at [92; 0] 0 uacpi_namespace_root) 0 PrefixRoot PathNull).
  - reflexivity.
  - exists [], []. split; reflexivity.
  - reflexivity.
  - reflexivity.
Defined.

(** ** What a field write does to the bits around the field *)

(** X6. A write to a buffer field leaves every bit outside the field as
    it was, except on the byte-aligned path when the length is no
    multiple of eight: there the bits of the last byte above the field
    additionally receive the source bits at their positions (they are
    OR-ed in, never cleared). *)
Theorem write_buffer_field_outside_bits (field : uacpi_buffer_field)
    (src : list Z) :
  bytes_ok (backing field) -> bytes_ok src ->
  0 <= bit_index field -> 0 < bit_length field ->
  bit_length field + 7 < 2 ^ 32 ->
  bit_index field + bit_length field <= 8 * len (backing field) ->
  exists data,
    write_buffer_field field src = Returns data
    /\ forall i, 0 <= i ->
         i < bit_index field \/ bit_index field + bit_length field <= i ->
         bit_at data i
         = bit_at (backing field) i
           || ((bit_index field mod 8 =? 0)
               && (bit_index field <=? i)
               && (i <? bit_index field + 8 * buffer_field_byte_size field)
               && bit_at src (i - bit_index field)).
Proof.
  intros backing_ok Hsrc index_nonneg length_pos length_fits in_backing.
  set (count := buffer_field_byte_size field).
  unfold write_buffer_field. fold count.
  pose proof (count_eq field length_pos length_fits) as Hcount.
  fold count in Hcount.
  destruct (byte_size_bounds (bit_length field) length_pos) as (Hb & Hz & Hnz).
  cbv zeta in Hb, Hz, Hnz. rewrite <- Hcount in Hb, Hz, Hnz.
  rewrite !land_7.
  destruct (div_mod_8 (bit_index field)) as [Hidx Him].
  destruct (Z.eqb_spec (bit_index field mod 8) 0) as [Eal | Eal].
  - (* the aligned path *)
    set (off := bit_index field / 8) in *.
    assert (Hoff : bit_index field = 8 * off) by lia.
    assert (Hlast : 0 <= off + (count - 1) < len (backing field)) by lia.
    rewrite load_in_range by exact Hlast. cbn [bind].
    unfold memcpy_zerout_at.
    assert (G : (0 <=? off) && (0 <=? count)
                && (off + count <=? len (backing field))
                && (Z.min (len src) count <=? len src) = true).
    { repeat (apply andb_true_intro; split); apply Z.leb_le; lia. }
    rewrite G. cbn [guard bind].
    set (written := uacpi_memcpy_zerout src count (len src)).
    assert (Hwl : len written = count) by (apply len_memcpy_zerout; lia).
    set (data := splice (backing field) off written).
    assert (Hdl : len data = len (backing field))
      by (apply len_splice; lia).
    assert (Hdbyte : forall k, 0 <= k ->
              byte_at data k
              = if (off <=? k) && (k <? off + count)
                then byte_at src (k - off) else byte_at (backing field) k).
    { intros k Hk. unfold data. rewrite byte_at_splice by lia. rewrite Hwl.
      destruct ((off <=? k) && (k <? off + count)) eqn:E; [| reflexivity].
      apply andb_true_iff in E as [E1 E2].
      apply Z.leb_le in E1. apply Z.ltb_lt in E2.
      apply byte_at_memcpy_zerout. lia. }
    assert (Hts : wrap8 (bit_length field mod 8) = bit_length field mod 8).
    { unfold wrap8. apply Z.mod_small.
      pose proof (Z.mod_pos_bound (bit_length field) 8 ltac:(lia)). lia. }
    rewrite Hts.
    pose proof (Z.mod_pos_bound (bit_length field) 8 ltac:(lia)) as Htsb.
    assert (Hsrcbit : forall i, 0 <= i -> 8 * off <= i ->
              bit_at src (i - bit_index field)
              = Z.testbit (byte_at src (i / 8 - off)) (i mod 8)).
    { intros i Hi Hio. destruct (div_mod_8 i) as [Hid Himd].
      rewrite bit_at_byte.
      replace ((i - bit_index field) / 8) with (i / 8 - off)
        by (apply (Z.div_unique _ 8 _ (i mod 8)); lia).
      replace ((i - bit_index field) mod 8) with (i mod 8)
        by (apply (Z.mod_unique _ 8 (i / 8 - off)); lia).
      reflexivity. }
    destruct (Z.eqb_spec (bit_length field mod 8) 0) as [Ets | Ets]; cbn [negb].
    + exists data. split; [reflexivity |].
      intros i Hi Hout. destruct (div_mod_8 i) as [Hid Himd]. cbn [andb].
      rewrite !bit_at_byte. rewrite Hdbyte by lia.
      specialize (Hz Ets).
      replace ((off <=? i / 8) && (i / 8 <? off + count)) with false
        by (symmetry; apply andb_false_iff;
            destruct Hout; [left; apply Z.leb_gt | right; apply Z.ltb_ge];
            lia).
      replace ((bit_index field <=? i)
               && (i <? bit_index field + 8 * count)) with false
        by (symmetry; apply andb_false_iff;
            destruct Hout; [left; apply Z.leb_gt | right; apply Z.ltb_ge];
            lia).
      cbn [andb]. rewrite orb_false_r. reflexivity.
    + assert (Hlast' : 0 <= off + (count - 1) < len data) by lia.
      rewrite load_in_range by exact Hlast'. cbn [bind].
      rewrite store_in_range by exact Hlast'.
      eexists. split; [reflexivity |].
      intros i Hi Hout. destruct (div_mod_8 i) as [Hid Himd]. cbn [andb].
      specialize (Hnz Ets).
      rewrite (bit_at_byte (splice _ _ _)).
      rewrite byte_at_splice1 by lia.
      destruct (Z.eqb_spec (i / 8) (off + (count - 1))) as [Eq | Eq].
      * (* the last byte of the field, above the field *)
        rewrite wrap8_testbit by lia.
        rewrite Z.lor_spec, Z.shiftl_spec, Z.shiftr_spec by lia.
        rewrite Hdbyte by lia.
        replace ((off <=? off + (count - 1))
                 && (off + (count - 1) <? off + count)) with true
          by (symmetry; apply andb_true_intro; split;
              [apply Z.leb_le | apply Z.ltb_lt]; lia).
        replace (i mod 8 - bit_length field mod 8 + bit_length field mod 8)
          with (i mod 8) by lia.
        replace ((bit_index field <=? i)
                 && (i <? bit_index field + 8 * count)) with true
          by (symmetry; apply andb_true_intro; split;
              [apply Z.leb_le | apply Z.ltb_lt]; lia).
        cbn [andb]. rewrite Hsrcbit by lia.
        rewrite bit_at_byte, Eq.
        replace (off + (count - 1) - off) with (count - 1) by lia.
        apply orb_comm.
      * rewrite Hdbyte by lia. rewrite bit_at_byte.
        replace ((off <=? i / 8) && (i / 8 <? off + count)) with false
          by (symmetry; apply andb_false_iff;
              destruct Hout; [left; apply Z.leb_gt | right; apply Z.ltb_ge];
              lia).
        replace ((bit_index field <=? i)
                 && (i <? bit_index field + 8 * count)) with false
          by (symmetry; apply andb_false_iff;
              destruct Hout; [left; apply Z.leb_gt | right; apply Z.ltb_ge];
              lia).
        cbn [andb]. rewrite orb_false_r. reflexivity.
  - (* the misaligned path *)
    unfold do_write_misaligned_buffer_field.
    destruct (do_rw_misaligned_buffer_field_spec
                (mk_span (backing field) (bit_index field) (bit_length field))
                (mk_span src 0 (len src * 8)))
      as (data & Hr & Hlen & Hbytes & Hbit);
      cbn [span_data span_index span_length]; try lia;
      try (unfold len; lia); try assumption.
    exists data. cbn [span_data span_index span_length] in *.
    split; [exact Hr |].
    intros i Hi Hout. rewrite Hbit by lia.
    replace ((bit_index field <=? i)
             && (i <? bit_index field + bit_length field)) with false
      by (symmetry; apply andb_false_iff;
          destruct Hout; [left; apply Z.leb_gt | right; apply Z.ltb_ge]; lia).
    cbn [andb]. rewrite orb_false_r. reflexivity.
Qed.

Ltac bytes_ok_tac :=
  repeat (apply Forall_cons; [unfold is_byte; lia |]); apply Forall_nil.

(** Four bits at the start of a zero byte, written from [0xFF]. *)
Lemma write_buffer_field_outside_bits_witness :
  exists data,
    write_buffer_field (mk_field [0] 0 4 false) [255] = Returns data
    /\ forall i, 0 <= i ->
         i < 0 \/ 0 + 4 <= i ->
         bit_at data i
         = bit_at [0] i
           || ((0 mod 8 =? 0) && (0 <=? i)
               && (i <? 0 + 8 * buffer_field_byte_size (mk_field [0] 0 4 false))
               && bit_at [255] (i - 0)).
Proof.
  apply (write_buffer_field_outside_bits (mk_field [0] 0 4 false) [255]);
    cbn [backing bit_index bit_length]; try bytes_ok_tac;
    try (unfold len; cbn [length]; lia).
Defined.

(** ** Creating a buffer field and reading it *)

Lemma bytes_ok_le_split (n : nat) : forall v, bytes_ok (le_split n v).
Proof.
  induction n as [| n IH]; intros v; cbn [le_split]; [apply Forall_nil |].
  apply Forall_cons; [| apply IH].
  unfold is_byte. apply Z.mod_pos_bound. lia.
Qed.

Lemma len_le_split (n : nat) : forall v, len (le_split n v) = Z.of_nat n.
Proof.
  induction n as [| n IH]; intros v; [reflexivity |].
  cbn [le_split]. specialize (IH (Z.shiftr v 8)).
  unfold len in *. cbn [length]. lia.
Qed.

Lemma bit_at_le_split (n : nat) :
  forall v j, 0 <= j < 8 * Z.of_nat n ->
    bit_at (le_split n v) j = Z.testbit v j.
Proof.
  induction n as [| n IH]; intros v j Hj; [lia |].
  cbn [le_split]. rewrite bit_at_cons by lia.
  destruct (Z.ltb_spec j 8).
  - change 256 with (2 ^ 8). apply Z.mod_pow2_bits_low. lia.
  - rewrite IH by lia. rewrite Z.shiftr_spec by lia. f_equal. lia.
Qed.

(** A field read leaves the bytes of the destination behind the bytes of
    the field as they were. *)
Lemma do_read_buffer_field_rest (field : uacpi_buffer_field)
    (dst out : list Z) :
  bytes_ok (backing field) ->
  0 <= bit_index field -> 0 < bit_length field ->
  bit_length field + 7 < 2 ^ 32 ->
  bit_index field + bit_length field <= 8 * len (backing field) ->
  buffer_field_byte_size field <= len dst ->
  do_read_buffer_field field dst = Returns out ->
  forall j, 8 * buffer_field_byte_size field <= j ->
    bit_at out j = bit_at dst j.
Proof.
  intros backing_ok index_nonneg length_pos length_fits in_backing Hdst.
  set (count := buffer_field_byte_size field) in *.
  pose proof (count_eq field length_pos length_fits) as Hcount.
  fold count in Hcount.
  destruct (byte_size_bounds (bit_length field) length_pos) as (Hb & Hz & Hnz).
  cbv zeta in Hb, Hz, Hnz. rewrite <- Hcount in Hb, Hz, Hnz.
  unfold do_read_buffer_field. fold count. rewrite !land_7.
  destruct (div_mod_8 (bit_index field)) as [Hidx Him].
  destruct (Z.eqb_spec (bit_index field mod 8) 0) as [Eal | Eal].
  - set (off := bit_index field / 8) in *.
    unfold memcpy_from.
    assert (G : (0 <=? off) && (0 <=? count)
                && (off + count <=? len (backing field))
                && (count <=? len dst) = true).
    { repeat (apply andb_true_intro; split); apply Z.leb_le; lia. }
    rewrite G. cbn [guard bind].
    set (copied := slice (backing field) off count).
    assert (Hcl : len copied = count) by (apply len_slice; lia).
    assert (Hol : len (splice dst 0 copied) = len dst)
      by (apply len_splice; lia).
    assert (Hrest : forall j, 8 * count <= j ->
              bit_at (splice dst 0 copied) j = bit_at dst j).
    { intros j Hj. destruct (div_mod_8 j) as [Hjd Hjm].
      rewrite !bit_at_byte. rewrite byte_at_splice by lia.
      replace ((0 <=? j / 8) && (j / 8 <? 0 + len copied)) with false
        by (symmetry; apply andb_false_iff; right; apply Z.ltb_ge; lia).
      reflexivity. }
    destruct (Z.eqb_spec (bit_length field mod 8) 0) as [Ets | Ets]; cbn [negb].
    + intros H. injection H as <-. exact Hrest.
    + assert (Hlast : 0 <= count - 1 < len (splice dst 0 copied)) by lia.
      rewrite load_in_range by exact Hlast. cbn [bind].
      rewrite store_in_range by exact Hlast.
      intros H. injection H as <-.
      intros j Hj. destruct (div_mod_8 j) as [Hjd Hjm].
      rewrite <- Hrest by exact Hj.
      rewrite !bit_at_byte. rewrite byte_at_splice1 by lia.
      replace (j / 8 =? count - 1) with false
        by (symmetry; apply Z.eqb_neq; lia).
      reflexivity.
  - unfold do_misaligned_buffer_read. fold count.
    destruct (do_rw_misaligned_buffer_field_spec
                (mk_span dst 0 (count * 8))
                (mk_span (backing field) (bit_index field) (bit_length field)))
      as (out' & Hr & Hlen & Hbytes & Hbit);
      cbn [span_data span_index span_length]; try lia; try assumption.
    cbn [span_data span_index span_length] in *.
    rewrite Hr. intros H. injection H as <-.
    intros j Hj. rewrite Hbit by lia.
    replace ((0 <=? j) && (j <? 0 + count * 8)) with false
      by (symmetry; apply andb_false_iff; right; apply Z.ltb_ge; lia).
    reflexivity.
Qed.

Lemma handle_create_buffer_field_ok (rt : uacpi_runtime) (code : Z)
    (src_buf : list Z) (idx length : Z) (field field' : uacpi_buffer_field)
    (log : kernel_log) :
  0 <= idx < 2 ^ 60 -> 0 <= length ->
  handle_create_buffer_field rt code src_buf idx length field
  = (UACPI_STATUS_OK, field', log) ->
  backing field' = src_buf
  /\ bit_index field' = (if code =? AML_CreateFieldOp then idx else 8 * idx)
  /\ 0 < bit_length field' < 2 ^ 32
  /\ bit_index field' + bit_length field' <= 8 * len src_buf.
Proof.
  intros Hidx Hlen. unfold handle_create_buffer_field.
  assert (Hcheck : forall f : uacpi_buffer_field,
            0 <= bit_index f < 2 ^ 63 -> 0 < bit_length f < 2 ^ 32 ->
            (if len src_buf * 8 <? wrap64 (bit_index f + bit_length f)
             then (UACPI_STATUS_BAD_BYTECODE, f, [log_invalid_buffer_field])
             else
               if negb (uacpi_create_object rt UACPI_OBJECT_REFERENCE)
               then (UACPI_STATUS_OUT_OF_MEMORY,
                     mk_field src_buf (bit_index f) (bit_length f)
                       (force_buffer f), [])
               else (UACPI_STATUS_OK,
                     mk_field src_buf (bit_index f) (bit_length f)
                       (force_buffer f), []))
            = (UACPI_STATUS_OK, field', log) ->
            backing field' = src_buf
            /\ bit_index field' = bit_index f
            /\ 0 < bit_length field' < 2 ^ 32
            /\ bit_index field' + bit_length field' <= 8 * len src_buf).
  { intros f Hi Hl.
    unfold wrap64. rewrite Z.mod_small by lia.
    destruct (Z.ltb_spec (len src_buf * 8) (bit_index f + bit_length f));
      [discriminate |].
    destruct (negb _); [discriminate |].
    intros E. injection E as <- _. cbn [backing bit_index bit_length].
    repeat split; lia. }
  cbv zeta.
  destruct (code =? AML_CreateFieldOp).
  - destruct ((length =? 0) || (4294967295 <? length)) eqn:E; [discriminate |].
    apply orb_false_elim in E as [E1 E2].
    apply Z.eqb_neq in E1. apply Z.ltb_ge in E2.
    intros H. apply Hcheck in H; cbn [bit_index bit_length] in *; try lia.
    exact H.
  - assert (Hw : wrap64 (idx * 8) = 8 * idx)
      by (unfold wrap64; rewrite Z.mod_small by lia; lia).
    repeat
      (match goal with
       | |- context [if ?c =? ?k then _ else _] => destruct (c =? k)
       end;
       [intros H; apply Hcheck in H; cbn [bit_index bit_length] in *;
        try rewrite Hw in *; try lia; exact H |]).
    discriminate.
Qed.

(** X7. A buffer field that [handle_create_buffer_field] accepts (for an
    index small enough that the bit offset does not wrap around) lies
    inside the source buffer, at bit [idx] for CreateField and at bit
    [8 * idx] for every other op including CreateBitField. Reading it is
    defined: a Buffer read gives exactly the bits of the field, zero
    above them; an Integer read gives them in the low bytes of the
    destination integer and leaves its bytes behind the field's byte size
    as they were. *)
Theorem create_buffer_field_then_read (rt : uacpi_runtime) (code : Z)
    (src_buf : list Z) (idx length : Z) (field field' : uacpi_buffer_field)
    (log : kernel_log) (dst_obj : uacpi_object) :
  bytes_ok src_buf -> len src_buf < 2 ^ 28 ->
  0 <= idx < 2 ^ 60 -> 0 <= length ->
  handle_create_buffer_field rt code src_buf idx length field
  = (UACPI_STATUS_OK, field', log) ->
  uacpi_kernel_alloc rt (buffer_field_byte_size field') = true ->
  backing field' = src_buf
  /\ bit_index field' = (if code =? AML_CreateFieldOp then idx else 8 * idx)
  /\ bit_index field' + bit_length field' <= 8 * len src_buf
  /\ (buffer_field_get_read_type rt field' = UACPI_OBJECT_BUFFER ->
      exists out,
        handle_field_read rt field' dst_obj
        = Returns (UACPI_STATUS_OK, set_buffer dst_obj out)
        /\ len out = buffer_field_byte_size field'
        /\ forall j, 0 <= j -> bit_at out j = field_bit field' j)
  /\ (buffer_field_get_read_type rt field' = UACPI_OBJECT_INTEGER ->
      exists v,
        handle_field_read rt field' dst_obj
        = Returns (UACPI_STATUS_OK, Integer v)
        /\ forall j, 0 <= j < 64 ->
             Z.testbit v j
             = if j <? 8 * buffer_field_byte_size field'
               then field_bit field' j
               else Z.testbit (integer_of rt 1 dst_obj) j).
Proof.
  intros Hok Hsmall Hidx Hlen Hcreate Halloc.
  destruct (handle_create_buffer_field_ok _ _ _ _ _ _ _ _ Hidx Hlen Hcreate)
    as (Hback & Hbi & Hbl & Hin).
  split; [exact Hback |]. split; [exact Hbi |]. split; [exact Hin |].
  assert (backing_ok : bytes_ok (backing field')) by (rewrite Hback; exact Hok).
  assert (index_nonneg : 0 <= bit_index field')
    by (rewrite Hbi; destruct (code =? AML_CreateFieldOp); lia).
  assert (length_pos : 0 < bit_length field') by lia.
  assert (length_fits : bit_length field' + 7 < 2 ^ 32) by lia.
  assert (in_backing : bit_index field' + bit_length field'
                       <= 8 * len (backing field'))
    by (rewrite Hback; exact Hin).
  set (count := buffer_field_byte_size field') in *.
  pose proof (count_eq field' length_pos length_fits) as Hcount.
  fold count in Hcount.
  destruct (byte_size_bounds (bit_length field') length_pos) as (Hb & _ & _).
  cbv zeta in Hb. rewrite <- Hcount in Hb.
  unfold handle_field_read. fold count. split.
  - intros Ht. rewrite Ht, Halloc. cbn [negb].
    destruct (do_read_buffer_field_spec field' backing_ok index_nonneg
                length_pos length_fits in_backing
                (repeat 0 (Z.to_nat count)))
      as (out & Hr & Hol & _ & Hbit).
    { fold count. unfold len. rewrite repeat_length. lia. }
    fold count in Hbit. rewrite Hr. cbn [bind].
    exists out. split; [reflexivity |].
    assert (Holc : len out = count)
      by (rewrite Hol; unfold len; rewrite repeat_length; lia).
    split; [exact Holc |].
    intros j Hj. unfold field_bit.
    destruct (Z.lt_ge_cases j (8 * count)) as [Hlt | Hge].
    + apply Hbit. lia.
    + rewrite bit_at_beyond by lia.
      replace (j <? bit_length field') with false
        by (symmetry; apply Z.ltb_ge; lia).
      reflexivity.
  - intros Ht. rewrite Ht.
    assert (Hc8 : count <= 8).
    { unfold buffer_field_get_read_type in Ht.
      destruct (((if is_rev1 rt then 32 else 64) <? bit_length field')
                || force_buffer field') eqn:E; [discriminate |].
      apply orb_false_elim in E as [E _]. apply Z.ltb_ge in E.
      destruct (is_rev1 rt); lia. }
    set (old := integer_of rt 1 dst_obj).
    pose proof (len_le_split 8 old) as Hl8.
    destruct (do_read_buffer_field_spec field' backing_ok index_nonneg
                length_pos length_fits in_backing (le_split 8 old))
      as (out & Hr & Hol & Hobytes & Hbit).
    { fold count. rewrite Hl8. lia. }
    fold count in Hbit. rewrite Hr. cbn [bind].
    exists (le_combine out). split; [reflexivity |].
    intros j Hj.
    rewrite testbit_le_combine by (try apply Hobytes, bytes_ok_le_split; lia).
    destruct (Z.ltb_spec j (8 * count)) as [Hlt | Hge].
    + apply Hbit. lia.
    + rewrite (do_read_buffer_field_rest field' (le_split 8 old) out)
        by (try assumption; fold count; lia).
      apply bit_at_le_split. lia.
Qed.

(** CreateBitField at index 1 of a buffer of two bytes: the field is bit 8,
    the lowest bit of the second byte. *)
Lemma create_buffer_field_then_read_witness :
  let field' := mk_field [0; 255] 8 1 false in
  backing field' = [0; 255]
  /\ bit_index field'
     = (if AML_CreateBitFieldOp =? AML_CreateFieldOp then 1 else 8 * 1)
  /\ bit_index field' + bit_length field' <= 8 * len [0; 255]
  /\ (buffer_field_get_read_type runtime_rev2 field' = UACPI_OBJECT_BUFFER ->
      exists out,
        handle_field_read runtime_rev2 field' (Integer 0)
        = Returns (UACPI_STATUS_OK, set_buffer (Integer 0) out)
        /\ len out = buffer_field_byte_size field'
        /\ forall j, 0 <= j -> bit_at out j = field_bit field' j)
  /\ (buffer_field_get_read_type runtime_rev2 field' = UACPI_OBJECT_INTEGER ->
      exists v,
        handle_field_read runtime_rev2 field' (Integer 0)
        = Returns (UACPI_STATUS_OK, Integer v)
        /\ forall j, 0 <= j < 64 ->
             Z.testbit v j
             = if j <? 8 * buffer_field_byte_size field'
               then field_bit field' j
               else Z.testbit (integer_of runtime_rev2 1 (Integer 0)) j).
Proof.
  apply (create_buffer_field_then_read runtime_rev2 AML_CreateBitFieldOp
           [0; 255] 1 0 (mk_field [] 0 0 false) (mk_field [0; 255] 8 1 false)
           [] (Integer 0)).
  - bytes_ok_tac.
  - unfold len; cbn [length]; lia.
  - lia.
  - lia.
  - reflexivity.
  - reflexivity.
Defined.

Lemma load_out_of_range (l : list Z) (i : Z) :
  len l <= i -> load l i = UndefinedBehaviour.
Proof.
  intros H. unfold load.
  replace (i <? len l) with false by (symmetry; apply Z.ltb_ge; lia).
  now rewrite andb_false_r.
Qed.

(** X8. The bounds check of [handle_create_buffer_field] adds the bit
    index and the bit length as 64-bit values. A CreateField whose index
    is so large that the sum wraps around passes the check, and the field
    it creates lies far behind the buffer: every read and every write of
    the field is an access outside the buffer. *)
Theorem create_field_offset_wraps (rt : uacpi_runtime) (src_buf : list Z)
    (idx length : Z) (field : uacpi_buffer_field) :
  len src_buf < 2 ^ 28 ->
  1 <= length <= 2 ^ 32 - 8 ->
  2 ^ 64 - length <= idx < 2 ^ 64 ->
  idx + length - 2 ^ 64 <= 8 * len src_buf ->
  uacpi_create_object rt UACPI_OBJECT_REFERENCE = true ->
  let field' := mk_field src_buf idx length true in
  handle_create_buffer_field rt AML_CreateFieldOp src_buf idx length field
  = (UACPI_STATUS_OK, field', [])
  /\ (forall dst, do_read_buffer_field field' dst = UndefinedBehaviour)
  /\ (forall src, write_buffer_field field' src = UndefinedBehaviour).
Proof.
  intros Hsmall Hlen Hidx Hwrap Hcreate field'.
  pose proof (len_nonneg src_buf) as Hl0.
  assert (Hcount : buffer_field_byte_size field' = (length + 7) / 8)
    by (unfold buffer_field_byte_size; cbn [field' bit_length];
        apply align_up_8; lia).
  assert (Hc1 : 1 <= buffer_field_byte_size field').
  { rewrite Hcount. apply Z.div_le_lower_bound; lia. }
  assert (Hfar : len src_buf <= idx / 8).
  { apply Z.div_le_lower_bound; lia. }
  split; [| split].
  - unfold handle_create_buffer_field.
    change (AML_CreateFieldOp =? AML_CreateFieldOp) with true. cbv iota zeta.
    replace (length =? 0) with false by (symmetry; apply Z.eqb_neq; lia).
    replace (4294967295 <? length) with false
      by (symmetry; apply Z.ltb_ge; lia).
    cbn [orb bit_index bit_length backing force_buffer].
    replace (wrap64 (idx + length)) with (idx + length - 2 ^ 64)
      by (unfold wrap64; apply (Z.mod_unique_pos _ _ 1); lia).
    replace (len src_buf * 8 <? idx + length - 2 ^ 64) with false
      by (symmetry; apply Z.ltb_ge; lia).
    rewrite Hcreate. reflexivity.
  - intros dst. unfold do_read_buffer_field.
    cbn [field' bit_index bit_length backing]. fold field'.
    destruct (Z.land idx 7 =? 0).
    + unfold memcpy_from.
      replace (idx / 8 + buffer_field_byte_size field' <=? len src_buf)
        with false by (symmetry; apply Z.leb_gt; lia).
      rewrite andb_false_r. reflexivity.
    + unfold do_misaligned_buffer_read, do_rw_misaligned_buffer_field.
      cbn [span_data span_index span_length field' bit_index bit_length
           backing]. fold field'.
      destruct (Z.to_nat (buffer_field_byte_size field' * 8)) as [| fuel] eqn:E;
        [lia |].
      cbn [rw_loop].
      replace (buffer_field_byte_size field' * 8 =? 0) with false
        by (symmetry; apply Z.eqb_neq; lia).
      unfold gather_bits.
      replace (length =? 0) with false by (symmetry; apply Z.eqb_neq; lia).
      rewrite load_out_of_range by exact Hfar. reflexivity.
  - intros src. unfold write_buffer_field.
    cbn [field' bit_index bit_length backing]. fold field'.
    destruct (Z.land idx 7 =? 0).
    + rewrite load_out_of_range by lia. reflexivity.
    + unfold do_write_misaligned_buffer_field, do_rw_misaligned_buffer_field.
      cbn [span_data span_index span_length field' bit_index bit_length
           backing].
      destruct (Z.to_nat length) as [| fuel] eqn:E; [lia |].
      cbn [rw_loop].
      replace (length =? 0) with false by (symmetry; apply Z.eqb_neq; lia).
      destruct (gather_bits src (Z.land 0 7) (0 / 8) (len src * 8))
        as [[[bits sc] sp] |]; [| reflexivity].
      cbn [bind]. unfold scatter_bits.
      rewrite load_out_of_range by exact Hfar. reflexivity.
Qed.

Lemma create_field_offset_wraps_witness :
  let field' := mk_field [0] 18446744073709551615 1 true in
  handle_create_buffer_field runtime_rev2 AML_CreateFieldOp [0]
    18446744073709551615 1 (mk_field [] 0 0 false)
  = (UACPI_STATUS_OK, field', [])
  /\ (forall dst, do_read_buffer_field field' dst = UndefinedBehaviour)
  /\ (forall src, write_buffer_field field' src = UndefinedBehaviour).
Proof.
  apply (create_field_offset_wraps runtime_rev2 [0] 18446744073709551615 1
           (mk_field [] 0 0 false)).
  - unfold len; cbn [length]; lia.
  - lia.
  - lia.
  - unfold len; cbn [length]; lia.
  - reflexivity.
Defined.

(** ** Index, Store and DerefOf on a buffer *)

(** X9. [Index] of a buffer at a valid position yields a buffer index;
    a [Store] to it writes the first byte of the storage of the source at
    that position and leaves every other byte of the buffer as it was;
    [DerefOf] of the index then yields that byte as an Integer. *)
Theorem index_store_deref (rt : uacpi_runtime) (data : list Z) (i : Z)
    (src : uacpi_object) (b : Z) (rest : list Z) (dst : uacpi_object) :
  0 <= i < len data ->
  uacpi_create_object rt UACPI_OBJECT_BUFFER_INDEX = true ->
  get_object_storage rt src false = (UACPI_STATUS_OK, b :: rest) ->
  let data' := splice data i [b] in
  handle_index rt (Buffer data) i
  = (UACPI_STATUS_OK, Buffer data,
     Some (BufferIndex (mk_buffer_index i data)), [])
  /\ store_to_target rt (BufferIndex (mk_buffer_index i data)) src
     = Returns (UACPI_STATUS_OK, BufferIndex (mk_buffer_index i data'), [])
  /\ handle_ref_or_deref_of UACPI_AML_OP_DerefOfOp
       (BufferIndex (mk_buffer_index i data')) dst
     = Returns (UACPI_STATUS_OK, Integer b, []).
Proof.
  intros Hi Hcreate Hsrc data'.
  assert (Hl' : len data' = len data) by (apply len_splice1; exact Hi).
  split; [| split].
  - unfold handle_index. cbn [get_object_storage].
    unfold ensure_valid_idx.
    replace (i <? len data) with true by (symmetry; apply Z.ltb_lt; lia).
    rewrite Hcreate. reflexivity.
  - unfold store_to_target, object_assign_with_implicit_cast.
    rewrite Hsrc. unfold write_buffer_index, memcpy_zerout_at.
    cbn [buffer idx].
    assert (G : (0 <=? i) && (0 <=? 1) && (i + 1 <=? len data)
                && (Z.min (len (b :: rest)) 1 <=? len (b :: rest)) = true).
    { repeat (apply andb_true_intro; split); apply Z.leb_le; lia. }
    rewrite G. cbn [guard bind].
    assert (Hm : uacpi_memcpy_zerout (b :: rest) 1 (len (b :: rest)) = [b]).
    { unfold uacpi_memcpy_zerout.
      pose proof (len_nonneg rest) as Hr.
      assert (Hmin : Z.min (len (b :: rest)) 1 = 1)
        by (unfold len in *; cbn [length]; lia).
      rewrite Hmin. reflexivity. }
    rewrite Hm. reflexivity.
  - unfold handle_ref_or_deref_of. cbn [is_reference bind buffer idx].
    assert (G : (0 <=? i) && (i <? len data') = true)
      by (apply andb_true_intro; split;
          [apply Z.leb_le | apply Z.ltb_lt]; lia).
    rewrite G. cbn [guard bind].
    rewrite deref_of_buffer_index_byte by (cbn [buffer idx]; lia).
    cbn [buffer idx]. unfold data'.
    rewrite byte_at_splice1 by lia. rewrite Z.eqb_refl. reflexivity.
Qed.

Lemma index_store_deref_witness :
  let data' := splice [1; 2; 3] 1 [171] in
  handle_index runtime_rev2 (Buffer [1; 2; 3]) 1
  = (UACPI_STATUS_OK, Buffer [1; 2; 3],
     Some (BufferIndex (mk_buffer_index 1 [1; 2; 3])), [])
  /\ store_to_target runtime_rev2 (BufferIndex (mk_buffer_index 1 [1; 2; 3]))
       (Integer 43947)
     = Returns (UACPI_STATUS_OK, BufferIndex (mk_buffer_index 1 data'), [])
  /\ handle_ref_or_deref_of UACPI_AML_OP_DerefOfOp
       (BufferIndex (mk_buffer_index 1 data')) Uninitialized
     = Returns (UACPI_STATUS_OK, Integer 171, []).
Proof.
  apply (index_store_deref runtime_rev2 [1; 2; 3] 1 (Integer 43947) 171
           [171; 0; 0; 0; 0; 0; 0] Uninitialized).
  - unfold len; cbn [length]; lia.
  - reflexivity.
  - reflexivity.
Defined.

(** ** Index on a package *)

Lemma nth_replace {A : Type} (l : list A) (n k : nat) (x d : A) :
  (n < length l)%nat ->
  nth k (firstn n l ++ x :: skipn (S n) l) d
  = if Nat.eqb k n then x else nth k l d.
Proof.
  intros Hn.
  assert (Hf : length (firstn n l) = n) by (rewrite length_firstn; lia).
  destruct (Nat.eqb_spec k n) as [-> | Hne].
  - rewrite app_nth2 by lia. rewrite Hf, Nat.sub_diag. reflexivity.
  - destruct (Nat.lt_ge_cases k n) as [Hlt | Hge].
    + rewrite app_nth1 by lia. rewrite nth_firstn.
      replace (k <? n)%nat with true by (symmetry; apply Nat.ltb_lt; lia).
      reflexivity.
    + rewrite app_nth2 by lia. rewrite Hf.
      destruct (k - n)%nat as [| m] eqn:E; [lia |].
      cbn [nth]. rewrite nth_skipn. f_equal. lia.
Qed.

Lemma length_replace {A : Type} (l : list A) (n : nat) (x : A) :
  (n < length l)%nat ->
  length (firstn n l ++ x :: skipn (S n) l) = length l.
Proof.
  intros Hn. rewrite length_app, length_firstn. cbn [length].
  rewrite length_skipn. lia.
Qed.

(** X10. [Index] of a package at a valid position hands out a
    package-index reference that the package itself holds at that
    position from then on; the other elements stay as they are, and a
    second [Index] at the position hands out the same reference without
    wrapping the element again. *)
Theorem index_of_package_wraps_once (rt : uacpi_runtime)
    (objects : list uacpi_object) (i : Z) :
  0 <= i < len objects ->
  uacpi_create_object rt UACPI_OBJECT_REFERENCE = true ->
  exists inner objects',
    let ref := Reference UACPI_REFERENCE_KIND_PKG_INDEX inner in
    handle_index rt (Package objects) i
    = (UACPI_STATUS_OK, Package objects', Some ref, [])
    /\ handle_index rt (Package objects') i
       = (UACPI_STATUS_OK, Package objects', Some ref, [])
    /\ len objects' = len objects
    /\ nth (Z.to_nat i) objects' Uninitialized = ref
    /\ (nth (Z.to_nat i) objects Uninitialized = ref
        \/ nth (Z.to_nat i) objects Uninitialized = inner)
    /\ forall k, k <> Z.to_nat i ->
         nth k objects' Uninitialized = nth k objects Uninitialized.
Proof.
  intros Hi Hcreate.
  assert (Hn : (Z.to_nat i < length objects)%nat) by (unfold len in Hi; lia).
  assert (Hvalid : forall l : list uacpi_object, len l = len objects ->
            ensure_valid_idx i (len l) = (UACPI_STATUS_OK, [])).
  { intros l Hl. unfold ensure_valid_idx. rewrite Hl.
    replace (i <? len objects) with true by (symmetry; apply Z.ltb_lt; lia).
    reflexivity. }
  remember (nth (Z.to_nat i) objects Uninitialized) as obj eqn:Hobj.
  assert (Hwrapped :
    forall inner, obj = Reference UACPI_REFERENCE_KIND_PKG_INDEX inner ->
      handle_index rt (Package objects) i
      = (UACPI_STATUS_OK, Package objects,
         Some (Reference UACPI_REFERENCE_KIND_PKG_INDEX inner), [])).
  { intros inner E. unfold handle_index. rewrite Hvalid by reflexivity.
    rewrite <- Hobj, E. reflexivity. }
  assert (Hfresh :
    (forall inner, obj <> Reference UACPI_REFERENCE_KIND_PKG_INDEX inner) ->
    handle_index rt (Package objects) i
    = (UACPI_STATUS_OK,
       Package (firstn (Z.to_nat i) objects
                  ++ Reference UACPI_REFERENCE_KIND_PKG_INDEX obj
                  :: skipn (S (Z.to_nat i)) objects),
       Some (Reference UACPI_REFERENCE_KIND_PKG_INDEX obj), [])).
  { intros Hno. unfold handle_index. rewrite Hvalid by reflexivity.
    rewrite <- Hobj, Hcreate. cbn [negb]. clear Hobj.
    destruct obj as [| | | | | flags inner | | | | | | | | | |];
      try reflexivity.
    destruct flags; try reflexivity. exfalso. exact (Hno inner eq_refl). }
  assert (Hdec : (exists inner,
                    obj = Reference UACPI_REFERENCE_KIND_PKG_INDEX inner)
                 \/ forall inner,
                      obj <> Reference UACPI_REFERENCE_KIND_PKG_INDEX inner).
  { clear Hobj Hwrapped Hfresh.
    destruct obj as [| | | | | flags inner | | | | | | | | | |];
      try (right; intros inner'; discriminate).
    destruct flags; try (right; intros inner'; discriminate).
    left. exists inner. reflexivity. }
  destruct Hdec as [[inner E] | Hno].
  - exists inner, objects. cbv zeta.
    rewrite (Hwrapped inner E).
    split; [reflexivity |]. split; [reflexivity |].
    split; [reflexivity |]. rewrite <- Hobj. split; [exact E |].
    split; [left; exact E | reflexivity].
  - exists obj,
      (firstn (Z.to_nat i) objects
         ++ Reference UACPI_REFERENCE_KIND_PKG_INDEX obj
         :: skipn (S (Z.to_nat i)) objects).
    cbv zeta. rewrite (Hfresh Hno).
    set (objects' := firstn (Z.to_nat i) objects
                       ++ Reference UACPI_REFERENCE_KIND_PKG_INDEX obj
                       :: skipn (S (Z.to_nat i)) objects).
    assert (Hl' : len objects' = len objects)
      by (unfold len, objects'; rewrite length_replace by exact Hn;
          reflexivity).
    assert (Hnth' : nth (Z.to_nat i) objects' Uninitialized
                    = Reference UACPI_REFERENCE_KIND_PKG_INDEX obj)
      by (unfold objects'; rewrite nth_replace by exact Hn;
          rewrite Nat.eqb_refl; reflexivity).
    split; [reflexivity |]. split.
    + unfold handle_index. rewrite Hvalid by exact Hl'.
      rewrite Hnth'. reflexivity.
    + split; [exact Hl' |]. split; [exact Hnth' |].
      split; [right; reflexivity |].
      intros k Hk. unfold objects'. rewrite nth_replace by exact Hn.
      replace (Nat.eqb k (Z.to_nat i)) with false
        by (symmetry; apply Nat.eqb_neq; exact Hk).
      reflexivity.
Qed.

Lemma index_of_package_wraps_once_witness :
  exists inner objects',
    let ref := Reference UACPI_REFERENCE_KIND_PKG_INDEX inner in
    handle_index runtime_rev2 (Package [Integer 1; Integer 2]) 1
    = (UACPI_STATUS_OK, Package objects', Some ref, [])
    /\ handle_index runtime_rev2 (Package objects') 1
       = (UACPI_STATUS_OK, Package objects', Some ref, [])
    /\ len objects' = len [Integer 1; Integer 2]
    /\ nth (Z.to_nat 1) objects' Uninitialized = ref
    /\ (nth (Z.to_nat 1) [Integer 1; Integer 2] Uninitialized = ref
        \/ nth (Z.to_nat 1) [Integer 1; Integer 2] Uninitialized = inner)
    /\ forall k, k <> Z.to_nat 1 ->
         nth k objects' Uninitialized
         = nth k [Integer 1; Integer 2] Uninitialized.
Proof.
  apply (index_of_package_wraps_once runtime_rev2 [Integer 1; Integer 2] 1).
  - unfold len; cbn [length]; lia.
  - reflexivity.
Defined.

(** ** Divide and the logical operators *)

(** X11. Divide with a divisor that is not zero puts the remainder into
    its first target and the quotient into its second, logs nothing, and
    the two satisfy [dividend = quotient * divisor + remainder] with the
    remainder below the divisor. *)
Theorem handle_binary_math_divide (rt : uacpi_runtime) (lhs rhs tgt0 tgt1 : Z) :
  0 <= lhs -> 0 < rhs ->
  exists quotient remainder,
    handle_binary_math rt UACPI_AML_OP_DivideOp (Integer lhs) (Integer rhs)
      tgt0 (Some tgt1)
    = Returns (UACPI_STATUS_OK, remainder, Some quotient, [])
    /\ lhs = quotient * rhs + remainder
    /\ 0 <= remainder < rhs
    /\ 0 <= quotient <= lhs.
Proof.
  intros Hl Hr. exists (lhs / rhs), (lhs mod rhs).
  unfold handle_binary_math. cbn [integer_of].
  rewrite do_binary_math_divide_nonzero by exact Hr. cbn [bind].
  split; [reflexivity |].
  pose proof (Z.div_mod lhs rhs ltac:(lia)) as Hdm.
  pose proof (Z.mod_pos_bound lhs rhs Hr) as Hm.
  pose proof (Z.div_pos lhs rhs Hl Hr) as Hq.
  repeat split; try lia. nia.
Qed.

Lemma handle_binary_math_divide_witness :
  exists quotient remainder,
    handle_binary_math runtime_rev2 UACPI_AML_OP_DivideOp (Integer 17)
      (Integer 5) 0 (Some 0)
    = Returns (UACPI_STATUS_OK, remainder, Some quotient, [])
    /\ 17 = quotient * 5 + remainder
    /\ 0 <= remainder < 5
    /\ 0 <= quotient <= 17.
Proof.
  apply (handle_binary_math_divide runtime_rev2 17 5 0 0); lia.
Defined.

Lemma uacpi_memcmp_swap (n : nat) :
  forall a b, uacpi_memcmp a b n = - uacpi_memcmp b a n.
Proof.
  induction n as [| n IH]; intros a b; cbn [uacpi_memcmp]; [reflexivity |].
  destruct (Z.ltb_spec (hd 0 a) (hd 0 b)); destruct (Z.ltb_spec (hd 0 b) (hd 0 a));
    try lia; try reflexivity.
  apply IH.
Qed.

Lemma uacpi_memcmp_sign (n : nat) :
  forall a b, uacpi_memcmp a b n = -1 \/ uacpi_memcmp a b n = 0
              \/ uacpi_memcmp a b n = 1.
Proof.
  induction n as [| n IH]; intros a b; cbn [uacpi_memcmp]; [auto |].
  destruct (hd 0 a <? hd 0 b); [auto |].
  destruct (hd 0 b <? hd 0 a); [auto |]. apply IH.
Qed.

Lemma object_type_eqb_sym (a b : uacpi_object_type) :
  object_type_eqb a b = object_type_eqb b a.
Proof. destruct a, b; reflexivity. Qed.

(** X12. For two Integers, two Strings or two Buffers exactly one of
    LEqual, LLess and LGreater is true. When memory is compared, LEqual
    compares all bytes of operands of equal size, and LLess and LGreater
    compare the common prefix and then the sizes. *)
Theorem comparison_trichotomy (rt : uacpi_runtime) (lhs rhs : object_at)
    (dst : Z) :
  is_comparable (type_of lhs) = true ->
  type_of lhs = type_of rhs ->
  exists e l g : bool,
    handle_binary_logic rt UACPI_AML_OP_LEqualOp lhs rhs dst
    = (UACPI_STATUS_OK, if e then ones rt else 0)
    /\ handle_binary_logic rt UACPI_AML_OP_LLessOp lhs rhs dst
       = (UACPI_STATUS_OK, if l then ones rt else 0)
    /\ handle_binary_logic rt UACPI_AML_OP_LGreaterOp lhs rhs dst
       = (UACPI_STATUS_OK, if g then ones rt else 0)
    /\ ((e = true /\ l = false /\ g = false)
        \/ (e = false /\ l = true /\ g = false)
        \/ (e = false /\ l = false /\ g = true)).
Proof.
  intros Hc Ht.
  assert (Hty : object_type_eqb (type_of lhs) (type_of rhs) = true)
    by (rewrite Ht; destruct (type_of rhs); reflexivity).
  exists (handle_logical_equality rt lhs rhs),
    (handle_logical_less_or_greater rt UACPI_AML_OP_LLessOp lhs rhs),
    (handle_logical_less_or_greater rt UACPI_AML_OP_LGreaterOp lhs rhs).
  unfold handle_binary_logic. rewrite Hty. cbn [negb].
  split; [reflexivity |]. split; [reflexivity |]. split; [reflexivity |].
  assert (Hmem : forall a b : list Z,
    let e := (let res := len a =? len b in
              if res && negb (len a =? 0)
              then uacpi_memcmp a b (length a) =? 0 else res) in
    let res := uacpi_memcmp a b (Z.to_nat (Z.min (len a) (len b))) in
    let res := if res =? 0
               then if len a <? len b then -1
                    else if len b <? len a then 1 else res
               else res in
    (e = true /\ (res <? 0) = false /\ (0 <? res) = false)
    \/ (e = false /\ (res <? 0) = true /\ (0 <? res) = false)
    \/ (e = false /\ (res <? 0) = false /\ (0 <? res) = true)).
  { intros a b. cbv zeta.
    pose proof (len_nonneg a) as Ha. pose proof (len_nonneg b) as Hb.
    destruct (uacpi_memcmp_sign (Z.to_nat (Z.min (len a) (len b))) a b)
      as [Hs | [Hs | Hs]].
    - rewrite Hs. cbn [Z.eqb Z.ltb Z.compare].
      right. left. split; [| split; reflexivity].
      destruct (Z.eqb_spec (len a) (len b)) as [El | El]; [| reflexivity].
      cbn [andb].
      replace (Z.to_nat (Z.min (len a) (len b))) with (length a) in Hs
        by (unfold len in *; lia).
      rewrite Hs.
      destruct (Z.eqb_spec (len a) 0) as [E0 | E0]; [| reflexivity].
      exfalso. replace (length a) with 0%nat in Hs by (unfold len in *; lia).
      discriminate Hs.
    - rewrite Hs. cbn [Z.eqb].
      destruct (Z.ltb_spec (len a) (len b)) as [Hlt | Hge].
      + right. left.
        replace (len a =? len b) with false by (symmetry; apply Z.eqb_neq; lia).
        cbn [andb]. auto.
      + destruct (Z.ltb_spec (len b) (len a)) as [Hlt' | Hge'].
        * right. right.
          replace (len a =? len b) with false
            by (symmetry; apply Z.eqb_neq; lia).
          cbn [andb]. auto.
        * left. replace (len a =? len b) with true
            by (symmetry; apply Z.eqb_eq; lia).
          cbn [andb].
          replace (Z.to_nat (Z.min (len a) (len b))) with (length a) in Hs
            by (unfold len in *; lia).
          rewrite Hs. destruct (negb (len a =? 0)); auto.
    - rewrite Hs. cbn [Z.eqb Z.ltb Z.compare].
      right. right. split; [| split; reflexivity].
      destruct (Z.eqb_spec (len a) (len b)) as [El | El]; [| reflexivity].
      cbn [andb].
      replace (Z.to_nat (Z.min (len a) (len b))) with (length a) in Hs
        by (unfold len in *; lia).
      rewrite Hs.
      destruct (Z.eqb_spec (len a) 0) as [E0 | E0]; [| reflexivity].
      exfalso. replace (length a) with 0%nat in Hs by (unfold len in *; lia).
      discriminate Hs. }
  destruct lhs as [la lhs], rhs as [ra rhs]. cbn [object_of] in Hc, Ht.
  destruct lhs; try discriminate Hc; destruct rhs; try discriminate Ht.
  - cbn [handle_logical_equality handle_logical_less_or_greater integer_of
         object_of address].
    destruct (Z.eqb_spec integer integer0); destruct (Z.ltb_spec integer integer0);
      destruct (Z.ltb_spec integer0 integer); try lia; auto.
  - apply (Hmem text text0).
  - apply (Hmem data data0).
Qed.

Lemma comparison_trichotomy_witness :
  exists e l g : bool,
    handle_binary_logic runtime_rev2 UACPI_AML_OP_LEqualOp
      (at_address 4096 (Buffer [1; 2]))
      (at_address 4160 (Buffer [1; 2; 0])) 0
    = (UACPI_STATUS_OK, if e then ones runtime_rev2 else 0)
    /\ handle_binary_logic runtime_rev2 UACPI_AML_OP_LLessOp
         (at_address 4096 (Buffer [1; 2]))
         (at_address 4160 (Buffer [1; 2; 0])) 0
       = (UACPI_STATUS_OK, if l then ones runtime_rev2 else 0)
    /\ handle_binary_logic runtime_rev2 UACPI_AML_OP_LGreaterOp
         (at_address 4096 (Buffer [1; 2]))
         (at_address 4160 (Buffer [1; 2; 0])) 0
       = (UACPI_STATUS_OK, if g then ones runtime_rev2 else 0)
    /\ ((e = true /\ l = false /\ g = false)
        \/ (e = false /\ l = true /\ g = false)
        \/ (e = false /\ l = false /\ g = true)).
Proof.
  apply (comparison_trichotomy runtime_rev2 (at_address 4096 (Buffer [1; 2]))
           (at_address 4160 (Buffer [1; 2; 0])) 0); reflexivity.
Defined.

(** X13. LGreater is LLess with the operands exchanged, on operands of
    every type, the type error included. *)
Theorem lgreater_is_lless_swapped (rt : uacpi_runtime)
    (lhs rhs : object_at) (dst : Z) :
  handle_binary_logic rt UACPI_AML_OP_LGreaterOp lhs rhs dst
  = handle_binary_logic rt UACPI_AML_OP_LLessOp rhs lhs dst.
Proof.
  unfold handle_binary_logic.
  rewrite (object_type_eqb_sym (type_of rhs) (type_of lhs)).
  destruct (object_type_eqb (type_of lhs) (type_of rhs)) eqn:Ht;
    [| reflexivity].
  cbn [negb]. apply object_type_eqb_eq in Ht.
  assert (Hmem : forall a b : list Z,
    (let res := uacpi_memcmp a b (Z.to_nat (Z.min (len a) (len b))) in
     let res := if res =? 0
                then if len a <? len b then -1
                     else if len b <? len a then 1 else res
                else res in
     0 <? res)
    = (let res := uacpi_memcmp b a (Z.to_nat (Z.min (len b) (len a))) in
       let res := if res =? 0
                  then if len b <? len a then -1
                       else if len a <? len b then 1 else res
                  else res in
       res <? 0)).
  { intros a b. cbv zeta. rewrite (Z.min_comm (len b) (len a)).
    rewrite (uacpi_memcmp_swap _ a b).
    destruct (uacpi_memcmp_sign (Z.to_nat (Z.min (len a) (len b))) b a)
      as [Hs | [Hs | Hs]]; rewrite Hs; cbn [Z.opp Z.eqb]; try reflexivity.
    destruct (Z.ltb_spec (len a) (len b)); destruct (Z.ltb_spec (len b) (len a));
      try lia; reflexivity. }
  cbv zeta in Hmem.
  unfold handle_logical_less_or_greater.
  destruct lhs as [la lhs], rhs as [ra rhs]. cbn [object_of address] in *.
  destruct lhs; destruct rhs; try discriminate Ht; try reflexivity;
    cbn [buffer_of]; cbv zeta; rewrite Hmem; reflexivity.
Qed.

Lemma le_combine_eqb_0 (l : list Z) :
  bytes_ok l -> (le_combine l =? 0) = forallb (fun b => b =? 0) l.
Proof.
  induction 1 as [| b t Hb Ht IH]; [reflexivity |].
  rewrite le_combine_cons by exact Hb. cbn [forallb]. rewrite <- IH.
  pose proof (le_combine_nonneg t Ht) as Hn. unfold is_byte in Hb.
  destruct (Z.eqb_spec b 0); destruct (Z.eqb_spec (le_combine t) 0);
    cbn [andb]; [apply Z.eqb_eq | apply Z.eqb_neq ..]; lia.
Qed.

Lemma forallb_repeat_0 (n : nat) :
  forallb (fun b => b =? 0) (repeat 0 n) = true.
Proof. induction n as [| n IH]; [reflexivity | exact IH]. Qed.

Lemma negb_forallb_zero (l : list Z) :
  negb (forallb (fun b => b =? 0) l) = existsb (fun b => negb (b =? 0)) l.
Proof.
  induction l as [| b t IH]; [reflexivity |].
  cbn [forallb existsb]. rewrite negb_andb, IH. reflexivity.
Qed.

Lemma object_to_integer_buffer_4 (rt : uacpi_runtime) (data : list Z) :
  bytes_ok data ->
  negb (object_to_integer rt (Buffer data) 4 =? 0)
  = existsb (fun b => negb (b =? 0)) (firstn 4 data).
Proof.
  intros Hok. cbn [object_to_integer].
  rewrite le_combine_eqb_0 by (apply bytes_ok_memcpy_zerout; exact Hok).
  unfold uacpi_memcpy_zerout. rewrite forallb_app, forallb_repeat_0, andb_true_r.
  rewrite negb_forallb_zero. f_equal.
  pose proof (len_nonneg data) as Hl. unfold len in *.
  destruct (Nat.le_gt_cases 4 (length data)) as [Hge | Hlt].
  - replace (Z.to_nat (Z.min (Z.min 4 (Z.of_nat (length data))) 8))
      with 4%nat by lia.
    reflexivity.
  - replace (Z.to_nat (Z.min (Z.min 4 (Z.of_nat (length data))) 8))
      with (length data) by lia.
    rewrite firstn_all, firstn_all2 by lia. reflexivity.
Qed.

(** X14. LAnd and LOr take a Buffer operand as true exactly when one of
    its first four bytes is not zero; the bytes behind them do not count,
    whatever the width of an integer is. *)
Theorem logical_operand_of_buffer (rt : uacpi_runtime) (data : list Z)
    (buffer_address : Z) (rhs : object_at) (dst : Z) :
  bytes_ok data ->
  let buffer := at_address buffer_address (Buffer data) in
  let truth := existsb (fun b => negb (b =? 0)) (firstn 4 data) in
  let other := negb (object_to_integer rt rhs 4 =? 0) in
  handle_binary_logic rt UACPI_AML_OP_LandOp buffer rhs dst
  = (UACPI_STATUS_OK, if truth && other then ones rt else 0)
  /\ handle_binary_logic rt UACPI_AML_OP_LorOp buffer rhs dst
     = (UACPI_STATUS_OK, if truth || other then ones rt else 0)
  /\ handle_binary_logic rt UACPI_AML_OP_LandOp rhs buffer dst
     = (UACPI_STATUS_OK, if other && truth then ones rt else 0)
  /\ handle_binary_logic rt UACPI_AML_OP_LorOp rhs buffer dst
     = (UACPI_STATUS_OK, if other || truth then ones rt else 0).
Proof.
  intros Hok buffer truth other. unfold handle_binary_logic, buffer.
  cbn [object_of].
  rewrite (object_to_integer_buffer_4 rt data Hok).
  repeat split; reflexivity.
Qed.

(** A buffer whose only byte that is not zero is the fifth. *)
Lemma logical_operand_of_buffer_witness :
  handle_binary_logic runtime_rev2 UACPI_AML_OP_LandOp
    (at_address 4096 (Buffer [0; 0; 0; 0; 1])) (at_address 4160 (Integer 1)) 0
  = (UACPI_STATUS_OK, 0)
  /\ handle_binary_logic runtime_rev2 UACPI_AML_OP_LorOp
       (at_address 4096 (Buffer [0; 0; 0; 0; 1]))
       (at_address 4160 (Integer 1)) 0
     = (UACPI_STATUS_OK, ones runtime_rev2)
  /\ handle_binary_logic runtime_rev2 UACPI_AML_OP_LandOp
       (at_address 4160 (Integer 1))
       (at_address 4096 (Buffer [0; 0; 0; 0; 1])) 0
     = (UACPI_STATUS_OK, 0)
  /\ handle_binary_logic runtime_rev2 UACPI_AML_OP_LorOp
       (at_address 4160 (Integer 1))
       (at_address 4096 (Buffer [0; 0; 0; 0; 1])) 0
     = (UACPI_STATUS_OK, ones runtime_rev2).
Proof.
  apply (logical_operand_of_buffer runtime_rev2 [0; 0; 0; 0; 1] 4096
           (at_address 4160 (Integer 1)) 0).
  unfold bytes_ok. repeat (apply Forall_cons; [unfold is_byte; lia |]).
  apply Forall_nil.
Defined.

(** ** Not *)



(** ** The text of an integer *)

Lemma number_of_app (base : Z) (a b : list Z) :
  forall acc, number_of base (a ++ b) acc
              = number_of base b (number_of base a acc).
Proof.
  induction a as [| c t IH]; intros acc; [reflexivity |].
  cbn [app number_of]. apply IH.
Qed.

Lemma digit_value_hex_digit (d : Z) :
  0 <= d < 36 -> digit_value (hex_digit d) = d.
Proof.
  intros H. unfold hex_digit, digit_value.
  destruct (Z.ltb_spec d 10).
  - replace (48 + d <? 58) with true by (symmetry; apply Z.ltb_lt; lia). lia.
  - replace (55 + d <? 58) with false by (symmetry; apply Z.ltb_ge; lia). lia.
Qed.

Lemma digits_of_spec (base : Z) (fuel : nat) :
  2 <= base <= 36 ->
  forall v acc, 0 <= v < base ^ Z.of_nat fuel -> (1 <= fuel)%nat ->
    exists ds,
      digits_of fuel base v acc = ds ++ acc
      /\ (forall a0, number_of base ds a0 = a0 * base ^ len ds + v)
      /\ 1 <= len ds
      /\ (forall k, 1 <= k -> v < base ^ k -> len ds <= k)
      /\ Forall (is_digit_of base) ds.
Proof.
  intros Hbase. induction fuel as [| fuel IH]; intros v acc Hv Hf; [lia |].
  cbn [digits_of].
  pose proof (Z.mod_pos_bound v base ltac:(lia)) as Hm.
  pose proof (Z.div_mod v base ltac:(lia)) as Hdm.
  assert (Hd : is_digit_of base (hex_digit (v mod base))).
  { unfold is_digit_of. rewrite digit_value_hex_digit by lia.
    split; [lia | reflexivity]. }
  destruct (Z.eqb_spec (v / base) 0) as [E | E].
  - exists [hex_digit (v mod base)].
    assert (Hvm : v mod base = v) by (rewrite E in Hdm; lia).
    split; [reflexivity |]. split.
    + intros a0. cbn [number_of]. rewrite digit_value_hex_digit by lia.
      unfold len. cbn [length]. change (Z.of_nat 1) with 1.
      rewrite Z.pow_1_r. lia.
    + unfold len. cbn [length]. split; [lia |]. split.
      * intros k Hk1 _. lia.
      * apply Forall_cons; [exact Hd | apply Forall_nil].
  - assert (Hq : 0 <= v / base) by (apply Z.div_pos; lia).
    assert (Hq' : v / base < base ^ Z.of_nat fuel).
    { apply Z.div_lt_upper_bound; [lia |].
      rewrite <- Z.pow_succ_r by lia. rewrite <- Nat2Z.inj_succ. lia. }
    assert (Hf' : (1 <= fuel)%nat).
    { destruct fuel; [| lia]. change (base ^ Z.of_nat 0) with 1 in Hq'. lia. }
    destruct (IH (v / base) (hex_digit (v mod base) :: acc) ltac:(lia) Hf')
      as (ds & Hds & Hnum & Hlen & Hk & Hall).
    exists (ds ++ [hex_digit (v mod base)]).
    split; [rewrite Hds, <- app_assoc; reflexivity |].
    assert (Hl : len (ds ++ [hex_digit (v mod base)]) = len ds + 1)
      by (unfold len; rewrite length_app; cbn [length]; lia).
    split.
    + intros a0. rewrite number_of_app, Hnum. cbn [number_of].
      rewrite digit_value_hex_digit by lia. rewrite Hl.
      rewrite Z.pow_add_r by lia. rewrite Z.pow_1_r. nia.
    + split; [lia |]. split.
      * intros k Hk1 Hvk. rewrite Hl.
        assert (Hk2 : 2 <= k).
        { destruct (Z.eq_dec k 1) as [-> |]; [| lia].
          rewrite Z.pow_1_r in Hvk.
          rewrite (Z.div_small v base) in E by lia. congruence. }
        specialize (Hk (k - 1) ltac:(lia)).
        assert (v / base < base ^ (k - 1)).
        { apply Z.div_lt_upper_bound; [lia |].
          rewrite <- Z.pow_succ_r by lia.
          replace (Z.succ (k - 1)) with k by lia. exact Hvk. }
        lia.
      * apply Forall_app. split; [exact Hall |].
        apply Forall_cons; [exact Hd | apply Forall_nil].
Qed.

(** X15. ToDecimalString and ToHexString of an Integer produce a string
    that denotes the integer: digits of the base that read back as the
    value, most significant first, at most 20 of them in decimal and 16
    in hexadecimal, behind [0x] for hexadecimal and before a NUL. *)
Theorem integer_to_string_denotes (rt : uacpi_runtime) (v : Z)
    (is_hex : bool) :
  0 <= v < 2 ^ 64 ->
  (forall size, uacpi_kernel_alloc rt size = true) ->
  let base := if is_hex then 16 else 10 in
  exists repr,
    integer_to_string rt v is_hex
    = (UACPI_STATUS_OK, (if is_hex then [48; 120] else []) ++ repr ++ [0])
    /\ number_of base repr 0 = v
    /\ 1 <= len repr <= (if is_hex then 16 else 20)
    /\ Forall (is_digit_of base) repr.
Proof.
  intros Hv Halloc base.
  assert (Hbase : 2 <= base <= 36) by (subst base; destruct is_hex; lia).
  assert (Hpow : 2 ^ 64 <= base ^ Z.of_nat 64)
    by (subst base; destruct is_hex; vm_compute; discriminate).
  destruct (digits_of_spec base 64 Hbase v [] ltac:(lia) ltac:(lia))
    as (repr & Hds & Hnum & Hlen & Hk & Hall).
  rewrite app_nil_r in Hds.
  exists repr. unfold integer_to_string, snprintf_u64. fold base.
  rewrite Hds, Halloc. cbn [negb].
  split; [reflexivity |]. split; [rewrite Hnum; lia |].
  split; [| exact Hall]. split; [exact Hlen |].
  subst base. destruct is_hex.
  - apply Hk; [lia |]. change (16 ^ 16) with (2 ^ 64). lia.
  - apply Hk; [lia |].
    assert (2 ^ 64 <= 10 ^ 20) by (vm_compute; discriminate). lia.
Qed.

Lemma integer_to_string_denotes_witness :
  let base := if true then 16 else 10 in
  exists repr,
    integer_to_string runtime_rev2 48879 true
    = (UACPI_STATUS_OK, (if true then [48; 120] else []) ++ repr ++ [0])
    /\ number_of base repr 0 = 48879
    /\ 1 <= len repr <= (if true then 16 else 20)
    /\ Forall (is_digit_of base) repr.
Proof.
  apply (integer_to_string_denotes runtime_rev2 48879 true).
  - lia.
  - intros size. reflexivity.
Defined.

(** ** The text of a buffer *)

Lemma len_snprintf_u8 (is_hex : bool) (b : Z) :
  is_byte b ->
  exists repr,
    snprintf_u8 is_hex b = Some repr
    /\ len repr = (if is_hex then 4 else decimal_width b).
Proof.
  intros Hb. unfold is_byte in Hb. unfold snprintf_u8.
  eexists. split; [reflexivity |].
  destruct is_hex; [reflexivity |].
  unfold decimal_width. cbn [digits_of].
  destruct (Z.eqb_spec (b / 10) 0) as [E1 | E1].
  - replace (b <? 10) with true
      by (symmetry; apply Z.ltb_lt; Z.div_mod_to_equations; lia).
    reflexivity.
  - replace (b <? 10) with false
      by (symmetry; apply Z.ltb_ge; Z.div_mod_to_equations; lia).
    destruct (Z.eqb_spec (b / 10 / 10) 0) as [E2 | E2].
    + replace (b <? 100) with true
        by (symmetry; apply Z.ltb_lt; Z.div_mod_to_equations; lia).
      reflexivity.
    + replace (b <? 100) with false
        by (symmetry; apply Z.ltb_ge; Z.div_mod_to_equations; lia).
      destruct (b / 10 / 10 / 10 =? 0); reflexivity.
Qed.

Lemma fold_left_widths (buf : list Z) :
  forall acc,
    fold_left
      (fun acc value =>
         acc + (if value <? 10 then 1 else if value <? 100 then 2 else 3))
      buf acc
    = acc + text_width false buf.
Proof.
  induction buf as [| b t IH]; intros acc; cbn [fold_left text_width];
    [lia |].
  rewrite IH. unfold decimal_width. lia.
Qed.

Lemma text_width_hex (buf : list Z) : text_width true buf = 4 * len buf.
Proof.
  induction buf as [| b t IH]; [reflexivity |].
  cbn [text_width]. rewrite IH. unfold len. cbn [length]. lia.
Qed.

Lemma text_width_nonneg (is_hex : bool) (buf : list Z) :
  0 <= text_width is_hex buf.
Proof.
  induction buf as [| x t IH]; cbn [text_width]; [lia |].
  unfold decimal_width.
  destruct is_hex; [| destruct (x <? 10); [| destruct (x <? 100)]]; lia.
Qed.

Lemma last_app_nonempty {A : Type} (a b : list A) (d : A) :
  b <> [] -> last (a ++ b) d = last b d.
Proof.
  intros Hb. induction a as [| x t IH]; [reflexivity |].
  cbn [app]. change (last (x :: t ++ b) d)
    with (match t ++ b with [] => x | _ :: _ => last (t ++ b) d end).
  destruct (t ++ b) eqn:E; [| exact IH].
  apply app_eq_nil in E. destruct E as [_ E]. contradiction.
Qed.

Lemma print_bytes_spec (is_hex : bool) (data : list Z) :
  bytes_ok data ->
  exists text,
    print_bytes is_hex data = Some text
    /\ len text
       = text_width is_hex data + Z.max (len data - 1) 0 + 1
    /\ last text 1 = 0.
Proof.
  induction 1 as [| b rest Hb Hrest IH].
  - exists [0]. repeat split; reflexivity.
  - destruct IH as (tail & Ht & Hlen & Hlast).
    destruct (len_snprintf_u8 is_hex b Hb) as (repr & Hr & Hrl).
    cbn [print_bytes]. rewrite Hr, Ht.
    eexists. split; [reflexivity |].
    pose proof (len_nonneg rest) as Hr0.
    pose proof (text_width_nonneg is_hex rest) as Hw0.
    assert (Htne : tail <> [])
      by (intros ->; unfold len in *; cbn [length] in Hlen; lia).
    split.
    + cbn [text_width].
      unfold len in *. rewrite !length_app. cbn [length].
      destruct rest as [| r rest']; cbn [length] in *; lia.
    + rewrite app_assoc. rewrite last_app_nonempty by exact Htne. exact Hlast.
Qed.

(** X16. The text [buffer_to_string] writes for a buffer that is not
    empty has exactly the size the routine computes beforehand and asks
    the allocator for: the characters of every value, a comma between two
    values, and the terminating NUL at the end. *)
Theorem buffer_to_string_fills_allocation (rt : uacpi_runtime)
    (buf : list Z) (is_hex : bool) (size : Z) :
  bytes_ok buf -> buf <> [] ->
  size = text_width is_hex buf + (len buf - 1) + 1 ->
  exists text,
    buffer_to_string rt buf is_hex
    = (if uacpi_kernel_alloc rt size then (UACPI_STATUS_OK, text)
       else (UACPI_STATUS_OUT_OF_MEMORY, []))
    /\ len text = size
    /\ last text 1 = 0.
Proof.
  intros Hok Hne Hsize.
  destruct (print_bytes_spec is_hex buf Hok) as (text & Hp & Hlen & Hlast).
  exists text. unfold buffer_to_string. rewrite Hp.
  assert (Hfinal : (if is_hex then 4 * len buf
                    else fold_left
                           (fun acc value =>
                              acc + (if value <? 10 then 1
                                     else if value <? 100 then 2 else 3))
                           buf 0)
                   = text_width is_hex buf).
  { destruct is_hex; [symmetry; apply text_width_hex |].
    rewrite fold_left_widths. lia. }
  rewrite Hfinal, <- Hsize.
  split; [destruct (uacpi_kernel_alloc rt size); reflexivity |].
  split; [| exact Hlast].
  rewrite Hlen, Hsize.
  assert (1 <= len buf)
    by (destruct buf; [congruence | unfold len; cbn [length]; lia]).
  lia.
Qed.

Lemma buffer_to_string_fills_allocation_witness :
  exists text,
    buffer_to_string runtime_rev2 [7; 42; 200] false
    = (if uacpi_kernel_alloc runtime_rev2 9 then (UACPI_STATUS_OK, text)
       else (UACPI_STATUS_OUT_OF_MEMORY, []))
    /\ len text = 9
    /\ last text 1 = 0.
Proof.
  apply (buffer_to_string_fills_allocation runtime_rev2 [7; 42; 200] false 9).
  - repeat (apply Forall_cons; [unfold is_byte; lia |]). apply Forall_nil.
  - discriminate.
  - reflexivity.
Defined.

(** ** ToString and Mid *)

Lemma uacpi_strnlen_spec (maxlen : nat) :
  forall s : list Z,
    let k := uacpi_strnlen s maxlen in
    0 <= k <= Z.of_nat (Nat.min maxlen (length s))
    /\ Forall (fun c => c <> 0) (firstn (Z.to_nat k) s)
    /\ (k = Z.of_nat (Nat.min maxlen (length s)) \/ byte_at s k = 0).
Proof.
  induction maxlen as [| maxlen IH]; intros s; cbv zeta.
  - assert (E : uacpi_strnlen s 0 = 0) by (destruct s; reflexivity).
    rewrite E. cbn [Nat.min Z.to_nat firstn].
    split; [lia |]. split; [apply Forall_nil | left; reflexivity].
  - destruct s as [| c rest].
    + cbn [uacpi_strnlen length]. rewrite Nat.min_0_r.
      cbn [Z.to_nat firstn].
      split; [lia |]. split; [apply Forall_nil | left; reflexivity].
    + cbn [uacpi_strnlen length].
      destruct (Z.eqb_spec c 0) as [-> | Hc].
      * cbn [Z.to_nat firstn].
        split; [lia |]. split; [apply Forall_nil | right; reflexivity].
      * specialize (IH rest). cbv zeta in IH.
        destruct IH as (Hk & Hall & Hend).
        set (k := uacpi_strnlen rest maxlen) in *.
        rewrite <- Nat.succ_min_distr.
        replace (Z.to_nat (1 + k)) with (S (Z.to_nat k)) by lia.
        cbn [firstn].
        split; [lia |]. split; [apply Forall_cons; assumption |].
        destruct Hend as [He | He]; [left; lia | right].
        unfold byte_at in *.
        replace (Z.to_nat (1 + k)) with (S (Z.to_nat k)) by lia.
        exact He.
Qed.

(** X17. ToString copies the bytes of the buffer up to the first NUL, the
    end of the buffer or the requested length, whichever comes first, and
    terminates them: the text has no NUL inside, is a prefix of the
    buffer and is never longer than requested. *)
Theorem handle_to_string_text (rt : uacpi_runtime) (data : list Z)
    (req_len : Z) (dst : uacpi_object) :
  0 <= req_len ->
  (forall size, uacpi_kernel_alloc rt size = true) ->
  exists text,
    handle_to_string rt (Buffer data) req_len dst
    = (UACPI_STATUS_OK, set_buffer dst (text ++ [0]))
    /\ text = firstn (length text) data
    /\ Forall (fun c => c <> 0) text
    /\ len text <= Z.min req_len (len data)
    /\ (len text = Z.min req_len (len data) \/ byte_at data (len text) = 0).
Proof.
  intros Hreq Halloc. unfold handle_to_string. cbn [buffer_of].
  pose proof (len_nonneg data) as Hl.
  destruct (Z.eqb_spec (Z.min req_len (len data)) 0) as [E | E].
  - exists []. unfold make_null_string, do_make_empty_object.
    rewrite Halloc. cbn [negb app].
    split; [reflexivity |]. split; [reflexivity |].
    split; [apply Forall_nil |].
    unfold len at 1 3. cbn [length]. split; [lia | left; lia].
  - pose proof (uacpi_strnlen_spec (Z.to_nat (Z.min req_len (len data))) data)
      as Hs.
    cbv zeta in Hs. destruct Hs as (Hk & Hall & Hend).
    set (k := uacpi_strnlen data (Z.to_nat (Z.min req_len (len data)))) in *.
    assert (Hmin : Z.of_nat (Nat.min (Z.to_nat (Z.min req_len (len data)))
                               (length data))
                   = Z.min req_len (len data))
      by (unfold len in *; lia).
    rewrite Hmin in *.
    rewrite Halloc. cbn [negb].
    exists (firstn (Z.to_nat k) data).
    assert (Hfl : length (firstn (Z.to_nat k) data) = Z.to_nat k)
      by (rewrite length_firstn; unfold len in *; lia).
    split; [reflexivity |].
    split; [rewrite Hfl; reflexivity |].
    split; [exact Hall |].
    assert (Hlk : len (firstn (Z.to_nat k) data) = k)
      by (unfold len; rewrite Hfl; lia).
    rewrite !Hlk. split; [lia | exact Hend].
Qed.

Lemma handle_to_string_text_witness :
  exists text,
    handle_to_string runtime_rev2 (Buffer [72; 105; 0; 33]) 16 (String [])
    = (UACPI_STATUS_OK, set_buffer (String []) (text ++ [0]))
    /\ text = firstn (length text) [72; 105; 0; 33]
    /\ Forall (fun c => c <> 0) text
    /\ len text <= Z.min 16 (len [72; 105; 0; 33])
    /\ (len text = Z.min 16 (len [72; 105; 0; 33])
        \/ byte_at [72; 105; 0; 33] (len text) = 0).
Proof.
  apply (handle_to_string_text runtime_rev2 [72; 105; 0; 33] 16 (String [])).
  - lia.
  - intros size. reflexivity.
Defined.

Lemma firstn_clip {A : Type} (l : list A) (n : Z) :
  0 <= n ->
  firstn (Z.to_nat (Z.min n (len l))) l = firstn (Z.to_nat n) l.
Proof.
  intros Hn. unfold len.
  destruct (Z.le_gt_cases n (Z.of_nat (length l))) as [Hle | Hgt].
  - rewrite Z.min_l by lia. reflexivity.
  - rewrite Z.min_r by lia. rewrite Nat2Z.id.
    rewrite firstn_all, firstn_all2 by lia. reflexivity.
Qed.

Lemma storage_of_string (rt : uacpi_runtime) (chars : list Z) :
  get_object_storage rt (String (chars ++ [0])) false
  = (UACPI_STATUS_OK, chars).
Proof.
  cbn [get_object_storage]. cbv zeta. f_equal.
  assert (Hl : len (chars ++ [0]) = len chars + 1)
    by (unfold len; rewrite length_app; cbn [length]; lia).
  pose proof (len_nonneg chars) as H0.
  rewrite Hl.
  replace (len chars + 1 =? 0) with false by (symmetry; apply Z.eqb_neq; lia).
  cbn [negb andb].
  replace (Z.to_nat (len chars + 1 - 1)) with (length chars)
    by (unfold len; lia).
  rewrite firstn_app, Nat.sub_diag, firstn_all. cbn [firstn].
  apply app_nil_r.
Qed.

Lemma mid_of_bytes (rt : uacpi_runtime) (bytes : list Z) (idx length : Z) :
  0 <= idx -> 0 <= length ->
  (len bytes =? 0) || (len bytes <=? idx) = false ->
  slice bytes idx (Z.min length (len bytes - idx))
  = firstn (Z.to_nat length) (skipn (Z.to_nat idx) bytes).
Proof.
  intros Hi Hn E. apply orb_false_elim in E as [_ E]. apply Z.leb_gt in E.
  unfold slice.
  replace (len bytes - idx) with (len (skipn (Z.to_nat idx) bytes))
    by (unfold len; rewrite length_skipn; unfold len in E; lia).
  apply firstn_clip. exact Hn.
Qed.

Lemma mid_beyond (bytes : list Z) (idx length : Z) :
  0 <= idx ->
  (len bytes =? 0) || (len bytes <=? idx) = true ->
  firstn (Z.to_nat length) (skipn (Z.to_nat idx) bytes) = [].
Proof.
  intros Hi E.
  assert (Hle : len bytes <= idx).
  { apply orb_true_iff in E as [E | E];
      [apply Z.eqb_eq in E | apply Z.leb_le in E]; lia. }
  rewrite skipn_all2 by (unfold len in Hle; lia).
  apply firstn_nil.
Qed.

(** X18. Mid yields the bytes of the source from the index on, as many
    as requested and no more than there are; an index behind the end
    gives an empty result. For a String the terminator does not count as
    a byte of the source and the result is terminated again. *)
Theorem handle_mid_subrange (rt : uacpi_runtime) (bytes : list Z)
    (idx length : Z) (dst : uacpi_object) :
  0 <= idx -> 0 <= length ->
  (forall size, uacpi_kernel_alloc rt size = true) ->
  let part := firstn (Z.to_nat length) (skipn (Z.to_nat idx) bytes) in
  handle_mid rt (Buffer bytes) idx length dst
  = (UACPI_STATUS_OK, set_buffer dst part, [])
  /\ handle_mid rt (String (bytes ++ [0])) idx length dst
     = (UACPI_STATUS_OK, String (part ++ [0]), []).
Proof.
  intros Hi Hn Halloc part. unfold handle_mid.
  rewrite storage_of_string. cbn [get_object_storage snd].
  destruct ((len bytes =? 0) || (len bytes <=? idx)) eqn:E.
  - unfold make_null_buffer, make_null_string, do_make_empty_object.
    rewrite Halloc. cbn [negb].
    unfold part. rewrite (mid_beyond bytes idx length Hi E).
    split; reflexivity.
  - rewrite !Halloc. cbn [negb].
    rewrite (mid_of_bytes rt bytes idx length Hi Hn E).
    split; reflexivity.
Qed.

Lemma handle_mid_subrange_witness :
  let part := firstn (Z.to_nat 5) (skipn (Z.to_nat 1) [65; 66; 67]) in
  handle_mid runtime_rev2 (Buffer [65; 66; 67]) 1 5 (Buffer [])
  = (UACPI_STATUS_OK, set_buffer (Buffer []) part, [])
  /\ handle_mid runtime_rev2 (String ([65; 66; 67] ++ [0])) 1 5 (Buffer [])
     = (UACPI_STATUS_OK, String (part ++ [0]), []).
Proof.
  apply (handle_mid_subrange runtime_rev2 [65; 66; 67] 1 5 (Buffer [])).
  - lia.
  - lia.
  - intros size. reflexivity.
Defined.

(** ** Concatenate *)

Lemma le_combine_le_split (n : nat) :
  forall v, le_combine (le_split n v) = v mod 2 ^ (8 * Z.of_nat n).
Proof.
  induction n as [| n IH]; intros v.
  - cbn [le_split le_combine]. change (2 ^ (8 * Z.of_nat 0)) with 1.
    now rewrite Z.mod_1_r.
  - cbn [le_split].
    rewrite le_combine_cons
      by (unfold is_byte; apply Z.mod_pos_bound; lia).
    rewrite IH, Z.shiftr_div_pow2 by lia.
    replace (8 * Z.of_nat (S n)) with (8 + 8 * Z.of_nat n) by lia.
    rewrite Z.pow_add_r by lia.
    change (2 ^ 8) with 256.
    rewrite Z.rem_mul_r by lia. reflexivity.
Qed.

Lemma len_le_split_nat (n : nat) : forall v, length (le_split n v) = n.
Proof.
  induction n as [| n IH]; intros v; [reflexivity |].
  cbn [le_split length]. now rewrite IH.
Qed.

(** X19. Concatenate with an Integer as its first operand yields a buffer
    of two integers of the revision's width, little-endian: the first
    operand and the second one converted to an integer, each cut down to
    that width. *)
Theorem concatenate_integers (rt : uacpi_runtime) (v : Z)
    (arg1 dst : uacpi_object) :
  (forall size, uacpi_kernel_alloc rt size = true) ->
  let width := Z.to_nat (sizeof_int rt) in
  exists data,
    handle_concatenate rt (Integer v) arg1 dst
    = Returns (UACPI_STATUS_OK, set_buffer dst data)
    /\ len data = 2 * sizeof_int rt
    /\ le_combine (firstn width data) = v mod 2 ^ (8 * sizeof_int rt)
    /\ le_combine (skipn width data)
       = object_to_integer rt arg1 8 mod 2 ^ (8 * sizeof_int rt).
Proof.
  intros Halloc width. unfold handle_concatenate. fold width.
  rewrite Halloc. cbn [negb].
  eexists. split; [reflexivity |].
  assert (Hw : Z.of_nat width = sizeof_int rt)
    by (unfold width, sizeof_int; destruct (is_rev1 rt); reflexivity).
  assert (Hl : forall x, length (le_split width x) = width).
  { intros x. pose proof (len_le_split_nat width x) as H. exact H. }
  split; [| split].
  - unfold len. rewrite length_app, !Hl. lia.
  - rewrite firstn_app, Hl, Nat.sub_diag. cbn [firstn]. rewrite app_nil_r.
    rewrite <- (Hl v) at 1. rewrite firstn_all.
    rewrite le_combine_le_split, Hw. reflexivity.
  - rewrite skipn_app, Hl, Nat.sub_diag. cbn [skipn].
    rewrite <- (Hl v) at 1. rewrite skipn_all. cbn [app].
    rewrite le_combine_le_split, Hw. reflexivity.
Qed.

(** Under revision 1 the upper half of each integer is cut off. *)
Lemma concatenate_integers_witness :
  let width := Z.to_nat (sizeof_int runtime_rev1) in
  exists data,
    handle_concatenate runtime_rev1 (Integer 4294967298) (Integer 3)
      (Buffer [])
    = Returns (UACPI_STATUS_OK, set_buffer (Buffer []) data)
    /\ len data = 2 * sizeof_int runtime_rev1
    /\ le_combine (firstn width data)
       = 4294967298 mod 2 ^ (8 * sizeof_int runtime_rev1)
    /\ le_combine (skipn width data)
       = object_to_integer runtime_rev1 (Integer 3) 8
         mod 2 ^ (8 * sizeof_int runtime_rev1).
Proof.
  apply (concatenate_integers runtime_rev1 4294967298 (Integer 3) (Buffer [])).
  intros size. reflexivity.
Defined.

(** X20. Concatenate of two terminated strings drops the terminator of
    the first and keeps that of the second: the result is the terminated
    string of the characters of both, and its Sizeof is the sum of
    theirs. *)
Theorem concatenate_strings (rt : uacpi_runtime) (chars0 chars1 : list Z)
    (dst : uacpi_object) (size : Z) :
  (forall size, uacpi_kernel_alloc rt size = true) ->
  handle_concatenate rt (String (chars0 ++ [0])) (String (chars1 ++ [0])) dst
  = Returns (UACPI_STATUS_OK, String (chars0 ++ chars1 ++ [0]))
  /\ handle_sizeof rt (String (chars0 ++ chars1 ++ [0])) size
     = Returns (UACPI_STATUS_OK, len chars0 + len chars1, []).
Proof.
  intros Halloc. split.
  - unfold handle_concatenate. rewrite Halloc. cbn [negb].
    assert (Hl : len (chars0 ++ [0]) = len chars0 + 1)
      by (unfold len; rewrite length_app; cbn [length]; lia).
    pose proof (len_nonneg chars0) as H0.
    rewrite Hl.
    replace (len chars0 + 1 =? 0) with false
      by (symmetry; apply Z.eqb_neq; lia).
    replace (Z.to_nat (len chars0 + 1 - 1)) with (length chars0)
      by (unfold len; lia).
    rewrite firstn_app, Nat.sub_diag, firstn_all. cbn [firstn].
    rewrite app_nil_r. reflexivity.
  - unfold handle_sizeof. cbn [is_reference bind].
    rewrite (app_assoc chars0 chars1 [0]), storage_of_string. cbn [snd].
    unfold len. rewrite length_app. do 3 f_equal. lia.
Qed.

Lemma concatenate_strings_witness :
  handle_concatenate runtime_rev2 (String ([65; 66] ++ [0]))
    (String ([67] ++ [0])) (Buffer [])
  = Returns (UACPI_STATUS_OK, String ([65; 66] ++ [67] ++ [0]))
  /\ handle_sizeof runtime_rev2 (String ([65; 66] ++ [67] ++ [0])) 0
     = Returns (UACPI_STATUS_OK, len [65; 66] + len [67], []).
Proof.
  apply (concatenate_strings runtime_rev2 [65; 66] [67] (Buffer []) 0).
  intros size. reflexivity.
Defined.

(** ** The driver *)

(** X21. A call with a number of arguments other than the method
    declares is refused with INVALID_ARGUMENT before any code of the
    method is looked at, whatever the ops would do, and nothing is stored
    in the slot for the result. *)
Theorem execute_refuses_argument_count (rt : uacpi_runtime)
    (dynamic_array_alloc : Z -> bool) (op_is_reserved : Z -> bool)
    (exec_op : execution_context -> outcome (uacpi_status * execution_context))
    (sizeof_execution_context : Z) (fuel : nat) (ns : uacpi_namespace)
    (scope : uacpi_namespace_node) (method : uacpi_control_method)
    (args : option (list uacpi_object)) (ret : bool) :
  uacpi_kernel_alloc rt sizeof_execution_context = true ->
  uacpi_create_object rt UACPI_OBJECT_UNINITIALIZED = true ->
  dynamic_array_alloc 0 = true ->
  match args with Some objects => len objects | None => 0 end
  <> method_args method ->
  uacpi_execute_control_method rt dynamic_array_alloc op_is_reserved exec_op
    sizeof_execution_context fuel ns scope method args ret
  = Some (Returns (UACPI_STATUS_INVALID_ARGUMENT, None)).
Proof.
  intros Hctx Hobj Harr Hne. unfold uacpi_execute_control_method.
  rewrite Hctx, Hobj, Harr. cbn [negb]. rewrite andb_false_r.
  destruct args as [objects |].
  - replace (len objects =? method_args method) with false
      by (symmetry; apply Z.eqb_neq; exact Hne).
    cbn [negb]. destruct ret; reflexivity.
  - replace (method_args method =? 0) with false
      by (symmetry; apply Z.eqb_neq; congruence).
    cbn [negb]. destruct ret; reflexivity.
Qed.

Lemma execute_refuses_argument_count_witness :
  uacpi_execute_control_method runtime_rev2 (fun _ => true) (fun _ => false)
    (exec_statement runtime_rev2 (fun _ => true)) 0 0 []
    uacpi_namespace_root (mk_method [164; 1] 1 false) None true
  = Some (Returns (UACPI_STATUS_INVALID_ARGUMENT, None)).
Proof.
  apply (execute_refuses_argument_count runtime_rev2 (fun _ => true)
           (fun _ => false) (exec_statement runtime_rev2 (fun _ => true)) 0 0
           [] uacpi_namespace_root (mk_method [164; 1] 1 false) None true);
    [reflexivity | reflexivity | reflexivity |].
  cbn [method_args]. lia.
Defined.

Lemma name_eqb_eq (a b : uacpi_object_name) : name_eqb a b = true <-> a = b.
Proof.
  unfold name_eqb. split.
  - intros H. apply andb_true_iff in H as [Hl Hc].
    apply Nat.eqb_eq in Hl. revert b Hl Hc.
    induction a as [| x a IH]; intros [| y b] Hl Hc; try discriminate;
      [reflexivity |].
    cbn [combine forallb fst snd] in Hc. apply andb_true_iff in Hc as [Hx Hc].
    apply Z.eqb_eq in Hx. subst y. f_equal. apply IH; [| exact Hc].
    cbn [length] in Hl. lia.
  - intros <-. rewrite Nat.eqb_refl. cbn [andb].
    induction a as [| x a IH]; [reflexivity |].
    cbn [combine forallb fst snd]. now rewrite Z.eqb_refl.
Qed.

Lemma node_eqb_eq (a b : uacpi_namespace_node) :
  node_eqb a b = true <-> a = b.
Proof.
  revert b. induction a as [| x a IH]; intros [| y b]; cbn [node_eqb];
    try (split; [discriminate | congruence]); [tauto |].
  rewrite andb_true_iff, name_eqb_eq, IH. split.
  - intros [-> ->]. reflexivity.
  - intros H. injection H as -> ->. auto.
Qed.

(** X22. When a frame is cleared, the namespace loses exactly the nodes
    the frame has recorded as temporary: none of them can be found any
    more, and every other node stays installed. *)
Theorem call_frame_clear_uninstalls_temp_nodes (frame : call_frame)
    (ns : uacpi_namespace) (node : uacpi_namespace_node) :
  In node (call_frame_clear frame ns)
  <-> In node ns /\ ~ In node (temp_nodes frame).
Proof.
  unfold call_frame_clear. generalize (temp_nodes frame) as nodes.
  intros nodes. revert ns.
  induction nodes as [| t nodes IH]; intros ns; cbn [fold_left].
  - cbn [In]. tauto.
  - rewrite IH. unfold uacpi_node_uninstall. rewrite filter_In.
    rewrite negb_true_iff. cbn [In].
    assert (E : node_eqb node t = false <-> t <> node).
    { split.
      - intros H ->. rewrite (proj2 (node_eqb_eq node node) eq_refl) in H.
        discriminate.
      - intros H. destruct (node_eqb node t) eqn:Et; [| reflexivity].
        apply node_eqb_eq in Et. congruence. }
    rewrite E. tauto.
Qed.

(** ** Break and Continue *)

Lemma same_block_refl (block : code_block) :
  same_block (Some block) (Some block) = true.
Proof.
  unfold same_block. rewrite !Z.eqb_refl.
  assert (Ht : code_block_type_eqb (block_type block) (block_type block) = true)
    by (destruct (block_type block); reflexivity).
  rewrite Ht. cbn [andb]. unfold option_node_eqb.
  destruct (block_node block) as [node |]; [| reflexivity].
  apply node_eqb_eq. reflexivity.
Qed.

Lemma control_flow_loop_reaches_while (is_break : bool) (w : code_block)
    (outer : list code_block) :
  block_type w = CODE_BLOCK_WHILE ->
  forall (inner : list code_block) (frame : call_frame) (fuel : nat),
    code_blocks frame = inner ++ w :: outer ->
    last_while frame = Some w ->
    forallb is_conditional_block inner = true ->
    (length inner < fuel)%nat ->
    control_flow_loop fuel is_break frame
    = Returns
        (set_last_while
           (set_code_blocks
              (set_code_offset frame
                 (if is_break then block_end w else block_begin w))
              outer)
           (find_last_block outer CODE_BLOCK_WHILE)).
Proof.
  intros Hw. induction inner as [| b inner IH]; intros frame fuel Hb Hl Hc Hf.
  - destruct fuel as [| fuel]; [cbn [length] in Hf; lia |].
    cbn [control_flow_loop]. cbn [app] in Hb. rewrite Hb, Hl.
    cbn [hd_error]. rewrite same_block_refl. cbn [negb].
    unfold frame_reset_post_end_block. rewrite Hw.
    destruct frame. cbn in Hb. subst. reflexivity.
  - destruct fuel as [| fuel]; [cbn [length] in Hf; lia |].
    cbn [control_flow_loop]. cbn [app] in Hb. rewrite Hb, Hl.
    cbn [hd_error]. cbn [forallb] in Hc. apply andb_true_iff in Hc as [Hb1 Hc].
    assert (Hdiff : same_block (Some b) (Some w) = false).
    { unfold same_block. rewrite Hw. unfold is_conditional_block in Hb1.
      destruct (block_type b); try discriminate Hb1; reflexivity. }
    rewrite Hdiff. cbn [negb].
    assert (Hpop : frame_reset_post_end_block frame (block_type b)
                   = set_code_blocks frame (inner ++ w :: outer)).
    { unfold frame_reset_post_end_block. rewrite Hb. cbn [tl].
      unfold is_conditional_block in Hb1.
      destruct (block_type b); try discriminate Hb1; reflexivity. }
    rewrite Hpop.
    rewrite (IH (set_code_blocks frame (inner ++ w :: outer)) fuel);
      try assumption; try (cbn [length] in Hf; lia);
      try (destruct frame; reflexivity).
Qed.

(** [find_last_block] gives the innermost block of the type, and none
    when no block of the type is open. *)
Lemma find_last_block_innermost (type : code_block_type)
    (between : list code_block) (block : code_block)
    (rest : list code_block) :
  forallb (fun b => negb (code_block_type_eqb (block_type b) type)) between
  = true ->
  block_type block = type ->
  find_last_block (between ++ block :: rest) type = Some block.
Proof.
  intros Hnone Htype. unfold find_last_block.
  induction between as [| b between IH]; cbn [app find].
  - rewrite Htype.
    assert (E : code_block_type_eqb type type = true)
      by (destruct type; reflexivity).
    now rewrite E.
  - cbn [forallb] in Hnone. apply andb_true_iff in Hnone as [Hb Hnone].
    apply negb_true_iff in Hb. rewrite Hb. now apply IH.
Qed.

Lemma find_last_block_none (type : code_block_type)
    (blocks : list code_block) :
  forallb (fun b => negb (code_block_type_eqb (block_type b) type)) blocks
  = true ->
  find_last_block blocks type = None.
Proof.
  intros Hnone. unfold find_last_block.
  induction blocks as [| b blocks IH]; [reflexivity |].
  cbn [forallb] in Hnone. apply andb_true_iff in Hnone as [Hb Hnone].
  apply negb_true_iff in Hb. cbn [find]. rewrite Hb. now apply IH.
Qed.

(** X23. Break and Continue inside a While, below any number of open If
    and Else blocks: the blocks up to and including that of the While are
    closed, and the code offset is set behind the While for Break and to
    the start of the While op for Continue, where the predicate is
    evaluated again. Of the blocks that stay open, which the list holds
    innermost first, the innermost While becomes the last While, and
    there is no last While when none of them is a While. *)
Theorem break_and_continue (ctx : execution_context) (frame : call_frame)
    (op_ctx : op_context) (inner : list code_block) (w : code_block)
    (outer : list code_block) :
  cur_frame ctx = Some frame ->
  cur_op_ctx ctx = Some op_ctx ->
  code_blocks frame = inner ++ w :: outer ->
  forallb is_conditional_block inner = true ->
  block_type w = CODE_BLOCK_WHILE ->
  last_while frame = Some w ->
  exists new_last_while : option code_block,
    handle_control_flow ctx
    = Returns
        (UACPI_STATUS_OK,
         set_cur_frame ctx
           (set_last_while
              (set_code_blocks
                 (set_code_offset frame
                    (if op op_ctx =? AML_BreakOp
                     then block_end w else block_begin w))
                 outer)
              new_last_while))
    /\ (forall between enclosing rest,
          outer = between ++ enclosing :: rest ->
          forallb (fun block => negb (is_while_block block)) between = true ->
          block_type enclosing = CODE_BLOCK_WHILE ->
          new_last_while = Some enclosing)
    /\ (forallb (fun block => negb (is_while_block block)) outer = true ->
        new_last_while = None).
Proof.
  intros Hframe Hop Hblocks Hinner Hw Hlast.
  exists (find_last_block outer CODE_BLOCK_WHILE). split; [| split].
  - unfold handle_control_flow. rewrite Hframe, Hop.
    rewrite (control_flow_loop_reaches_while _ w outer Hw inner);
      try assumption; [reflexivity |].
    rewrite Hblocks, length_app. cbn [length]. lia.
  - intros between enclosing rest -> Hbetween Henclosing.
    now apply find_last_block_innermost.
  - intros Hnone. now apply find_last_block_none.
Qed.

(** A Break inside an If inside a While that spans the offsets 4 to 12 of
    a method of 30 bytes, within an If within two more Whiles: the inner
    of the two becomes the last While. *)
Lemma break_and_continue_witness :
  let w := mk_block CODE_BLOCK_WHILE 4 12 None in
  let cond := mk_block CODE_BLOCK_IF 2 14 None in
  let w1 := mk_block CODE_BLOCK_WHILE 1 20 None in
  let w2 := mk_block CODE_BLOCK_WHILE 0 28 None in
  let scope := mk_block CODE_BLOCK_SCOPE 0 30 (Some uacpi_namespace_root) in
  let frame :=
    mk_frame (repeat 0 30) 9 uacpi_namespace_root [] []
      [mk_op_context 0 false 0 AML_BreakOp []]
      [mk_block CODE_BLOCK_IF 6 12 None; w; cond; w1; w2; scope] []
      (Some w) false in
  let ctx := mk_ctx None [frame] AML_BreakOp false [] in
  handle_control_flow ctx
  = Returns
      (UACPI_STATUS_OK,
       set_cur_frame ctx
         (mk_frame (repeat 0 30) 12 uacpi_namespace_root [] []
            [mk_op_context 0 false 0 AML_BreakOp []]
            [cond; w1; w2; scope] [] (Some w1) false)).
Proof.
  intros w cond w1 w2 scope frame ctx.
  destruct (break_and_continue ctx frame
              (mk_op_context 0 false 0 AML_BreakOp [])
              [mk_block CODE_BLOCK_IF 6 12 None] w [cond; w1; w2; scope]
              eq_refl eq_refl eq_refl eq_refl eq_refl eq_refl)
    as (new_last_while & Hrun & Hsome & _).
  rewrite Hrun.
  rewrite (Hsome [cond] w1 [w2; scope] eq_refl eq_refl eq_refl).
  reflexivity.
Defined.

Lemma frame_reset_keeps_last_while (frame : call_frame)
    (type : code_block_type) :
  type <> CODE_BLOCK_WHILE ->
  code_blocks (frame_reset_post_end_block frame type) = tl (code_blocks frame)
  /\ last_while (frame_reset_post_end_block frame type) = last_while frame.
Proof.
  intros Ht. unfold frame_reset_post_end_block.
  destruct type; try congruence; try (split; reflexivity).
  unfold update_scope.
  destruct (find_last_block _ _) as [block |]; [| split; reflexivity].
  destruct (block_node block); split; reflexivity.
Qed.

Lemma control_flow_loop_without_while (is_break : bool) :
  forall (blocks : list code_block) (frame : call_frame) (fuel : nat),
    code_blocks frame = blocks ->
    last_while frame = None ->
    forallb (fun block => negb (is_while_block block)) blocks = true ->
    control_flow_loop fuel is_break frame = UndefinedBehaviour.
Proof.
  induction blocks as [| b blocks IH]; intros frame fuel Hb Hl Hn;
    (destruct fuel as [| fuel]; [reflexivity |]);
    cbn [control_flow_loop]; rewrite Hb; cbn [hd_error]; [reflexivity |].
  rewrite Hl. cbn [same_block negb].
  cbn [forallb] in Hn. apply andb_true_iff in Hn as [Hb1 Hn].
  assert (Ht : block_type b <> CODE_BLOCK_WHILE).
  { intros E. unfold is_while_block in Hb1. rewrite E in Hb1.
    discriminate Hb1. }
  destruct (frame_reset_keeps_last_while frame (block_type b) Ht) as [Hc Hw].
  apply IH.
  - rewrite Hc, Hb. reflexivity.
  - rewrite Hw. exact Hl.
  - exact Hn.
Qed.

(** X24. A Break or Continue that no While encloses closes every open
    block of the frame, the scope of the method included, and then reads
    the current block through a null pointer. *)
Theorem control_flow_outside_while (ctx : execution_context)
    (frame : call_frame) (op_ctx : op_context) :
  cur_frame ctx = Some frame ->
  cur_op_ctx ctx = Some op_ctx ->
  last_while frame = None ->
  forallb (fun block => negb (is_while_block block)) (code_blocks frame)
  = true ->
  handle_control_flow ctx = UndefinedBehaviour.
Proof.
  intros Hframe Hop Hlast Hblocks.
  unfold handle_control_flow. rewrite Hframe, Hop.
  rewrite (control_flow_loop_without_while _ (code_blocks frame));
    try assumption; reflexivity.
Qed.

(** A Break as a statement of the method itself. *)
Lemma control_flow_outside_while_witness :
  handle_control_flow
    (mk_ctx None
       [mk_frame [165] 1 uacpi_namespace_root [] []
          [mk_op_context 0 false 0 AML_BreakOp []]
          [mk_block CODE_BLOCK_SCOPE 0 1 (Some uacpi_namespace_root)] []
          None false]
       AML_BreakOp false [])
  = UndefinedBehaviour.
Proof.
  apply (control_flow_outside_while _
           (mk_frame [165] 1 uacpi_namespace_root [] []
              [mk_op_context 0 false 0 AML_BreakOp []]
              [mk_block CODE_BLOCK_SCOPE 0 1 (Some uacpi_namespace_root)] []
              None false)
           (mk_op_context 0 false 0 AML_BreakOp [])); reflexivity.
Defined.

(** ** The end of a run *)

(** X25. The loop of [uacpi_execute_control_method] ends with the status
    OK only once every frame has been popped, whatever the ops do: a run
    that succeeds leaves an empty call stack, so each of its frames has
    been cleared. *)
Theorem run_method_ok_unwinds (op_is_reserved : Z -> bool)
    (exec_op : execution_context -> outcome (uacpi_status * execution_context))
    (fuel : nat) :
  forall ctx ctx',
    run_method op_is_reserved exec_op fuel ctx
    = Some (Returns (UACPI_STATUS_OK, ctx')) ->
    call_stack ctx' = [].
Proof.
  assert (Herr : forall st (c c' : execution_context),
            uacpi_unlikely_error st = true ->
            Some (Returns (st, c)) = Some (Returns (UACPI_STATUS_OK, c')) ->
            call_stack c' = []).
  { intros st c c' Hst H. injection H as -> _. discriminate Hst. }
  induction fuel as [| fuel IH]; intros ctx ctx' H; [discriminate H |].
  cbn [run_method] in H.
  assert (Hexec : forall c,
            match exec_op c with
            | Returns (st, c1) =>
                if uacpi_unlikely_error st then Some (Returns (st, c1))
                else run_method op_is_reserved exec_op fuel
                       (set_skip_else c1 false)
            | UndefinedBehaviour => Some UndefinedBehaviour
            end = Some (Returns (UACPI_STATUS_OK, ctx')) ->
            call_stack ctx' = []).
  { intros c Hc. destruct (exec_op c) as [[st c1] |]; [| discriminate Hc].
    destruct (uacpi_unlikely_error st) eqn:Est.
    - exact (Herr st c1 ctx' Est Hc).
    - exact (IH _ _ Hc). }
  destruct (negb (ctx_has_non_preempted_op ctx)); [| exact (Hexec ctx H)].
  destruct (cur_frame ctx) as [frame |] eqn:Ef.
  - destruct (maybe_end_block ctx) as [[|] ctx1]; [exact (IH _ _ H) |].
    destruct (negb (call_frame_has_code frame)); [exact (IH _ _ H) |].
    destruct (get_op op_is_reserved ctx) as [[st ctx2] |]; [| discriminate H].
    destruct (uacpi_unlikely_error st) eqn:Est.
    + exact (Herr st ctx2 ctx' Est H).
    + exact (Hexec ctx2 H).
  - injection H as <-. unfold cur_frame in Ef.
    destruct (call_stack ctx); [reflexivity | discriminate Ef].
Qed.

(** A method that consists of [Return (One)]. *)
Lemma run_method_ok_unwinds_witness :
  call_stack (mk_ctx (Some (Integer 1)) [] 164 false []) = [].
Proof.
  apply (run_method_ok_unwinds (fun _ => false)
           (exec_statement runtime_rev2 (fun _ => true)) 10
           (mk_ctx (Some Uninitialized)
              [mk_frame [164; 1] 0 uacpi_namespace_root [] [] []
                 [mk_block CODE_BLOCK_SCOPE 0 2 (Some uacpi_namespace_root)]
                 [] None false]
              0 false [])).
  vm_compute. reflexivity.
Defined.

(** ** Package op *)

Lemma package_copy_elements_frame (rt : uacpi_runtime) (frame : call_frame)
    (defined : list (Z * option uacpi_object)) :
  forall (i : nat) (objects objects' : list uacpi_object)
         (st : uacpi_status),
    package_copy_elements rt frame defined i objects = Returns (st, objects') ->
    length objects' = length objects
    /\ forall k, (k < i \/ i + length defined <= k)%nat ->
         nth k objects' Uninitialized = nth k objects Uninitialized.
Proof.
  induction defined as [| [aml_pc obj] rest IH];
    intros i objects objects' st H.
  - cbn [package_copy_elements] in H. injection H as _ <-. auto.
  - cbn [package_copy_elements] in H.
    match type of H with
    | bind ?m _ = _ => destruct m as [[st1 obj1] |]; [| discriminate H]
    end.
    cbn [bind] in H.
    destruct st1; try (injection H as _ <-; auto).
    destruct (Nat.ltb_spec i (length objects)) as [Hi | Hi];
      [| discriminate H].
    cbn [guard bind] in H. unfold uacpi_object_assign in H.
    apply IH in H. destruct H as [Hlen Hnth].
    rewrite length_replace in Hlen by exact Hi.
    split; [exact Hlen |].
    intros k Hk. cbn [length] in Hk.
    rewrite Hnth by lia. rewrite nth_replace by exact Hi.
    replace (Nat.eqb k i) with false by (symmetry; apply Nat.eqb_neq; lia).
    reflexivity.
Qed.

(** X26. A package that [handle_package] builds has exactly the number
    of elements it declares, even when the code defines more elements
    than that; the elements the code does not define are Uninitialized
    objects. *)
Theorem handle_package_count (rt : uacpi_runtime) (frame : call_frame)
    (is_var_package : bool) (num : Z)
    (defined : list (Z * option uacpi_object))
    (package objects : list uacpi_object) (log : kernel_log) :
  0 <= num < 2 ^ 32 -> len defined < 2 ^ 32 ->
  handle_package rt frame is_var_package num defined package
  = Returns (UACPI_STATUS_OK, objects, log) ->
  len objects = num
  /\ (forall k, len defined <= Z.of_nat k ->
        nth k objects Uninitialized = Uninitialized)
  /\ (log <> [] <-> num < len defined).
Proof.
  intros Hnum Hdef H. unfold handle_package in H.
  destruct (is_var_package && (3758096384 <? num)); [discriminate H |].
  pose proof (len_nonneg defined) as Hd0.
  assert (Hwn : wrap32 num = num) by (unfold wrap32; apply Z.mod_small; lia).
  assert (Hwd : wrap32 (len defined) = len defined)
    by (unfold wrap32; apply Z.mod_small; lia).
  rewrite Hwn, Hwd in H.
  unfold uacpi_package_fill in H.
  destruct (uacpi_kernel_alloc rt num
            && uacpi_create_object rt UACPI_OBJECT_UNINITIALIZED);
    [| discriminate H].
  match type of H with
  | bind ?m _ = _ => destruct m as [[st1 objs1] |] eqn:E; [| discriminate H]
  end.
  cbn [bind] in H. injection H as -> <- <-.
  apply package_copy_elements_frame in E. destruct E as [Hlen Hnth].
  rewrite repeat_length in Hlen.
  split; [unfold len; rewrite Hlen; lia |]. split.
  - intros k Hk. rewrite Hnth.
    + destruct (Nat.lt_ge_cases k (Z.to_nat num)) as [Hlt | Hge].
      * apply nth_repeat_lt. exact Hlt.
      * apply nth_overflow. rewrite repeat_length. exact Hge.
    + right. rewrite length_firstn. unfold len in *.
      destruct (num <? Z.of_nat (length defined)); lia.
  - destruct (Z.ltb_spec num (len defined)); split; try lia;
      try discriminate; congruence.
Qed.

(** A package of one element with two initializers. *)
Lemma handle_package_count_witness :
  len [Integer 5] = 1
  /\ (forall k, len [(0, Some (Integer 5)); (1, Some (Integer 6))]
               <= Z.of_nat k ->
        nth k [Integer 5] Uninitialized = Uninitialized)
  /\ ([log_too_many_package_initializers] <> []
      <-> 1 < len [(0, Some (Integer 5)); (1, Some (Integer 6))]).
Proof.
  apply (handle_package_count runtime_rev2
           (frame_at [] 0 uacpi_namespace_root) false 1
           [(0, Some (Integer 5)); (1, Some (Integer 6))] [] [Integer 5]
           [log_too_many_package_initializers]).
  - lia.
  - unfold len; cbn [length]; lia.
  - reflexivity.
Defined.

(** ** String op *)

Lemma uacpi_strnlen_terminated (chars rest : list Z) (maxlen : nat) :
  Forall (fun c => c <> 0) chars ->
  (length chars < maxlen)%nat ->
  uacpi_strnlen (chars ++ 0 :: rest) maxlen = len chars.
Proof.
  intros Hall. revert maxlen.
  induction Hall as [| c chars Hc _ IH]; intros maxlen Hm.
  - destruct maxlen as [| maxlen]; [cbn [length] in Hm; lia |]. reflexivity.
  - destruct maxlen as [| maxlen]; [cbn [length] in Hm; lia |].
    cbn [app uacpi_strnlen].
    replace (c =? 0) with false by (symmetry; apply Z.eqb_neq; exact Hc).
    rewrite IH by (cbn [length] in Hm; lia).
    unfold len. cbn [length]. lia.
Qed.

Lemma uacpi_strnlen_unterminated (chars : list Z) (maxlen : nat) :
  Forall (fun c => c <> 0) chars ->
  (length chars <= maxlen)%nat ->
  uacpi_strnlen chars maxlen = len chars.
Proof.
  intros Hall. revert maxlen.
  induction Hall as [| c chars Hc _ IH]; intros maxlen Hm.
  - destruct maxlen; reflexivity.
  - destruct maxlen as [| maxlen]; [cbn [length] in Hm; lia |].
    cbn [uacpi_strnlen].
    replace (c =? 0) with false by (symmetry; apply Z.eqb_neq; exact Hc).
    rewrite IH by (cbn [length] in Hm; lia).
    unfold len. cbn [length]. lia.
Qed.

Lemma reads_skipn (code : list Z) (off : Z) (bytes : list Z) :
  reads code off bytes ->
  exists after, skipn (Z.to_nat off) code = bytes ++ after
                /\ len code = off + len bytes + len after.
Proof.
  intros (before & after & -> & <-). exists after. unfold len.
  rewrite Nat2Z.id, skipn_app, Nat.sub_diag, skipn_all. cbn [skipn app].
  split; [reflexivity |]. rewrite !length_app. lia.
Qed.

(** X27. The String op reads the characters at the code offset up to and
    including the first NUL, makes them the text of the String object and
    moves the code offset behind the NUL. *)
Theorem handle_string_reads_to_nul (rt : uacpi_runtime) (frame : call_frame)
    (obj : uacpi_object) (chars : list Z) :
  Forall (fun c => c <> 0) chars ->
  reads (code frame) (code_offset frame) (chars ++ [0]) ->
  method_size frame < 2 ^ 32 ->
  uacpi_kernel_alloc rt (len chars + 1) = true ->
  handle_string rt frame obj
  = Returns (UACPI_STATUS_OK,
             set_code_offset frame (code_offset frame + len chars + 1),
             String (chars ++ [0])).
Proof.
  intros Hall Hr Hsize Halloc.
  pose proof (reads_bound _ _ _ Hr) as Hb.
  destruct (reads_skipn _ _ _ Hr) as (after & Hskip & Hlen).
  assert (Hl1 : len (chars ++ [0]) = len chars + 1)
    by (unfold len; rewrite length_app; cbn [length]; lia).
  rewrite Hl1 in *.
  pose proof (len_nonneg chars) as Hc0. pose proof (len_nonneg after) as Ha0.
  unfold handle_string, call_frame_code_bytes_left, method_size in *.
  rewrite Hskip, <- app_assoc. cbn [app].
  rewrite uacpi_strnlen_terminated by (try exact Hall; unfold len in *; lia).
  destruct (reads_app _ _ _ _ Hr) as [_ Hnul].
  destruct (reads_cons _ _ _ _ Hnul) as [Hbyte _].
  rewrite load_in_range by lia. cbn [bind]. rewrite Hbyte.
  cbn [Z.eqb negb]. rewrite Halloc. cbn [negb].
  rewrite <- Hl1, (reads_slice _ _ _ Hr), Hl1.
  unfold wrap32. rewrite Z.mod_small by lia.
  rewrite Z.add_assoc. reflexivity.
Qed.

Lemma handle_string_reads_to_nul_witness :
  handle_string runtime_rev2 (frame_at [13; 72; 105; 0; 164] 1 uacpi_namespace_root)
    (String [])
  = Returns (UACPI_STATUS_OK,
             set_code_offset
               (frame_at [13; 72; 105; 0; 164] 1 uacpi_namespace_root)
               (1 + len [72; 105] + 1),
             String ([72; 105] ++ [0])).
Proof.
  apply (handle_string_reads_to_nul runtime_rev2
           (frame_at [13; 72; 105; 0; 164] 1 uacpi_namespace_root)
           (String []) [72; 105]).
  - repeat (apply Forall_cons; [discriminate |]). apply Forall_nil.
  - exists [13], [164]. split; reflexivity.
  - reflexivity.
  - reflexivity.
Defined.

(** X28. When no NUL follows the code offset up to the end of the method,
    the String op looks for the terminator in the byte behind the code of
    the method: a read outside the code. *)
Theorem handle_string_unterminated (rt : uacpi_runtime) (frame : call_frame)
    (obj : uacpi_object) :
  0 <= code_offset frame <= method_size frame ->
  Forall (fun c => c <> 0) (skipn (Z.to_nat (code_offset frame)) (code frame)) ->
  handle_string rt frame obj = UndefinedBehaviour.
Proof.
  intros Hoff Hall.
  unfold handle_string, call_frame_code_bytes_left, method_size in *.
  assert (Hl : len (skipn (Z.to_nat (code_offset frame)) (code frame))
               = len (code frame) - code_offset frame)
    by (unfold len in *; rewrite length_skipn; lia).
  rewrite uacpi_strnlen_unterminated
    by (try exact Hall; unfold len in *; rewrite length_skipn; lia).
  rewrite Hl.
  replace (code_offset frame + (len (code frame) - code_offset frame))
    with (len (code frame)) by lia.
  unfold load. rewrite Z.ltb_irrefl, andb_false_r. reflexivity.
Qed.

Lemma handle_string_unterminated_witness :
  handle_string runtime_rev2 (frame_at [13; 72; 105] 1 uacpi_namespace_root)
    (String [])
  = UndefinedBehaviour.
Proof.
  apply (handle_string_unterminated runtime_rev2
           (frame_at [13; 72; 105] 1 uacpi_namespace_root) (String [])).
  - cbn. lia.
  - cbn. repeat (apply Forall_cons; [discriminate |]). apply Forall_nil.
Defined.

(** ** CopyObject and Store *)

Lemma implicit_cast_keeps_type (rt : uacpi_runtime) (dst src : uacpi_object)
    (st : uacpi_status) (dst' : uacpi_object) :
  object_assign_with_implicit_cast rt dst src = Returns (st, dst') ->
  type_of dst' = type_of dst.
Proof.
  unfold object_assign_with_implicit_cast.
  destruct (get_object_storage rt src false) as [ret src_buf].
  destruct ret; try (intros H; injection H as _ <-; reflexivity).
  destruct dst as [| v | text | data | | | field | buf_idx | | | | | | | |];
    try (intros H; injection H as _ <-; reflexivity).
  - destruct (write_buffer_field _ _); [| discriminate].
    cbn [bind]. intros H; injection H as _ <-; reflexivity.
  - destruct (write_buffer_index _ _); [| discriminate].
    cbn [bind]. intros H; injection H as _ <-; reflexivity.
Qed.

(** X29. On a named object that holds a value, CopyObject and Store
    differ: CopyObject replaces the object by a copy of the source, type
    included, while whatever Store returns, the named object has the type
    it had before. *)
Theorem copy_object_replaces_store_converts (rt : uacpi_runtime)
    (old src : uacpi_object) :
  is_reference old = false ->
  type_of old <> UACPI_OBJECT_UNINITIALIZED ->
  is_reference src = false ->
  uacpi_create_object rt UACPI_OBJECT_UNINITIALIZED = true ->
  let named := Reference UACPI_REFERENCE_KIND_NAMED in
  handle_copy_object_or_store rt UACPI_AML_OP_CopyObjectOp src (named old)
  = Returns (UACPI_STATUS_OK, named src, [])
  /\ forall st dst' lines,
       handle_copy_object_or_store rt UACPI_AML_OP_StoreOp src (named old)
       = Returns (st, dst', lines) ->
       exists new, dst' = named new /\ type_of new = type_of old.
Proof.
  intros Hold Hinit Hsrc Hcreate named. split.
  - unfold handle_copy_object_or_store, copy_object_to_reference.
    cbn [named is_reference negb copy_resolve]. rewrite Hcreate.
    cbn [negb uacpi_object_assign update_site object_replace_child].
    rewrite (unwrap_not_reference src Hsrc). reflexivity.
  - intros st dst' lines.
    unfold handle_copy_object_or_store, store_to_target, store_to_reference,
      store_to_reference_with.
    cbn [named store_resolve reference_unwind]. rewrite Hold.
    cbn [bind inner_of].
    assert (Hne : object_type_eqb (type_of old) UACPI_OBJECT_UNINITIALIZED
                  = false).
    { destruct (object_type_eqb (type_of old) UACPI_OBJECT_UNINITIALIZED) eqn:E;
        [| reflexivity].
      apply object_type_eqb_eq in E. contradiction. }
    rewrite Hne. cbn [orb].
    destruct (object_assign_with_implicit_cast rt old
                (uacpi_unwrap_internal_reference src))
      as [[st1 new] |] eqn:E; [| discriminate].
    cbn [bind update_site]. unfold named. cbn [update_unwound].
    rewrite Hold. cbn [object_replace_child].
    intros H. injection H as _ <- _.
    exists new. split; [reflexivity |].
    exact (implicit_cast_keeps_type _ _ _ _ _ E).
Qed.

Lemma copy_object_replaces_store_converts_witness :
  let named := Reference UACPI_REFERENCE_KIND_NAMED in
  handle_copy_object_or_store runtime_rev2 UACPI_AML_OP_CopyObjectOp
    (Buffer [1; 2]) (named (Integer 7))
  = Returns (UACPI_STATUS_OK, named (Buffer [1; 2]), [])
  /\ forall st dst' lines,
       handle_copy_object_or_store runtime_rev2 UACPI_AML_OP_StoreOp
         (Buffer [1; 2]) (named (Integer 7))
       = Returns (st, dst', lines) ->
       exists new, dst' = named new /\ type_of new = type_of (Integer 7).
Proof.
  apply (copy_object_replaces_store_converts runtime_rev2 (Integer 7)
           (Buffer [1; 2])); try reflexivity.
  discriminate.
Defined.
